(* ===== verification/_CoqProject ===== *)
-Q . S2P
Prelude.v
Interfaces.v
Sss.v
Protocol.v
Certificate.v
Vhsm.v
Daemon.v
LockGuards.v
Protobuf.v
Domain.v
Effects.v
Acl.v
Providers.v
AuditLog.v
AuditChain.v
RateLimit.v
RedisLimiter.v
Security.v
Identity.v
KeyStore.v
KeyUseCases.v
Database.v
Transactions.v
VhsmClient.v
DataUseCases.v
RootCa.v
Credentials.v
Bootstrap.v
AuditOrder.v
AuditWriters.v
AuditLock.v
IssueRace.v
Ceremony.v
Spire.v
Migrate.v
Server.v
CliCommands.v
Startup.v
Operations.v
Interleaving.v
KeyPairs.v
