(* ===== verification/Prelude.v ===== *)
(** * Verification of the KMS platform

    ** The program

    The platform keeps the keys of a set of services.  The _vHSM daemon_
    ([vhsm-daemon]) holds the master key in memory: it is created in a
    ceremony that splits it into Shamir shares, and put back after a restart
    from a threshold of them.  It answers framed JSON requests on a Unix
    socket: wrapping keys, encrypting, issuing and using a root CA.  The
    _KMS service_ ([kms-service]) is an HTTP server that authenticates its
    callers by HMAC, authorizes them against an access control list, asks the
    daemon through the client of [kms-core], and writes a hash-chained audit
    log to Postgres ([kms-db]).  The _ceremony CLI_ ([kms-ceremony-cli]) signs
    requests to the service.  The service also provisions database and Redis
    users for its callers, keeps the root CA, imports bootstrap files and
    takes its own TLS identity from files or from the SPIRE Workload API.  A
    _SPIRE plugin_ ([spire-kms-upstream-authority]) has the service sign the
    intermediate CA of a SPIRE server over a Unix socket, and the _migration
    runner_ ([kms-migrate]) prepares the database.

    Code outside the repository (ssss, aes-gcm, sha2, hmac, p256, x509-cert,
    serde_json, chrono, uuid, ed25519-dalek, http, url, webpki, rustls, pkcs8,
    the SPIRE agent, fred and Redis, Postgres, axum's matcher, tower-http,
    tower_governor, reqwest, pem, sqlx, tokio's lock, sockets) is a parameter: a class with
    the functions the program calls, and, separately, a class of the documented
    laws a theorem relies on.  Each law class has an executable instance
    (modules [Concrete], [AsciiUnicode], [ConcreteAudit], [ConcretePg],
    [ConcreteRedis], [ConcreteCounters], [ConcreteAuth], [ConcreteServer] and
    local instances), on which the witnesses evaluate.

    ** The files

    - [Prelude]: results with [let?], machine integers as [Z] with explicit
      wrap-around, big-endian bytes, Rust's string operations ([trim],
      [find], [to_ascii_lowercase], UTF-8 validity, [parse::<i64>]), tactics.
    - [Interfaces]: the classes of the cryptographic libraries, entropy as a
      stream of draws that may fail, and [outcome], a call that returns,
      panics or aborts.
    - [Sss]: [kms-core/src/crypto/keys.rs] and [sss.rs].
    - [Protocol]: [kms-core/src/hsm/protocol.rs] and [client.rs].  A socket is
      the bytes it will deliver and how it ends; a timed operation completes
      or its timeout elapses.
    - [Certificate]: the certificate builders of [vhsm-daemon/src/handler.rs].
    - [Vhsm]: [state.rs], [crypto.rs] and the fourteen requests of
      [handler.rs].  A handler is a [prog]: a tree of read-lock and write-lock
      sections and of the places where a guard is dropped, so that the
      interleaving of handlers is that of their sections; [run] executes one
      handler alone.  The abstract [vault] is
      sealed or open with a key and named CA keys.
    - [Daemon]: [listener.rs] and [main.rs] as a step relation on the shared
      state, the running tasks and the clock: a step accepts a connection,
      advances one task by one lock section, or runs the timeout checker.  A
      panic ends the task or, as in the release profile, the process
      ([BuildProfile]).
    - [LockGuards]: the same daemon with the guards of the shared lock, who
      holds them and who waits; whom the lock prefers is an interface
      ([RwLockPolicy]).
    - [Protobuf]: the protobuf, gRPC and PEM codecs of
      [infrastructure/identity.rs]; decoding may return, fail or panic.
    - [Domain]: key types and [AppError] with its HTTP response.
    - [Effects]: [act], a step over a state that returns, fails or panics;
      [io], the same with error texts, and its triples [io_triple].
    - [Acl]: [config/acl.rs], [config/iam_json.rs], [config/providers_acl.rs]
      and the check of [issue_agent_credential.rs].
    - [Providers]: [infrastructure/providers], the statements and rules that
      create and drop users at a target, with a lexer of Postgres.
    - [AuditLog]: [kms-core/src/audit.rs], [domain/audit/models.rs] and
      [service.rs].  JSON values are an inductive type, objects sorted as
      [BTreeMap] keeps them.
    - [AuditChain]: the audit queries of [kms-db/src/repositories.rs],
      [infrastructure/postgres/audit.rs] and [verify_audit_handler].  The
      table is the list of its rows.
    - [RateLimit]: [domain/rate_limiter.rs], [config/rate_limit.rs],
      [infrastructure/redis] and the rate-limit middleware.
    - [RedisLimiter]: [infrastructure/redis/client.rs], [rate_limiter.rs] and
      the script [redis_rate_limit.lua] over counters with a time to live.
    - [Security]: the HMAC middleware and the CLI's [hmac.rs].
    - [Identity]: the Workload API client and identity provider of
      [infrastructure/identity.rs], the authenticators of [domain/auth.rs] and
      the TLS set-up of [server/http.rs].
    - [KeyStore]: the key queries of [kms-db], the key repository
      [infrastructure/postgres/keys.rs] and the [KeyCache].  The table is a
      list of rows under the constraints of the migration.
    - [KeyUseCases]: generation, rotation, reading, signing and rewrapping of
      keys, the expiration and cache workers, and the crypto service over the
      daemon of [Vhsm].  A use case is a state-and-error step over the key
      table, the cache and an audit repository.
    - [Database]: the credential, target and root CA tables and their queries
      in [kms-db]; [Transactions]: a transaction is a run on a copy of the
      database, kept when it commits.
    - [VhsmClient]: the service's own client
      [infrastructure/crypto/vhsm_client.rs] and the service over it, with the
      frames and their limits between it and the daemon ([framed_transport]);
      [HsmCodecSizes] gives the lengths of serde_json's messages.
    - [DataUseCases]: encryption, decryption and data keys with the handlers
      [handlers/crypto.rs] and [handlers/keys.rs].
    - [RootCa]: [init_root_ca.rs], [sign_intermediate_ca.rs] and the handlers
      [ca.rs] and [ceremonies.rs].
    - [Credentials]: [issue_agent_credential.rs], [handlers/agent.rs] and the
      reconciliation worker.
    - [Bootstrap]: [import_bootstrap.rs] and its handler.
    - [AuditOrder]: when rows appended to the audit table verify;
      [AuditWriters]: how the writers of the table share its chain;
      [AuditLock]: the statements of their transactions, interleaved as far as
      the advisory lock [AUDIT_CHAIN_LOCK_KEY] admits.
    - [IssueRace]: the look-up and the statements of the requests of
      [issue_agent_credential.rs] on the credential table, interleaved as
      Postgres admits at its default isolation level.
    - [Ceremony]: the password containers of [kms-core/src/crypto/aes.rs], the
      share files, and the commands [interactive], [unseal], [encrypt] and
      [decrypt] of the CLI over the client and the daemon.
    - [Spire]: the plugin ([config.rs], [kms_client.rs], [grpc_server.rs],
      [main.rs]) and the Unix socket of the service it calls
      ([kms-service/src/main.rs], [grpc/upstream_authority.rs]); each
      connection may be served in time, fail, hang or be answered too late
      ([Conn]).
    - [Migrate]: [kms-migrate/src/main.rs] and the database configuration of
      [kms-db/src/lib.rs].
    - [Server]: [server/routes.rs], every layer of [server/middleware] in the
      order of the router, both listeners of [server/http.rs], the shutdown
      signal and [handlers/health.rs].  A service maps a request, its
      extensions and the server's state to a response and a state.
    - [CliCommands]: the commands of the CLI that post to the service, sent
      through the stack of [Server], and its [main].
    - [Startup]: [main.rs], [bootstrap.rs], [server/state.rs], [config/mod.rs]
      and [config/crypto.rs]; the start is a step over the world of
      [KeyUseCases] that records what was opened, in order.
    - [Operations]: the probe of the daemon, the loops of the workers with a
      shutdown at any await, the listing of the audit log, the rewrap handler.
    - [Interleaving]: the use cases of [KeyUseCases], the workers and the
      bootstrap as trees of calls ([kprog]: a query, a statement, an access to
      the cache, an audit record), and a step relation that interleaves any
      number of them call by call; a call may fail because the connection is
      lost, before or after it took effect, and a task may be dropped.
    - [KeyPairs]: the key pair generators of
      [infrastructure/crypto/kms_service.rs], the pairs of public and private
      keys in the table, and the verification of signatures.

    ** What the theorems show

    - Secret sharing: any threshold of the shares, in any order, gives the key
      back; indices do not wrap or repeat.
    - vHSM: every request keeps the state well-formed and answers on every
      branch without the panic of a missing key; a sealed daemon refuses;
      encryption, envelope keys, the root CA and the whole ceremony round
      trip; every execution of the daemon, tasks interleaved, refines the
      vault and keeps at most 100 tasks; the guards of the lock deadlock no
      schedule, and every schedule of the open work ends; the client's framing
      and the daemon's agree.
    - Authorization: the compiled access list answers as its settings, an IAM
      deny wins, provider policies validate exactly when well-formed, and an
      error response reveals the kind of the error only.
    - Audit: sanitized reasons and details keep no secret, the hash binds
      every field, verified chains are tamper-evident, and the tables that
      verify are exactly those written in order, at whole microseconds.
      Digests are not assumed injective: theorems conclude equality or an
      explicit collision.
    - Authentication: the middleware accepts exactly the authentic requests
      with a fresh nonce, never twice within the nonce's time to live; CLI
      requests with a body pass it; the rate limiter in memory is a sliding
      window, the one over Redis a fixed window, also when answers are lost.
    - HTTP stack: a handler runs only behind the rate limiter and the security
      middleware; a POST of the CLI runs its handler on the posted body; every
      answer carries the security headers; the CORS layer allows the
      configured origins.
    - Start: a listener opens only on a complete set of keys, and the wait for
      the vHSM ends at the first attempt it encrypts.
    - Plugin and migrations: the validity asked for is exact, a request ends
      within five exchanges, the handshake is printed after the socket is
      ready, a minted certificate reaches SPIRE unchanged, but its last block is
      reported as the root; a dry run lists exactly the pending files.
    - Keys: the table keeps one active key per service and algorithm, a
      rotation takes effect for every reader at once, a denied caller changes
      nothing, rewrapping loses no key however far it gets, the expiration worker
      expires exactly what is due; the crypto service's contract, for secrets
      of at most [SECRET_MAX] bytes, is discharged by the daemon's handlers
      ([VhsmCryptoService_laws]), directly and over the frames
      ([framed_transport_laws]).
    - Concurrent requests: a use case run without interruption is its
      sequential definition; under any interleaving the key table keeps its
      invariant, keys and signatures go only to callers with the access rule
      and only under keys the table has held for the service, in the version
      asked for unless a signature is made with a cached key, and, while no
      rewrap runs, every signature verifies under the public key stored beside
      its private key.  The audit chain lock makes the transactions under it
      sequential, and ceremonies, which read the clock under it, commit in the
      order of their times.
    - Credentials: the table keeps its invariant whatever an issue request
      does, issuing again returns the same credential, a batch is authorized
      before any of it is issued, user names stay in their bounds, and the
      statements sent to Postgres cannot be injected into.  A run of the use
      case is its statements run alone ([execute_is_request]); interleaved
      requests keep the table in order while no two of one service for one
      target overlap.
    - Composition: a ceremony run from the command line can be unsealed from
      its share files in a fresh daemon, the two vHSM clients agree, the service's client is
      transparent over the daemon, what the handlers encrypt they decrypt as long
      as the request fits a frame, a tag has one root CA, and an import is
      atomic with an exact summary.
    - Identity: what the agent encodes is decoded exactly, the decoders end on
      every input, and an identity is taken from the agent exactly when its
      one SVID for the configured id has a matching key and a verified chain.
    - Defects: several theorems prove that the code does not do what it
      means to (the Redis nonce store, body-less CLI requests, replays after
      the nonce is forgotten, ciphertexts too long to be sent back, a root that
      SPIRE is not told, concurrent ceremonies and records, the unseal
      timeout, wildcards in requests, sub-microsecond timestamps, the frame
      limits, a rewrap that does not end, a failed generation that costs the
      active key, signatures with a cached key of another version, a rotation
      whose parts have no defined order, audit rows of issued credentials and
      of first ceremonies that cannot verify, imports that commit out of
      order, decryption without an access check, signing without the access
      list, lengths that overflow in the decoder, fixed-width fields misread,
      peers that must carry the service's own id, a mistyped password that
      costs the master key, requests over mutual TLS, a retired key that is
      overwritten at the start, an audit command that is never accepted, a
      migrated database the runner refuses, passwords that change the database
      host, an expiry lost at shutdown, a rotated key that an overlapping
      reader puts back into the cache, a generated key the cache hides, a
      rewrap that puts a retired private key beside a new public key, two live
      credentials after overlapping requests).

    ** Bounds and fuel

    Fourteen functions carry fuel.  [svid_loop], [response_loop] and [grpc_loop]
    start with the length of their input, which is enough
    ([decoders_terminate]); [varint_bytes], of the reference encoder, starts
    with ten, since a [u64] has at most ten groups of seven bits.
    [get_items], of the codec the witnesses of the frames evaluate, starts with
    the length of its input ([get_put_items]).
    [list_chunks] and [trim] recurse at most once per element and start with
    the length of their list ([list_chunks_concat], [trim_start_no_ws]).  [redact_loop] starts with one
    round more than the text has characters, and [redaction_terminates] shows
    that more fuel changes nothing.  [str_replace] consumes a character per
    round, and so does [trim_prefixes_fuel].  [read_loop_fuel] starts with the
    number of bytes it wants, each round reads at least one
    ([read_loop_fuel_spec]).  [wait_for_vhsm_unsealed] models a loop without a
    bound: one attempt more than those that fail is enough
    ([wait_for_vhsm_unsealed_spec]).  [rewrap_loop] and
    [rewrap_loop_program] model a loop that may not end: a run whose fuel is
    used up is one still running, with the state it has reached, and their
    theorems hold for every fuel.  Everything else is structural.  Integers
    keep their widths where the code converts or could overflow ([as_u8],
    [as_u32], [as_u64], [as_i64]).

    ** What is not modelled

    Log output other than the debug log of requests, zeroization of memory and
    the debugging file under /tmp have no part in the theorems.  The merging of
    configuration files is the config crate's, command lines are clap's, and
    the requests a handler gets are already decoded.  Connections are lost at
    any call of the key requests and at the end of the other transactions, not
    in between; in these other transactions a commit that reports an error has
    not taken effect.  In [Interleaving] an audit record is one call; what happens
    between its two statements is in [concurrent_records_break_chain] and
    [lock_not_taken_by_record].  The lock of a root CA tag and the
    transactions of imports appear as the order in which they run; in
    [IssueRace] the calls of a request to the provider and its audit row are
    left out, they are in [Credentials] and [AuditLock].  The construction of the use cases in [AppState::new] is their
    arguments here.  The module [repositories/ceremonies.rs], the types
    [ApiRoute] and [OperationContext], the extractor of UUIDs and the functions
    [build_generic_username] and [fetch_latest_kek_id] of
    [issue_agent_credential.rs] are used by no handler, use case or worker;
    traits, constructors and the tests have no behaviour of their own. *)

From Stdlib Require Export ZArith Lia.
From Stdlib Require Import Strings.Byte.
From stdpp Require Export base tactics decidable option list gmap fin_maps sorting
  strings pretty.

Abbreviation byte := Byte.byte.

(** ** Results and their notation *)

Declare Scope kms_scope.
Delimit Scope kms_scope with kms.
Open Scope kms_scope.
Open Scope Z_scope.

(** Rust's [Result<A, E>]. *)
Inductive result (A E : Type) : Type :=
| Ok (a : A)
| Err (e : E).
Arguments Ok {A E} a.
Arguments Err {A E} e.

Definition result_bind {A B E} (m : result A E) (k : A → result B E) : result B E :=
  match m with Ok a => k a | Err e => Err e end.

Definition map_err {A E F} (f : E → F) (m : result A E) : result A F :=
  match m with Ok a => Ok a | Err e => Err (f e) end.

Definition is_ok {A E} (m : result A E) : bool :=
  match m with Ok _ => true | Err _ => false end.

(** The [?] operator. *)
Notation "'let?' x ':=' m 'in' k" := (result_bind m (λ x, k))
  (at level 10, x pattern, m at level 100, k at level 200,
   format "'[hv' 'let?'  x  ':='  m  'in'  '/' k ']'") : kms_scope.

(** Concatenation of string pieces, for [format!]. *)
Infix "+s+" := String.append (at level 60, right associativity) : kms_scope.

(** ** Machine integers

    A [w]-bit unsigned integer is a [Z]; [as u8], [as u32] and the wrapping
    operations are written out with [mod]. *)

Definition u8_max : Z := 255.
Definition u32_max : Z := 4294967295.
Definition as_u8 (z : Z) : Z := z mod 256.
Definition as_u32 (z : Z) : Z := z mod 4294967296.

(** [as i32] of a [u32]: two's complement. *)
Definition as_i32 (z : Z) : Z :=
  let u := z mod 4294967296 in
  if u <? 2147483648 then u else u - 4294967296.

Definition byte_of_Z (z : Z) : byte :=
  default Byte.x00 (Byte.of_N (Z.to_N (as_u8 z))).
Definition Z_of_byte (b : byte) : Z := Z.of_N (Byte.to_N b).

(** [u32::to_be_bytes] and [u32::from_be_bytes]. *)
Definition u32_to_be_bytes (n : Z) : list byte :=
  [byte_of_Z (Z.shiftr n 24); byte_of_Z (Z.shiftr n 16);
   byte_of_Z (Z.shiftr n 8); byte_of_Z n].
Definition from_be_bytes (l : list byte) : Z :=
  fold_left (λ acc b, Z.lor (Z.shiftl acc 8) (Z_of_byte b)) l 0.
Definition u32_from_be_bytes (l : list byte) : Z := from_be_bytes l.

#[export] Instance byte_eq_dec : EqDecision byte := Byte.byte_eq_dec.

Lemma Z_of_byte_range b : 0 ≤ Z_of_byte b < 256.
Proof. unfold Z_of_byte. pose proof (Byte.to_N_bounded b). lia. Qed.

Lemma Z_of_byte_of_Z z : Z_of_byte (byte_of_Z z) = z mod 256.
Proof.
  unfold Z_of_byte, byte_of_Z, as_u8.
  assert (0 ≤ z mod 256 < 256) by (apply Z.mod_pos_bound; lia).
  destruct (Byte.of_N (Z.to_N (z mod 256))) as [b|] eqn:E; simpl.
  - apply Byte.to_of_N in E. rewrite E. lia.
  - apply Byte.of_N_None_iff in E. lia.
Qed.

Lemma byte_of_Z_of_byte b : byte_of_Z (Z_of_byte b) = b.
Proof.
  unfold byte_of_Z, as_u8. rewrite Z.mod_small by apply Z_of_byte_range.
  unfold Z_of_byte. rewrite N2Z.id, Byte.of_to_N. reflexivity.
Qed.

Lemma byte_of_Z_unique z b : z mod 256 = Z_of_byte b → byte_of_Z z = b.
Proof.
  intros Hz. rewrite <- (byte_of_Z_of_byte b). unfold byte_of_Z, as_u8.
  by rewrite Hz, (Z.mod_small (Z_of_byte b)) by apply Z_of_byte_range.
Qed.

Lemma testbit_above_byte b i : 0 ≤ b < 256 → 8 ≤ i → Z.testbit b i = false.
Proof.
  intros Hb Hi. rewrite <- (Z.mod_small b (2 ^ 8)) by (change (2 ^ 8) with 256; lia).
  apply Z.mod_pow2_bits_high. lia.
Qed.

Lemma lor_shiftl8 a b : 0 ≤ b < 256 → Z.lor (Z.shiftl a 8) b = a * 256 + b.
Proof.
  intros Hb.
  assert (Z.land (Z.shiftl a 8) b = 0) as Hland.
  { apply Z.bits_inj'; intros i Hi. rewrite Z.land_spec, Z.bits_0.
    destruct (decide (i < 8)).
    - rewrite Z.shiftl_spec_low by lia. reflexivity.
    - rewrite (testbit_above_byte b) by lia. apply andb_false_r. }
  rewrite <- Z.lxor_lor, <- Z.add_nocarry_lxor by exact Hland.
  rewrite Z.shiftl_mul_pow2 by lia. reflexivity.
Qed.

Lemma u32_be_roundtrip n :
  0 ≤ n ≤ u32_max → u32_from_be_bytes (u32_to_be_bytes n) = n.
Proof.
  unfold u32_max, u32_from_be_bytes, from_be_bytes, u32_to_be_bytes; intros Hn; cbn [fold_left].
  rewrite !lor_shiftl8 by apply Z_of_byte_range.
  rewrite !Z_of_byte_of_Z, !Z.shiftr_div_pow2 by lia.
  change (Z.shiftl 0 8) with 0.
  change (2 ^ 24) with 16777216; change (2 ^ 16) with 65536; change (2 ^ 8) with 256.
  Z.to_euclidean_division_equations. lia.
Qed.

Lemma length_u32_to_be_bytes n : length (u32_to_be_bytes n) = 4%nat.
Proof. reflexivity. Qed.

(** [slice::chunks]: consecutive pieces of [n] elements, the last one
    possibly shorter.  A round removes at least one element when [n] is
    positive, so the length is enough fuel. *)
Fixpoint chunks_fuel {A} (fuel n : nat) (l : list A) : list (list A) :=
  match fuel, l with
  | S fuel, _ :: _ => take n l :: chunks_fuel fuel n (drop n l)
  | _, _ => []
  end.
Definition list_chunks {A} (n : nat) (l : list A) : list (list A) :=
  chunks_fuel (length l) n l.

Lemma chunks_fuel_concat {A} n fuel (l : list A) :
  (0 < n)%nat → (length l ≤ fuel)%nat → concat (chunks_fuel fuel n l) = l.
Proof.
  intros Hn. revert l. induction fuel as [|fuel IH]; intros [|x l] Hl;
    try done; [simpl in Hl; lia|].
  cbn [chunks_fuel concat]. rewrite IH; [apply take_drop|].
  rewrite length_drop. simpl in *. lia.
Qed.

Lemma list_chunks_concat {A} n (l : list A) :
  (0 < n)%nat → concat (list_chunks n l) = l.
Proof. intros. by apply chunks_fuel_concat. Qed.

Lemma list_chunks_length {A} n (l : list A) :
  Forall (λ c, (length c ≤ n)%nat) (list_chunks n l).
Proof.
  unfold list_chunks. generalize (length l) as fuel. intros fuel. revert l.
  induction fuel as [|fuel IH]; intros [|x l]; constructor; [|apply IH].
  rewrite length_take. lia.
Qed.

(** ** Strings

    A Rust [String] is its sequence of UTF-8 bytes: [String.string], whose
    characters are the eight-bit [ascii]. *)

Definition str_bytes (s : string) : list byte := String.list_byte_of_string s.
Definition str_of_bytes (l : list byte) : string := String.string_of_list_byte l.

Lemma str_of_str_bytes s : str_of_bytes (str_bytes s) = s.
Proof. apply String.string_of_list_byte_of_string. Qed.
Lemma str_bytes_of_str l : str_bytes (str_of_bytes l) = l.
Proof. apply String.list_byte_of_string_of_list_byte. Qed.

#[export] Instance str_bytes_inj : Inj (=) (=) str_bytes.
Proof. intros s t E. rewrite <- (str_of_str_bytes s), E. apply str_of_str_bytes. Qed.
#[export] Instance str_of_bytes_inj : Inj (=) (=) str_of_bytes.
Proof. intros s t E. rewrite <- (str_bytes_of_str s), E. apply str_bytes_of_str. Qed.

Lemma str_app_cons x (a b : string) : String x a +s+ b = String x (a +s+ b).
Proof. reflexivity. Qed.
Lemma str_app_assoc (a b c : string) : (a +s+ b) +s+ c = a +s+ (b +s+ c).
Proof. induction a as [|x a IH]; [done|]. rewrite !str_app_cons. congruence. Qed.
Lemma str_app_nil_r (a : string) : a +s+ EmptyString = a.
Proof. induction a as [|x a IH]; [done|]. rewrite !str_app_cons. congruence. Qed.
Lemma str_app_inj (a b c : string) : a +s+ b = a +s+ c → b = c.
Proof. induction a as [|x a IH]; [done|]. rewrite !str_app_cons. intros [= ?]; auto. Qed.
Lemma str_app_length (a b : string) :
  String.length (a +s+ b) = (String.length a + String.length b)%nat.
Proof. induction a as [|x a IH]; [done|]. rewrite !str_app_cons. simpl. congruence. Qed.
Lemma str_app_inv (a b c d : string) :
  String.length a = String.length c → a +s+ b = c +s+ d → a = c ∧ b = d.
Proof.
  revert c. induction a as [|x a IH]; intros [|y c] Hl; simplify_eq/=; [done|].
  rewrite !str_app_cons. intros [= -> H]. apply IH in H as [-> ->]; auto.
Qed.

(** The characters with the Unicode property [White_Space], by their UTF-8
    encodings; [char::is_whitespace] tests exactly this property. *)
Definition whitespace1 : list Z := [9; 10; 11; 12; 13; 32].
Definition whitespace2 : list (Z * Z) := [(194, 133); (194, 160)].
Definition whitespace3 : list (Z * Z * Z) :=
  [(225, 154, 128); (226, 128, 128); (226, 128, 129); (226, 128, 130);
   (226, 128, 131); (226, 128, 132); (226, 128, 133); (226, 128, 134);
   (226, 128, 135); (226, 128, 136); (226, 128, 137); (226, 128, 138);
   (226, 128, 168); (226, 128, 169); (226, 128, 175); (226, 129, 159);
   (227, 128, 128)].

(** Drops one leading white-space character, if there is one. *)
Definition drop_whitespace (l : list byte) : option (list byte) :=
  match l with
  | a :: r1 =>
    if decide (Z_of_byte a ∈ whitespace1) then Some r1 else
    match r1 with
    | b :: r2 =>
      if decide ((Z_of_byte a, Z_of_byte b) ∈ whitespace2) then Some r2 else
      match r2 with
      | c :: r3 =>
        if decide ((Z_of_byte a, Z_of_byte b, Z_of_byte c) ∈ whitespace3)
        then Some r3 else None
      | [] => None
      end
    | [] => None
    end
  | [] => None
  end.

(** The same on a reversed string: one trailing white-space character. *)
Definition drop_whitespace_rev (l : list byte) : option (list byte) :=
  match l with
  | a :: r1 =>
    if decide (Z_of_byte a ∈ whitespace1) then Some r1 else
    match r1 with
    | b :: r2 =>
      if decide ((Z_of_byte b, Z_of_byte a) ∈ whitespace2) then Some r2 else
      match r2 with
      | c :: r3 =>
        if decide ((Z_of_byte c, Z_of_byte b, Z_of_byte a) ∈ whitespace3)
        then Some r3 else None
      | [] => None
      end
    | [] => None
    end
  | [] => None
  end.

Fixpoint iter_drop (f : list byte → option (list byte)) (fuel : nat)
    (l : list byte) : list byte :=
  match fuel with
  | O => l
  | S fuel => match f l with Some r => iter_drop f fuel r | None => l end
  end.

(** [str::trim]; each round removes at least one byte, so the length is
    enough fuel. *)
Definition trim_start_bytes (l : list byte) : list byte :=
  iter_drop drop_whitespace (length l) l.
Definition trim_end_bytes (l : list byte) : list byte :=
  reverse (iter_drop drop_whitespace_rev (length l) (reverse l)).
Definition trim (s : string) : string :=
  str_of_bytes (trim_end_bytes (trim_start_bytes (str_bytes s))).

Definition is_empty (s : string) : bool :=
  match s with EmptyString => true | String _ _ => false end.

(** Well-formed UTF-8 (no overlong forms, no surrogates, at most U+10FFFF):
    [lo <= second byte <= hi] depends on the first byte. *)
Definition is_cont (lo hi : Z) (b : byte) : bool :=
  (lo <=? Z_of_byte b) && (Z_of_byte b <=? hi).

Fixpoint is_utf8_bytes (l : list byte) : bool :=
  match l with
  | [] => true
  | a :: r1 =>
    let z := Z_of_byte a in
    if z <=? 127 then is_utf8_bytes r1
    else match r1 with
    | [] => false
    | b :: r2 =>
      if (194 <=? z) && (z <=? 223) then is_cont 128 191 b && is_utf8_bytes r2
      else match r2 with
      | [] => false
      | c :: r3 =>
        if (224 <=? z) && (z <=? 239) then
          is_cont (if z =? 224 then 160 else 128) (if z =? 237 then 159 else 191) b
          && is_cont 128 191 c && is_utf8_bytes r3
        else match r3 with
        | [] => false
        | d :: r4 =>
          (240 <=? z) && (z <=? 244)
          && is_cont (if z =? 240 then 144 else 128) (if z =? 244 then 143 else 191) b
          && is_cont 128 191 c && is_cont 128 191 d && is_utf8_bytes r4
        end
      end
    end
  end.

Definition is_utf8 (s : string) : bool := is_utf8_bytes (str_bytes s).

(** [u8::to_ascii_lowercase] and [str::to_ascii_lowercase]. *)
Definition ascii_lower (c : Ascii.ascii) : Ascii.ascii :=
  let n := Z.of_N (Ascii.N_of_ascii c) in
  if (65 <=? n) && (n <=? 90) then Ascii.ascii_of_N (Z.to_N (n + 32)) else c.
Fixpoint to_ascii_lowercase (s : string) : string :=
  match s with
  | EmptyString => EmptyString
  | String c s => String (ascii_lower c) (to_ascii_lowercase s)
  end.

(** Bytes a header value may carry: printable ASCII. *)
Definition visible_char (c : Ascii.ascii) : bool :=
  let n := Z.of_N (Ascii.N_of_ascii c) in (32 <=? n) && (n <? 127).
Fixpoint visible_ascii (s : string) : bool :=
  match s with
  | EmptyString => true
  | String c s => visible_char c && visible_ascii s
  end.

Lemma visible_utf8 s : visible_ascii s = true → is_utf8 s = true.
Proof.
  unfold is_utf8, str_bytes, String.list_byte_of_string.
  induction s as [|c s IH]; [done|]. cbn [visible_ascii].
  intros [Hc Hs]%andb_true_iff. cbn [String.list_ascii_of_string map is_utf8_bytes].
  rewrite IH by done. revert Hc. destruct c as [[] [] [] [] [] [] [] []]; by vm_compute.
Qed.

(** The characters (bytes) of a text. *)
Definition chars (s : string) : list Ascii.ascii := String.list_ascii_of_string s.

(** [trim_start_matches], [trim_end_matches] and [trim_matches] of a [char]. *)
Fixpoint trim_start_char (c : Ascii.ascii) (l : list Ascii.ascii) : list Ascii.ascii :=
  match l with
  | a :: l' => if Ascii.eqb a c then trim_start_char c l' else l
  | [] => []
  end.
Definition trim_start_matches (c : Ascii.ascii) (s : string) : string :=
  String.string_of_list_ascii (trim_start_char c (chars s)).
Definition trim_end_matches (c : Ascii.ascii) (s : string) : string :=
  String.string_of_list_ascii (reverse (trim_start_char c (reverse (chars s)))).
Definition trim_matches (c : Ascii.ascii) (s : string) : string :=
  trim_end_matches c (trim_start_matches c s).

(** [str::starts_with], [str::find] and [str::contains] for a [&str]. *)
Definition starts_with (p s : string) : bool := String.prefix p s.
Fixpoint find_sub (p s : string) : option nat :=
  if starts_with p s then Some 0%nat else
  match s with
  | EmptyString => None
  | String _ s' => S <$> find_sub p s'
  end.
Definition contains (p s : string) : bool :=
  match find_sub p s with Some _ => true | None => false end.

(** [s[..n]] and [s[n..]]. *)
Fixpoint str_take (n : nat) (s : string) : string :=
  match n, s with
  | S n, String c s => String c (str_take n s)
  | _, _ => EmptyString
  end.
Fixpoint str_drop (n : nat) (s : string) : string :=
  match n, s with
  | S n, String _ s => str_drop n s
  | _, _ => s
  end.

Lemma iter_drop_fix f l :
  (∀ l r, f l = Some r → (length r < length l)%nat) →
  f (iter_drop f (length l) l) = None ∨ iter_drop f (length l) l = [].
Proof.
  intros Hf. remember (length l) as n eqn:Hn.
  assert (length l ≤ n)%nat as Hle by lia. clear Hn. revert l Hle.
  induction n as [|n IH]; intros l Hle; simpl.
  - right. destruct l; simpl in *; [done|lia].
  - destruct (f l) as [r|] eqn:E; [|by left].
    apply IH. apply Hf in E. lia.
Qed.

Lemma drop_whitespace_lt l r : drop_whitespace l = Some r → (length r < length l)%nat.
Proof. unfold drop_whitespace. repeat case_match; intros [=]; subst; simpl; lia. Qed.

Lemma trim_start_no_ws l r : drop_whitespace (trim_start_bytes l) ≠ Some r.
Proof.
  unfold trim_start_bytes.
  destruct (iter_drop_fix drop_whitespace l drop_whitespace_lt) as [->| ->]; done.
Qed.

(** A graphic ASCII character is not white space. *)
Lemma drop_whitespace_ascii a r :
  ((33 <=? Z_of_byte a) && (Z_of_byte a <=? 127)) = true →
  drop_whitespace (a :: r) = None ∧ drop_whitespace_rev (a :: r) = None.
Proof.
  intros [H1%Z.leb_le H2%Z.leb_le]%andb_true_iff.
  unfold drop_whitespace, drop_whitespace_rev.
  assert (Z_of_byte a ∉ whitespace1) as ?.
  { unfold whitespace1. rewrite !elem_of_cons, !elem_of_nil. intros Hx.
    destruct_or? Hx; simplify_eq; lia. }
  assert (∀ z, ¬ (Z_of_byte a, z) ∈ whitespace2 ∧ ¬ (z, Z_of_byte a) ∈ whitespace2) as Hw2.
  { intros z. unfold whitespace2. rewrite !elem_of_cons, !elem_of_nil.
    split; intros Hx; destruct_or? Hx; simplify_eq; lia. }
  assert (∀ y z, ¬ (Z_of_byte a, y, z) ∈ whitespace3 ∧ ¬ (y, z, Z_of_byte a) ∈ whitespace3) as Hw3.
  { intros y z. unfold whitespace3. rewrite !elem_of_cons, !elem_of_nil.
    split; intros Hx; destruct_or? Hx; simplify_eq; lia. }
  split; rewrite decide_False by done; destruct r as [|b [|c r]]; try done;
    rewrite decide_False by apply Hw2; try done; rewrite decide_False by apply Hw3; done.
Qed.

Lemma iter_drop_None f n l : f l = None → iter_drop f n l = l.
Proof. intros Hf. destruct n; simpl; [done|]. by rewrite Hf. Qed.

(** A string with no white space at either end is unchanged by [trim]. *)
Lemma trim_fixed s :
  drop_whitespace (str_bytes s) = None →
  drop_whitespace_rev (reverse (str_bytes s)) = None → trim s = s.
Proof.
  intros H1 H2. unfold trim, trim_end_bytes, trim_start_bytes.
  rewrite (iter_drop_None drop_whitespace) by done.
  rewrite iter_drop_None by done. rewrite reverse_involutive. apply str_of_str_bytes.
Qed.

(** *** Strings as lists of characters *)


Lemma chars_app a b : chars (a +s+ b) = chars a ++ chars b.
Proof.
  induction a as [|x a IH]; [done|]. rewrite str_app_cons. unfold chars in *. simpl.
  by rewrite IH.
Qed.
Lemma chars_take n s : chars (str_take n s) = take n (chars s).
Proof. revert s. induction n; intros [|x s]; unfold chars in *; simpl; by rewrite ?IHn. Qed.
Lemma chars_drop n s : chars (str_drop n s) = drop n (chars s).
Proof. revert s. induction n; intros [|x s]; unfold chars in *; simpl; by rewrite ?IHn. Qed.
Lemma chars_length s : length (chars s) = String.length s.
Proof. induction s; unfold chars in *; simpl; by rewrite ?IHs. Qed.
Lemma chars_lower s : chars (to_ascii_lowercase s) = ascii_lower <$> chars s.
Proof. induction s; unfold chars in *; simpl; by rewrite ?IHs. Qed.

(** [occurs k l i]: [k] stands in [l] at position [i]. *)
Definition occurs (k l : list Ascii.ascii) (i : nat) : Prop :=
  ∀ j c, k !! j = Some c → l !! (i + j)%nat = Some c.

Lemma occurs_cons k x l i : occurs k (x :: l) (S i) ↔ occurs k l i.
Proof. done. Qed.

Lemma starts_with_occurs p s : starts_with p s = true ↔ occurs (chars p) (chars s) 0.
Proof.
  unfold starts_with, occurs. revert s.
  induction p as [|a p IH]; intros [|b s]; simpl; try done.
  - split; [done|]. intros H. by specialize (H 0%nat a eq_refl).
  - destruct (Ascii.ascii_dec a b) as [->|Hne]; [rewrite IH|].
    + split; intros H.
      * intros [|j] c; simpl; [done|apply H].
      * intros j c. apply (H (S j) c).
    + split; [done|]. intros H. specialize (H 0%nat a eq_refl). by simplify_eq/=.
Qed.

Lemma find_sub_Some p s i :
  find_sub p s = Some i →
  occurs (chars p) (chars s) i ∧ ∀ j, (j < i)%nat → ¬ occurs (chars p) (chars s) j.
Proof.
  revert i. induction s as [|a s IH]; intros i; cbn [find_sub].
  - destruct (starts_with p EmptyString) eqn:E; [|done]. intros [= <-].
    split; [by apply starts_with_occurs|lia].
  - destruct (starts_with p (String a s)) eqn:E.
    + intros [= <-]. split; [by apply starts_with_occurs|lia].
    + destruct (find_sub p s) as [k|]; [|done]. intros [= <-].
      destruct (IH k eq_refl) as [Hk Hmin]. split; [done|].
      intros [|j] Hj.
      * intros Ho%starts_with_occurs. congruence.
      * unfold chars; simpl. rewrite occurs_cons. apply Hmin. lia.
Qed.

Lemma find_sub_None p s :
  find_sub p s = None → ∀ j, ¬ occurs (chars p) (chars s) j.
Proof.
  induction s as [|a s IH]; cbn [find_sub].
  - destruct (starts_with p EmptyString) eqn:E; [done|]. intros _ j Ho.
    assert (starts_with p EmptyString = true); [|congruence].
    apply starts_with_occurs. intros i c Hc. specialize (Ho i c Hc). done.
  - destruct (starts_with p (String a s)) eqn:E; [done|].
    destruct (find_sub p s) as [k|] eqn:Ef; [done|]. intros _ [|j].
    + intros Ho%starts_with_occurs. congruence.
    + unfold chars; simpl. rewrite occurs_cons. by apply IH.
Qed.

Lemma contains_false p s :
  contains p s = false ↔ ∀ j, ¬ occurs (chars p) (chars s) j.
Proof.
  unfold contains. destruct (find_sub p s) as [i|] eqn:E.
  - split; [done|]. intros H. by apply find_sub_Some in E as [? _]; destruct (H i).
  - split; [|done]. intros _. by apply find_sub_None.
Qed.

(** ** Lemmas and tactics shared by the components *)

Create HintDb kms.

Lemma result_bind_Ok {A B E} (m : result A E) (k : A → result B E) b :
  result_bind m k = Ok b ↔ ∃ a, m = Ok a ∧ k a = Ok b.
Proof.
  destruct m as [a|e]; simpl; split; [by exists a|by intros (? & [= ->] & ?)|done|].
  by intros (? & [=] & ?).
Qed.

Lemma map_err_Ok {A E F} (f : E → F) (m : result A E) a :
  map_err f m = Ok a ↔ m = Ok a.
Proof. destruct m; simpl; split; congruence. Qed.

Lemma list_exists_cons {A} (P : A → Prop) x l :
  (∃ y, y ∈ x :: l ∧ P y) ↔ P x ∨ ∃ y, y ∈ l ∧ P y.
Proof. setoid_rewrite elem_of_cons. naive_solver. Qed.

Lemma imap_fixed {A} (f : A → A) (l : list A) :
  Forall (λ x, f x = x) l → imap (λ _ x, f x) l = l.
Proof.
  induction 1 as [|x l Hx _ IH]; [done|]. rewrite imap_cons, Hx. f_equal. exact IH.
Qed.

Lemma imap_seq {A B} (f : nat → B) (l : list A) :
  imap (λ i _, f i) l = f <$> seq 0 (length l).
Proof.
  revert f. induction l as [|x l IH]; intros f; [done|].
  rewrite imap_cons. simpl. f_equal. unfold compose.
  rewrite (IH (λ i, f (S i))), <- seq_shift, <- list_fmap_compose. done.
Qed.

(** [str::replace] for a non-empty pattern; each round consumes a character. *)
Fixpoint str_replace_fuel (fuel : nat) (from to s : string) : string :=
  match fuel with
  | O => s
  | S fuel =>
    match find_sub from s with
    | None => s
    | Some i =>
      str_take i s +s+ to
        +s+ str_replace_fuel fuel from to (str_drop (i + String.length from) s)
    end
  end.
Definition str_replace (from to s : string) : string :=
  str_replace_fuel (S (String.length s)) from to s.

(** ** Decimal integers *)

Definition digit_value (c : Ascii.ascii) : option Z :=
  let n := Z.of_N (Ascii.N_of_ascii c) in
  if (48 <=? n) && (n <=? 57) then Some (n - 48) else None.

Fixpoint digits_value (acc : Z) (s : string) : option Z :=
  match s with
  | EmptyString => Some acc
  | String c s =>
    match digit_value c with Some d => digits_value (10 * acc + d) s | None => None end
  end.

(** [str::parse::<i64>]: an optional sign, then digits. *)
Definition parse_i64 (s : string) : option Z :=
  let checked (sign : Z) (ds : string) :=
    if is_empty ds then None
    else match digits_value 0 ds with
         | Some v =>
           if (-9223372036854775808 <=? sign * v) && (sign * v <=? 9223372036854775807)
           then Some (sign * v) else None
         | None => None
         end in
  match s with
  | String c rest =>
    let n := Z.of_N (Ascii.N_of_ascii c) in
    if n =? 45 then checked (-1) rest
    else if n =? 43 then checked 1 rest
    else checked 1 s
  | EmptyString => None
  end.

Lemma digit_value_pretty x :
  (x < 10)%N → digit_value (pretty_N_char x) = Some (Z.of_N x) ∧
               visible_char (pretty_N_char x) = true.
Proof.
  intros Hx. assert (x = 0 ∨ x = 1 ∨ x = 2 ∨ x = 3 ∨ x = 4 ∨ x = 5 ∨ x = 6 ∨ x = 7
    ∨ x = 8 ∨ x = 9)%N as H by lia.
  by destruct_or! H; subst.
Qed.

Lemma pretty_N_go_value x : ∀ s,
  digits_value 0 (pretty_N_go x s) = digits_value (Z.of_N x) s ∧
  visible_ascii (pretty_N_go x s) = visible_ascii s.
Proof.
  induction (N.lt_wf_0 x) as [x _ IH]; intros s.
  assert (x = 0 ∨ 0 < x)%N as [->|Hx] by lia; [done|].
  rewrite pretty_N_go_step by done.
  destruct (IH (x `div` 10)%N) with (String (pretty_N_char (x `mod` 10)) s) as [-> ->];
    [by apply N.div_lt|].
  cbn [digits_value visible_ascii].
  destruct (digit_value_pretty (x `mod` 10)) as [-> ->]; [by apply N.mod_lt|].
  split; [|done]. f_equal. pose proof (N.div_mod x 10). lia.
Qed.

Lemma pretty_nonneg_value z :
  0 ≤ z → digits_value 0 (pretty z) = Some z ∧ visible_ascii (pretty z) = true ∧
          is_empty (pretty z) = false.
Proof.
  intros Hz. destruct z as [|p|p]; [done| |lia].
  change (pretty (Z.pos p)) with (pretty_N_go (N.pos p) EmptyString).
  destruct (pretty_N_go_value (N.pos p) EmptyString) as [Hv ->].
  split_and!; [done|done|].
  by destruct (pretty_N_go (N.pos p) EmptyString).
Qed.

Lemma parse_i64_pretty z : 0 ≤ z ≤ 9223372036854775807 → parse_i64 (pretty z) = Some z.
Proof.
  intros [Hz Hm]. destruct (pretty_nonneg_value z Hz) as (Hv & _ & He).
  destruct (pretty z) as [|c r]; [done|]. unfold parse_i64.
  assert (digit_value c ≠ None) as Hd by (intros Hn; cbn [digits_value] in Hv; by rewrite Hn in Hv).
  unfold digit_value in Hd. case_match eqn:Hc; [|done]. apply andb_true_iff in Hc as [Hc _].
  rewrite (proj2 (Z.eqb_neq _ 45)), (proj2 (Z.eqb_neq _ 43)), He, Hv by lia.
  by rewrite Z.mul_1_l, !(proj2 (Z.leb_le _ _)) by lia.
Qed.

(** [str::parse] for an unsigned type: an optional plus sign, then digits. *)
Definition parse_uint (max : Z) (s : string) : option Z :=
  let ds := match s with
            | String c s' => if Z.of_N (Ascii.N_of_ascii c) =? 43 then s' else s
            | EmptyString => s
            end in
  if is_empty ds then None
  else match digits_value 0 ds with
       | Some v => if v <=? max then Some v else None
       | None => None
       end.

Lemma digits_value_nonneg s acc v : 0 ≤ acc → digits_value acc s = Some v → 0 ≤ v.
Proof.
  revert acc. induction s as [|c s IH]; intros acc Ha; cbn [digits_value]; [congruence|].
  destruct (digit_value c) as [d|] eqn:Hd; [|done]. apply IH.
  unfold digit_value in Hd. case_match eqn:Hc; [|done].
  apply andb_true_iff in Hc as [Hc%Z.leb_le _]. injection Hd as <-. lia.
Qed.

Lemma parse_uint_range max s v : parse_uint max s = Some v → 0 ≤ v ≤ max.
Proof.
  unfold parse_uint. destruct (is_empty _); [done|].
  destruct (digits_value 0 _) as [n|] eqn:Hn; [|done].
  destruct (Z.leb_spec n max); [|done]. intros [= <-]. split; [|done].
  by eapply digits_value_nonneg; [|exact Hn].
Qed.

(** ** [sort_by_key], a stable sort *)

Section sort_by_key.
  Context {A : Type} (key : A → Z).

Fixpoint insert_by_key (r : A) (l : list A) : list A :=
  match l with
  | [] => [r]
  | x :: l' => if key r <=? key x then r :: l else x :: insert_by_key r l'
  end.
Definition sort_by_key (l : list A) : list A := foldr insert_by_key [] l.

Definition key_le (a b : A) : Prop := key a ≤ key b.

Lemma insert_by_key_perm r l : insert_by_key r l ≡ₚ r :: l.
Proof.
  induction l as [|x l IH]; [done|]. cbn [insert_by_key]. case_match; [done|].
  rewrite IH. apply Permutation_swap.
Qed.

Lemma sort_by_key_perm l : sort_by_key l ≡ₚ l.
Proof.
  induction l as [|r l IH]; [done|]. unfold sort_by_key in *. cbn [foldr].
  by rewrite insert_by_key_perm, IH.
Qed.

Lemma insert_by_key_sorted r l :
  StronglySorted key_le l → StronglySorted key_le (insert_by_key r l).
Proof.
  induction 1 as [|x l Hl IH Hx]; [by repeat constructor|]. cbn [insert_by_key].
  destruct (Z.leb_spec (key r) (key x)) as [Hle|Hlt].
  - constructor; [by constructor|]. constructor; [done|].
    eapply Forall_impl; [exact Hx|]. unfold key_le. intros y Hy. lia.
  - constructor; [done|]. rewrite insert_by_key_perm. constructor; [unfold key_le; lia|done].
Qed.

Lemma sort_by_key_sorted l : StronglySorted key_le (sort_by_key l).
Proof. induction l; [constructor|]. by apply insert_by_key_sorted. Qed.

(** Elements in ascending order come out of any permutation in that order. *)
Lemma sort_by_key_unique l sorted :
  l ≡ₚ sorted → StronglySorted key_le sorted → NoDup (key <$> sorted) → sort_by_key l = sorted.
Proof.
  intros Hp Hs Hnd. apply (StronglySorted_unique_strong key_le);
    [|apply sort_by_key_sorted|done|by rewrite sort_by_key_perm].
  intros x y Hx Hy Hxy Hyx. rewrite sort_by_key_perm, Hp in Hx. unfold key_le in *.
  apply list_elem_of_lookup in Hx as [i Hi], Hy as [j Hj].
  assert (i = j) as <-; [|congruence].
  eapply NoDup_lookup; [exact Hnd|by rewrite list_lookup_fmap, Hi|].
  rewrite list_lookup_fmap, Hj. cbn. f_equal. lia.
Qed.

End sort_by_key.

(** Splits a hypothesis that a chain of [?] returned [Ok]. *)
Ltac inv_ok :=
  repeat match goal with
  | H : result_bind _ _ = Ok _ |- _ =>
      apply result_bind_Ok in H; destruct H as (? & ? & ?)
  | H : map_err _ _ = Ok _ |- _ => apply map_err_Ok in H
  | H : Ok _ = Ok _ |- _ => injection H as H
  | H : Err _ = Ok _ |- _ => discriminate H
  end; simplify_eq/=.

(** Case analysis on every [match] of the goal and of a hypothesis. *)
Ltac split_cases := repeat (case_match; simplify_eq/=).
