(* ===== verification/Interfaces.v ===== *)
(** * Interfaces to code outside the repository

    The libraries the sources call ([getrandom]/[OsRng], [ssss], [aes-gcm],
    [sha2], [hex]) are type classes: one class of operations, and a separate class of laws with the
    documented behaviour a theorem relies on.  Each interface has an
    executable instance, so that definitions and theorems can be evaluated. *)

From S2P Require Import Prelude.
From Stdlib Require Import Strings.Byte.

(** ** Randomness

    [draw i] answers the [i]-th request for random bytes of a run; an error
    is a failing operating-system generator, with its message. *)
Record Draw := MkDraw {
  draw :> nat → result (list byte) string;
  draw_length n bs : draw n = Ok bs → length bs = n }.

Definition Entropy := Z → Draw.

Program Definition draw_const (b : byte) : Draw :=
  {| draw n := Ok (replicate n b) |}.
Next Obligation. intros b n bs [= <-]. apply length_replicate. Qed.

Program Definition draw_fail (e : string) : Draw := {| draw _ := Err e |}.
Next Obligation. discriminate. Qed.

(** Two generators that never fail: a constant one, and one whose [i]-th
    answer repeats the byte [i]. *)
Definition entropy_const (b : byte) : Entropy := λ _, draw_const b.
Definition entropy_count : Entropy := λ i, draw_const (byte_of_Z i).

(** The generator never fails. *)
Definition entropy_total (ent : Entropy) : Prop :=
  ∀ i n, ∃ bs, draw (ent i) n = Ok bs.

Lemma entropy_const_total b : entropy_total (entropy_const b).
Proof. intros i n. by eexists. Qed.

(** ** Shamir secret sharing: the [ssss] crate *)

Class SsssLib := {
  gen_shares : Z (* num_shares *) → Z (* threshold *) → list byte → Draw →
    result (list string) string;
  unlock : list string → result (list byte) string }.

Class SsssLaws (L : SsssLib) := {
  gen_shares_count n t s d ss :
    gen_shares n t s d = Ok ss → length ss = Z.to_nat n;
  gen_shares_trimmed n t s d ss :
    gen_shares n t s d = Ok ss → Forall (λ v, trim v = v) ss;
  unlock_threshold n t s d ss sub :
    gen_shares n t s d = Ok ss → 1 ≤ t → sub ⊆+ ss → t ≤ Z.of_nat (length sub) →
    unlock sub = Ok s }.

(** ** Authenticated encryption: [Aes256Gcm] of the [aes-gcm] crate *)

Class Aead := {
  cipher : Type;
  new_from_slice : list byte → result cipher string;
  aead_encrypt : cipher → list byte (* nonce *) → list byte → result (list byte) string;
  aead_decrypt : cipher → list byte (* nonce *) → list byte → result (list byte) string }.

Class AeadLaws (A : Aead) := {
  new_from_slice_ok k : length k = 32%nat → ∃ c, new_from_slice k = Ok c;
  new_from_slice_err k : length k ≠ 32%nat → ∃ e, new_from_slice k = Err e;
  (** messages of up to 2^36 bytes can be encrypted *)
  aead_encrypt_ok c nonce p :
    length nonce = 12%nat → Z.of_nat (length p) ≤ 68719476736 →
    ∃ ct, aead_encrypt c nonce p = Ok ct;
  decrypt_encrypt c nonce p ct :
    aead_encrypt c nonce p = Ok ct → aead_decrypt c nonce ct = Ok p }.

(** AES-GCM adds a tag of 16 bytes; a bound is enough where sizes matter. *)
Class AeadSizes (A : Aead) := {
  aead_encrypt_length k c nonce p ct :
    new_from_slice k = Ok c → length nonce = 12%nat → aead_encrypt c nonce p = Ok ct →
    (length ct ≤ length p + 64)%nat }.

(** ** Hashing and hexadecimal: the [sha2] and [hex] crates *)

Class Sha256 := { sha256 : list byte → list byte }.
Class Sha256Laws (H : Sha256) := {
  sha256_length bs : length (sha256 bs) = 32%nat }.

Class Hex := {
  hex_encode : list byte → string;
  hex_decode : string → result (list byte) string }.
Class HexLaws (H : Hex) := {
  hex_decode_encode bs : hex_decode (hex_encode bs) = Ok bs;
  hex_encode_length bs : String.length (hex_encode bs) = (2 * length bs)%nat;
  hex_encode_visible bs : visible_ascii (hex_encode bs) = true }.

Lemma hex_encode_inj `{HexLaws} a b : hex_encode a = hex_encode b → a = b.
Proof.
  intros E. pose proof (hex_decode_encode a) as Ha. rewrite E, hex_decode_encode in Ha.
  by simplify_eq.
Qed.

(** ** Base64: the [base64] crate with its standard alphabet *)

Class Base64 := {
  b64_encode : list byte → string;
  b64_decode : string → result (list byte) string }.
Class Base64Laws (B : Base64) := {
  b64_decode_encode bs : b64_decode (b64_encode bs) = Ok bs;
  b64_encode_visible bs : visible_ascii (b64_encode bs) = true }.

(** ** Outcomes of a call inside a task

    A call returns a value, panics (which ends the task) or aborts the
    process. *)
Inductive PanicReason := RngFailure | UnwrapNone | Utf8Unwrap | TimeRange | SliceRange.

Inductive outcome (A : Type) :=
| Value (a : A)
| Panics (why : PanicReason)
| Aborts.
Arguments Value {A} a.
Arguments Panics {A} why.
Arguments Aborts {A}.

Definition outcome_bind {A B} (m : outcome A) (k : A → outcome B) : outcome B :=
  match m with Value a => k a | Panics w => Panics w | Aborts => Aborts end.

Notation "'let!' x ':=' m 'in' k" := (outcome_bind m (λ x, k))
  (at level 10, x pattern, m at level 100, k at level 200,
   format "'[hv' 'let!'  x  ':='  m  'in'  '/' k ']'") : kms_scope.

Definition or_panic {A} (why : PanicReason) (o : option A) : outcome A :=
  match o with Some a => Value a | None => Panics why end.

(** [OsRng.fill_bytes] panics when the generator fails. *)
Definition fill_bytes (d : Draw) (n : nat) : outcome (list byte) :=
  match d n with Ok bs => Value bs | Err _ => Panics RngFailure end.

(** ** Elliptic-curve keys and certificates: [p256], [pem], [x509-parser],
    [rcgen], [yasna], [base64], [time] *)

Class P256 := {
  signing_key : Type;
  (** [None]: the generator failed and the call panicked *)
  sk_random : Draw → option signing_key;
  sk_from_bytes : list byte → option signing_key;
  sk_to_bytes : signing_key → list byte;
  sk_public : signing_key → list byte;
  (** signs a SHA-256 digest; the signature in DER *)
  sk_sign_digest : signing_key → list byte → list byte;
  (** [SecretKey::from_pkcs8_der], as the private scalar and the public point *)
  sk_from_pkcs8_der : list byte → result (list byte * list byte) string }.

(** The values the sources write with [yasna]. *)
Inductive Asn1 :=
| AInt (n : Z)
| ABool (b : bool)
| AOid (arcs : list Z)
| AUtf8 (s : string)
| AUtcTime (t : Z)
| ABytes (bs : list byte)
| ABits (bs : list byte) (bits : Z)
| ARawDer (bs : list byte)
| ASeq (items : list Asn1)
| ASet (items : list Asn1)
| ATagged (tag : Z) (item : Asn1).

(** The fields of [rcgen::CertificateParams] the sources set. *)
Record CertificateParams := MkCertificateParams {
  cp_subject_alt_names : list string;
  cp_alg : string;
  cp_is_ca : bool;
  cp_not_before : Z;
  cp_not_after : Z;
  cp_serial_number : Z;
  cp_common_name : string }.

Class X509 := {
  csr : Type;
  rcgen_cert : Type;
  pem_parse : string → result (list byte) string;
  csr_from_der : list byte → option csr;
  csr_spki_raw : csr → list byte;
  csr_verify_signature : csr → bool;
  rcgen_from_params : CertificateParams → Draw → result rcgen_cert string;
  rcgen_serialize_pem : rcgen_cert → result string string;
  rcgen_private_key_der : rcgen_cert → list byte;
  construct_der : Asn1 → list byte;
  base64_encode : list byte → string;
  (** [OffsetDateTime + Duration::days(d)], on Unix seconds; [None] is
      the panic on a date out of the range of [time] *)
  datetime_add_days : Z → Z → option Z;
  (** [UTCTime::from_datetime]; [None] is the panic outside 1950..2049 *)
  utctime_from_datetime : Z → option Z }.

(** Base64 takes four characters for three bytes, all of them letters, digits,
    plus, slash or the equals sign. *)
Class X509Laws (X : X509) := {
  base64_encode_length bs : (String.length (base64_encode bs) ≤ 4 * length bs)%nat;
  base64_encode_visible bs : visible_ascii (base64_encode bs) = true }.

(** ** Database errors

    The errors of Postgres the models distinguish; the text [sqlx] displays
    for them is a parameter. *)
Inductive SqlError :=
| UniqueViolation (constraint : string)
| InvalidRowCountInLimit
| ForeignKeyViolation (constraint : string)
| CardinalityViolation
| ValueTooLong (column : string)
| CheckViolation (constraint : string)
| ColumnNotFound (column : string).

Class SqlDisplay := { sql_display : SqlError → string }.

(** ** Executable instances

    They become available to a file with [Import Concrete]; the models
    themselves are proved for every instance. *)

Module Concrete.

(** Sharing by replication: a share is the threshold and the secret between
    two delimiters; unlocking needs as many shares as the threshold says. *)
Definition rep_share (t : Z) (s : list byte) : string :=
  str_of_bytes ([Byte.x73; byte_of_Z t] ++ s ++ [Byte.x65]).

Definition rep_open (v : string) : option (Z * list byte) :=
  match str_bytes v with
  | Byte.x73 :: t :: r => Some (Z_of_byte t, take (length r - 1) r)
  | _ => None
  end.

#[export] Instance rep_ssss : SsssLib := {
  gen_shares n t s _ :=
    if (1 <=? t) && (t <=? 255) then Ok (replicate (Z.to_nat n) (rep_share t s))
    else Err "bad config";
  unlock vs :=
    match vs with
    | [] => Err "no shares"
    | v :: _ =>
      match rep_open v with
      | Some (t, s) => if t <=? Z.of_nat (length vs) then Ok s else Err "too few shares"
      | None => Err "bad share"
      end
    end }.

Lemma rep_share_trimmed t s : trim (rep_share t s) = rep_share t s.
Proof.
  apply trim_fixed; unfold rep_share; rewrite str_bytes_of_str.
  - by apply drop_whitespace_ascii.
  - rewrite !reverse_app, reverse_singleton, <- app_assoc.
    by apply drop_whitespace_ascii.
Qed.

Lemma rep_open_share t s : 0 ≤ t ≤ 255 → rep_open (rep_share t s) = Some (t, s).
Proof.
  intros Ht. unfold rep_open, rep_share. rewrite str_bytes_of_str. simpl.
  rewrite Z_of_byte_of_Z, Z.mod_small by lia.
  rewrite length_app. simpl. replace (length s + 1 - 1)%nat with (length s) by lia.
  by rewrite take_app_length.
Qed.

Lemma rep_gen_shares_inv n t s d ss :
  gen_shares n t s d = Ok ss →
  1 ≤ t ≤ 255 ∧ ss = replicate (Z.to_nat n) (rep_share t s).
Proof.
  simpl. case_match eqn:E; [|discriminate]. intros [= <-].
  apply andb_true_iff in E as [E1%Z.leb_le E2%Z.leb_le]. done.
Qed.

#[export] Instance rep_ssss_laws : SsssLaws rep_ssss.
Proof.
  split; intros n t s d ss.
  - intros [_ ->]%rep_gen_shares_inv. apply length_replicate.
  - intros [_ ->]%rep_gen_shares_inv. apply Forall_replicate, rep_share_trimmed.
  - intros sub [Ht ->]%rep_gen_shares_inv _ Hsub Hlen.
    assert (Forall (λ v, v = rep_share t s) sub) as Hall.
    { apply Forall_forall. intros v Hv.
      eapply elem_of_submseteq in Hsub; [|exact Hv]. by apply elem_of_replicate in Hsub as [-> _]. }
    destruct sub as [|v vs]; [simpl in *; lia|].
    inversion Hall; subst. cbn [unlock rep_ssss]. rewrite rep_open_share by lia.
    by rewrite (proj2 (Z.leb_le _ _) Hlen).
Qed.

(** A cipher whose ciphertext carries its key and nonce. *)
#[export] Instance tag_aead : Aead := {
  cipher := list byte;
  new_from_slice k :=
    if decide (length k = 32%nat) then Ok k else Err "Invalid Length";
  aead_encrypt c nonce p := Ok (c ++ nonce ++ p);
  aead_decrypt c nonce ct :=
    if decide (take (length (c ++ nonce)) ct = c ++ nonce)
    then Ok (drop (length (c ++ nonce)) ct) else Err "aead::Error" }.

#[export] Instance tag_aead_laws : AeadLaws tag_aead.
Proof.
  split; simpl.
  - intros k Hk. rewrite decide_True by done. by eexists.
  - intros k Hk. rewrite decide_False by done. by eexists.
  - intros c n p _ _. by eexists.
  - intros c n p ct [= <-]. rewrite app_assoc.
    rewrite take_app_length, drop_app_length. by rewrite decide_True.
Qed.

#[export] Instance tag_aead_sizes : AeadSizes tag_aead.
Proof.
  split. cbn. intros k c n p ct Hk Hn [= <-]. case_decide; [|done]. injection Hk as <-.
  rewrite !length_app. lia.
Qed.

(** A polynomial of the bytes, modulo [2 ^ 16], repeated to 32 bytes. *)
Definition poly_digest (bs : list byte) : Z :=
  fold_left (λ h b, Z.land (h * 31 + Z_of_byte b) 65535) bs 1.
#[export] Instance poly_sha256 : Sha256 := {
  sha256 bs :=
    let h := poly_digest bs in
    (λ i, byte_of_Z (Z.shiftr h (8 * (Z.of_nat i mod 2)))) <$> seq 0 32 }.
#[export] Instance poly_sha256_laws : Sha256Laws poly_sha256.
Proof. split. intros bs. cbn [sha256 poly_sha256]. by rewrite length_fmap, length_seq. Qed.

(** Lower-case hexadecimal. *)
Definition hex_digit (z : Z) : Ascii.ascii :=
  Ascii.ascii_of_N (Z.to_N (if z <? 10 then 48 + z else 87 + z)).
Definition hex_value (c : Ascii.ascii) : option Z :=
  let n := Z.of_N (Ascii.N_of_ascii c) in
  if (48 <=? n) && (n <=? 57) then Some (n - 48)
  else if (97 <=? n) && (n <=? 102) then Some (n - 87)
  else None.

Fixpoint hex_of (bs : list byte) : string :=
  match bs with
  | [] => EmptyString
  | b :: bs => String (hex_digit (Z_of_byte b / 16))
                 (String (hex_digit (Z_of_byte b mod 16)) (hex_of bs))
  end.
Fixpoint hex_to (s : string) : result (list byte) string :=
  match s with
  | EmptyString => Ok []
  | String _ EmptyString => Err "Odd number of digits"
  | String a (String b s) =>
    match hex_value a, hex_value b with
    | Some x, Some y => let? r := hex_to s in Ok (byte_of_Z (16 * x + y) :: r)
    | _, _ => Err "Invalid character"
    end
  end.

#[export] Instance lower_hex : Hex := { hex_encode := hex_of; hex_decode := hex_to }.

Lemma hex_byte_roundtrip b :
  hex_value (hex_digit (Z_of_byte b / 16)) = Some (Z_of_byte b / 16) ∧
  hex_value (hex_digit (Z_of_byte b mod 16)) = Some (Z_of_byte b mod 16).
Proof. by destruct b. Qed.

#[export] Instance lower_hex_laws : HexLaws lower_hex.
Proof.
  split; intros bs; induction bs as [|b bs IH]; try done.
  - cbn [hex_encode hex_decode lower_hex hex_of hex_to] in *.
    destruct (hex_byte_roundtrip b) as [-> ->]. rewrite IH. cbn [result_bind].
    rewrite <- Z.div_mod by lia. by rewrite byte_of_Z_of_byte.
  - cbn [hex_encode lower_hex hex_of String.length length] in *. lia.
  - cbn [hex_encode lower_hex hex_of visible_ascii] in *. rewrite IH. by destruct b.
Qed.

(** An alphabet of sixteen letters. *)
#[export] Instance hex_base64 : Base64 := { b64_encode := hex_of; b64_decode := hex_to }.
#[export] Instance hex_base64_laws : Base64Laws hex_base64.
Proof. split; intros bs; [apply (hex_decode_encode (H := lower_hex) bs)|apply (hex_encode_visible (H := lower_hex) bs)]. Qed.

#[export] Instance plain_sql_display : SqlDisplay := {
  sql_display e :=
    match e with
    | UniqueViolation c => "unique " +s+ c
    | InvalidRowCountInLimit => "limit"
    | ForeignKeyViolation c => "foreign key " +s+ c
    | CardinalityViolation => "cardinality"
    | ValueTooLong c => "too long " +s+ c
    | CheckViolation c => "check " +s+ c
    | ColumnNotFound c => "no column " +s+ c
    end }.

(** The length of the first text in unary, and the two texts. *)
Definition unary_payload (u p : string) : list byte :=
  replicate (length (str_bytes u)) Byte.x01 ++ [Byte.x00] ++ str_bytes u ++ str_bytes p.
Fixpoint split_unary (n : nat) (bs : list byte) : option (string * string) :=
  match bs with
  | [] => None
  | b :: bs =>
    if Z_of_byte b =? 1 then split_unary (S n) bs
    else Some (str_of_bytes (take n bs), str_of_bytes (drop n bs))
  end.

Lemma split_unary_replicate k n bs :
  split_unary n (replicate k Byte.x01 ++ Byte.x00 :: bs) =
  Some (str_of_bytes (take (k + n) bs), str_of_bytes (drop (k + n) bs)).
Proof.
  revert n. induction k as [|k IH]; intros n; [done|].
  cbn [replicate app split_unary]. change (Z_of_byte Byte.x01 =? 1) with true. cbn iota.
  rewrite IH. by replace (k + S n)%nat with (S k + n)%nat by lia.
Qed.

Lemma split_unary_payload u p : split_unary 0 (unary_payload u p) = Some (u, p).
Proof.
  unfold unary_payload. cbn [app]. rewrite split_unary_replicate, Nat.add_0_r.
  by rewrite take_app_length, drop_app_length, !str_of_str_bytes.
Qed.

(** Texts one after the other, each after its length. *)
Definition pack (texts : list string) : string :=
  foldr (λ text rest, str_of_bytes (unary_payload text rest)) EmptyString texts.
Fixpoint unpack (n : nat) (s : string) : option (list string) :=
  match n with
  | O => Some []
  | S n => split_unary 0 (str_bytes s) ≫= λ '(text, rest), cons text <$> unpack n rest
  end.

Lemma unpack_pack texts : unpack (length texts) (pack texts) = Some texts.
Proof.
  induction texts as [|text texts IH]; [done|]. cbn [pack foldr length unpack].
  rewrite str_bytes_of_str, split_unary_payload. cbn. unfold pack in IH. by rewrite IH.
Qed.

(** Keys that are their own byte strings, and certificates that are their
    parameters. *)
#[export] Instance plain_p256 : P256 := {
  signing_key := list byte;
  sk_random d := match d 32%nat with Ok bs => Some bs | Err _ => None end;
  sk_from_bytes bs := Some bs;
  sk_to_bytes bs := bs;
  sk_public bs := Byte.x04 :: bs;
  sk_sign_digest sk digest := sk ++ digest;
  sk_from_pkcs8_der der := Ok (take 32 der, Byte.x04 :: take 32 der) }.

#[export] Instance plain_x509 : X509 := {
  csr := list byte;
  rcgen_cert := CertificateParams * list byte;
  pem_parse s := Ok (str_bytes s);
  csr_from_der der := Some der;
  csr_spki_raw c := take 4 c;
  csr_verify_signature c := true;
  rcgen_from_params p d := map_err id (let? k := d 32%nat in Ok (p, k));
  rcgen_serialize_pem c := Ok (cp_common_name c.1);
  rcgen_private_key_der c := c.2;
  construct_der _ := [];
  base64_encode bs := hex_of bs;
  datetime_add_days t d := Some (t + 86400 * d);
  utctime_from_datetime t := Some t }.

#[export] Instance plain_x509_laws : X509Laws plain_x509.
Proof.
  split; intros bs; cbn [base64_encode plain_x509].
  - induction bs as [|b bs IH]; [done|]. cbn [hex_of String.length length]. lia.
  - induction bs as [|b bs IH]; [done|]. cbn [hex_of visible_ascii]. rewrite IH. by destruct b.
Qed.

End Concrete.
