(* ===== verification/Sss.v ===== *)
(** * Secret keys and Shamir shares

    Models [kms-core/src/crypto/keys.rs] and [kms-core/src/crypto/sss.rs]:
    generation of key material, splitting a 32-byte secret into numbered
    shares, and recombination.  The sharing scheme itself is the interface
    [SsssLib]. *)

From Stdlib Require Import Strings.Byte.
From S2P Require Import Prelude.
From S2P Require Import Interfaces.

Inductive KmsCoreError :=
| InvalidInput (msg : string)
| Sss (msg : string)
| Internal (msg : string).

(** The [#[error(...)]] attributes: [Display]. *)
Definition core_error_display (e : KmsCoreError) : string :=
  match e with
  | InvalidInput m => "invalid input: " +s+ m
  | Sss m => "sss error: " +s+ m
  | Internal m => "internal error: " +s+ m
  end.

Definition KEY_SIZE : nat := 32.

(** A [SecretKey] is an array of [KEY_SIZE] bytes; [secret_key_wf] is the
    length the Rust type carries. *)
Record SecretKey := MkSecretKey { as_bytes : list byte }.

Definition secret_key_wf (k : SecretKey) : Prop := length (as_bytes k) = KEY_SIZE.

(** [SecretKey::generate]; [None] is [std::process::abort]. *)
Definition SecretKey_generate (d : Draw) : option SecretKey :=
  match d KEY_SIZE with
  | Ok key => Some (MkSecretKey key)
  | Err _ => None
  end.

Definition SecretKey_from_bytes (bytes : list byte) : SecretKey := MkSecretKey bytes.

Definition generate_master_key (d : Draw) : option SecretKey := SecretKey_generate d.

Definition generate_secure_secret (length : Z) (d : Draw) :
    result (list byte) KmsCoreError :=
  if length =? 0 then
    Err (InvalidInput "Secret length must be greater than zero")
  else if 4096 <? length then
    Err (InvalidInput
      "Requested secret length exceeds maximum allowed limit of 4096 bytes")
  else
    map_err (λ e, Internal ("Failed to generate secure random bytes: " +s+ e))
      (d (Z.to_nat length)).

Record SecretShare := MkSecretShare { index : Z; value : string }.

(** The index of the [idx]-th share: [(idx as u8) + 1] on [u8]. *)
Definition share_index (idx : nat) : Z := as_u8 (as_u8 (Z.of_nat idx) + 1).

Section sharing.
  Context `{SsssLib}.

Definition split_secret (secret : list byte) (threshold shares_count : Z) (d : Draw) :
    result (list SecretShare) KmsCoreError :=
  if negb (length secret =? KEY_SIZE)%nat then
    Err (InvalidInput ("Secret length must be exactly " +s+ pretty KEY_SIZE +s+ " bytes"))
  else if shares_count =? 0 then
    Err (InvalidInput "Total shares must be greater than zero")
  else if threshold =? 0 then
    Err (InvalidInput "Threshold must be greater than zero")
  else if shares_count <? threshold then
    Err (InvalidInput "Threshold cannot be greater than total shares")
  else if threshold <? 2 then
    Err (InvalidInput "Threshold must be at least 2")
  else
    let? share_strings := map_err Sss (gen_shares shares_count threshold secret d) in
    Ok (imap (λ idx raw_value, MkSecretShare (share_index idx) (trim raw_value))
          share_strings).

Definition combine_shares (shares : list SecretShare) : result (list byte) KmsCoreError :=
  if (length shares =? 0)%nat then
    Err (InvalidInput "At least one share is required to reconstruct the key")
  else if (length shares <? 2)%nat then
    Err (InvalidInput "At least two shares are required to meet minimum threshold")
  else
    let share_strings := value <$> shares in
    let? recovered_bytes :=
      map_err (λ e, Sss ("Failed to reconstruct secret from " +s+
                         pretty (length share_strings) +s+ " shares: " +s+ e))
        (unlock share_strings) in
    if negb (length recovered_bytes =? KEY_SIZE)%nat then
      Err (InvalidInput "Reconstructed key has invalid size")
    else Ok recovered_bytes.

Definition split_shares (secret : SecretKey) (shares threshold : Z) (d : Draw) :
    result (list (Z * string)) KmsCoreError :=
  let? shared := split_secret (as_bytes secret) threshold shares d in
  Ok ((λ share, (index share, value share)) <$> shared).

(** [copy_from_slice] cannot panic here: see [combine_shares_length]. *)
Definition combine_shares_legacy (shares : list (Z * string)) :
    result SecretKey KmsCoreError :=
  let secret_shares := (λ '(i, v), MkSecretShare i (trim v)) <$> shares in
  let? recovered_bytes := combine_shares secret_shares in
  Ok (SecretKey_from_bytes recovered_bytes).

End sharing.

(** ** Key generation *)

Lemma SecretKey_generate_wf d k : SecretKey_generate d = Some k → secret_key_wf k.
Proof.
  unfold SecretKey_generate. case_match eqn:E; [|discriminate].
  intros [= <-]. by apply draw_length in E.
Qed.

Lemma generate_secure_secret_length n d bs :
  0 ≤ n → generate_secure_secret n d = Ok bs →
  Z.of_nat (length bs) = n ∧ 1 ≤ n ≤ 4096.
Proof.
  unfold generate_secure_secret. intros Hn Hg.
  destruct (Z.eqb_spec n 0); [discriminate|].
  destruct (Z.ltb_spec 4096 n); [discriminate|].
  apply map_err_Ok, draw_length in Hg. lia.
Qed.

(** ** Shares *)

Section sharing_proofs.
  Context `{SsssLaws}.

Lemma share_index_small i : (i < 255)%nat → share_index i = Z.of_nat i + 1.
Proof. intros. unfold share_index, as_u8. rewrite (Z.mod_small (Z.of_nat i)), Z.mod_small; lia. Qed.

(** What a successful [split_secret] went through. *)
Lemma split_secret_inv secret t n d shares :
  split_secret secret t n d = Ok shares →
  length secret = KEY_SIZE ∧ 2 ≤ t ≤ n ∧
  ∃ ss, gen_shares n t secret d = Ok ss ∧ value <$> shares = ss ∧
        index <$> shares = share_index <$> seq 0 (length ss).
Proof.
  unfold split_secret. intros Hs.
  destruct (Nat.eqb_spec (length secret) KEY_SIZE); simpl in Hs; [|discriminate].
  destruct (Z.eqb_spec n 0), (Z.eqb_spec t 0), (Z.ltb_spec n t), (Z.ltb_spec t 2);
    try discriminate; try lia.
  apply result_bind_Ok in Hs as (ss & Hg%map_err_Ok & [= <-]).
  split_and!; [done|lia|lia|]. exists ss. split; [done|].
  rewrite !fmap_imap. split.
  - apply gen_shares_trimmed in Hg. exact (imap_fixed trim ss Hg).
  - exact (imap_seq share_index ss).
Qed.

(** [combine_shares] returns only keys of the right size. *)
Lemma combine_shares_inv shares bs :
  combine_shares shares = Ok bs →
  (2 ≤ length shares)%nat ∧ unlock (value <$> shares) = Ok bs ∧ length bs = KEY_SIZE.
Proof.
  unfold combine_shares. intros Hc.
  destruct (Nat.eqb_spec (length shares) 0); [discriminate|].
  destruct (Nat.ltb_spec (length shares) 2); [discriminate|].
  apply result_bind_Ok in Hc as (bs' & Hu%map_err_Ok & Hif).
  destruct (Nat.eqb_spec (length bs') KEY_SIZE); simplify_eq/=. done.
Qed.

Lemma combine_shares_intro shares bs :
  (2 ≤ length shares)%nat → unlock (value <$> shares) = Ok bs →
  length bs = KEY_SIZE → combine_shares shares = Ok bs.
Proof.
  intros Hlen Hu Hbs. unfold combine_shares.
  destruct (Nat.eqb_spec (length shares) 0); [lia|].
  destruct (Nat.ltb_spec (length shares) 2); [lia|].
  rewrite Hu. simpl. by rewrite Hbs.
Qed.

(** Any collection of at least [t] of the shares recovers the secret. *)
Lemma combine_split secret t n d shares sub :
  split_secret secret t n d = Ok shares →
  sub ⊆+ shares → t ≤ Z.of_nat (length sub) →
  combine_shares sub = Ok secret.
Proof.
  intros (Hs & Ht & ss & Hg & Hv & _)%split_secret_inv Hsub Hlen.
  apply combine_shares_intro; [lia| |done].
  eapply unlock_threshold; [exact Hg|lia| |by rewrite length_fmap].
  rewrite <- Hv. by apply fmap_submseteq.
Qed.

Lemma split_secret_indices secret t n d shares :
  0 ≤ n ≤ u8_max → split_secret secret t n d = Ok shares →
  index <$> shares = Z.of_nat <$> seq 1 (Z.to_nat n).
Proof.
  intros Hn (_ & _ & ss & Hg & _ & ->)%split_secret_inv.
  rewrite (gen_shares_count _ _ _ _ _ Hg), <- seq_shift, <- list_fmap_compose.
  apply list_fmap_ext. intros k i Hi. apply lookup_seq in Hi.
  unfold u8_max in Hn. unfold compose. rewrite share_index_small; lia.
Qed.

Lemma split_shares_inv key n t d pairs :
  split_shares key n t d = Ok pairs →
  ∃ shares, split_secret (as_bytes key) t n d = Ok shares ∧
            pairs = (λ share, (index share, value share)) <$> shares.
Proof. unfold split_shares. intros Hs. inv_ok. eauto. Qed.

(** The shares a holder keeps, as records again. *)
Definition to_share (p : Z * string) : SecretShare := MkSecretShare p.1 p.2.

Lemma to_share_of (shares : list SecretShare) :
  to_share <$> ((λ share, (index share, value share)) <$> shares) = shares.
Proof. induction shares as [|[]]; simpl; f_equal; done. Qed.

Lemma combine_split_shares key n t d pairs sub :
  split_shares key n t d = Ok pairs →
  sub ⊆+ pairs → t ≤ Z.of_nat (length sub) →
  combine_shares (to_share <$> sub) = Ok (as_bytes key).
Proof.
  intros (shares & Hs & ->)%split_shares_inv Hsub Hlen.
  eapply combine_split; [exact Hs| |by rewrite length_fmap].
  rewrite <- (to_share_of shares). by apply fmap_submseteq.
Qed.

Lemma split_shares_values_trimmed key n t d pairs p :
  split_shares key n t d = Ok pairs → p ∈ pairs → trim p.2 = p.2.
Proof.
  intros (shares & Hs & ->)%split_shares_inv.
  apply split_secret_inv in Hs as (_ & _ & ss & Hg & Hv & _).
  intros (sh & -> & Hsh)%list_elem_of_fmap. simpl.
  apply gen_shares_trimmed in Hg. rewrite Forall_forall in Hg. apply Hg.
  rewrite <- Hv. by apply list_elem_of_fmap_2.
Qed.

Lemma split_shares_fst key n t d pairs :
  0 ≤ n ≤ u8_max → split_shares key n t d = Ok pairs →
  pairs.*1 = Z.of_nat <$> seq 1 (Z.to_nat n).
Proof.
  intros Hn (shares & Hs & ->)%split_shares_inv.
  rewrite <- list_fmap_compose. by eapply split_secret_indices.
Qed.

Lemma split_shares_nodup key n t d pairs :
  0 ≤ n ≤ u8_max → split_shares key n t d = Ok pairs → NoDup pairs.*1.
Proof.
  intros Hn Hs. rewrite (split_shares_fst _ _ _ _ _ Hn Hs).
  apply NoDup_fmap_2; [apply _|apply NoDup_seq].
Qed.

(** ** Properties *)

(** C2: any sub-collection, in any order, of the shares [split_shares] hands
    out that has at least [t] members gives the key back through
    [combine_shares_legacy], which trims every value. *)
Theorem threshold_shares_recover_key key n t d pairs sub :
  split_shares key n t d = Ok pairs →
  sub ⊆+ pairs → t ≤ Z.of_nat (length sub) →
  combine_shares_legacy sub = Ok key.
Proof.
  intros Hs Hsub Hlen. unfold combine_shares_legacy.
  assert ((λ '(i, v), MkSecretShare i (trim v)) <$> sub = to_share <$> sub) as ->.
  { apply list_fmap_ext. intros k [i v] Hk. unfold to_share; simpl. f_equal.
    eapply (split_shares_values_trimmed _ _ _ _ _ (i, v) Hs).
    eapply elem_of_submseteq, Hsub. by eapply list_elem_of_lookup_2. }
  erewrite combine_split_shares by eauto. simpl. by destruct key.
Qed.

(** The shares are numbered [1..n] in order: the [u8] arithmetic of the
    index never wraps, and no two shares carry the same index. *)
Theorem split_shares_indices key n t d pairs :
  0 ≤ n ≤ u8_max → split_shares key n t d = Ok pairs →
  pairs.*1 = Z.of_nat <$> seq 1 (Z.to_nat n) ∧ NoDup pairs.*1.
Proof.
  intros Hn Hs. split; [by eapply split_shares_fst|by eapply split_shares_nodup].
Qed.

(** [split_secret] reports invalid input exactly when the secret is not a
    32-byte key or the threshold is not between two and the number of shares. *)
Theorem split_secret_rejects secret t n d :
  (∃ msg, split_secret secret t n d = Err (InvalidInput msg)) ↔
  ¬ (length secret = KEY_SIZE ∧ 2 ≤ t ≤ n).
Proof.
  unfold split_secret.
  destruct (Nat.eqb_spec (length secret) KEY_SIZE); simpl;
    [|split; [by intros _ []|by eexists]].
  destruct (Z.eqb_spec n 0), (Z.eqb_spec t 0), (Z.ltb_spec n t), (Z.ltb_spec t 2);
    try (split; [intros; lia|by eexists]).
  split; [|lia]. destruct (gen_shares n t secret d); simpl; by intros [].
Qed.

End sharing_proofs.

Import Concrete.

Definition zero_key : SecretKey := MkSecretKey (replicate 32 Byte.x00).

Lemma threshold_shares_recover_key_witness :
  ∃ pairs, split_shares zero_key 5 3 (draw_const Byte.x00) = Ok pairs ∧
    combine_shares_legacy (reverse (drop 2 pairs)) = Ok zero_key.
Proof.
  eexists. split; [vm_compute; reflexivity|].
  eapply (threshold_shares_recover_key zero_key 5 3 (draw_const Byte.x00));
    [vm_compute; reflexivity| |vm_compute; discriminate].
  rewrite reverse_Permutation. apply submseteq_drop.
Defined.

Lemma split_shares_indices_witness :
  ∃ pairs, split_shares zero_key 255 3 (draw_const Byte.x00) = Ok pairs ∧
    pairs.*1 = Z.of_nat <$> seq 1 255 ∧ NoDup pairs.*1.
Proof.
  eexists. split; [vm_compute; reflexivity|].
  apply (split_shares_indices zero_key 255 3 (draw_const Byte.x00));
    [vm_compute; split; discriminate|vm_compute; reflexivity].
Defined.
