(* ===== verification/Protocol.v ===== *)
(** * The vHSM protocol and its client

    Models [kms-core/src/hsm/protocol.rs] (requests and responses) and
    [kms-core/src/hsm/client.rs] (framing and the typed client calls).  The
    socket is the interface [Network]; [serde_json] is the interface
    [HsmCodec]. *)

From Stdlib Require Import Strings.Byte.
From S2P Require Import Prelude.
From S2P Require Import Interfaces.

(** ** Messages *)

Inductive HsmRequest :=
| Ping
| Status
| GenerateCeremony (threshold total_shares : Z)
| InitMasterKey (threshold : Z) (shares : list (Z * string))
| GenerateKek (algorithm : string)
| GenerateDataKey (wrapped_kek : list byte) (kek_version : option Z) (algorithm : string)
| GenerateRandomBytes (length : Z)
| GenerateCredential (password_length : Z)
| InitRootCa (ca_tag common_name : string) (validity_days : Z) (algorithm : string)
| LoadRootCa (ca_tag : string) (encrypted_private_key : list byte)
| SignIntermediateCa (ca_tag csr_pem : string) (validity_days : Z)
| SignWithCaKey (ca_tag algorithm : string) (tbs : list byte)
| GenerateRootCaKey (algorithm : string)
| Encrypt (key_id : string) (key_version : option Z) (plaintext : list byte)
| Decrypt (key_id : string) (key_version : option Z) (ciphertext : list byte).

Inductive HsmResponse :=
| Pong
| StatusInfo (initialized : bool) (active_key_version : Z)
| CeremonyGenerated (shares : list (Z * string))
| MasterKeyInitialized
| KekGenerated (wrapped_kek : list byte) (kek_version root_key_version : Z)
    (algorithm : string)
| DataKeyGenerated (plaintext_dek wrapped_dek : list byte)
    (kek_version root_key_version : Z)
| RandomBytesGenerated (random_bytes : list byte)
| Encrypted (ciphertext : list byte) (key_version : Z)
| Decrypted (plaintext : list byte) (key_version : Z)
| CredentialGenerated (credential_id password : string)
    (wrapped_password : list byte) (key_version : Z)
| RootCaKeyGenerated (encrypted_private_key public_key : list byte)
    (master_key_version : Z) (algorithm : string) (certificate_pem : option string)
| SignedIntermediate (certificate_pem : string)
| Signature (signature : list byte)
| Error (code : Z) (message : string).

(** The values of the Rust types: integer fields in their width, strings in
    UTF-8. *)
Definition is_u8 (z : Z) : bool := (0 <=? z) && (z <=? u8_max).
Definition is_u16 (z : Z) : bool := (0 <=? z) && (z <=? 65535).
Definition is_u32 (z : Z) : bool := (0 <=? z) && (z <=? u32_max).
Definition is_usize (z : Z) : bool := (0 <=? z) && (z <=? 18446744073709551615).
Definition is_opt_u32 (o : option Z) : bool :=
  match o with Some z => is_u32 z | None => true end.
Definition shares_wf (l : list (Z * string)) : bool :=
  forallb (λ p, is_u8 p.1 && is_utf8 p.2) l.

Definition request_wf (r : HsmRequest) : bool :=
  match r with
  | Ping | Status => true
  | GenerateCeremony t n => is_u8 t && is_u8 n
  | InitMasterKey t ss => is_u8 t && shares_wf ss
  | GenerateKek a => is_utf8 a
  | GenerateDataKey _ v a => is_opt_u32 v && is_utf8 a
  | GenerateRandomBytes n => is_usize n
  | GenerateCredential n => is_usize n
  | InitRootCa t c d a => is_utf8 t && is_utf8 c && is_u32 d && is_utf8 a
  | LoadRootCa t _ => is_utf8 t
  | SignIntermediateCa t c d => is_utf8 t && is_utf8 c && is_u32 d
  | SignWithCaKey t a _ => is_utf8 t && is_utf8 a
  | GenerateRootCaKey a => is_utf8 a
  | Encrypt k v _ | Decrypt k v _ => is_utf8 k && is_opt_u32 v
  end.

Definition response_wf (r : HsmResponse) : bool :=
  match r with
  | Pong | MasterKeyInitialized => true
  | StatusInfo _ v => is_u32 v
  | CeremonyGenerated ss => shares_wf ss
  | KekGenerated _ v w a => is_u32 v && is_u32 w && is_utf8 a
  | DataKeyGenerated _ _ v w => is_u32 v && is_u32 w
  | RandomBytesGenerated _ | Signature _ => true
  | Encrypted _ v | Decrypted _ v => is_u32 v
  | CredentialGenerated i p _ v => is_utf8 i && is_utf8 p && is_u32 v
  | RootCaKeyGenerated _ _ v a c =>
      is_u32 v && is_utf8 a && match c with Some s => is_utf8 s | None => true end
  | SignedIntermediate c => is_utf8 c
  | Error c m => is_u16 c && is_utf8 m
  end.

(** [serde_json] on the two message types. *)
Class HsmCodec := {
  request_to_vec : HsmRequest → result (list byte) string;
  request_from_slice : list byte → result HsmRequest string;
  response_to_vec : HsmResponse → result (list byte) string;
  response_from_slice : list byte → result HsmResponse string }.

Class HsmCodecLaws (C : HsmCodec) := {
  request_roundtrip r bs :
    request_wf r = true → request_to_vec r = Ok bs → request_from_slice bs = Ok r;
  response_roundtrip r bs :
    response_wf r = true → response_to_vec r = Ok bs → response_from_slice bs = Ok r }.

(** ** The socket

    A stream holds the bytes the peer sends before it closes the connection
    or, when [stalled], before it stops sending until every timeout expires. *)
Record Stream := MkStream { pending : list byte; stalled : bool }.

Inductive IoError := UnexpectedEof | IoMsg (msg : string).

(** The result of an I/O operation under [tokio::time::timeout]. *)
Inductive timed (A : Type) := Completed (r : result A IoError) | Elapsed.
Arguments Completed {A} r.
Arguments Elapsed {A}.

(** [read_exact] into a zeroed buffer of [n] bytes: the outcome, what the
    buffer holds afterwards, and the rest of the stream. *)
Definition read_exact (n : nat) (st : Stream) : timed unit * list byte * Stream :=
  if (n <=? length (pending st))%nat then
    (Completed (Ok tt), take n (pending st), MkStream (drop n (pending st)) (stalled st))
  else
    ((if stalled st then Elapsed else Completed (Err UnexpectedEof)),
     pending st ++ replicate (n - length (pending st)) Byte.x00,
     MkStream [] (stalled st)).

Class Network := {
  net_connect : string → Z → timed unit;
  net_write : string → list byte → Z → timed unit;
  (** what comes back on the connection after the frame was written *)
  net_reply : string → list byte → Z → Stream }.

(** ** The client *)

Inductive HsmClientError :=
| Io (source : IoError)
| Timeout
| InvalidFrame
| InvalidResponse
| Serialization (source : string)
| Remote (msg : string)
| PlatformNotSupported.

Definition HSM_SOCKET_DEFAULT_PATH : string := "/run/vhsm/vhsm.sock".
Definition MAX_HSM_FRAME_SIZE : Z := 1024 * 1024.

Definition blen {A} (l : list A) : Z := Z.of_nat (length l).

Definition framed_message (payload : list byte) : result (list byte) HsmClientError :=
  if MAX_HSM_FRAME_SIZE <? blen payload then Err InvalidFrame
  else if u32_max <? blen payload then Err InvalidFrame
  else Ok (u32_to_be_bytes (blen payload) ++ payload).

(** [timeout(..).await.map_err(Timeout)?.map_err(Io)?] *)
Definition timed_result {A} (t : timed A) : result A HsmClientError :=
  match t with
  | Elapsed => Err Timeout
  | Completed r => map_err Io r
  end.

Definition read_frame_with_timeout (st : Stream) : result (list byte) HsmClientError :=
  let '(o1, len_buf, st) := read_exact 4 st in
  let? _ := timed_result o1 in
  let len := u32_from_be_bytes len_buf in
  if MAX_HSM_FRAME_SIZE <? len then Err InvalidFrame
  else
    let '(o2, payload, _) := read_exact (Z.to_nat len) st in
    let? _ := timed_result o2 in
    Ok payload.

Section client.
  Context `{Hcodec : HsmCodec} `{Hnet : Network}.

(** Durations are in nanoseconds. *)
Definition send_hsm_request (socket_path : string) (req : HsmRequest)
    (timeout : option Z) : result HsmResponse HsmClientError :=
  let timeout := default (5 * 1000000000) timeout in
  let socket := trim socket_path in
  let path := if is_empty socket then HSM_SOCKET_DEFAULT_PATH else socket in
  let? _ := timed_result (net_connect path timeout) in
  let? payload := map_err Serialization (request_to_vec req) in
  let? frame := framed_message payload in
  let? _ := timed_result (net_write path frame timeout) in
  let? response_bytes := read_frame_with_timeout (net_reply path frame timeout) in
  let? response := map_err Serialization (response_from_slice response_bytes) in
  match response with
  | Error code message =>
      Err (Remote ("HSM returned error " +s+ pretty code +s+ ": " +s+ message))
  | _ => Ok response
  end.

Definition validate_key_version (requested : option Z) (response_version : Z) :
    result unit HsmClientError :=
  match requested with
  | Some req_v =>
    if response_version <? req_v then
      Err (Remote ("Downgrade detected: response version " +s+ pretty response_version
                   +s+ " < requested " +s+ pretty req_v))
    else if negb (response_version =? req_v) then Err InvalidResponse
    else Ok tt
  | None => Ok tt
  end.

Definition encrypt_via_hsm (socket_path key_id : string) (key_version : option Z)
    (plaintext : list byte) (timeout : option Z) : result (list byte) HsmClientError :=
  let requested := key_version in
  let req := Encrypt key_id key_version plaintext in
  let? resp := send_hsm_request socket_path req timeout in
  match resp with
  | Encrypted ciphertext resp_version =>
    let? _ := validate_key_version requested resp_version in
    if resp_version =? 0 then Err InvalidResponse else Ok ciphertext
  | Error code message =>
    Err (Remote ("HSM encryption failed (" +s+ pretty code +s+ "): " +s+ message))
  | _ => Err InvalidResponse
  end.

Definition decrypt_via_hsm (socket_path key_id : string) (key_version : option Z)
    (ciphertext : list byte) (timeout : option Z) : result (list byte) HsmClientError :=
  let requested := key_version in
  let req := Decrypt key_id key_version ciphertext in
  let? resp := send_hsm_request socket_path req timeout in
  match resp with
  | Decrypted plaintext resp_version =>
    let? _ := validate_key_version requested resp_version in
    if resp_version =? 0 then Err InvalidResponse else Ok plaintext
  | Error code message =>
    Err (Remote ("HSM decryption failed (" +s+ pretty code +s+ "): " +s+ message))
  | _ => Err InvalidResponse
  end.

Definition load_root_ca_via_hsm (socket_path ca_tag : string)
    (encrypted_private_key : list byte) (timeout : option Z) :
    result unit HsmClientError :=
  let req := LoadRootCa ca_tag encrypted_private_key in
  let? resp := send_hsm_request socket_path req timeout in
  match resp with
  | MasterKeyInitialized => Ok tt
  | Error code message =>
    Err (Remote ("vHSM load Root CA failed (" +s+ pretty code +s+ "): " +s+ message))
  | _ => Err InvalidResponse
  end.

Definition generate_random_bytes_via_hsm (socket_path : string) (length : Z)
    (timeout : option Z) : result (list byte) HsmClientError :=
  let req := GenerateRandomBytes length in
  let? resp := send_hsm_request socket_path req timeout in
  match resp with
  | RandomBytesGenerated random_bytes =>
    if negb (blen random_bytes =? length) then Err InvalidResponse else Ok random_bytes
  | Error code message =>
    Err (Remote ("HSM random bytes generation failed (" +s+ pretty code +s+ "): "
                 +s+ message))
  | _ => Err InvalidResponse
  end.

Definition generate_root_ca_via_hsm (socket_path algorithm : string)
    (timeout : option Z) :
    result (list byte * list byte * Z * string * option string) HsmClientError :=
  let req := InitRootCa "root" "kms-root-ca" (365 * 20) algorithm in
  let? resp := send_hsm_request socket_path req timeout in
  match resp with
  | RootCaKeyGenerated encrypted_private_key public_key master_key_version alg cert =>
    Ok (encrypted_private_key, public_key, master_key_version, alg, cert)
  | Error code message =>
    Err (Remote ("vHSM InitRootCa failed (" +s+ pretty code +s+ "): " +s+ message))
  | _ => Err InvalidResponse
  end.

End client.

(** ** Framing lemmas *)

Lemma read_exact_app n l rest b :
  length l = n → read_exact n (MkStream (l ++ rest) b) = (Completed (Ok tt), l, MkStream rest b).
Proof.
  intros <-. unfold read_exact. simpl. rewrite length_app.
  rewrite (proj2 (Nat.leb_le _ _)) by lia.
  by rewrite take_app_length, drop_app_length.
Qed.

Lemma read_exact_ok n st buf st' :
  read_exact n st = (Completed (Ok tt), buf, st') →
  pending st = buf ++ pending st' ∧ length buf = n.
Proof.
  unfold read_exact. destruct (Nat.leb_spec n (length (pending st))).
  - intros [= <- <-]. simpl. rewrite take_drop, length_take. split; [done|lia].
  - destruct (stalled st); discriminate.
Qed.

Lemma u32_be_inverse l :
  length l = 4%nat → u32_to_be_bytes (u32_from_be_bytes l) = l.
Proof.
  destruct l as [|a [|b [|c [|d [|]]]]]; try discriminate. intros _.
  unfold u32_from_be_bytes, from_be_bytes, u32_to_be_bytes; cbn [fold_left].
  rewrite !lor_shiftl8 by apply Z_of_byte_range. change (Z.shiftl 0 8) with 0.
  rewrite !Z.shiftr_div_pow2 by lia.
  change (2 ^ 24) with 16777216; change (2 ^ 16) with 65536; change (2 ^ 8) with 256.
  pose proof (Z_of_byte_range a); pose proof (Z_of_byte_range b);
    pose proof (Z_of_byte_range c); pose proof (Z_of_byte_range d).
  f_equal; [|f_equal; [|f_equal; [|f_equal]]]; apply byte_of_Z_unique;
    Z.to_euclidean_division_equations; lia.
Qed.

Lemma u32_from_be_nonneg l : 0 ≤ u32_from_be_bytes l.
Proof.
  unfold u32_from_be_bytes, from_be_bytes.
  cut (∀ z, 0 ≤ z → 0 ≤ fold_left (λ acc b, Z.lor (Z.shiftl acc 8) (Z_of_byte b)) l z).
  { intros Hc. by apply Hc. }
  induction l as [|a l IH]; intros z Hz; [done|].
  cbn [fold_left]. apply IH. rewrite lor_shiftl8 by apply Z_of_byte_range.
  pose proof (Z_of_byte_range a). lia.
Qed.

Lemma framed_message_ok p f :
  framed_message p = Ok f ↔
  f = u32_to_be_bytes (blen p) ++ p ∧ blen p ≤ MAX_HSM_FRAME_SIZE.
Proof.
  unfold framed_message, MAX_HSM_FRAME_SIZE, u32_max.
  destruct (Z.ltb_spec (1024 * 1024) (blen p)); [split; [done|lia]|].
  destruct (Z.ltb_spec 4294967295 (blen p)); [lia|].
  split; [by intros [= <-]|by intros [-> _]].
Qed.

Lemma blen_be_range {A} (p : list A) :
  blen p ≤ MAX_HSM_FRAME_SIZE → u32_from_be_bytes (u32_to_be_bytes (blen p)) = blen p.
Proof.
  unfold MAX_HSM_FRAME_SIZE, blen. intros Hp. apply u32_be_roundtrip.
  unfold u32_max. lia.
Qed.

(** Reading a frame succeeds exactly on a stream that starts with a frame. *)
Lemma read_frame_iff st p :
  read_frame_with_timeout st = Ok p ↔
  ∃ f rest, framed_message p = Ok f ∧ pending st = f ++ rest.
Proof.
  unfold read_frame_with_timeout. split.
  - destruct (read_exact 4 st) as [[o1 buf] st1] eqn:E1.
    destruct o1 as [[[]|]|]; try discriminate. simpl.
    apply read_exact_ok in E1 as [Hp Hbuf].
    destruct (Z.ltb_spec MAX_HSM_FRAME_SIZE (u32_from_be_bytes buf)); [discriminate|].
    destruct (read_exact _ st1) as [[o2 pl] st2] eqn:E2.
    destruct o2 as [[[]|]|]; try discriminate. simpl. intros [= ->].
    apply read_exact_ok in E2 as [Hp2 Hlen].
    pose proof (u32_from_be_nonneg buf).
    assert (blen p = u32_from_be_bytes buf) as Hb by (unfold blen; lia).
    exists (u32_to_be_bytes (blen p) ++ p), (pending st2). rewrite framed_message_ok.
    split; [split; [done|lia]|].
    by rewrite Hb, u32_be_inverse, Hp, Hp2, app_assoc.
  - intros (f & rest & [-> Hmax]%framed_message_ok & Hst).
    destruct st as [pd b]; cbn [pending] in Hst; subst pd. rewrite <- app_assoc.
    rewrite (read_exact_app 4) by done. cbn [timed_result result_bind map_err].
    rewrite blen_be_range by done.
    destruct (Z.ltb_spec MAX_HSM_FRAME_SIZE (blen p)); [lia|].
    rewrite read_exact_app by (unfold blen; lia). done.
Qed.

Lemma validate_key_version_iff req v :
  validate_key_version req v = Ok tt ↔ req = None ∨ req = Some v.
Proof.
  unfold validate_key_version. destruct req as [r|]; [|naive_solver].
  destruct (Z.ltb_spec v r); [split; [done|intros [|[= ->]]; [done|lia]]|].
  destruct (Z.eqb_spec v r); simpl; naive_solver.
Qed.

(** ** Properties *)

(** A frame is read back exactly when the stream starts with the
    big-endian length of the payload and the whole payload, of at most 1 MiB:
    the reader never returns a truncated or oversized payload, and the writer
    refuses exactly the payloads the reader would refuse. *)
Theorem framing_exact st p :
  (read_frame_with_timeout st = Ok p ↔
   ∃ rest, pending st = u32_to_be_bytes (blen p) ++ p ++ rest ∧
           blen p ≤ MAX_HSM_FRAME_SIZE) ∧
  (framed_message p = Err InvalidFrame ↔ MAX_HSM_FRAME_SIZE < blen p).
Proof.
  split.
  - rewrite read_frame_iff. split.
    + intros (f & rest & [-> Hmax]%framed_message_ok & ->). exists rest.
      by rewrite <- app_assoc.
    + intros (rest & -> & Hmax). exists (u32_to_be_bytes (blen p) ++ p), rest.
      rewrite framed_message_ok, <- app_assoc. done.
  - destruct (framed_message p) as [f|e] eqn:E.
    + apply framed_message_ok in E as [_ ?]. split; [done|lia].
    + unfold framed_message in E. unfold MAX_HSM_FRAME_SIZE, u32_max in *.
      destruct (Z.ltb_spec (1024 * 1024) (blen p)); [naive_solver|].
      destruct (Z.ltb_spec 4294967295 (blen p)); [lia|discriminate].
Qed.

Section client_properties.
  Context `{Hcodec : HsmCodec} `{Hnet : Network}.

(** The client accepts a ciphertext exactly when the vHSM answered
    [Encrypted] with a version that is not zero and, when the caller named a
    version, is that version: neither a downgrade nor an upgrade passes. *)
Theorem encrypt_via_hsm_version path k kv p t ct :
  encrypt_via_hsm path k kv p t = Ok ct ↔
  ∃ v, send_hsm_request path (Encrypt k kv p) t = Ok (Encrypted ct v) ∧
       v ≠ 0 ∧ (kv = None ∨ kv = Some v).
Proof.
  unfold encrypt_via_hsm.
  destruct (send_hsm_request path (Encrypt k kv p) t) as [r|e]; simpl; [|naive_solver].
  destruct r; try naive_solver.
  destruct (validate_key_version kv key_version) as [[]|] eqn:E; simpl.
  - apply validate_key_version_iff in E. destruct (Z.eqb_spec key_version 0); naive_solver.
  - split; [done|]. intros (v & [= -> ->] & _ & Hv%validate_key_version_iff). congruence.
Qed.

(** The same for decryption: a plaintext is accepted only under the
    version the caller asked for. *)
Theorem decrypt_via_hsm_version path k kv c t pt :
  decrypt_via_hsm path k kv c t = Ok pt ↔
  ∃ v, send_hsm_request path (Decrypt k kv c) t = Ok (Decrypted pt v) ∧
       v ≠ 0 ∧ (kv = None ∨ kv = Some v).
Proof.
  unfold decrypt_via_hsm.
  destruct (send_hsm_request path (Decrypt k kv c) t) as [r|e]; simpl; [|naive_solver].
  destruct r; try naive_solver.
  destruct (validate_key_version kv key_version) as [[]|] eqn:E; simpl.
  - apply validate_key_version_iff in E. destruct (Z.eqb_spec key_version 0); naive_solver.
  - split; [done|]. intros (v & [= -> ->] & _ & Hv%validate_key_version_iff). congruence.
Qed.

End client_properties.
