(* ===== verification/Certificate.v ===== *)
(** * Certificates built inside the vHSM

    Models [parse_pem_to_der], [build_root_ca_certificate_pem] and
    [build_and_sign_certificate] of [vhsm-daemon/src/handler.rs].  The
    to-be-signed structure is the tree [Asn1] the source writes with [yasna]. *)

From S2P Require Import Prelude.
From S2P Require Import Interfaces.

Section certificates.
  Context `{Hsha : Sha256} `{Hp256 : P256} `{Hx509 : X509}.

Definition parse_pem_to_der (pem : string) : result (list byte) string :=
  map_err (λ e, "PEM parse error: " +s+ e) (pem_parse pem).

(** [d_serial] answers [rand::random::<u64>()], [d_key] the key generation
    inside [Certificate::from_params]. *)
Definition build_root_ca_certificate_pem (ca_tag common_name : string)
    (validity_days : Z) (now : Z) (d_serial d_key : Draw) :
    outcome (result (list byte * list byte * string) string) :=
  let! not_before := or_panic TimeRange (datetime_add_days now (-1)) in
  let! not_after := or_panic TimeRange (datetime_add_days not_before validity_days) in
  let! serial := fill_bytes d_serial 8 in
  let params := {|
    cp_subject_alt_names := [common_name];
    cp_alg := "PKCS_ECDSA_P256_SHA256";
    cp_is_ca := true;
    cp_not_before := not_before;
    cp_not_after := not_after;
    cp_serial_number := from_be_bytes serial;
    cp_common_name := common_name |} in
  Value (
    let? cert :=
      map_err (λ e, "Failed to build self-signed Root CA certificate: " +s+ e)
        (rcgen_from_params params d_key) in
    let? cert_pem :=
      map_err (λ e, "Failed to serialize Root CA certificate: " +s+ e)
        (rcgen_serialize_pem cert) in
    let? (private_key_bytes, public_key_sec1) :=
      map_err (λ e, "Failed to parse generated CA private key: " +s+ e)
        (sk_from_pkcs8_der (rcgen_private_key_der cert)) in
    Ok (private_key_bytes, public_key_sec1, cert_pem)).

Definition oid_ec_public_key : Asn1 := AOid [1; 2; 840; 10045; 2; 1].
Definition oid_prime256v1 : Asn1 := AOid [1; 2; 840; 10045; 3; 1; 7].
Definition oid_ecdsa_with_sha256 : Asn1 := AOid [1; 2; 840; 10045; 4; 3; 2].

(** The distinguished name written for both issuer and subject. *)
Definition root_name : Asn1 :=
  ASeq [ASet [ASeq [AOid [2; 5; 4; 3]; AUtf8 "kms-root-ca"]]].

(** SubjectPublicKeyInfo of an uncompressed P-256 point. *)
Definition spki_of_point (point : list byte) : Asn1 :=
  ASeq [ASeq [oid_ec_public_key; oid_prime256v1];
        ABits point (8 * Z.of_nat (length point))].

Definition extensions : Asn1 :=
  ATagged 3 (ASeq [
    ASeq [AOid [2; 5; 29; 19]; ABool true;
          ABytes (construct_der (ASeq [ABool true]))];
    ASeq [AOid [2; 5; 29; 15]; ABool true;
          ABytes (construct_der (ABits [byte_of_Z 6] 8))]]).

Definition tbs_certificate (serial not_before not_after : Z)
    (subject_spki_der : list byte) : Asn1 :=
  ASeq [
    ATagged 0 (AInt 2);
    AInt serial;
    ASeq [oid_ecdsa_with_sha256];
    root_name;
    ASeq [AUtcTime not_before; AUtcTime not_after];
    root_name;
    ARawDer subject_spki_der;
    extensions].

Definition signed_certificate (tbs_der der_sig : list byte) : Asn1 :=
  ASeq [ARawDer tbs_der; ASeq [oid_ecdsa_with_sha256];
        ABits der_sig (Z.of_nat (length der_sig) * 8)].

Definition newline : string := String (Ascii.ascii_of_nat 10) EmptyString.

(** The PEM text: the base64 bytes in lines of 64. *)
Definition pem_encode (b64 : string) : outcome string :=
  let chunks := list_chunks 64 (str_bytes b64) in
  if forallb is_utf8_bytes chunks then
    Value ("-----BEGIN CERTIFICATE-----" +s+ newline +s+
           foldr (λ chunk acc, str_of_bytes chunk +s+ newline +s+ acc) EmptyString chunks +s+
           "-----END CERTIFICATE-----" +s+ newline)
  else Panics Utf8Unwrap.

(** The copy of an issued intermediate written to [/tmp] for debugging is
    not part of the model. *)
Definition build_and_sign_certificate (ca_sk_bytes csr_der_or_spki : list byte)
    (validity_days : Z) (is_csr : bool) (now : Z) (d_serial : Draw) :
    outcome (result string string) :=
  if negb (length ca_sk_bytes =? 32)%nat then
    Value (Err "Invalid CA private key length")
  else match sk_from_bytes ca_sk_bytes with
  | None => Value (Err "Failed to construct signing key")
  | Some signing_key =>
    let subject_spki_der :=
      if is_csr then
        match csr_from_der csr_der_or_spki with
        | Some csr => Ok (csr_spki_raw csr)
        | None => Err "Failed to parse CSR to extract SubjectPublicKeyInfo"
        end
      else Ok (construct_der (spki_of_point (sk_public signing_key))) in
    match subject_spki_der with
    | Err e => Value (Err e)
    | Ok subject_spki_der =>
      let! serial := fill_bytes d_serial 8 in
      let not_before := now in
      let! not_after := or_panic TimeRange (datetime_add_days not_before validity_days) in
      let! nb_t := or_panic TimeRange (utctime_from_datetime not_before) in
      let! na_t := or_panic TimeRange (utctime_from_datetime not_after) in
      let tbs_der :=
        construct_der
          (tbs_certificate (from_be_bytes serial) nb_t na_t subject_spki_der) in
      let der_sig := sk_sign_digest signing_key (sha256 tbs_der) in
      let cert_der := construct_der (signed_certificate tbs_der der_sig) in
      let! pem_str := pem_encode (base64_encode cert_der) in
      Value (Ok pem_str)
    end
  end.

End certificates.

(** ** Lemmas *)

Definition is_ascii_bytes (l : list byte) : bool := forallb (λ b, Z_of_byte b <=? 127) l.

Lemma ascii_is_utf8 l : is_ascii_bytes l = true → is_utf8_bytes l = true.
Proof.
  induction l as [|b l IH]; [done|]. simpl. intros [Hb Hl]%andb_true_iff.
  rewrite Hb. by apply IH.
Qed.

Lemma chunks_ascii n fuel l :
  is_ascii_bytes l = true → forallb is_utf8_bytes (chunks_fuel fuel n l) = true.
Proof.
  revert l. induction fuel as [|fuel IH]; intros [|b l] Hl; try done.
  cbn [chunks_fuel forallb].
  assert (∀ l1 l2, is_ascii_bytes (l1 ++ l2) = is_ascii_bytes l1 && is_ascii_bytes l2)
    as Happ by (intros; apply forallb_app).
  rewrite <- (take_drop n (b :: l)), Happ in Hl. apply andb_true_iff in Hl as [H1 H2].
  apply andb_true_iff. split; [by apply ascii_is_utf8|by apply IH].
Qed.

(** ** Properties *)

(** Base64 text becomes a PEM block without a panic: the block is the
    text in lines of at most 64 characters between the two markers. *)
Theorem pem_encode_lines b64 :
  is_ascii_bytes (str_bytes b64) = true →
  ∃ lines, concat lines = str_bytes b64 ∧
    Forall (λ l, (length l ≤ 64)%nat) lines ∧
    pem_encode b64 = Value ("-----BEGIN CERTIFICATE-----" +s+ newline +s+
      foldr (λ l acc, str_of_bytes l +s+ newline +s+ acc) EmptyString lines +s+
      "-----END CERTIFICATE-----" +s+ newline).
Proof.
  intros Ha. exists (list_chunks 64 (str_bytes b64)). split_and!.
  - apply list_chunks_concat. lia.
  - apply list_chunks_length.
  - unfold pem_encode. unfold list_chunks at 1. by rewrite chunks_ascii.
Qed.

Section certificate_properties.
  Context `{Hsha : Sha256} `{Hp256 : P256} `{Hx509 : X509}.

(** The certificate issued for a CSR depends on the CSR only through its
    public key: the subject the CSR asks for is never used (the issuer's name
    is written in its place). *)
Theorem certificate_ignores_csr_subject sk der1 der2 c1 c2 days now d :
  csr_from_der der1 = Some c1 → csr_from_der der2 = Some c2 →
  csr_spki_raw c1 = csr_spki_raw c2 →
  build_and_sign_certificate sk der1 days true now d =
  build_and_sign_certificate sk der2 days true now d.
Proof.
  intros Hc1 Hc2 Hspki. unfold build_and_sign_certificate.
  by rewrite Hc1, Hc2, Hspki.
Qed.

End certificate_properties.

Import Concrete.

Lemma pem_encode_lines_witness :
  ∃ lines, concat lines = str_bytes "TUlJQg==" ∧
    Forall (λ l, (length l ≤ 64)%nat) lines ∧
    pem_encode "TUlJQg==" = Value ("-----BEGIN CERTIFICATE-----" +s+ newline +s+
      foldr (λ l acc, str_of_bytes l +s+ newline +s+ acc) EmptyString lines +s+
      "-----END CERTIFICATE-----" +s+ newline).
Proof. apply (pem_encode_lines "TUlJQg=="). vm_compute. reflexivity. Defined.

Lemma certificate_ignores_csr_subject_witness :
  build_and_sign_certificate (replicate 32 (byte_of_Z 1)) (str_bytes "spkiCN=a") 30 true 0
    (draw_const (byte_of_Z 0)) =
  build_and_sign_certificate (replicate 32 (byte_of_Z 1)) (str_bytes "spkiCN=b") 30 true 0
    (draw_const (byte_of_Z 0)).
Proof.
  by eapply (certificate_ignores_csr_subject (Hx509 := plain_x509)).
Defined.
