(* ===== verification/Vhsm.v ===== *)
(** * The vHSM daemon: state and request handlers

    Models [vhsm-daemon/src/state.rs], [vhsm-daemon/src/crypto.rs] and
    [handle_request] of [vhsm-daemon/src/handler.rs].  A handler is a [prog]:
    the sequence of critical sections it takes on the shared
    [RwLock<VhsmState>], so that handlers can be run alone ([run]) or
    interleaved (file [Daemon]). *)

From S2P Require Import Prelude.
From S2P Require Import Interfaces.
From S2P Require Import Sss.
From S2P Require Import Protocol.
From S2P Require Import Certificate.

(** ** State *)

(** [Instant]s are nanoseconds since the start of the process. *)
Record VhsmState := MkVhsmState {
  initialized : bool;
  active_key_version : Z;
  master_key : option (list byte);
  unseal_started_at : option Z;
  active_ca_keys : gmap string (list byte) }.

Definition VhsmState_new : VhsmState :=
  {| initialized := false; active_key_version := 0; master_key := None;
     unseal_started_at := None; active_ca_keys := ∅ |}.

Definition start_unseal_timer (now : Z) (s : VhsmState) : VhsmState :=
  match unseal_started_at s with
  | None =>
    {| initialized := initialized s; active_key_version := active_key_version s;
       master_key := master_key s; unseal_started_at := Some now;
       active_ca_keys := active_ca_keys s |}
  | Some _ => s
  end.

Definition cancel_unseal_timer (s : VhsmState) : VhsmState :=
  {| initialized := initialized s; active_key_version := active_key_version s;
     master_key := master_key s; unseal_started_at := None;
     active_ca_keys := active_ca_keys s |}.

Definition zeroize_key (s : VhsmState) : VhsmState :=
  {| initialized := false; active_key_version := 0; master_key := None;
     unseal_started_at := None; active_ca_keys := ∅ |}.

(** The three assignments and [cancel_unseal_timer] under the write guard of
    [GenerateCeremony] and [InitMasterKey]. *)
Definition install_master_key (key : list byte) (s : VhsmState) : VhsmState :=
  cancel_unseal_timer
    {| initialized := true; active_key_version := 1; master_key := Some key;
       unseal_started_at := unseal_started_at s; active_ca_keys := active_ca_keys s |}.

(** [active_ca_keys.insert] under the write guard of [LoadRootCa]. *)
Definition insert_ca_key (ca_tag : string) (key : list byte) (s : VhsmState) : VhsmState :=
  {| initialized := initialized s; active_key_version := active_key_version s;
     master_key := master_key s; unseal_started_at := unseal_started_at s;
     active_ca_keys := <[ca_tag := key]> (active_ca_keys s) |}.

(** ** crypto.rs *)

Section crypto.
  Context `{SsssLib} `{Aead}.

Definition generate_and_split_master_key (total threshold : Z) (d_key d_shares : Draw) :
    outcome (result (list byte * list (Z * string)) string) :=
  match generate_master_key d_key with
  | None => Aborts
  | Some master_key =>
    Value (
      let raw_bytes := as_bytes master_key in
      let? shares :=
        map_err (λ e, "Failed to split master key: " +s+ core_error_display e)
          (split_shares master_key total threshold d_shares) in
      Ok (raw_bytes, shares))
  end.

(** The loop over [seen_indices]: the first index already seen. *)
Fixpoint first_duplicate (seen : gset Z) (shares : list (Z * string)) : option Z :=
  match shares with
  | [] => None
  | (index, _) :: rest =>
    if decide (index ∈ seen) then Some index
    else first_duplicate ({[index]} ∪ seen) rest
  end.

Definition reconstruct_master_key (shares : list (Z * string)) :
    result (list byte) string :=
  if (length shares =? 0)%nat then Err "At least one share is required"
  else match first_duplicate ∅ shares with
  | Some index => Err ("Duplicate share index detected: " +s+ pretty index)
  | None =>
    let secret_shares := (λ '(index, value), MkSecretShare index value) <$> shares in
    let? recovered :=
      map_err (λ e, "Failed to reconstruct master key from shares: "
                    +s+ core_error_display e)
        (combine_shares secret_shares) in
    if negb (length recovered =? 32)%nat then Err "Recovered master key must be 32 bytes"
    else Ok recovered
  end.

Definition encrypt_bytes (key plaintext : list byte) (d : Draw) :
    outcome (result (list byte) string) :=
  match new_from_slice key with
  | Err e => Value (Err ("Failed to initialize AES-GCM: " +s+ e))
  | Ok cipher =>
    let! nonce_bytes := fill_bytes d 12 in
    Value (
      let? ciphertext :=
        map_err (λ e, "Encryption failed: " +s+ e)
          (aead_encrypt cipher nonce_bytes plaintext) in
      Ok (nonce_bytes ++ ciphertext))
  end.

Definition decrypt_bytes (key payload : list byte) : result (list byte) string :=
  if (length payload <? 12)%nat then Err "Ciphertext payload too short"
  else
    let? cipher :=
      map_err (λ e, "Failed to initialize AES-GCM: " +s+ e) (new_from_slice key) in
    let nonce_bytes := take 12 payload in
    let raw_ciphertext := drop 12 payload in
    map_err (λ e, "Decryption failed: " +s+ e)
      (aead_decrypt cipher nonce_bytes raw_ciphertext).

End crypto.

(** ** Handlers as sequences of critical sections

    [state.read().await] and [state.write().await] give a guard, which is held
    until it is dropped or the handler returns; what is written through a write
    guard is written in one step, since nobody else holds a guard then. *)

Inductive prog :=
| Ret (r : HsmResponse)
| Panic (why : PanicReason)
| Abort
| ReadLock (k : VhsmState → prog)
| WriteLock (f : VhsmState → VhsmState) (k : prog)
| DropGuard (k : prog).

Definition with_outcome {A} (m : outcome A) (k : A → prog) : prog :=
  match m with Value a => k a | Panics w => Panic w | Aborts => Abort end.

Notation "'do!' x ':=' m 'in' k" := (with_outcome m (λ x, k))
  (at level 10, x pattern, m at level 100, k at level 200,
   format "'[hv' 'do!'  x  ':='  m  'in'  '/' k ']'") : kms_scope.

(** [match e { Ok(v) => v, Err(msg) => return Error { code, message } }] *)
Definition or_error {A} (m : result A string) (code : Z) (k : A → prog) : prog :=
  match m with Ok a => k a | Err msg => Ret (Error code msg) end.

Definition err (code : Z) (message : string) : prog := Ret (Error code message).

Definition locked : prog :=
  err 403 "vHSM is locked. Master key must be initialized first.".

Section handlers.
  Context `{SsssLib} `{Aead} `{Sha256} `{Hex} `{P256} `{X509}.
  (** the randomness and the wall clock the request observes *)
  Variable ent : Entropy.
  Variable now : Z.

Definition handle_status : prog :=
  ReadLock (λ guard, Ret (StatusInfo (initialized guard) (active_key_version guard))).

Definition handle_generate_ceremony (threshold total_shares : Z) : prog :=
  ReadLock (λ guard,
    if initialized guard then
      err 400 "vHSM is already initialized. Reset required to re-run ceremony."
    else DropGuard (
      do! split := generate_and_split_master_key total_shares threshold (ent 0) (ent 1) in
      match split with
      | Ok (raw_master_key, shares) =>
        WriteLock (install_master_key raw_master_key) (Ret (CeremonyGenerated shares))
      | Err msg => err 500 msg
      end)).

Definition handle_init_master_key (threshold : Z) (shares : list (Z * string)) : prog :=
  if threshold =? 0 then err 400 "Threshold must be greater than zero."
  else if blen shares <? threshold then
    err 422 ("Insufficient shares: " +s+ pretty (length shares) +s+ " provided, "
             +s+ pretty threshold +s+ " required.")
  else match reconstruct_master_key shares with
  | Ok recovered => WriteLock (install_master_key recovered) (Ret MasterKeyInitialized)
  | Err msg => err 422 msg
  end.

Definition handle_generate_kek (algorithm : string) : prog :=
  ReadLock (λ guard,
    match master_key guard with
    | None => locked
    | Some root_key =>
      let root_key_version := active_key_version guard in
      let algorithm_name := trim algorithm in
      if negb (String.eqb algorithm_name "AES256GCM") then
        err 400 "Unsupported KEK algorithm. Only AES256GCM is supported."
      else
        do! kek := fill_bytes (ent 0) 32 in
        do! wrapped := encrypt_bytes root_key kek (ent 1) in
        or_error wrapped 500 (λ wrapped_kek,
          Ret (KekGenerated wrapped_kek 1 root_key_version algorithm_name))
    end).

Definition handle_generate_data_key (wrapped_kek : list byte) (kek_version : option Z)
    (algorithm : string) : prog :=
  ReadLock (λ guard,
    match master_key guard with
    | None => locked
    | Some root_key =>
      let root_key_version := active_key_version guard in
      let expected_kek_version := 1 in
      let proceed :=
        if negb (String.eqb (trim algorithm) "AES256GCM") then
          err 400 "Unsupported DEK algorithm. Only AES256GCM is supported."
        else match decrypt_bytes root_key wrapped_kek with
        | Err msg => err 500 ("Failed to unwrap KEK: " +s+ msg)
        | Ok kek =>
          do! dek := fill_bytes (ent 0) 32 in
          do! wrapped := encrypt_bytes kek dek (ent 1) in
          or_error wrapped 500 (λ wrapped_dek,
            Ret (DataKeyGenerated dek wrapped_dek expected_kek_version root_key_version))
        end in
      match kek_version with
      | Some requested_version =>
        if negb (requested_version =? expected_kek_version) then
          err 409 ("Requested KEK version " +s+ pretty requested_version +s+
                   " does not match active KEK version " +s+ pretty expected_kek_version)
        else proceed
      | None => proceed
      end
    end).

Definition handle_generate_random_bytes (length : Z) : prog :=
  if (length =? 0) || (4096 <? length) then err 400 "Invalid random bytes length"
  else
    do! random_bytes := fill_bytes (ent 0) (Z.to_nat length) in
    Ret (RandomBytesGenerated random_bytes).

Definition handle_init_root_ca (ca_tag common_name : string) (validity_days : Z)
    (algorithm : string) : prog :=
  ReadLock (λ guard,
    match master_key guard with
    | None => locked
    | Some _ => DropGuard (
      if negb (String.eqb (trim algorithm) "ECDSA_P256") then
        err 400 "Unsupported algorithm for InitRootCa"
      else
        do! signing_key := or_panic RngFailure (sk_random (ent 0)) in
        let private_vec := sk_to_bytes signing_key in
        do! cert_material :=
          build_root_ca_certificate_pem ca_tag common_name validity_days now
            (ent 1) (ent 2) in
        or_error cert_material 500 (λ material,
          let '(cert_private_vec, cert_public_key, cert_pem) := material in
          ReadLock (λ guard2,
            match master_key guard2 with
            | None => Panic UnwrapNone
            | Some root_key2 =>
              do! wrapped := encrypt_bytes root_key2 private_vec (ent 3) in
              or_error wrapped 500 (λ _,
                let version := active_key_version guard2 in
                do! encrypted := encrypt_bytes root_key2 cert_private_vec (ent 4) in
                or_error encrypted 500 (λ encrypted_private_key,
                  Ret (RootCaKeyGenerated encrypted_private_key cert_public_key
                         version algorithm (Some cert_pem))))
            end)))
    end).

Definition handle_load_root_ca (ca_tag : string) (encrypted_private_key : list byte) : prog :=
  ReadLock (λ guard,
    let root_key_opt := master_key guard in
    DropGuard match root_key_opt with
    | None => locked
    | Some root_key =>
      match decrypt_bytes root_key encrypted_private_key with
      | Err msg => err 422 ("Failed to decrypt provided CA blob: " +s+ msg)
      | Ok decrypted =>
        WriteLock (insert_ca_key ca_tag decrypted) (Ret MasterKeyInitialized)
      end
    end).

Definition handle_sign_intermediate_ca (ca_tag csr_pem : string) (validity_days : Z) : prog :=
  ReadLock (λ guard,
    let key_opt := active_ca_keys guard !! ca_tag in
    DropGuard match key_opt with
    | None => err 404 ("CA with tag '" +s+ ca_tag +s+ "' not loaded")
    | Some sk_bytes =>
      or_error (parse_pem_to_der csr_pem) 400 (λ csr_der,
        match csr_from_der csr_der with
        | None => err 400 "Failed to parse CSR as PKCS#10"
        | Some csr =>
          if negb (csr_verify_signature csr) then
            err 422 "CSR signature verification failed"
          else
            do! cert :=
              build_and_sign_certificate sk_bytes csr_der validity_days true now (ent 0) in
            or_error cert 500 (λ cert_pem, Ret (SignedIntermediate cert_pem))
        end)
    end).

Definition handle_generate_credential (password_length : Z) : prog :=
  ReadLock (λ guard,
    match master_key guard with
    | None => locked
    | Some root_key =>
      let key_version := active_key_version guard in
      DropGuard (if (password_length =? 0) || (1024 <? password_length) then
        err 400 "Invalid password length"
      else
        do! id_bytes := fill_bytes (ent 0) 16 in
        let credential_id := hex_encode id_bytes in
        do! password_bytes := fill_bytes (ent 1) (Z.to_nat password_length) in
        do! wrapped := encrypt_bytes root_key password_bytes (ent 2) in
        or_error wrapped 500 (λ wrapped,
          Ret (CredentialGenerated credential_id (base64_encode password_bytes)
                 wrapped key_version)))
    end).

Definition handle_encrypt (key_id : string) (key_version : option Z)
    (plaintext : list byte) : prog :=
  if negb (String.eqb key_id "master_key") then err 404 ("Unknown key id: " +s+ key_id)
  else ReadLock (λ guard,
    match master_key guard with
    | None => locked
    | Some root_key =>
      let version := active_key_version guard in
      let proceed :=
        do! res := encrypt_bytes root_key plaintext (ent 0) in
        or_error res 500 (λ ciphertext, Ret (Encrypted ciphertext version)) in
      match key_version with
      | Some req_ver =>
        if negb (req_ver =? active_key_version guard) then
          err 409 ("Requested key version " +s+ pretty req_ver +s+
                   " does not match active key version " +s+
                   pretty (active_key_version guard))
        else proceed
      | None => proceed
      end
    end).

Definition handle_generate_root_ca_key (algorithm : string) : prog :=
  ReadLock (λ guard,
    match master_key guard with
    | None => locked
    | Some root_key =>
      let alg := trim algorithm in
      if negb (String.eqb alg "ECDSA_P256") then err 400 ("Unsupported algorithm: " +s+ alg)
      else
        do! signing_key := or_panic RngFailure (sk_random (ent 0)) in
        do! cert_material :=
          build_root_ca_certificate_pem "root" "kms-root-ca" (365 * 20) now
            (ent 1) (ent 2) in
        or_error cert_material 500 (λ material,
          let '(cert_private_vec, cert_public_key, cert_pem) := material in
          do! wrapped := encrypt_bytes root_key cert_private_vec (ent 3) in
          or_error wrapped 500 (λ wrapped,
            let version := active_key_version guard in
            Ret (RootCaKeyGenerated wrapped cert_public_key version alg (Some cert_pem))))
    end).

Definition handle_decrypt (key_id : string) (key_version : option Z)
    (ciphertext : list byte) : prog :=
  if negb (String.eqb key_id "master_key") then err 404 ("Unknown key id: " +s+ key_id)
  else ReadLock (λ guard,
    match master_key guard with
    | None => locked
    | Some root_key =>
      let version := active_key_version guard in
      let proceed :=
        or_error (decrypt_bytes root_key ciphertext) 500 (λ plaintext,
          Ret (Decrypted plaintext version)) in
      match key_version with
      | Some req_ver =>
        if negb (req_ver =? active_key_version guard) then
          err 409 ("Requested key version " +s+ pretty req_ver +s+
                   " does not match active key version " +s+
                   pretty (active_key_version guard))
        else proceed
      | None => proceed
      end
    end).

Definition signing_algorithm_supported (algorithm : string) : bool :=
  String.eqb algorithm "ECDSA_P256" || String.eqb algorithm "ECDSA_P256_SHA256"
  || String.eqb algorithm "ECDSA_P256-SHA256".

Definition handle_sign_with_ca_key (ca_tag algorithm : string) (tbs : list byte) : prog :=
  ReadLock (λ guard,
    let key_opt := active_ca_keys guard !! ca_tag in
    DropGuard match key_opt with
    | None => err 404 ("CA with tag '" +s+ ca_tag +s+ "' not loaded")
    | Some sk_bytes =>
      if negb (signing_algorithm_supported algorithm) then
        err 400 "Unsupported signing algorithm"
      else if negb (length sk_bytes =? 32)%nat then
        err 500 "Invalid CA private key length"
      else match sk_from_bytes sk_bytes with
      | None => err 500 "Failed to construct signing key"
      | Some signing_key => Ret (Signature (sk_sign_digest signing_key (sha256 tbs)))
      end
    end).

Definition handle_request (request : HsmRequest) : prog :=
  match request with
  | Ping => Ret Pong
  | Status => handle_status
  | GenerateCeremony threshold total_shares =>
      handle_generate_ceremony threshold total_shares
  | InitMasterKey threshold shares => handle_init_master_key threshold shares
  | GenerateKek algorithm => handle_generate_kek algorithm
  | GenerateDataKey wrapped_kek kek_version algorithm =>
      handle_generate_data_key wrapped_kek kek_version algorithm
  | GenerateRandomBytes length => handle_generate_random_bytes length
  | GenerateCredential password_length => handle_generate_credential password_length
  | InitRootCa ca_tag common_name validity_days algorithm =>
      handle_init_root_ca ca_tag common_name validity_days algorithm
  | LoadRootCa ca_tag encrypted_private_key =>
      handle_load_root_ca ca_tag encrypted_private_key
  | SignIntermediateCa ca_tag csr_pem validity_days =>
      handle_sign_intermediate_ca ca_tag csr_pem validity_days
  | SignWithCaKey ca_tag algorithm tbs => handle_sign_with_ca_key ca_tag algorithm tbs
  | GenerateRootCaKey algorithm => handle_generate_root_ca_key algorithm
  | Encrypt key_id key_version plaintext => handle_encrypt key_id key_version plaintext
  | Decrypt key_id key_version ciphertext => handle_decrypt key_id key_version ciphertext
  end.

End handlers.

(** ** Running a handler alone *)

Inductive answer := Replied (r : HsmResponse) | TaskPanicked (why : PanicReason) | ProcessAborted.

Fixpoint run (p : prog) (s : VhsmState) : answer * VhsmState :=
  match p with
  | Ret r => (Replied r, s)
  | Panic why => (TaskPanicked why, s)
  | Abort => (ProcessAborted, s)
  | ReadLock k => run (k s) s
  | WriteLock f k => run k (f s)
  | DropGuard k => run k s
  end.

(** ** Cryptographic lemmas *)

Section crypto_proofs.
  Context `{AeadLaws} `{SsssLaws}.

Lemma encrypt_bytes_inv k p d ct :
  encrypt_bytes k p d = Value (Ok ct) →
  ∃ c nonce body, new_from_slice k = Ok c ∧ length nonce = 12%nat ∧
    aead_encrypt c nonce p = Ok body ∧ ct = nonce ++ body.
Proof.
  unfold encrypt_bytes, fill_bytes. intros He.
  destruct (new_from_slice k) as [c|]; [|discriminate].
  destruct (d 12%nat) as [nonce|] eqn:Ed; [|discriminate].
  simpl in He. injection He as He. inv_ok.
  apply draw_length in Ed. by repeat eexists.
Qed.

Lemma decrypt_encrypt_bytes k p d ct :
  encrypt_bytes k p d = Value (Ok ct) → decrypt_bytes k ct = Ok p.
Proof.
  intros (c & nonce & body & Hc & Hn & Hb & ->)%encrypt_bytes_inv.
  unfold decrypt_bytes. rewrite length_app, Hn. simpl. rewrite Hc. simpl.
  rewrite <- Hn, take_app_length, drop_app_length.
  by rewrite (decrypt_encrypt _ _ _ _ Hb).
Qed.

Lemma encrypt_bytes_total k p ent i :
  length k = 32%nat → blen p ≤ 68719476736 → entropy_total ent →
  ∃ ct, encrypt_bytes k p (ent i) = Value (Ok ct).
Proof.
  intros Hk Hp Hent. unfold encrypt_bytes, fill_bytes.
  destruct (new_from_slice_ok k Hk) as [c ->].
  destruct (Hent i 12%nat) as [nonce Hd]. rewrite Hd. simpl.
  apply draw_length in Hd.
  destruct (aead_encrypt_ok c nonce p Hd Hp) as [ct ->]. by eexists.
Qed.

Lemma first_duplicate_None seen shares :
  first_duplicate seen shares = None ↔
  NoDup shares.*1 ∧ ∀ i, i ∈ shares.*1 → i ∉ seen.
Proof.
  revert seen. induction shares as [|[i v] shares IH]; intros seen; simpl.
  - split; [|done]. intros _. split; [constructor|]. by intros i ?%elem_of_nil.
  - destruct (decide (i ∈ seen)) as [Hi|Hi].
    + split; [done|]. intros [_ Hs]. exfalso. apply (Hs i); [|done]. by constructor.
    + rewrite IH, NoDup_cons. setoid_rewrite elem_of_cons. split.
      * intros [Hnd Hs]. split_and!; [|done|].
        -- intros Hin. apply (Hs i Hin). set_solver.
        -- intros j [->|Hj]; [done|]. specialize (Hs j Hj). set_solver.
      * intros [[Hni Hnd] Hs]. split; [done|]. intros j Hj.
        rewrite elem_of_union, elem_of_singleton. intros [->|Hin]; [done|].
        apply (Hs j); auto.
Qed.

Lemma reconstruct_master_key_length shares key :
  reconstruct_master_key shares = Ok key → length key = 32%nat.
Proof.
  unfold reconstruct_master_key. intros Hr.
  destruct (length shares =? 0)%nat; [discriminate|].
  destruct (first_duplicate ∅ shares); [discriminate|]. inv_ok.
  case_match eqn:E; [discriminate|]. inv_ok.
  by apply negb_false_iff, Nat.eqb_eq in E.
Qed.

Lemma generate_and_split_inv total t d1 d2 key shares :
  generate_and_split_master_key total t d1 d2 = Value (Ok (key, shares)) →
  length key = 32%nat ∧
  split_shares (MkSecretKey key) total t d2 = Ok shares.
Proof.
  unfold generate_and_split_master_key, generate_master_key.
  destruct (SecretKey_generate d1) as [mk|] eqn:Eg; [|discriminate].
  intros [= Hr]. inv_ok. apply SecretKey_generate_wf in Eg. by destruct mk.
Qed.

Lemma reconstruct_split key total t d shares sub :
  0 ≤ total ≤ u8_max → length key = 32%nat →
  split_shares (MkSecretKey key) total t d = Ok shares →
  sub ⊆+ shares → t ≤ blen sub → reconstruct_master_key sub = Ok key.
Proof.
  intros Htot Hlen Hs Hsub Ht. unfold reconstruct_master_key.
  pose proof (combine_split_shares _ _ _ _ _ _ Hs Hsub Ht) as Hc. simpl in Hc.
  destruct (Nat.eqb_spec (length sub) 0) as [E|_].
  { apply combine_shares_inv in Hc as [Hc _]. rewrite length_fmap in Hc. lia. }
  rewrite (proj2 (first_duplicate_None ∅ sub)).
  - replace ((λ '(index, value), MkSecretShare index value) <$> sub) with (to_share <$> sub)
      by (apply list_fmap_ext; by intros ? []).
    rewrite Hc. simpl. by rewrite Hlen.
  - split; [|set_solver].
    apply split_shares_nodup in Hs; [|done].
    apply (fmap_submseteq fst) in Hsub. apply submseteq_Permutation in Hsub as [k Hk].
    rewrite Hk in Hs. by apply NoDup_app in Hs as [? _].
Qed.

End crypto_proofs.

(** ** The state invariant and what every handler respects *)

(** The key, the flag and the version agree; a sealed daemon holds no CA key;
    no unseal timer ever runs. *)
Definition state_wf (s : VhsmState) : Prop :=
  unseal_started_at s = None ∧
  match master_key s with
  | Some k => initialized s = true ∧ active_key_version s = 1 ∧ length k = 32%nat
  | None => initialized s = false ∧ active_key_version s = 0 ∧ active_ca_keys s = ∅
  end.

Definition is_unsealed (s : VhsmState) : bool :=
  match master_key s with Some _ => true | None => false end.
Definition unsealed (s : VhsmState) : Prop := is_unsealed s = true.

(** *** What the daemon promises: a vault

    Either sealed, or open with a key and a set of CA keys.  A vault may take
    a (new) key or load a CA key once open; it never closes. *)
Inductive vault := Sealed | Open (key : list byte) (cas : gmap string (list byte)).

Definition vault_cas (v : vault) : gmap string (list byte) :=
  match v with Sealed => ∅ | Open _ cas => cas end.

Inductive vault_step : vault → vault → Prop :=
| vault_stutter v : vault_step v v
| vault_install v key : length key = 32%nat → vault_step v (Open key (vault_cas v))
| vault_load key cas tag sk : vault_step (Open key cas) (Open key (<[tag := sk]> cas)).

Definition abs (s : VhsmState) : vault :=
  match master_key s with
  | Some key => Open key (active_ca_keys s)
  | None => Sealed
  end.

(** [safe u p]: from any well-formed state (unsealed, if [u]) that may change
    between critical sections but never becomes sealed, the handler keeps the
    state well-formed, changes it only as a vault may change, and never
    unwraps a missing key. *)
Fixpoint safe (u : bool) (p : prog) : Prop :=
  match p with
  | Ret _ | Abort => True
  | Panic why => why ≠ UnwrapNone
  | ReadLock k =>
    ∀ s, state_wf s → (u = true → unsealed s) →
      safe (u || is_unsealed s) (k s)
  | WriteLock f k =>
    (∀ s, state_wf s → (u = true → unsealed s) →
       state_wf (f s) ∧ vault_step (abs s) (abs (f s))) ∧ safe u k
  | DropGuard k => safe u k
  end.

(** *** Guards *)

Inductive guard := ReadGuard | WriteGuard.

(** A handler that holds the guards [gs] and has at most [n] more of them to
    take or to drop: it takes a guard only while it holds none, so that it
    cannot wait for itself, and drops only what it holds. *)
Fixpoint guarded (gs : list guard) (n : nat) (p : prog) {struct p} : Prop :=
  match p with
  | Ret _ | Panic _ | Abort => True
  | ReadLock k =>
    match n with O => False | S n => gs = [] ∧ ∀ s, guarded [ReadGuard] n (k s) end
  | WriteLock _ k =>
    match n with O => False | S n => gs = [] ∧ guarded [WriteGuard] n k end
  | DropGuard k =>
    match n with O => False | S n => gs ≠ [] ∧ guarded (tail gs) n k end
  end.

Definition no_unwrap {A} (m : outcome A) : Prop := m ≠ Panics UnwrapNone.

Lemma no_unwrap_bind {A B} (m : outcome A) (k : A → outcome B) :
  no_unwrap m → (∀ a, no_unwrap (k a)) → no_unwrap (outcome_bind m k).
Proof. unfold no_unwrap. destruct m; simpl; auto; congruence. Qed.
Lemma no_unwrap_value {A} (a : A) : no_unwrap (Value a).
Proof. done. Qed.
Lemma no_unwrap_fill d n : no_unwrap (fill_bytes d n).
Proof. unfold fill_bytes. by destruct (d n). Qed.
Lemma no_unwrap_or_panic {A} why (o : option A) :
  why ≠ UnwrapNone → no_unwrap (or_panic why o).
Proof. destruct o; unfold no_unwrap; simpl; congruence. Qed.
Lemma no_unwrap_aborts {A} : no_unwrap (@Aborts A).
Proof. done. Qed.
Lemma no_unwrap_pem b : no_unwrap (pem_encode b).
Proof. unfold pem_encode. by case_match. Qed.

#[export] Hint Resolve no_unwrap_value no_unwrap_fill no_unwrap_aborts no_unwrap_pem : kms.
#[export] Hint Extern 1 (no_unwrap (outcome_bind _ _)) =>
  apply no_unwrap_bind; [|intro] : kms.
#[export] Hint Extern 1 (no_unwrap (or_panic _ _)) =>
  apply no_unwrap_or_panic; discriminate : kms.

Ltac unfold_handler :=
  unfold handle_status, handle_generate_ceremony, handle_init_master_key,
    handle_generate_kek, handle_generate_data_key, handle_generate_random_bytes,
    handle_init_root_ca, handle_load_root_ca, handle_sign_intermediate_ca,
    handle_generate_credential, handle_encrypt, handle_generate_root_ca_key,
    handle_decrypt, handle_sign_with_ca_key.

Section handler_safety.
  Context `{SsssLib} `{Aead} `{Sha256} `{Hex} `{P256} `{X509}.

Lemma no_unwrap_encrypt k p d : no_unwrap (encrypt_bytes k p d).
Proof. unfold encrypt_bytes. case_match; auto with kms. Qed.
Lemma no_unwrap_generate n t d1 d2 : no_unwrap (generate_and_split_master_key n t d1 d2).
Proof. unfold generate_and_split_master_key. case_match; auto with kms. Qed.
Lemma no_unwrap_root_ca a b c n d1 d2 :
  no_unwrap (build_root_ca_certificate_pem a b c n d1 d2).
Proof. unfold build_root_ca_certificate_pem. auto 10 with kms. Qed.
Lemma no_unwrap_sign_cert a b c i n d :
  no_unwrap (build_and_sign_certificate a b c i n d).
Proof. unfold build_and_sign_certificate. repeat case_match; auto 10 with kms. Qed.

Lemma safe_with_outcome {A} u (m : outcome A) k :
  no_unwrap m → (∀ a, m = Value a → safe u (k a)) → safe u (with_outcome m k).
Proof. unfold no_unwrap. destruct m; simpl; naive_solver. Qed.
Lemma guarded_with_outcome {A} gs n (m : outcome A) k :
  (∀ a, guarded gs n (k a)) → guarded gs n (with_outcome m k).
Proof. destruct m; simpl; auto. Qed.

Lemma vault_step_unsealed s s' :
  vault_step (abs s) (abs s') → unsealed s → unsealed s'.
Proof.
  unfold unsealed, is_unsealed, abs. intros Hv.
  destruct (master_key s); [|done]. by destruct (master_key s'); [|inversion Hv].
Qed.

Lemma abs_cas s : state_wf s → vault_cas (abs s) = active_ca_keys s.
Proof. unfold state_wf, abs. by destruct (master_key s) as [|]; [|intros (_ & _ & _ & ->)]. Qed.

Lemma install_master_key_wf k s :
  state_wf s → length k = 32%nat →
  state_wf (install_master_key k s) ∧ vault_step (abs s) (abs (install_master_key k s)).
Proof.
  intros Hs Hk. split; [done|]. unfold abs at 2. simpl. rewrite <- abs_cas by done.
  by constructor.
Qed.

Lemma insert_ca_key_wf tag k s :
  state_wf s → unsealed s →
  state_wf (insert_ca_key tag k s) ∧ vault_step (abs s) (abs (insert_ca_key tag k s)).
Proof.
  unfold state_wf, unsealed, is_unsealed, abs, insert_ca_key; simpl.
  destruct (master_key s); [|done]. split; [done|constructor].
Qed.

(** Walks down a handler, one guard, call or critical section at a time. *)
Ltac walk_handler :=
  repeat first
    [ match goal with
      | |- safe _ (with_outcome _ _) =>
          apply safe_with_outcome;
          [solve [auto using no_unwrap_encrypt, no_unwrap_generate, no_unwrap_root_ca,
                    no_unwrap_sign_cert, no_unwrap_fill with kms]
          |intros ? ?]
      | |- guarded _ _ (with_outcome _ _) => apply guarded_with_outcome; intros ?
      | |- _ (or_error ?m _ _) => destruct m eqn:?; cbn [or_error]
      | |- safe _ (ReadLock _) => intros ? ? ?
      | |- safe _ (DropGuard _) => cbn [safe]
      | |- guarded _ (S _) (ReadLock _) => split; [done|intros ?]
      | |- guarded _ (S _) (WriteLock _ _) => split; [done|]
      | |- guarded _ (S _) (DropGuard _) => split; [done|]; cbn [tail]
      | |- _ (Ret _) => exact I
      | |- _ (err _ _) => exact I
      | |- _ locked => exact I
      | |- safe _ (Panic _) => discriminate
      | |- _ (if ?b then _ else _) => destruct b eqn:?
      | |- _ (match ?x with _ => _ end) => destruct x eqn:?
      end ].

Lemma handle_request_guarded ent now r : guarded [] 3 (handle_request ent now r).
Proof.
  destruct r; cbn [handle_request]; unfold_handler; walk_handler; exact I.
Qed.

Lemma handle_request_safe ent now r : safe false (handle_request ent now r).
Proof.
  destruct r; cbn [handle_request]; unfold_handler; walk_handler; cbn [orb].
  - split; [|exact I]. intros s' Hs' _.
    match goal with H : generate_and_split_master_key _ _ _ _ = Value (Ok _) |- _ =>
      apply generate_and_split_inv in H as [? _] end.
    by apply install_master_key_wf.
  - split; [|exact I]. intros s' Hs' _.
    match goal with H : reconstruct_master_key _ = Ok _ |- _ =>
      apply reconstruct_master_key_length in H end.
    by apply install_master_key_wf.
  - exfalso. unfold unsealed, is_unsealed in *.
    repeat match goal with E : master_key _ = _ |- _ => rewrite E in *; clear E end.
    naive_solver.
  - split; [|exact I]. intros s' Hs' Hu.
    assert (unsealed s') as Hu'.
    { apply Hu. unfold is_unsealed.
      match goal with E : master_key s = Some _ |- _ => by rewrite E end. }
    by apply insert_ca_key_wf.
Qed.

(** Running a safe handler to its end, alone. *)
Lemma run_safe u p s a s' :
  safe u p → state_wf s → (u = true → unsealed s) → run p s = (a, s') →
  state_wf s' ∧ (unsealed s → unsealed s') ∧ a ≠ TaskPanicked UnwrapNone.
Proof.
  revert u s. induction p as [r|w| |k IH|f k IH|k IH]; simpl; intros u s Hp Hs Hu Hr.
  - naive_solver.
  - naive_solver.
  - naive_solver.
  - eapply IH; [by apply Hp|done| |exact Hr].
    intros [H'|H']%orb_true_iff; [by apply Hu|done].
  - destruct Hp as [Hf Hk]. destruct (Hf s Hs Hu) as [Hwf Hv]; pose proof (vault_step_unsealed _ _ Hv).
    eapply IH in Hr; [|exact Hk|done|auto]. naive_solver.
  - by eapply IH.
Qed.
End handler_safety.

(** ** Properties of one request at a time *)

(** Requests whose answer needs the master key or a loaded CA key. *)
Definition uses_secret (r : HsmRequest) : bool :=
  match r with
  | Ping | Status | GenerateCeremony _ _ | InitMasterKey _ _ | GenerateRandomBytes _ => false
  | _ => true
  end.

Section request_properties.
  Context `{Hsss : SsssLib} `{Haead : Aead} `{Hsha : Sha256} `{Hhex : Hex} `{Hp256 : P256} `{Hx509 : X509}.

(** Every request, run on a well-formed state, leaves a well-formed state
    (key present exactly when the flag and the version say so, 32-byte key, no
    CA key while sealed), never seals an unsealed daemon, and never reaches
    the [unwrap] of a missing master key. *)
Theorem request_preserves_invariant ent now r s a s' :
  state_wf s → run (handle_request ent now r) s = (a, s') →
  state_wf s' ∧ (unsealed s → unsealed s') ∧ a ≠ TaskPanicked UnwrapNone.
Proof. intros Hs. by apply (run_safe false); [apply handle_request_safe|..]. Qed.

(** A sealed daemon answers every request that needs a secret with an
    error 403 or 404, without panicking and without changing its state. *)
Theorem sealed_daemon_refuses ent now r s :
  state_wf s → ¬ unsealed s → uses_secret r = true →
  ∃ code msg, run (handle_request ent now r) s = (Replied (Error code msg), s) ∧
    (code = 403 ∨ code = 404).
Proof.
  intros [_ Hs] Hu Hr. unfold unsealed, is_unsealed in Hu.
  destruct (master_key s) as [k|] eqn:Hk; [done|].
  destruct Hs as (_ & _ & Hca).
  destruct r; try discriminate; cbn [handle_request]; unfold_handler;
    try case_match; cbn [run]; rewrite ?Hk, ?Hca, ?lookup_empty; cbn [run]; eauto.
Qed.

Lemma run_init_master_key ent now t sub key s :
  1 ≤ t ≤ blen sub → reconstruct_master_key sub = Ok key →
  run (handle_request ent now (InitMasterKey t sub)) s =
  (Replied MasterKeyInitialized, install_master_key key s).
Proof.
  intros Ht Hr. simpl. unfold handle_init_master_key.
  destruct (Z.eqb_spec t 0); [lia|]. destruct (Z.ltb_spec (blen sub) t); [lia|].
  by rewrite Hr.
Qed.

Lemma run_generate_ceremony_inv ent now t n s shares s' :
  run (handle_request ent now (GenerateCeremony t n)) s =
    (Replied (CeremonyGenerated shares), s') →
  ∃ key, length key = 32%nat ∧ split_shares (MkSecretKey key) n t (ent 1) = Ok shares ∧
    s' = install_master_key key s.
Proof.
  simpl. destruct (initialized s); [discriminate|].
  destruct (generate_and_split_master_key n t (ent 0) (ent 1)) as [[[key ss]|]| |] eqn:E;
    try discriminate.
  simpl. intros [= -> <-]. apply generate_and_split_inv in E as [? ?]. eauto.
Qed.

Lemma run_encrypt_inv ent now kid kv p s ct v s' :
  run (handle_request ent now (Encrypt kid kv p)) s = (Replied (Encrypted ct v), s') →
  kid = "master_key" ∧ s' = s ∧ v = active_key_version s ∧
  ∃ k, master_key s = Some k ∧ encrypt_bytes k p (ent 0) = Value (Ok ct).
Proof.
  simpl. unfold handle_encrypt.
  destruct (String.eqb_spec kid "master_key"); [|discriminate]. simpl.
  destruct (master_key s) as [k|] eqn:Hk; [|discriminate].
  destruct (encrypt_bytes k p (ent 0)) as [[c|]| |] eqn:E;
    destruct kv as [req|]; try (destruct (Z.eqb_spec req (active_key_version s)));
    simpl; intros; simplify_eq; split_and!; eauto.
Qed.

Lemma run_decrypt ent now c s k p :
  master_key s = Some k → decrypt_bytes k c = Ok p →
  run (handle_request ent now (Decrypt "master_key" (Some (active_key_version s)) c)) s =
  (Replied (Decrypted p (active_key_version s)), s).
Proof.
  intros Hk Hd. unfold handle_request, handle_decrypt. simpl. rewrite Hk.
  rewrite Z.eqb_refl. simpl. by rewrite Hd.
Qed.

End request_properties.

Section request_roundtrips.
  Context `{SsssLaws} `{AeadLaws} `{Hsha : Sha256} `{Hhex : Hex} `{Hp256 : P256} `{Hx509 : X509}.

(** C5: the life of a master key.  What a daemon encrypts after its ceremony
    is decrypted by any freshly started daemon that was unsealed with any
    collection of at least [t] of the shares the ceremony handed out. *)
Theorem ceremony_lifecycle ent1 now1 ent2 now2 ent3 now3 ent4 now4
    t n shares s1 kv p ct v s1' sub :
  0 ≤ n ≤ u8_max →
  run (handle_request ent1 now1 (GenerateCeremony t n)) VhsmState_new =
    (Replied (CeremonyGenerated shares), s1) →
  run (handle_request ent2 now2 (Encrypt "master_key" kv p)) s1 =
    (Replied (Encrypted ct v), s1') →
  sub ⊆+ shares → t ≤ blen sub →
  ∃ s2,
    run (handle_request ent3 now3 (InitMasterKey t sub)) VhsmState_new =
      (Replied MasterKeyInitialized, s2) ∧
    run (handle_request ent4 now4 (Decrypt "master_key" (Some v) ct)) s2 =
      (Replied (Decrypted p v), s2).
Proof.
  intros Hn (key & Hlen & Hsplit & ->)%run_generate_ceremony_inv Henc Hsub Hsz.
  apply run_encrypt_inv in Henc as (_ & _ & -> & k & Hk & Henc).
  injection Hk as <-. exists (install_master_key key VhsmState_new). split.
  - apply run_init_master_key; [|by eapply reconstruct_split].
    apply split_shares_inv in Hsplit as (? & Hs & _).
    apply split_secret_inv in Hs as (_ & Ht & _). lia.
  - apply (run_decrypt ent4 now4 ct (install_master_key key VhsmState_new) key);
      [done|]. by eapply decrypt_encrypt_bytes.
Qed.

(** An unsealed daemon encrypts any payload under the version it reports,
    and decrypts the result back to the payload. *)
Theorem encrypt_then_decrypt ent now ent' now' s p kv :
  state_wf s → unsealed s → entropy_total ent → blen p ≤ 68719476736 →
  kv = None ∨ kv = Some 1 →
  ∃ ct, run (handle_request ent now (Encrypt "master_key" kv p)) s =
          (Replied (Encrypted ct 1), s) ∧
        run (handle_request ent' now' (Decrypt "master_key" kv ct)) s =
          (Replied (Decrypted p 1), s).
Proof.
  intros [_ Hs] Hu Hent Hp Hkv. unfold unsealed, is_unsealed in Hu.
  destruct (master_key s) as [k|] eqn:Hk; [|done]. destruct Hs as (_ & Hv & Hlen).
  destruct (encrypt_bytes_total k p ent 0 Hlen Hp Hent) as [ct Hct].
  pose proof (decrypt_encrypt_bytes _ _ _ _ Hct) as Hdec.
  exists ct. cbn [handle_request]. unfold_handler. cbn -[encrypt_bytes decrypt_bytes].
  destruct Hkv as [-> | ->]; cbn -[encrypt_bytes decrypt_bytes];
    rewrite Hk; cbn -[encrypt_bytes decrypt_bytes]; rewrite Hv;
    cbn -[encrypt_bytes decrypt_bytes]; rewrite Hct, Hdec; done.
Qed.

(** Envelope encryption.  A KEK generated by the daemon is accepted back
    by [GenerateDataKey], and the data key it returns in the clear is the one
    wrapped under the KEK that the root key unwraps. *)
Theorem data_key_envelope ent now ent' now' s k :
  state_wf s → master_key s = Some k → entropy_total ent → entropy_total ent' →
  ∃ wrapped_kek kek dek wrapped_dek,
    run (handle_request ent now (GenerateKek "AES256GCM")) s =
      (Replied (KekGenerated wrapped_kek 1 1 "AES256GCM"), s) ∧
    run (handle_request ent' now' (GenerateDataKey wrapped_kek (Some 1) "AES256GCM")) s =
      (Replied (DataKeyGenerated dek wrapped_dek 1 1), s) ∧
    decrypt_bytes k wrapped_kek = Ok kek ∧ decrypt_bytes kek wrapped_dek = Ok dek ∧
    length kek = 32%nat ∧ length dek = 32%nat.
Proof.
  intros [_ Hs] Hk Hent Hent'. rewrite Hk in Hs. destruct Hs as (_ & Hv & Hlen).
  destruct (Hent 0 32%nat) as [kek Hkek]. destruct (Hent' 0 32%nat) as [dek Hdek].
  pose proof (draw_length _ _ _ Hkek) as Lk. pose proof (draw_length _ _ _ Hdek) as Ld.
  destruct (encrypt_bytes_total k kek ent 1 Hlen) as [wk Hwk];
    [unfold blen; lia|done|].
  destruct (encrypt_bytes_total kek dek ent' 1 Lk) as [wd Hwd];
    [unfold blen; lia|done|].
  pose proof (decrypt_encrypt_bytes _ _ _ _ Hwk) as Hdk.
  exists wk, kek, dek, wd. split_and!; try done; [| |by eapply decrypt_encrypt_bytes].
  - cbn [handle_request]. unfold handle_generate_kek. cbn [run]. rewrite Hk.
    change (trim "AES256GCM") with "AES256GCM"%string. cbn [negb String.eqb].
    unfold fill_bytes at 1. rewrite Hkek. cbn [with_outcome]. rewrite Hwk, Hv. done.
  - cbn [handle_request]. unfold handle_generate_data_key. cbn [run]. rewrite Hk.
    change (trim "AES256GCM") with "AES256GCM"%string. rewrite Hdk.
    unfold fill_bytes at 1. rewrite Hdek. cbn [with_outcome]. rewrite Hwd, Hv. done.
Qed.

Lemma run_init_root_ca_inv ent now tag cn days alg s enc pub v alg' cert s1 :
  run (handle_request ent now (InitRootCa tag cn days alg)) s =
    (Replied (RootCaKeyGenerated enc pub v alg' cert), s1) →
  s1 = s ∧ ∃ k sk pem, master_key s = Some k ∧
    build_root_ca_certificate_pem tag cn days now (ent 1) (ent 2) =
      Value (Ok (sk, pub, pem)) ∧
    cert = Some pem ∧ encrypt_bytes k sk (ent 4) = Value (Ok enc).
Proof.
  cbn [handle_request]. unfold handle_init_root_ca. cbn [run].
  destruct (master_key s) as [k|] eqn:Hk; [|discriminate].
  case_match; [discriminate|].
  destruct (sk_random (ent 0)) as [sk0|]; [|discriminate].
  cbn [or_panic with_outcome].
  destruct (build_root_ca_certificate_pem tag cn days now (ent 1) (ent 2))
    as [[[[sk pb] pem]|]| |] eqn:Eb; try discriminate.
  cbn [with_outcome or_error run]. rewrite Hk.
  destruct (encrypt_bytes k (sk_to_bytes sk0) (ent 3)) as [[w|]| |]; try discriminate.
  cbn [with_outcome or_error].
  destruct (encrypt_bytes k sk (ent 4)) as [[e|]| |] eqn:Ee; try discriminate.
  cbn [with_outcome or_error run]. intros. simplify_eq. eauto 10.
Qed.

(** The encrypted key [InitRootCa] returns is the private key of the
    certificate it returns: loaded back under any tag, it is the key with
    which [SignWithCaKey] signs. *)
Theorem root_ca_lifecycle ent now tag cn days alg s enc pub v alg' cert s1
    ent2 now2 tag2 :
  run (handle_request ent now (InitRootCa tag cn days alg)) s =
    (Replied (RootCaKeyGenerated enc pub v alg' cert), s1) →
  ∃ sk pem s2,
    build_root_ca_certificate_pem tag cn days now (ent 1) (ent 2) =
      Value (Ok (sk, pub, pem)) ∧ cert = Some pem ∧
    run (handle_request ent2 now2 (LoadRootCa tag2 enc)) s1 =
      (Replied MasterKeyInitialized, s2) ∧
    ∀ ent3 now3 key tbs, length sk = 32%nat → sk_from_bytes sk = Some key →
      run (handle_request ent3 now3 (SignWithCaKey tag2 "ECDSA_P256" tbs)) s2 =
        (Replied (Signature (sk_sign_digest key (sha256 tbs))), s2).
Proof.
  intros (-> & k & sk & pem & Hk & Hb & -> & He)%run_init_root_ca_inv.
  exists sk, pem, (insert_ca_key tag2 sk s). split_and!; [done|done| |].
  - cbn [handle_request]. unfold handle_load_root_ca. cbn [run]. rewrite Hk.
    by rewrite (decrypt_encrypt_bytes _ _ _ _ He).
  - intros ent3 now3 key tbs Hlen Hkey. cbn [handle_request].
    unfold handle_sign_with_ca_key. cbn [run insert_ca_key active_ca_keys].
    rewrite lookup_insert_eq. cbn [negb signing_algorithm_supported String.eqb].
    simpl. by rewrite Hlen, Hkey.
Qed.

Lemma first_duplicate_in seen shares i :
  first_duplicate seen shares = Some i → i ∈ shares.*1.
Proof.
  revert seen. induction shares as [|[j v] shares IH]; simpl; [done|].
  intros seen. case_match; [intros [= ->]; by constructor|].
  intros ?%IH. by constructor.
Qed.

(** An unseal attempt in which two shares carry the same index is refused
    with error 422 naming such an index, and leaves the daemon as it was. *)
Theorem duplicate_share_refused ent now t sub s :
  1 ≤ t ≤ blen sub → ¬ NoDup sub.*1 →
  ∃ i, i ∈ sub.*1 ∧
    run (handle_request ent now (InitMasterKey t sub)) s =
    (Replied (Error 422 ("Duplicate share index detected: " +s+ pretty i)), s).
Proof.
  intros Ht Hnd. cbn [handle_request]. unfold handle_init_master_key.
  destruct (Z.eqb_spec t 0); [lia|]. destruct (Z.ltb_spec (blen sub) t); [lia|].
  unfold reconstruct_master_key.
  destruct (Nat.eqb_spec (length sub) 0) as [E|_]; [unfold blen in *; lia|].
  destruct (first_duplicate ∅ sub) as [i|] eqn:Ed.
  - exists i. split; [by eapply first_duplicate_in|done].
  - apply first_duplicate_None in Ed as [? _]. done.
Qed.

End request_roundtrips.

(** ** Concrete instances of the properties *)

Import Concrete.

Definition key7 : list byte := replicate 32 (byte_of_Z 7).
Definition open_state : VhsmState := install_master_key key7 VhsmState_new.
Definition ent0 : Entropy := entropy_count.

Lemma entropy_count_total : entropy_total entropy_count.
Proof. intros i n. by eexists. Qed.

Lemma request_preserves_invariant_witness :
  ∃ s', run (handle_request ent0 0 (GenerateCeremony 2 3)) VhsmState_new =
          (Replied (CeremonyGenerated (imap (λ i v, (Z.of_nat i + 1, v))
             (replicate 3 (rep_share 2 (replicate 32 (byte_of_Z 0)))))), s') ∧
        state_wf s'.
Proof.
  eexists. split; [vm_compute; reflexivity|].
  eapply (request_preserves_invariant ent0 0 (GenerateCeremony 2 3) VhsmState_new);
    [done|vm_compute; reflexivity].
Defined.

Lemma sealed_daemon_refuses_witness :
  ∃ code msg,
    run (handle_request ent0 0 (Encrypt "master_key" None [])) VhsmState_new =
      (Replied (Error code msg), VhsmState_new) ∧ (code = 403 ∨ code = 404).
Proof. apply sealed_daemon_refuses; [done|by vm_compute|done]. Defined.

Lemma ceremony_lifecycle_witness :
  ∃ shares s1 ct s2,
    run (handle_request ent0 0 (GenerateCeremony 2 3)) VhsmState_new =
      (Replied (CeremonyGenerated shares), s1) ∧
    run (handle_request ent0 0 (InitMasterKey 2 (drop 1 shares))) VhsmState_new =
      (Replied MasterKeyInitialized, s2) ∧
    run (handle_request ent0 0 (Decrypt "master_key" (Some 1) ct)) s2 =
      (Replied (Decrypted key7 1), s2).
Proof.
  destruct (ceremony_lifecycle ent0 0 ent0 0 ent0 0 ent0 0 2 3
    (imap (λ i v, (Z.of_nat i + 1, v))
       (replicate 3 (rep_share 2 (replicate 32 (byte_of_Z 0)))))
    (install_master_key (replicate 32 (byte_of_Z 0)) VhsmState_new) None key7
    (replicate 12 (byte_of_Z 0) ++ replicate 32 (byte_of_Z 0) ++
     replicate 12 (byte_of_Z 0) ++ key7) 1
    (install_master_key (replicate 32 (byte_of_Z 0)) VhsmState_new)
    (drop 1 (imap (λ i v, (Z.of_nat i + 1, v))
       (replicate 3 (rep_share 2 (replicate 32 (byte_of_Z 0)))))))
    as (s2 & H1 & H2).
  - vm_compute; split; discriminate.
  - vm_compute; reflexivity.
  - vm_compute; reflexivity.
  - apply submseteq_drop.
  - vm_compute; discriminate.
  - do 4 eexists. split; [vm_compute; reflexivity|]. split; [exact H1|exact H2].
Defined.

Lemma encrypt_then_decrypt_witness :
  ∃ ct, run (handle_request ent0 0 (Encrypt "master_key" (Some 1) key7)) open_state =
          (Replied (Encrypted ct 1), open_state) ∧
        run (handle_request ent0 0 (Decrypt "master_key" (Some 1) ct)) open_state =
          (Replied (Decrypted key7 1), open_state).
Proof.
  apply encrypt_then_decrypt; [done|done|exact entropy_count_total| |by right].
  vm_compute; discriminate.
Defined.

Lemma data_key_envelope_witness :
  ∃ wrapped_kek kek dek wrapped_dek,
    run (handle_request ent0 0 (GenerateKek "AES256GCM")) open_state =
      (Replied (KekGenerated wrapped_kek 1 1 "AES256GCM"), open_state) ∧
    run (handle_request ent0 0 (GenerateDataKey wrapped_kek (Some 1) "AES256GCM"))
      open_state = (Replied (DataKeyGenerated dek wrapped_dek 1 1), open_state) ∧
    decrypt_bytes key7 wrapped_kek = Ok kek ∧ decrypt_bytes kek wrapped_dek = Ok dek ∧
    length kek = 32%nat ∧ length dek = 32%nat.
Proof.
  apply data_key_envelope; [done|done|exact entropy_count_total|exact entropy_count_total].
Defined.

Lemma root_ca_lifecycle_witness :
  ∃ enc s2,
    run (handle_request ent0 0 (InitRootCa "root" "cn" 30 "ECDSA_P256")) open_state =
      (Replied (RootCaKeyGenerated enc (byte_of_Z 4 :: replicate 32 (byte_of_Z 2)) 1
         "ECDSA_P256" (Some "cn"%string)), open_state) ∧
    run (handle_request ent0 0 (SignWithCaKey "root" "ECDSA_P256" [])) s2 =
      (Replied (Signature (replicate 32 (byte_of_Z 2) ++ sha256 [])), s2).
Proof.
  destruct (root_ca_lifecycle ent0 0 "root" "cn" 30 "ECDSA_P256" open_state
    (replicate 12 (byte_of_Z 4) ++ key7 ++ replicate 12 (byte_of_Z 4) ++
     replicate 32 (byte_of_Z 2))
    (byte_of_Z 4 :: replicate 32 (byte_of_Z 2)) 1 "ECDSA_P256" (Some "cn"%string)
    open_state ent0 0 "root") as (sk & pem & s2 & Hb & Hc & Hl & Hs).
  { vm_compute. reflexivity. }
  assert (sk = replicate 32 (byte_of_Z 2)) as ->.
  { vm_compute in Hb. injection Hb as <- _. vm_compute. reflexivity. }
  do 2 eexists. split; [vm_compute; reflexivity|].
  apply (Hs ent0 0 (replicate 32 (byte_of_Z 2)) []); reflexivity.
Defined.

Lemma duplicate_share_refused_witness :
  ∃ i, i ∈ [1; 1] ∧
    run (handle_request ent0 0 (InitMasterKey 2 [(1, "a"%string); (1, "b"%string)])) open_state =
    (Replied (Error 422 ("Duplicate share index detected: " +s+ pretty i)), open_state).
Proof.
  apply (duplicate_share_refused ent0 0 2 [(1, "a"%string); (1, "b"%string)] open_state).
  - vm_compute; split; discriminate.
  - intros Hnd. inversion_clear Hnd as [|? ? Hni _]. apply Hni. by constructor.
Defined.
