(* ===== verification/Daemon.v ===== *)
(** * The vHSM daemon: connections, concurrency and the unseal timer

    Models [run_unix_listener] of [vhsm-daemon/src/listener.rs] and the
    timeout checker of [vhsm-daemon/src/main.rs].  A configuration holds the
    shared state and one task per accepted connection; the tasks' critical
    sections interleave in any order with each other, with new connections
    and with the checker. *)

From S2P Require Import Prelude.
From S2P Require Import Interfaces.
From S2P Require Import Sss.
From S2P Require Import Protocol.
From S2P Require Import Certificate.
From S2P Require Import Vhsm.

Definition MAX_PAYLOAD_SIZE : Z := 64 * 1024.
Definition MAX_CONCURRENT_REQUESTS : nat := 100.
(** 15 minutes, in nanoseconds *)
Definition UNSEAL_TIMEOUT : Z := 15 * 60 * 1000000000.

(** Steps 1 to 3 of a connection; [None] is a connection dropped without an
    answer.  Only an expired timeout is an error here: after a failed read
    the task goes on with what the buffer holds. *)
Definition read_request (st : Stream) : option (list byte) :=
  let '(o1, len_buf, st) := read_exact 4 st in
  match o1 with
  | Elapsed => None
  | Completed _ =>
    let len := u32_from_be_bytes len_buf in
    if MAX_PAYLOAD_SIZE <? len then None
    else
      let '(o2, payload, _) := read_exact (Z.to_nat len) st in
      match o2 with
      | Elapsed => None
      | Completed _ => Some payload
      end
  end.

(** Steps 5 to 7: the frame sent back, if any. *)
Definition reply_frame `{HsmCodec} (response : HsmResponse) : option (list byte) :=
  match response_to_vec response with
  | Err _ => None
  | Ok res_payload =>
    if MAX_PAYLOAD_SIZE <? blen res_payload then None
    else
      let frame_len := as_u32 (blen res_payload) in
      Some (u32_to_be_bytes frame_len ++ res_payload)
  end.

(** One tick of the checker, under the write lock. *)
Definition unseal_timeout_check (now : Z) (s : VhsmState) : VhsmState :=
  match unseal_started_at s with
  | Some started_at =>
    if negb (is_unsealed s) && (UNSEAL_TIMEOUT <=? now - started_at)
    then zeroize_key s else s
  | None => s
  end.

Inductive task :=
| Reading (st : Stream)
| Running (p : prog)
| Writing (r : HsmResponse).

(** How a connection ended. *)
Inductive event :=
| Dropped
| Answered (r : HsmResponse) (frame : option (list byte))
| Crashed (why : PanicReason).

Record daemon := MkDaemon {
  d_state : VhsmState;
  d_clock : Z;
  d_tasks : gmap nat task;
  d_next : nat;
  d_log : list (nat * event);
  d_alive : bool }.

Definition daemon_start : daemon :=
  {| d_state := VhsmState_new; d_clock := 0; d_tasks := ∅; d_next := 0;
     d_log := []; d_alive := true |}.

Definition set_task (i : nat) (t : task) (c : daemon) : daemon :=
  {| d_state := d_state c; d_clock := d_clock c; d_tasks := <[i := t]> (d_tasks c);
     d_next := d_next c; d_log := d_log c; d_alive := d_alive c |}.

Definition end_task (i : nat) (e : event) (c : daemon) : daemon :=
  {| d_state := d_state c; d_clock := d_clock c; d_tasks := delete i (d_tasks c);
     d_next := d_next c; d_log := (i, e) :: d_log c; d_alive := d_alive c |}.

Definition set_state (s : VhsmState) (c : daemon) : daemon :=
  {| d_state := s; d_clock := d_clock c; d_tasks := d_tasks c; d_next := d_next c;
     d_log := d_log c; d_alive := d_alive c |}.

(** Time passes. *)
Definition tick (dt : Z) (c : daemon) : daemon :=
  {| d_state := d_state c; d_clock := d_clock c + dt; d_tasks := d_tasks c; d_next := d_next c;
     d_log := d_log c; d_alive := d_alive c |}.

(** The end of the process. *)
Definition die (c : daemon) : daemon :=
  {| d_state := d_state c; d_clock := d_clock c; d_tasks := d_tasks c; d_next := d_next c;
     d_log := d_log c; d_alive := false |}.

(** The accept loop: a permit of the semaphore for each connection. *)
Definition accept (st : Stream) (c : daemon) : daemon :=
  if (size (d_tasks c) <? MAX_CONCURRENT_REQUESTS)%nat then
    {| d_state := d_state c; d_clock := d_clock c;
       d_tasks := <[d_next c := Reading st]> (d_tasks c);
       d_next := S (d_next c); d_log := d_log c; d_alive := d_alive c |}
  else c.

(** What a panic does: it ends the task, or, in a build with
    [panic = "abort"], as the release profile has it, the daemon. *)
Class BuildProfile := { panic_aborts : bool }.

Section daemon_steps.
  Context `{SsssLib} `{Aead} `{Sha256} `{Hex} `{P256} `{X509} `{HsmCodec} `{BuildProfile}.

(** Step 4: the handler of the request, or the answer to an unreadable one. *)
Definition serve (ent : Entropy) (now : Z) (payload : list byte) : prog :=
  match request_from_slice payload with
  | Ok req => handle_request ent now req
  | Err e => Ret (Error 400 ("Failed to deserialize HSM request: " +s+ e))
  end.

(** One step of a task on the shared state; [None] when there is none. *)
Definition task_step (ent : Entropy) (now : Z) (i : nat) (c : daemon) : option daemon :=
  match d_tasks c !! i with
  | None => None
  | Some (Reading st) =>
    Some match read_request st with
         | None => end_task i Dropped c
         | Some payload => set_task i (Running (serve ent now payload)) c
         end
  | Some (Running p) =>
    Some match p with
         | Ret r => set_task i (Writing r) c
         | Panic why =>
           if panic_aborts then die (end_task i (Crashed why) c) else end_task i (Crashed why) c
         | Abort => die c
         | ReadLock k => set_task i (Running (k (d_state c))) c
         | WriteLock f k => set_task i (Running k) (set_state (f (d_state c)) c)
         | DropGuard k => set_task i (Running k) c
         end
  | Some (Writing r) => Some (end_task i (Answered r (reply_frame r)) c)
  end.

(** A step is labelled with the task that takes it, if any. *)
Inductive step : option nat → daemon → daemon → Prop :=
| step_accept st c : d_alive c = true → step None c (accept st c)
| step_task ent now i c c' :
    d_alive c = true → task_step ent now i c = Some c' → step (Some i) c c'
| step_tick dt c :
    d_alive c = true → 0 ≤ dt → step None c (tick dt c)
| step_check c :
    d_alive c = true →
    step None c (set_state (unseal_timeout_check (d_clock c) (d_state c)) c).

(** Executions with the labels of their steps. *)
Inductive steps : list (option nat) → daemon → daemon → Prop :=
| steps_nil c : steps [] c c
| steps_cons l ls c1 c2 c3 : step l c1 c2 → steps ls c2 c3 → steps (l :: ls) c1 c3.

Definition reachable (c : daemon) : Prop := ∃ ls, steps ls daemon_start c.

(** Executions driven by a schedule. *)
Inductive action :=
| DoAccept (st : Stream)
| DoTask (ent : Entropy) (now : Z) (i : nat)
| DoCheck.

Definition do_action (a : action) (c : daemon) : option daemon :=
  if d_alive c then
    match a with
    | DoAccept st => Some (accept st c)
    | DoTask ent now i => task_step ent now i c
    | DoCheck => Some (set_state (unseal_timeout_check (d_clock c) (d_state c)) c)
    end
  else None.

Fixpoint do_actions (l : list action) (c : daemon) : option daemon :=
  match l with
  | [] => Some c
  | a :: l => match do_action a c with Some c' => do_actions l c' | None => None end
  end.

(** The socket of a daemon in state [s] that serves the connection alone:
    the client sends one frame and then waits. *)
Definition vhsm_socket (ent : Entropy) (now : Z) (s : VhsmState) : Network := {|
  net_connect _ _ := Completed (Ok tt);
  net_write _ _ _ := Completed (Ok tt);
  net_reply _ frame _ :=
    match read_request (MkStream frame true) with
    | None => MkStream [] false
    | Some payload =>
      match (run (serve ent now payload) s).1 with
      | Replied r =>
        match reply_frame r with Some f => MkStream f false | None => MkStream [] false end
      | TaskPanicked _ | ProcessAborted => MkStream [] false
      end
    end |}.

End daemon_steps.

(** ** Invariants *)

Section daemon_proofs.
  Context `{SsssLib} `{Aead} `{Sha256} `{Hex} `{P256} `{X509} `{HsmCodec} `{BuildProfile}.

Definition task_ok (s : VhsmState) (t : task) : Prop :=
  match t with
  | Running p => ∃ u, safe u p ∧ (u = true → unsealed s)
  | Reading _ | Writing _ => True
  end.

Record daemon_inv (c : daemon) : Prop := {
  inv_state : state_wf (d_state c);
  inv_size : (size (d_tasks c) ≤ MAX_CONCURRENT_REQUESTS)%nat;
  inv_tasks i t : d_tasks c !! i = Some t → task_ok (d_state c) t;
  inv_ids i t : d_tasks c !! i = Some t → (i < d_next c)%nat;
  inv_log e : e ∈ d_log c → e.2 ≠ Crashed UnwrapNone }.

Lemma serve_safe ent now payload : safe false (serve ent now payload).
Proof. unfold serve. case_match; [apply handle_request_safe|exact I]. Qed.

Lemma serve_guarded ent now payload : guarded [] 3 (serve ent now payload).
Proof. unfold serve. case_match; [apply handle_request_guarded|exact I]. Qed.

Lemma unseal_timeout_check_id now s : state_wf s → unseal_timeout_check now s = s.
Proof. intros [Ht _]. unfold unseal_timeout_check. by rewrite Ht. Qed.

Lemma set_task_inv i t t0 c :
  daemon_inv c → d_tasks c !! i = Some t0 → task_ok (d_state c) t →
  daemon_inv (set_task i t c).
Proof.
  intros [Hs Hz Ht Hi Hl] Hlk Hok. split; simpl; [done| | | |done].
  - rewrite map_size_insert_Some; eauto.
  - intros j t' [[<- <-]|[? ?]]%lookup_insert_Some; eauto.
  - intros j t' [[<- <-]|[? ?]]%lookup_insert_Some; eauto.
Qed.

Lemma end_task_inv i e c :
  daemon_inv c → e ≠ Crashed UnwrapNone → daemon_inv (end_task i e c).
Proof.
  intros [Hs Hz Ht Hi Hl] He. split; simpl; [done| | | |].
  - etrans; [apply map_subseteq_size, delete_subseteq|done].
  - intros j t' [? ?]%lookup_delete_Some; eauto.
  - intros j t' [? ?]%lookup_delete_Some; eauto.
  - intros e' [->|?]%elem_of_cons; eauto.
Qed.

(** The state may change under the other tasks as long as it is not sealed. *)
Lemma set_state_inv s' c :
  daemon_inv c → state_wf s' → vault_step (abs (d_state c)) (abs s') →
  daemon_inv (set_state s' c).
Proof.
  intros [Hs Hz Ht Hi Hl] Hs' Hv. split; simpl; try done.
  intros j t Hj. specialize (Ht j t Hj). destruct t as [|p|]; [done| |done].
  destruct Ht as (u & Hp & Hu). exists u. split; [done|].
  intros E. by eapply vault_step_unsealed; [exact Hv|apply Hu].
Qed.

Lemma die_inv c : daemon_inv c → daemon_inv (die c).
Proof. by destruct 1. Qed.

Lemma task_step_inv ent now i c c' :
  daemon_inv c → task_step ent now i c = Some c' →
  daemon_inv c' ∧ vault_step (abs (d_state c)) (abs (d_state c')).
Proof.
  intros Hinv. unfold task_step.
  destruct (d_tasks c !! i) as [t|] eqn:Hi; [|discriminate].
  pose proof (inv_tasks c Hinv i t Hi) as Hok. destruct t as [st|p|r].
  - intros [= <-]. destruct (read_request st) as [payload|].
    + split; [|constructor]. eapply set_task_inv; eauto.
      exists false. split; [apply serve_safe|done].
    + split; [|constructor]. by apply end_task_inv.
  - destruct Hok as (u & Hp & Hu). pose proof (inv_state c Hinv) as Hs.
    intros [= <-]. destruct p as [r|w| |k|f k|k]; simpl in Hp.
    + split; [|constructor]. by eapply set_task_inv.
    + assert (daemon_inv (end_task i (Crashed w) c)) by (apply end_task_inv; [done|congruence]).
      destruct panic_aborts; (split; [|constructor]); [by apply die_inv|done].
    + split; [|constructor]. by apply die_inv.
    + split; [|constructor]. eapply set_task_inv; eauto.
      eexists. split; [apply Hp; auto|]. intros [E|E]%orb_true_iff; auto.
    + destruct Hp as [Hf Hk]. destruct (Hf _ Hs Hu) as [Hs' Hv]. split; [|exact Hv].
      eapply set_task_inv; [by apply set_state_inv|exact Hi|]. simpl.
      exists u. split; [done|]. intros E. eapply vault_step_unsealed; eauto.
    + split; [|constructor]. eapply set_task_inv; eauto. by exists u.
  - intros [= <-]. split; [|constructor]. by apply end_task_inv.
Qed.

Lemma step_inv l c c' :
  daemon_inv c → step l c c' →
  daemon_inv c' ∧ vault_step (abs (d_state c)) (abs (d_state c')).
Proof.
  intros Hinv. destruct 1 as [st c Ha|ent now i c c' Ha Hst|dt c Ha Hdt|c Ha].
  - unfold accept. destruct (Nat.ltb_spec (size (d_tasks c)) MAX_CONCURRENT_REQUESTS);
      [|split; [done|constructor]].
    split; [|constructor]. destruct Hinv as [Hs Hz Ht Hi Hl].
    assert (d_tasks c !! d_next c = None) as Hfresh.
    { destruct (d_tasks c !! d_next c) as [t|] eqn:E; [|done].
      apply Hi in E. lia. }
    split; simpl; [done| | | |done].
    + rewrite map_size_insert_None by done. lia.
    + intros j t [[<- <-]|[? ?]]%lookup_insert_Some; [done|eauto].
    + intros j t [[<- <-]|[? Hj]]%lookup_insert_Some; [lia|]. apply Hi in Hj. lia.
  - by eapply task_step_inv.
  - split; [|constructor]. by destruct Hinv.
  - rewrite unseal_timeout_check_id by apply Hinv. destruct c; split; [done|constructor].
Qed.

Lemma daemon_start_inv : daemon_inv daemon_start.
Proof.
  split; simpl; try done.
  - rewrite map_size_empty. lia.
  - intros e He. by apply elem_of_nil in He.
Qed.

Lemma steps_inv ls c c' : daemon_inv c → steps ls c c' → daemon_inv c'.
Proof. intros Hc Hs. induction Hs; [done|]. apply IHHs. by eapply step_inv. Qed.

Lemma reachable_inv c : reachable c → daemon_inv c.
Proof. intros [ls Hs]. by eapply steps_inv; [apply daemon_start_inv|]. Qed.

End daemon_proofs.

(** ** Properties *)

Section daemon_properties.
  Context `{Hsss : SsssLib} `{Haead : Aead} `{Hsha : Sha256} `{Hhex : Hex} `{Hp256 : P256} `{Hx509 : X509} `{Hcodec : HsmCodec}
    `{Hprofile : BuildProfile}.

Lemma do_actions_steps acts c c' :
  do_actions acts c = Some c' → ∃ ls, steps ls c c'.
Proof.
  revert c. induction acts as [|a acts IH]; simpl; intros c.
  - intros [= <-]. exists []. constructor.
  - destruct (do_action a c) as [c1|] eqn:E; [|done]. intros [ls Hls]%IH.
    assert (∃ l, step l c c1) as [l Hl].
    { unfold do_action in E. destruct (d_alive c) eqn:Ha; [|done].
      destruct a; simplify_eq; eexists; by econstructor. }
    exists (l :: ls). by econstructor.
Qed.

(** C12: whatever the connections and however their tasks interleave, the
    shared state stays well-formed, at most 100 tasks run, and no task has
    died of the [unwrap] of a missing master key. *)
Theorem daemon_invariant c :
  reachable c →
  state_wf (d_state c) ∧ (size (d_tasks c) ≤ MAX_CONCURRENT_REQUESTS)%nat ∧
  ∀ i, (i, Crashed UnwrapNone) ∉ d_log c.
Proof.
  intros Hc%reachable_inv. split_and!; [apply Hc|apply Hc|].
  intros i Hi. by apply (inv_log c Hc _ Hi).
Qed.

(** C1: the interleaved daemon refines the vault: each of its steps is a step
    of the vault or leaves it unchanged, and the initial vault is sealed. *)
Theorem daemon_refines_vault l c c' :
  reachable c → step l c c' →
  abs (d_state daemon_start) = Sealed ∧ vault_step (abs (d_state c)) (abs (d_state c')).
Proof.
  intros Hc%reachable_inv Hs. split; [done|]. by eapply step_inv.
Qed.

(** Once unsealed, the daemon stays unsealed for the rest of its life. *)
Theorem unsealed_forever ls c c' :
  reachable c → unsealed (d_state c) → steps ls c c' → unsealed (d_state c').
Proof.
  intros Hc%reachable_inv Hu Hs. induction Hs as [|l ls c1 c2 c3 Hst Hs IH]; [done|].
  destruct (step_inv _ _ _ Hc Hst) as [Hc2 Hv].
  apply IH; [done|]. by eapply vault_step_unsealed.
Qed.

(** The unseal timeout never fires: no execution starts the timer, so in
    every reachable state the checker leaves the state as it is, however long
    the daemon has been running sealed. *)
Theorem unseal_timeout_never_fires c now :
  reachable c →
  unseal_started_at (d_state c) = None ∧
  unseal_timeout_check now (d_state c) = d_state c.
Proof.
  intros Hc%reachable_inv%inv_state. split; [apply Hc|by apply unseal_timeout_check_id].
Qed.

Lemma read_request_frame payload :
  blen payload ≤ MAX_HSM_FRAME_SIZE →
  read_request (MkStream (u32_to_be_bytes (blen payload) ++ payload) true) =
  if MAX_PAYLOAD_SIZE <? blen payload then None else Some payload.
Proof.
  intros Hp. unfold read_request. rewrite (read_exact_app 4) by done.
  rewrite blen_be_range by done. case_match; [done|].
  rewrite <- (app_nil_r payload) at 2.
  rewrite read_exact_app by (unfold blen; lia). done.
Qed.

Lemma daemon_frame_fits (l : list byte) : blen l ≤ MAX_PAYLOAD_SIZE → blen l ≤ MAX_HSM_FRAME_SIZE.
Proof. unfold MAX_PAYLOAD_SIZE, MAX_HSM_FRAME_SIZE. lia. Qed.

(** What the daemon writes for a framed request: the handler's answer, framed. *)
Lemma vhsm_socket_reply `{Hlaws : !HsmCodecLaws Hcodec} ent now s path req t bs r s' bs' :
  request_wf req = true → request_to_vec req = Ok bs → blen bs ≤ MAX_PAYLOAD_SIZE →
  run (handle_request ent now req) s = (Replied r, s') →
  response_to_vec r = Ok bs' → blen bs' ≤ MAX_PAYLOAD_SIZE →
  net_reply (Network := vhsm_socket ent now s) path (u32_to_be_bytes (blen bs) ++ bs) t =
  MkStream (u32_to_be_bytes (blen bs') ++ bs') false.
Proof.
  intros Hwf Hbs Hlen Hrun Hbs' Hlen'. cbn [net_reply vhsm_socket].
  rewrite read_request_frame by (by apply daemon_frame_fits).
  rewrite (proj2 (Z.ltb_ge _ _) Hlen). unfold serve.
  rewrite (request_roundtrip _ _ Hwf Hbs), Hrun. cbn [fst]. unfold reply_frame.
  rewrite Hbs', (proj2 (Z.ltb_ge _ _) Hlen'). do 2 f_equal.
  unfold as_u32, MAX_PAYLOAD_SIZE, blen in *. by rewrite Z.mod_small by lia.
Qed.

(** A request the daemon can read and an answer it can send cross the socket. *)
Lemma send_over_socket `{Hlaws : !HsmCodecLaws Hcodec} ent now s path req t bs r s' bs' :
  request_wf req = true → request_to_vec req = Ok bs → blen bs ≤ MAX_PAYLOAD_SIZE →
  run (handle_request ent now req) s = (Replied r, s') →
  response_wf r = true → response_to_vec r = Ok bs' → blen bs' ≤ MAX_PAYLOAD_SIZE →
  send_hsm_request (Hnet := vhsm_socket ent now s) path req t =
  match r with
  | Error code message =>
      Err (Remote ("HSM returned error " +s+ pretty code +s+ ": " +s+ message))
  | _ => Ok r
  end.
Proof.
  intros Hwf Hbs Hlen Hrun Hwfr Hbs' Hlen'. unfold send_hsm_request.
  cbn [net_connect net_write vhsm_socket timed_result map_err result_bind].
  rewrite Hbs. cbn [map_err result_bind].
  rewrite (proj2 (framed_message_ok bs _) (conj eq_refl (daemon_frame_fits _ Hlen))).
  cbn [result_bind]. rewrite (vhsm_socket_reply ent now s _ req _ bs r s' bs') by done.
  rewrite (proj2 (read_frame_iff _ bs')).
  - cbn [result_bind map_err]. rewrite (response_roundtrip _ _ Hwfr Hbs'). by destruct r.
  - exists (u32_to_be_bytes (blen bs') ++ bs'), []. rewrite framed_message_ok.
    split; [split; [done|by apply daemon_frame_fits]|]. by rewrite app_nil_r.
Qed.

(** C22: the client and the daemon agree on the protocol: a request whose
    encoding fits the daemon's 64 KiB limit is executed by its handler, and
    the client gets the handler's answer, an [Error] answer as
    [HsmClientError::Remote]. *)
Theorem rpc_transparent `{Hlaws : !HsmCodecLaws Hcodec} ent now s path req t bs r s' bs' :
  request_wf req = true → request_to_vec req = Ok bs → blen bs ≤ MAX_PAYLOAD_SIZE →
  run (handle_request ent now req) s = (Replied r, s') →
  response_wf r = true → response_to_vec r = Ok bs' → blen bs' ≤ MAX_PAYLOAD_SIZE →
  send_hsm_request (Hnet := vhsm_socket ent now s) path req t =
  match r with
  | Error code message =>
      Err (Remote ("HSM returned error " +s+ pretty code +s+ ": " +s+ message))
  | _ => Ok r
  end.
Proof. apply send_over_socket. Qed.

(** A request larger than the daemon's limit but within the client's is
    sent and silently dropped: whatever it asks, the client sees the
    connection end and the daemon's state is not consulted. *)
Theorem oversized_request_dropped ent now s path req t bs :
  request_to_vec req = Ok bs →
  MAX_PAYLOAD_SIZE < blen bs → blen bs ≤ MAX_HSM_FRAME_SIZE →
  send_hsm_request (Hnet := vhsm_socket ent now s) path req t = Err (Io UnexpectedEof).
Proof.
  intros Hbs Hgt Hle. unfold send_hsm_request.
  cbn [net_connect net_write net_reply vhsm_socket timed_result map_err result_bind].
  rewrite Hbs. cbn [map_err result_bind].
  rewrite (proj2 (framed_message_ok bs _) (conj eq_refl Hle)).
  cbn [result_bind]. rewrite read_request_frame by done.
  by rewrite (proj2 (Z.ltb_lt _ _) Hgt).
Qed.

(** A connection closed in the middle of a frame is still parsed and
    answered, on a payload padded with zero bytes: only an expired timeout
    ends it early. *)
Theorem truncated_request_served payload n :
  blen payload ≤ MAX_PAYLOAD_SIZE → (n ≤ length payload)%nat →
  read_request (MkStream (u32_to_be_bytes (blen payload) ++ take n payload) false) =
  Some (take n payload ++ replicate (length payload - n) (byte_of_Z 0)).
Proof.
  intros Hp Hn. assert (blen payload ≤ MAX_HSM_FRAME_SIZE) as Hp'
    by (unfold MAX_PAYLOAD_SIZE, MAX_HSM_FRAME_SIZE in *; lia).
  unfold read_request. rewrite (read_exact_app 4) by done.
  rewrite blen_be_range by done. rewrite (proj2 (Z.ltb_ge _ _) Hp).
  unfold read_exact. cbn [pending stalled]. unfold blen. rewrite Nat2Z.id.
  destruct (Nat.leb_spec (length payload) (length (take n payload))) as [Hl|Hl];
    rewrite length_take in *; [|by rewrite (Nat.min_l n) by lia].
  assert (n = length payload) as -> by lia.
  by rewrite Nat.sub_diag, !take_ge, app_nil_r by (rewrite ?length_take; lia).
Qed.

End daemon_properties.

(** ** Concrete executions *)

Import Concrete.

(** A codec for some of the messages: a tag byte and the fields. *)
Definition tag (z : Z) : byte := byte_of_Z z.

Definition small_request_to_vec (r : HsmRequest) : result (list byte) string :=
  match r with
  | Ping => Ok [tag 0]
  | GenerateCeremony t n => Ok [tag 1; tag t; tag n]
  | Encrypt k None p =>
      if String.eqb k "master_key" then Ok (tag 2 :: p) else Err "unsupported"
  | _ => Err "unsupported"
  end.

Definition small_request_from_slice (bs : list byte) : result HsmRequest string :=
  match bs with
  | [] => Err "empty"
  | b :: r =>
    if Z_of_byte b =? 0 then match r with [] => Ok Ping | _ => Err "length" end
    else if Z_of_byte b =? 1 then
      match r with
      | [t; n] => Ok (GenerateCeremony (Z_of_byte t) (Z_of_byte n))
      | _ => Err "length"
      end
    else if Z_of_byte b =? 2 then Ok (Encrypt "master_key" None r)
    else Err "tag"
  end.

Definition small_response_to_vec (r : HsmResponse) : result (list byte) string :=
  match r with
  | Pong => Ok [tag 0]
  | Encrypted c v => if v =? 1 then Ok (tag 2 :: c) else Err "unsupported"
  | _ => Err "unsupported"
  end.

Definition small_response_from_slice (bs : list byte) : result HsmResponse string :=
  match bs with
  | [] => Err "empty"
  | b :: r =>
    if Z_of_byte b =? 0 then match r with [] => Ok Pong | _ => Err "length" end
    else if Z_of_byte b =? 2 then Ok (Encrypted r 1)
    else Err "tag"
  end.

#[local] Instance small_codec : HsmCodec := {
  request_to_vec := small_request_to_vec;
  request_from_slice := small_request_from_slice;
  response_to_vec := small_response_to_vec;
  response_from_slice := small_response_from_slice }.

#[local] Instance small_codec_laws : HsmCodecLaws small_codec.
Proof.
  split; simpl; intros r bs Hwf Hr.
  - destruct r; simplify_eq/=; [done| |].
    + apply andb_true_iff in Hwf as [Ht Hn]. unfold is_u8, u8_max in *.
      unfold small_request_from_slice, tag. rewrite !Z_of_byte_of_Z.
      rewrite (Z.mod_small threshold), (Z.mod_small total_shares) by lia. done.
    + destruct key_version; [discriminate|].
      destruct (String.eqb_spec key_id "master_key"); simplify_eq. done.
  - destruct r; simplify_eq/=; [done|].
    destruct (Z.eqb_spec key_version 1); simplify_eq. done.
Qed.

#[local] Instance release : BuildProfile := {| panic_aborts := true |}.

(** A connection that carries one request. *)
Definition sends (r : HsmRequest) : Stream :=
  match small_request_to_vec r with
  | Ok bs => MkStream (u32_to_be_bytes (blen bs) ++ bs) true
  | Err _ => MkStream [] true
  end.

(** Two clients start a ceremony; both tasks check that the daemon is not
    initialized before either installs its key. *)
Definition race : list action :=
  [DoAccept (sends (GenerateCeremony 2 3)); DoAccept (sends (GenerateCeremony 2 3));
   DoTask (entropy_const (tag 1)) 0 0; DoTask (entropy_const (tag 2)) 0 1;
   DoTask ent0 0 0; DoTask ent0 0 1;
   DoTask ent0 0 0; DoTask ent0 0 0; DoTask ent0 0 0; DoTask ent0 0 0;
   DoTask ent0 0 1; DoTask ent0 0 1; DoTask ent0 0 1; DoTask ent0 0 1].

Definition after_race : daemon := default daemon_start (do_actions race daemon_start).

Lemma after_race_reachable : reachable after_race.
Proof.
  apply (do_actions_steps race). unfold after_race.
  destruct (do_actions race daemon_start) eqn:E; [done|].
  exfalso. revert E. vm_compute. discriminate.
Qed.

Lemma daemon_invariant_witness :
  state_wf (d_state after_race) ∧
  (size (d_tasks after_race) ≤ MAX_CONCURRENT_REQUESTS)%nat ∧
  ∀ i, (i, Crashed UnwrapNone) ∉ d_log after_race.
Proof. apply daemon_invariant. exact after_race_reachable. Defined.

Lemma start_reachable : reachable daemon_start.
Proof. exists []. constructor. Qed.

Definition one_ping : daemon := accept (sends Ping) daemon_start.

Lemma one_ping_step : step None daemon_start one_ping.
Proof. by apply step_accept. Qed.

Lemma daemon_refines_vault_witness :
  abs (d_state daemon_start) = Sealed ∧
  vault_step (abs (d_state daemon_start)) (abs (d_state one_ping)).
Proof. apply (daemon_refines_vault None); [exact start_reachable|exact one_ping_step]. Defined.

Lemma unsealed_forever_witness :
  unsealed (d_state (accept (sends Ping) after_race)).
Proof.
  apply (unsealed_forever [None] after_race); [exact after_race_reachable|by vm_compute|].
  eapply steps_cons; [|apply steps_nil]. apply step_accept. by vm_compute.
Defined.

Lemma unseal_timeout_never_fires_witness :
  unseal_started_at (d_state after_race) = None ∧
  unseal_timeout_check (100 * UNSEAL_TIMEOUT) (d_state after_race) = d_state after_race.
Proof. apply unseal_timeout_never_fires. exact after_race_reachable. Defined.

Lemma rpc_transparent_witness :
  send_hsm_request (Hnet := vhsm_socket ent0 0 VhsmState_new) "sock" Ping None = Ok Pong.
Proof.
  apply (rpc_transparent ent0 0 VhsmState_new "sock" Ping None [tag 0] Pong
           VhsmState_new [tag 0]); try reflexivity; vm_compute; discriminate.
Defined.

Definition big : list byte := replicate (Z.to_nat 70000) (tag 0).

Lemma oversized_request_dropped_witness :
  send_hsm_request (Hnet := vhsm_socket ent0 0 open_state) "sock"
    (Encrypt "master_key" None big) None = Err (Io UnexpectedEof).
Proof.
  apply (oversized_request_dropped ent0 0 open_state "sock" _ None (tag 2 :: big));
    [reflexivity|..]; unfold MAX_PAYLOAD_SIZE, MAX_HSM_FRAME_SIZE, blen, big;
    cbn [length]; rewrite length_replicate; lia.
Defined.

Lemma truncated_request_served_witness :
  read_request (MkStream (u32_to_be_bytes 3 ++ [tag 9]) false) =
  Some [tag 9; tag 0; tag 0].
Proof.
  apply (truncated_request_served [tag 9; tag 8; tag 7] 1);
    [vm_compute; discriminate|simpl; lia].
Defined.
