(* ===== verification/LockGuards.v ===== *)
(** * The lock of the vHSM daemon

    The tasks of the daemon ([vhsm-daemon/src/listener.rs]) and the timeout
    checker ([vhsm-daemon/src/main.rs]) share the state behind a lock of the
    [tokio] crate, [Arc<RwLock<VhsmState>>].  This file adds the lock to the
    daemon: a party asks for a guard, waits until the lock gives it one, and
    holds the guard until it drops it or returns.  Every
    run with the lock is a run of the daemon of [Daemon.v], whose critical
    sections interleave freely; no schedule of the tasks deadlocks, and without
    new connections every schedule ends with all of them served. *)

From S2P Require Import Prelude.
From S2P Require Import Interfaces.
From S2P Require Import Sss.
From S2P Require Import Protocol.
From S2P Require Import Certificate.
From S2P Require Import Vhsm.
From S2P Require Import Daemon.

(** ** The lock *)

(** Who takes guards: the task of a connection, or the checker. *)
Definition party : Type := option nat.

(** The daemon with its lock: the guards each party holds, and the parties that
    wait, the first one at the head. *)
Record locked_daemon := MkLocked {
  l_daemon : daemon;
  l_held : gmap party (list guard);
  l_queue : list (party * guard) }.

Definition locked_start : locked_daemon := MkLocked daemon_start ∅ [].

#[export] Instance guard_eq_dec : EqDecision guard.
Proof. solve_decision. Defined.

Definition held_of (h : gmap party (list guard)) (p : party) : list guard := default [] (h !! p).

(** A read guard is given when nobody holds a write guard, a write guard when
    nobody holds any. *)
Definition available (g : guard) (h : gmap party (list guard)) : bool :=
  match g with
  | ReadGuard => bool_decide (map_Forall (λ _ gs, WriteGuard ∉ gs) h)
  | WriteGuard => bool_decide (map_Forall (λ _ gs, gs = []) h)
  end.

(** The order in which [tokio] serves the parties that wait is up to the lock:
    whether the one at a place of the queue gets its guard.  Documented: a write
    guard excludes every other guard, and a lock that nobody holds is given to
    somebody who waits. *)
Class RwLockPolicy := {
  lock_admits : gmap party (list guard) → list (party * guard) → nat → bool }.

Class RwLockLaws (L : RwLockPolicy) := {
  admits_excludes h q k p g :
    q !! k = Some (p, g) → lock_admits h q k = true → available g h = true;
  admits_somebody h q :
    q ≠ [] → (∀ p, held_of h p = []) → ∃ k, is_Some (q !! k) ∧ lock_admits h q k = true }.

(** The guard a task needs to go on. *)
Definition lock_op (t : task) : option guard :=
  match t with
  | Running (ReadLock _) => Some ReadGuard
  | Running (WriteLock _ _) => Some WriteGuard
  | _ => None
  end.

(** The guards a task still holds after its next step: a guard is dropped where
    the handler drops it, all of them when it returns or unwinds. *)
Definition guards_after (t : task) (gs : list guard) : list guard :=
  match t with
  | Running (DropGuard _) => tail gs
  | Running (Ret _) | Running (Panic _) => []
  | _ => gs
  end.

(** The steps of the daemon's own work: a task asks for a guard, a party that
    waits gets one, a task goes on without the lock, the checker is done. *)
Inductive work_item := Request (i : nat) | Grant (k : nat) | Run (i : nat) | CheckDone.

Section locked_steps.
  Context `{SsssLib} `{Aead} `{Sha256} `{Hex} `{P256} `{X509} `{HsmCodec} `{BuildProfile}
    `{RwLockPolicy}.

Definition work_step (ent : Entropy) (now : Z) (w : work_item) (c : locked_daemon) :
    option locked_daemon :=
  let d := l_daemon c in
  match w with
  | Request i =>
    t ← d_tasks d !! i; g ← lock_op t;
    if bool_decide (Some i ∈ (l_queue c).*1) then None
    else Some (MkLocked d (l_held c) (l_queue c ++ [(Some i, g)]))
  | Grant k =>
    '(p, g) ← l_queue c !! k;
    if lock_admits (l_held c) (l_queue c) k then
      let held := <[p := g :: held_of (l_held c) p]> (l_held c) in
      let queue := delete k (l_queue c) in
      match p with
      | Some i => d' ← task_step ent now i d; Some (MkLocked d' held queue)
      | None =>
        Some (MkLocked (set_state (unseal_timeout_check (d_clock d) (d_state d)) d) held queue)
      end
    else None
  | Run i =>
    t ← d_tasks d !! i;
    match lock_op t with
    | Some _ => None
    | None =>
      d' ← task_step ent now i d;
      Some (MkLocked d' (<[Some i := guards_after t (held_of (l_held c) (Some i))]> (l_held c))
              (l_queue c))
    end
  | CheckDone =>
    match held_of (l_held c) None with
    | [] => None
    | _ => Some (MkLocked d (<[None := []]> (l_held c)) (l_queue c))
    end
  end.

Definition work (c c' : locked_daemon) : Prop :=
  d_alive (l_daemon c) = true ∧ ∃ ent now w, work_step ent now w c = Some c'.

(** The work, new connections, the passing of time, and the checker that wakes
    up and asks for its guard. *)
Inductive locked_step : locked_daemon → locked_daemon → Prop :=
| locked_work c c' : work c c' → locked_step c c'
| locked_accept st c :
    d_alive (l_daemon c) = true →
    locked_step c (MkLocked (accept st (l_daemon c)) (l_held c) (l_queue c))
| locked_tick dt c :
    d_alive (l_daemon c) = true → 0 ≤ dt →
    locked_step c (MkLocked (tick dt (l_daemon c)) (l_held c) (l_queue c))
| locked_wake c :
    d_alive (l_daemon c) = true → None ∉ (l_queue c).*1 → held_of (l_held c) None = [] →
    locked_step c (MkLocked (l_daemon c) (l_held c) (l_queue c ++ [(None, WriteGuard)])).

Definition locked_reachable (c : locked_daemon) : Prop := rtc locked_step locked_start c.

End locked_steps.

(** ** The lock only restricts the schedules *)

Section refinement.
  Context `{SsssLib} `{Aead} `{Sha256} `{Hex} `{P256} `{X509} `{HsmCodec} `{BuildProfile}
    `{RwLockPolicy}.

Lemma work_step_daemon ent now w c c' :
  d_alive (l_daemon c) = true → work_step ent now w c = Some c' →
  l_daemon c' = l_daemon c ∨ ∃ l, step l (l_daemon c) (l_daemon c').
Proof.
  intros Ha E. destruct w; cbn [work_step] in E.
  - apply bind_Some in E as (t & _ & (g & _ & E)%bind_Some). case_match; simplify_eq. by left.
  - apply bind_Some in E as ([[i|] g] & _ & E); destruct (lock_admits _ _ _); try done.
    + apply bind_Some in E as (d' & E & [= <-]). right. eexists. by eapply step_task.
    + injection E as <-. right. exists None. by apply step_check.
  - apply bind_Some in E as (t & _ & E). destruct (lock_op t); [done|].
    apply bind_Some in E as (d' & E & [= <-]). right. eexists. by eapply step_task.
  - case_match; [done|]. injection E as <-. by left.
Qed.

Lemma locked_step_daemon c c' :
  locked_step c c' → l_daemon c' = l_daemon c ∨ ∃ l, step l (l_daemon c) (l_daemon c').
Proof.
  destruct 1 as [c c' (Ha & ent & now & w & E)|st c Ha|dt c Ha Hdt|c Ha _ _].
  - by eapply work_step_daemon.
  - right. exists None. by apply step_accept.
  - right. exists None. by apply step_tick.
  - by left.
Qed.

Lemma steps_snoc ls c1 c2 l c3 : steps ls c1 c2 → step l c2 c3 → steps (ls ++ [l]) c1 c3.
Proof.
  induction 1 as [|l' ls a b c' Hs _ IH]; intros Hl; cbn.
  - eapply steps_cons; [done|constructor].
  - eapply steps_cons; [done|by apply IH].
Qed.

(** What is true of the daemon whose critical sections interleave freely is true
    of the daemon with its lock: every state the lock admits is one of its
    states. *)
Lemma locked_reachable_daemon c : locked_reachable c → reachable (l_daemon c).
Proof.
  unfold locked_reachable. revert c. refine (rtc_ind_r _ _ _ _); [exists []; constructor|].
  intros c1 c2 _ Hs [ls Hls]. destruct (locked_step_daemon _ _ Hs) as [->|[l Hl]]; [by exists ls|].
  exists (ls ++ [l]). by eapply steps_snoc.
Qed.

End refinement.

(** ** What the parties know *)

Lemma held_of_insert h p gs p' :
  held_of (<[p := gs]> h) p' = if decide (p = p') then gs else held_of h p'.
Proof.
  unfold held_of. case_decide as E; [subst; by rewrite lookup_insert_eq|by rewrite lookup_insert_ne].
Qed.

Lemma held_of_other h i j gs :
  i ≠ j → held_of (<[Some i := gs]> h) (Some j) = held_of h (Some j).
Proof. intros Hne. rewrite held_of_insert. case_decide; congruence. Qed.

Lemma available_write h : available WriteGuard h = true ↔ ∀ p, held_of h p = [].
Proof.
  unfold available, held_of. rewrite bool_decide_eq_true. split.
  - intros Hf p. destruct (h !! p) as [gs|] eqn:E; [|done]. exact (Hf p gs E).
  - intros Hp p gs E. specialize (Hp p). by rewrite E in Hp.
Qed.

Lemma available_read h : available ReadGuard h = true ↔ ∀ p, WriteGuard ∉ held_of h p.
Proof.
  unfold available, held_of. rewrite bool_decide_eq_true. split.
  - intros Hf p. destruct (h !! p) as [gs|] eqn:E; [exact (Hf p gs E)|apply not_elem_of_nil].
  - intros Hp p gs E. specialize (Hp p). by rewrite E in Hp.
Qed.

(** At most [n] more steps, for a task that holds [gs] and waits or not: two
    for each guard it takes, and one for the rest. *)
Definition steps_left (gs : list guard) (waits : bool) (n : nat) (t : task) : Prop :=
  match t with
  | Reading _ => gs = [] ∧ (9 ≤ n)%nat
  | Running p => ∃ k, guarded gs k p ∧ (2 * k + 2 ≤ n + (if waits then 1 else 0))%nat
  | Writing _ => gs = [] ∧ (1 ≤ n)%nat
  end.

(** The parties that wait need the guard they wait for; each task has a budget
    of steps [m]; a write guard excludes every other guard. *)
Record lock_inv (tasks : gmap nat task) (h : gmap party (list guard))
    (q : list (party * guard)) (m : gmap nat nat) : Prop := {
  li_nodup : NoDup q.*1;
  li_waits i g : (Some i, g) ∈ q → ∃ t, tasks !! i = Some t ∧ lock_op t = Some g;
  li_checker g : (None, g) ∈ q → g = WriteGuard ∧ held_of h None = [];
  li_checking : (length (held_of h None) ≤ 1)%nat;
  li_left i t : tasks !! i = Some t →
    ∃ n, m !! i = Some n ∧ (n ≤ 9)%nat ∧
      steps_left (held_of h (Some i)) (bool_decide (Some i ∈ q.*1)) n t;
  li_gone i : tasks !! i = None → m !! i = None ∧ held_of h (Some i) = [];
  li_excl p p' : WriteGuard ∈ held_of h p → p ≠ p' → held_of h p' = [] }.

Lemma held_of_empty p : held_of ∅ p = [].
Proof. unfold held_of. by rewrite lookup_empty. Qed.

Lemma lock_inv_start : lock_inv ∅ ∅ [] ∅.
Proof.
  split.
  - apply NoDup_nil_2.
  - by intros ? ? ?%elem_of_nil.
  - by intros ? ?%elem_of_nil.
  - rewrite held_of_empty. cbn. lia.
  - intros i t. by rewrite lookup_empty.
  - intros i _. by rewrite lookup_empty, held_of_empty.
  - intros p p'. rewrite held_of_empty. by intros ?%elem_of_nil.
Qed.

(** A task goes on. *)
Lemma lock_inv_replace tasks h q m i t t' gs' q' n' :
  lock_inv tasks h q m → tasks !! i = Some t → NoDup q'.*1 →
  (∀ p g, (p, g) ∈ q' → p = Some i ∨ (p, g) ∈ q) →
  (∀ p, p ≠ Some i → (p ∈ q'.*1 ↔ p ∈ q.*1)) →
  (∀ g, (Some i, g) ∈ q' → lock_op t' = Some g) →
  (n' ≤ 9)%nat → steps_left gs' (bool_decide (Some i ∈ q'.*1)) n' t' →
  (WriteGuard ∈ gs' → ∀ p, p ≠ Some i → held_of h p = []) →
  (gs' ≠ [] → ∀ p, p ≠ Some i → WriteGuard ∉ held_of h p) →
  lock_inv (<[i := t']> tasks) (<[Some i := gs']> h) q' (<[i := n']> m).
Proof.
  intros [Hnd Hw Hc Hk Hl Hg Hx] Hi Hnd' Hq Hq' Ht' Hn' Hleft He1 He2. split; [done|..].
  - intros j g Hj. destruct (decide (i = j)) as [<-|Hne].
    + rewrite lookup_insert_eq. eauto.
    + rewrite lookup_insert_ne by done. apply Hw. by destruct (Hq _ _ Hj) as [[= ->]|].
  - intros g Hn. rewrite held_of_insert, decide_False by done. apply Hc.
    by destruct (Hq _ _ Hn) as [|].
  - by rewrite held_of_insert, decide_False.
  - intros j t0. destruct (decide (i = j)) as [<-|Hne].
    + rewrite !lookup_insert_eq, held_of_insert, decide_True by done. intros [= <-]. eauto.
    + rewrite !lookup_insert_ne by done. rewrite held_of_other by done.
      assert (Hqj : Some j ∈ q'.*1 ↔ Some j ∈ q.*1) by (apply Hq'; congruence).
      rewrite (bool_decide_ext _ _ Hqj). apply Hl.
  - intros j. destruct (decide (i = j)) as [<-|Hne]; [by rewrite lookup_insert_eq|].
    rewrite !lookup_insert_ne by done. rewrite held_of_other by done. apply Hg.
  - clear Hleft. intros p p'. rewrite !held_of_insert. case_decide as Hp; case_decide as Hp'.
    + intros _ Hne. congruence.
    + intros Hin _. apply He1; congruence.
    + intros Hin _. destruct gs' as [|g gs']; [done|].
      destruct (He2 ltac:(done) p ltac:(congruence) Hin).
    + apply Hx.
Qed.

(** A task ends. *)
Lemma lock_inv_end tasks h q m i t :
  lock_inv tasks h q m → tasks !! i = Some t → Some i ∉ q.*1 →
  lock_inv (delete i tasks) (<[Some i := []]> h) q (delete i m).
Proof.
  intros [Hnd Hw Hc Hk Hl Hg Hx] Hi Hq. split; [done|..].
  - intros j g Hj. assert (i ≠ j) as Hne.
    { intros <-. apply Hq. apply list_elem_of_fmap. by exists (Some i, g). }
    rewrite lookup_delete_ne by done. by apply Hw.
  - intros g Hn. rewrite held_of_insert, decide_False by done. by apply Hc.
  - by rewrite held_of_insert, decide_False.
  - intros j t0 [Hne Hj]%lookup_delete_Some.
    rewrite lookup_delete_ne by done. rewrite held_of_other by done. by apply Hl.
  - intros j Hj. destruct (decide (i = j)) as [<-|Hne].
    + by rewrite lookup_delete_eq, held_of_insert, decide_True.
    + apply lookup_delete_None in Hj as [|Hj]; [done|].
      rewrite lookup_delete_ne, held_of_other by done. by apply Hg.
  - intros p p'. rewrite !held_of_insert. case_decide; [by intros ?%elem_of_nil|].
    intros Hin Hne. case_decide; [done|]. by apply (Hx p).
Qed.

(** A connection is accepted. *)
Lemma lock_inv_accept tasks h q m i st :
  lock_inv tasks h q m → tasks !! i = None →
  lock_inv (<[i := Reading st]> tasks) h q (<[i := 9%nat]> m).
Proof.
  intros [Hnd Hw Hc Hk Hl Hg Hx] Hi. split; [done|..|done].
  - intros j g Hj. destruct (Hw _ _ Hj) as (t & Ht & Hop). exists t. split; [|done].
    rewrite lookup_insert_ne by congruence. done.
  - done.
  - done.
  - intros j t. destruct (decide (i = j)) as [<-|Hne].
    + rewrite !lookup_insert_eq. intros [= <-]. exists 9%nat. destruct (Hg _ Hi) as [_ ->].
      split_and!; [done|lia|split; [done|lia]].
    + rewrite !lookup_insert_ne by done. apply Hl.
  - intros j [Hj Hne]%lookup_insert_None. rewrite lookup_insert_ne by done. by apply Hg.
Qed.

(** The checker wakes up, gets its guard, and drops it. *)
Lemma lock_inv_wake tasks h q m :
  lock_inv tasks h q m → None ∉ q.*1 → held_of h None = [] →
  lock_inv tasks h (q ++ [(None, WriteGuard)]) m.
Proof.
  intros [Hnd Hw Hc Hk Hl Hg Hx] Hq Hh. split; [|..|done|done].
  - rewrite fmap_app. apply NoDup_app. split_and!; [done| |apply NoDup_singleton].
    intros p Hp ->%list_elem_of_singleton. done.
  - intros i g [Hi|Hi%list_elem_of_singleton]%elem_of_app; [by apply Hw|done].
  - intros g [Hi|Hi%list_elem_of_singleton]%elem_of_app; [by apply Hc|]. by injection Hi as <-.
  - done.
  - intros i t Hi. destruct (Hl i t Hi) as (n & Hm & Hn & Hleft). exists n. split_and!; [done..|].
    rewrite (bool_decide_ext _ (Some i ∈ q.*1)); [done|]. rewrite fmap_app, elem_of_app. cbn.
    rewrite list_elem_of_singleton. naive_solver.
Qed.

(** A party of the queue, and the queue without it. *)
Lemma queue_split (q : list (party * guard)) k p g :
  q !! k = Some (p, g) → ∃ q1 q2, q = q1 ++ (p, g) :: q2 ∧ delete k q = q1 ++ q2.
Proof.
  intros Hk. exists (take k q), (drop (S k) q). split; [by rewrite take_drop_middle|].
  apply delete_take_drop.
Qed.

Lemma queue_without (q1 q2 : list (party * guard)) p g p' :
  p' ≠ p → (p' ∈ (q1 ++ q2).*1 ↔ p' ∈ (q1 ++ (p, g) :: q2).*1).
Proof. rewrite !fmap_app. cbn. rewrite !elem_of_app, elem_of_cons. naive_solver. Qed.

Lemma queue_nodup (q1 q2 : list (party * guard)) p g :
  NoDup (q1 ++ (p, g) :: q2).*1 → p ∉ (q1 ++ q2).*1 ∧ NoDup (q1 ++ q2).*1.
Proof. rewrite !fmap_app. cbn. rewrite <- Permutation_middle. apply NoDup_cons. Qed.

Lemma queue_kept (q1 q2 : list (party * guard)) x y : x ∈ q1 ++ q2 → x ∈ q1 ++ y :: q2.
Proof. rewrite !elem_of_app, elem_of_cons. naive_solver. Qed.

Lemma queue_head (q1 q2 : list (party * guard)) x : x ∈ q1 ++ x :: q2.
Proof. rewrite elem_of_app, elem_of_cons. auto. Qed.

Lemma queued_elem (p : party) (g : guard) q : (p, g) ∈ q → p ∈ q.*1.
Proof. intros Hp. apply list_elem_of_fmap. by exists (p, g). Qed.

Lemma lock_inv_check tasks h q1 q2 m :
  lock_inv tasks h (q1 ++ (None, WriteGuard) :: q2) m → (∀ p, held_of h p = []) →
  lock_inv tasks (<[None := [WriteGuard]]> h) (q1 ++ q2) m.
Proof.
  intros [Hnd Hw Hc Hk Hl Hg Hx] Hh. apply queue_nodup in Hnd as [Hn Hnd]. split; [done|..].
  - intros i g Hi. by apply Hw, queue_kept.
  - intros g Hi. by apply queued_elem in Hi.
  - rewrite held_of_insert, decide_True; [cbn; lia|done].
  - intros i t Hi. destruct (Hl i t Hi) as (n & Hm & Hb & Hleft). exists n. split_and!; [done..|].
    rewrite held_of_insert, decide_False by done.
    rewrite (bool_decide_ext _ (Some i ∈ (q1 ++ (None, WriteGuard) :: q2).*1)); [done|].
    by apply queue_without.
  - intros i Hi. rewrite held_of_insert, decide_False by done. by apply Hg.
  - intros p p'. rewrite !held_of_insert. case_decide; case_decide; intros Hin Hne;
      [congruence|by apply Hh|by rewrite Hh in Hin; apply elem_of_nil in Hin|by apply Hh].
Qed.

Lemma lock_inv_check_done tasks h q m :
  lock_inv tasks h q m → lock_inv tasks (<[None := []]> h) q m.
Proof.
  intros [Hnd Hw Hc Hk Hl Hg Hx]. split; [done|done|..].
  - intros g Hi. rewrite held_of_insert, decide_True by done. by destruct (Hc _ Hi).
  - rewrite held_of_insert, decide_True; [cbn; lia|done].
  - intros i t Hi. rewrite held_of_insert, decide_False by done. by apply Hl.
  - intros i Hi. rewrite held_of_insert, decide_False by done. by apply Hg.
  - intros p p'. rewrite !held_of_insert. case_decide; [by intros ?%elem_of_nil|].
    intros Hin Hne. case_decide; [done|]. by apply (Hx p).
Qed.

(** ** The budget *)

Definition total (m : gmap nat nat) : nat := map_fold (λ _ n acc, n + acc)%nat 0%nat m.

Lemma total_delete m i n : m !! i = Some n → total m = (n + total (delete i m))%nat.
Proof. intros Hi. unfold total. rewrite (map_fold_delete_L _ _ i n m); [done|intros; lia|done]. Qed.

Lemma total_insert m i n n' :
  m !! i = Some n → (total (<[i := n']> m) + n = total m + n')%nat.
Proof.
  intros Hi. rewrite (total_delete _ i n'), (total_delete m i n) by (done || apply lookup_insert_eq).
  rewrite delete_insert_eq. lia.
Qed.

Lemma total_le m b : map_Forall (λ _ n, (n ≤ b)%nat) m → (total m ≤ b * size m)%nat.
Proof.
  unfold total. induction m as [|i n m Hi IH] using map_ind; [by rewrite map_fold_empty; lia|].
  intros [Hn Hm]%map_Forall_insert; [|done].
  rewrite map_fold_insert_L, map_size_insert_None by (done || intros; lia). specialize (IH Hm). lia.
Qed.

(** What is left to the checker. *)
Definition checks_left (h : gmap party (list guard)) (q : list (party * guard)) : nat :=
  (if bool_decide (None ∈ q.*1) then 2 else 0) + length (held_of h None).

Lemma lock_inv_total tasks h q m :
  lock_inv tasks h q m → (total m + checks_left h q ≤ 9 * size tasks + 2)%nat.
Proof.
  intros Hi. assert (total m ≤ 9 * size m)%nat as Ht.
  { apply total_le. intros i n Hm. destruct (tasks !! i) as [t|] eqn:E.
    - destruct (li_left _ _ _ _ Hi i t E) as (n' & Hm' & Hn & _). congruence.
    - destruct (li_gone _ _ _ _ Hi i E). congruence. }
  assert (size m = size tasks) as Hs.
  { rewrite <- !size_dom. f_equal. apply set_eq. intros i. rewrite !elem_of_dom.
    destruct (tasks !! i) as [t|] eqn:E.
    - destruct (li_left _ _ _ _ Hi i t E) as (n & -> & _). split; by eexists.
    - destruct (li_gone _ _ _ _ Hi i E) as [-> _]. split; by intros []. }
  enough (checks_left h q ≤ 2)%nat by lia. unfold checks_left. case_bool_decide as Hq.
  - apply list_elem_of_fmap in Hq as ([p g] & Hp & Hq). cbn in Hp. subst p.
    destruct (li_checker _ _ _ _ Hi g Hq) as [_ ->]. cbn. lia.
  - pose proof (li_checking _ _ _ _ Hi). lia.
Qed.

Lemma lock_inv_ext tasks h h' q m :
  (∀ p, held_of h' p = held_of h p) → lock_inv tasks h q m → lock_inv tasks h' q m.
Proof.
  intros E [Hnd Hw Hc Hk Hl Hg Hx]. split; [done|done|..].
  - intros g. rewrite E. apply Hc.
  - by rewrite E.
  - intros i t. rewrite E. apply Hl.
  - intros i. rewrite E. apply Hg.
  - intros p p'. rewrite !E. apply Hx.
Qed.

Lemma steps_left_positive gs n t : lock_op t = None → steps_left gs false n t → (1 ≤ n)%nat.
Proof. destruct t; cbn; [lia| |lia]. intros _ (k & _ & Hn). lia. Qed.

Lemma steps_left_waits gs n t g :
  lock_op t = Some g → steps_left gs false n t → gs = [] ∧ (1 ≤ n)%nat ∧ steps_left gs true (pred n) t.
Proof.
  destruct t as [|p|]; [done| |done]. cbn. intros Hg (k & Hk & Hn).
  split_and!; [|lia|exists k; split; [done|lia]]. by destruct p, k; cbn in Hk; try done; destruct Hk.
Qed.

Section schedules.
  Context `{SsssLib} `{Aead} `{Sha256} `{Hex} `{P256} `{X509} `{HsmCodec} `{BuildProfile}
    `{RwLockPolicy}.

(** A task that needs no guard goes on. *)
Lemma run_task ent now i d d' t gs n :
  d_tasks d !! i = Some t → lock_op t = None → steps_left gs false n t →
  task_step ent now i d = Some d' →
  d_alive d' = false ∨
  d_tasks d' = delete i (d_tasks d) ∧ guards_after t gs = [] ∨
  ∃ t' n', d_tasks d' = <[i := t']> (d_tasks d) ∧ (n' < n)%nat ∧
    steps_left (guards_after t gs) false n' t' ∧ guards_after t gs ⊆ gs.
Proof.
  unfold task_step. intros -> Hop Hl E. destruct t as [st|p|r]; injection E as <-; cbn in Hl.
  - destruct Hl as [-> Hn]. destruct (read_request st) as [payload|]; [|by right; left].
    right. right. exists (Running (serve ent now payload)), 8%nat.
    split_and!; [done|lia| |done]. exists 3%nat. split; [apply serve_guarded|cbn; lia].
  - destruct Hl as (k & Hk & Hn). destruct p as [r|why| |kr|f kw|kd]; try done.
    + right. right. exists (Writing r), 1%nat. split_and!; [done|lia|split; [done|lia]|apply list_subseteq_nil].
    + destruct panic_aborts; [by left|by right; left].
    + by left.
    + destruct k as [|k]; [done|]. destruct Hk as [_ Hk]. right. right.
      exists (Running kd), (pred n). split_and!; [done|lia|exists k; split; [done|cbn; lia]|].
      destruct gs as [|g gs]; cbn; [done|]. set_solver.
  - destruct Hl as [-> Hn]. by right; left.
Qed.

(** A task gets the guard it waits for. *)
Lemma grant_task ent now i d d' t g gs n :
  d_tasks d !! i = Some t → lock_op t = Some g → steps_left gs true n t →
  task_step ent now i d = Some d' →
  gs = [] ∧ ∃ t', d_tasks d' = <[i := t']> (d_tasks d) ∧ (1 ≤ n)%nat ∧
    steps_left [g] false (pred n) t'.
Proof.
  unfold task_step. intros -> Hop Hl E. destruct t as [st|p|r]; try done. injection E as <-.
  destruct Hl as (k & Hk & Hn).
  destruct p as [r|why| |kr|f kw|kd]; try done; injection Hop as <-;
    (destruct k as [|k]; [done|]); destruct Hk as [-> Hk]; (split; [done|]).
  - exists (Running (kr (d_state d))). split_and!; [done|lia|]. exists k. split; [apply Hk|cbn; lia].
  - exists (Running kw). split_and!; [done|lia|]. exists k. split; [done|cbn; lia].
Qed.

Lemma task_step_some ent now i d t :
  d_tasks d !! i = Some t → ∃ d', task_step ent now i d = Some d'.
Proof. unfold task_step. intros ->. destruct t; by eexists. Qed.

Definition locked_ok (c : locked_daemon) (m : gmap nat nat) : Prop :=
  lock_inv (d_tasks (l_daemon c)) (l_held c) (l_queue c) m.

Definition work_left (c : locked_daemon) (m : gmap nat nat) : nat :=
  total m + checks_left (l_held c) (l_queue c).

(** The queue with one more. *)
Lemma queue_snoc (p : party) (g : guard) q p' : p' ≠ p → (p' ∈ (q ++ [(p, g)]).*1 ↔ p' ∈ q.*1).
Proof. rewrite fmap_app, elem_of_app. cbn. rewrite list_elem_of_singleton. naive_solver. Qed.

Lemma checks_left_ext h h' q q' :
  (None ∈ q'.*1 ↔ None ∈ q.*1) → held_of h' None = held_of h None →
  checks_left h' q' = checks_left h q.
Proof. intros Hq Hh. unfold checks_left. by rewrite Hh, (bool_decide_ext _ _ Hq). Qed.

Lemma checks_left_task h q q' i gs :
  (None ∈ q'.*1 ↔ None ∈ q.*1) → checks_left (<[Some i := gs]> h) q' = checks_left h q.
Proof. intros Hq. apply checks_left_ext; [done|]. by rewrite held_of_insert, decide_False. Qed.

Lemma request_work ent now i c c' m :
  locked_ok c m → work_step ent now (Request i) c = Some c' →
  ∃ m', locked_ok c' m' ∧ (work_left c' m' < work_left c m)%nat.
Proof.
  intros Hok E. cbn in E. apply bind_Some in E as (t & Ht & (g & Hg & E)%bind_Some).
  case_bool_decide as Hq; [done|]. injection E as <-.
  destruct (li_left _ _ _ _ Hok i t Ht) as (n & Hm & Hn & Hl).
  rewrite bool_decide_eq_false_2 in Hl by done.
  destruct (steps_left_waits _ _ _ _ Hg Hl) as (Hgs & Hn1 & Hl'). rewrite Hgs in Hl'.
  exists (<[i := pred n]> m). split.
  - unfold locked_ok. cbn. rewrite <- (insert_id (d_tasks (l_daemon c)) i t) by done.
    apply (lock_inv_ext _ (<[Some i := []]> (l_held c))).
    { intros p. rewrite held_of_insert. case_decide as Hp; [by rewrite <- Hp|done]. }
    eapply lock_inv_replace; [exact Hok|exact Ht|..].
    + rewrite fmap_app. apply NoDup_app. split_and!; [apply Hok| |apply NoDup_singleton].
      by intros p Hp ->%list_elem_of_singleton.
    + intros p g' [Hp|Hp%list_elem_of_singleton]%elem_of_app; [by right|left; congruence].
    + intros p Hp. by apply queue_snoc.
    + intros g' [Hp%queued_elem|Hp%list_elem_of_singleton]%elem_of_app; [done|congruence].
    + lia.
    + rewrite bool_decide_eq_true_2; [done|]. rewrite fmap_app, elem_of_app. right. by left.
    + by intros ?%elem_of_nil.
    + done.
  - unfold work_left. cbn. pose proof (total_insert m i n (pred n) Hm).
    rewrite (checks_left_ext (l_held c) (l_held c) (l_queue c)); [lia|by apply queue_snoc|done].
Qed.

Lemma run_work ent now i c c' m :
  locked_ok c m → work_step ent now (Run i) c = Some c' →
  d_alive (l_daemon c') = false ∧ (0 < work_left c m)%nat ∨
  ∃ m', locked_ok c' m' ∧ (work_left c' m' < work_left c m)%nat.
Proof.
  intros Hok E. cbn in E. apply bind_Some in E as (t & Ht & E).
  destruct (lock_op t) as [|] eqn:Hop; [done|]. apply bind_Some in E as (d' & E & [= <-]).
  destruct (li_left _ _ _ _ Hok i t Ht) as (n & Hm & Hn & Hl).
  assert (Some i ∉ (l_queue c).*1) as Hq.
  { intros ([p g] & Hp & Hin)%list_elem_of_fmap. cbn in Hp. subst p.
    destruct (li_waits _ _ _ _ Hok i g Hin) as (t' & Ht' & ?). congruence. }
  rewrite bool_decide_eq_false_2 in Hl by done.
  pose proof (steps_left_positive _ _ _ Hop Hl) as Hpos.
  pose proof (total_delete m i n Hm) as Htot.
  unfold work_left, locked_ok. cbn.
  destruct (run_task _ _ _ _ _ _ _ _ Ht Hop Hl E) as [Hd|[(Hd & Hgs)|(t' & n' & Hd & Hn' & Hl' & Hsub)]].
  - left. split; [done|lia].
  - right. exists (delete i m). rewrite Hd, Hgs, (checks_left_task _ (l_queue c)) by done.
    split; [|lia].
    by eapply lock_inv_end.
  - right. exists (<[i := n']> m). rewrite Hd, (checks_left_task _ (l_queue c)) by done.
    pose proof (total_insert m i n n' Hm). split; [|lia].
    eapply lock_inv_replace; [exact Hok|exact Ht|apply Hok|by right|done| |lia|..].
    + by intros g Hg%queued_elem.
    + by rewrite bool_decide_eq_false_2.
    + intros Hw p Hp. apply (li_excl _ _ _ _ Hok (Some i)); [by apply Hsub|done].
    + intros Hne p Hp Hw. pose proof (li_excl _ _ _ _ Hok p (Some i) Hw Hp) as Hnil.
      rewrite Hnil in Hsub. destruct Hne. apply list_nil_subseteq.
      by rewrite Hnil.
Qed.

Lemma available_excludes g h p p' :
  available g h = true →
  (WriteGuard ∈ [g] → held_of h p = []) ∧ WriteGuard ∉ held_of h p'.
Proof.
  destruct g.
  - intros Ha. rewrite available_read in Ha. split; [|done]. by intros ?%list_elem_of_singleton.
  - intros Ha. rewrite available_write in Ha. split; [done|]. rewrite Ha. apply not_elem_of_nil.
Qed.

Lemma grant_work `{!RwLockLaws _} ent now k c c' m :
  locked_ok c m → work_step ent now (Grant k) c = Some c' →
  ∃ m', locked_ok c' m' ∧ (work_left c' m' < work_left c m)%nat.
Proof.
  intros Hok E. unfold locked_ok, work_left in *. cbn in E.
  apply bind_Some in E as ([p g] & Hk & E).
  destruct (lock_admits _ _ k) eqn:Hav; [|done]. apply (admits_excludes _ _ _ p g Hk) in Hav.
  destruct (queue_split _ _ _ _ Hk) as (q1 & q2 & Hq & Hdel). rewrite Hq, Hdel in *.
  pose proof (queue_nodup _ _ _ _ (li_nodup _ _ _ _ Hok)) as [Hni Hnd].
  destruct p as [i|].
  - apply bind_Some in E as (d' & E & [= <-]). cbn.
    destruct (li_waits _ _ _ _ Hok i g (queue_head _ _ _)) as (t & Ht & Hop).
    destruct (li_left _ _ _ _ Hok i t Ht) as (n & Hm & Hn & Hl).
    rewrite bool_decide_eq_true_2 in Hl by (eapply queued_elem, queue_head).
    destruct (grant_task _ _ _ _ _ _ _ _ _ Ht Hop Hl E) as (Hgs & t' & Hd & Hn1 & Hl').
    exists (<[i := pred n]> m). rewrite Hgs, Hd, (checks_left_task _ (q1 ++ (Some i, g) :: q2));
      [|by apply queue_without].
    pose proof (total_insert m i n (pred n) Hm). split; [|apply Nat.add_lt_mono_r; lia].
    eapply lock_inv_replace; [exact Hok|exact Ht|done|..].
    + intros p g' Hp. right. by apply queue_kept.
    + intros p Hp. by apply queue_without.
    + by intros g' Hg%queued_elem.
    + lia.
    + by rewrite bool_decide_eq_false_2.
    + intros Hw p _. by apply (available_excludes g _ p p).
    + intros _ p _. by apply (available_excludes g _ p p).
  - injection E as <-. cbn. destruct (li_checker _ _ _ _ Hok g (queue_head _ _ _)) as [-> Hh].
    exists m. rewrite Hh. split.
    + apply lock_inv_check; [done|]. by apply available_write.
    + unfold checks_left. rewrite held_of_insert, decide_True, Hh by done.
      rewrite bool_decide_eq_false_2, bool_decide_eq_true_2
        by (done || eapply queued_elem, queue_head). cbn. lia.
Qed.

Lemma check_work ent now c c' m :
  locked_ok c m → work_step ent now CheckDone c = Some c' →
  ∃ m', locked_ok c' m' ∧ (work_left c' m' < work_left c m)%nat.
Proof.
  intros Hok E. cbn in E. destruct (held_of (l_held c) None) as [|g gs] eqn:Hh; [done|].
  injection E as <-. exists m. split; [by apply lock_inv_check_done|].
  unfold work_left, checks_left. cbn. rewrite held_of_insert, decide_True, Hh by done. cbn. lia.
Qed.

Lemma work_decreases `{!RwLockLaws _} c c' m :
  locked_ok c m → work c c' →
  d_alive (l_daemon c') = false ∧ (0 < work_left c m)%nat ∨
  ∃ m', locked_ok c' m' ∧ (work_left c' m' < work_left c m)%nat.
Proof.
  intros Hok (_ & ent & now & w & E). destruct w.
  - right. by eapply request_work.
  - right. by eapply grant_work.
  - by eapply run_work.
  - right. by eapply check_work.
Qed.

Lemma locked_step_ok `{!RwLockLaws _} c c' m :
  reachable (l_daemon c) → locked_ok c m → locked_step c c' →
  d_alive (l_daemon c') = false ∨ ∃ m', locked_ok c' m'.
Proof.
  intros Hr Hok Hs. destruct Hs as [c c' Hw|st c Ha|dt c Ha Hdt|c Ha Hq Hh].
  - destruct (work_decreases _ _ _ Hok Hw) as [[? _]|(m' & ? & _)]; eauto.
  - right. unfold locked_ok, accept. cbn. case_match; [|by exists m].
    eexists. apply lock_inv_accept; [exact Hok|].
    destruct (d_tasks (l_daemon c) !! d_next (l_daemon c)) eqn:E; [|done].
    apply (inv_ids _ (reachable_inv _ Hr)) in E. lia.
  - right. by exists m.
  - right. exists m. by apply lock_inv_wake.
Qed.

Lemma locked_step_alive c c' : locked_step c c' → d_alive (l_daemon c) = true.
Proof. by destruct 1 as [? ? [? _]| | |]. Qed.

Lemma locked_reachable_ok `{!RwLockLaws _} c :
  locked_reachable c → d_alive (l_daemon c) = true → ∃ m, locked_ok c m.
Proof.
  intros Hr Ha. enough (d_alive (l_daemon c) = false ∨ ∃ m, locked_ok c m) as [|]; [congruence|done|].
  clear Ha. unfold locked_reachable in Hr. revert c Hr. refine (rtc_ind_r _ _ _ _).
  - right. exists ∅. exact lock_inv_start.
  - intros c1 c2 Hr1 Hs IH. pose proof (locked_step_alive _ _ Hs).
    destruct IH as [|(m & Hm)]; [congruence|]. eapply locked_step_ok; [|done..].
    by apply locked_reachable_daemon.
Qed.

(** A task that waits holds nothing. *)
Lemma waiting_holds_nothing tasks h q m i t :
  lock_inv tasks h q m → tasks !! i = Some t → Some i ∈ q.*1 → held_of h (Some i) = [].
Proof.
  intros Hok Ht Hq. destruct (li_left _ _ _ _ Hok i t Ht) as (n & _ & _ & Hl).
  apply list_elem_of_fmap in Hq as ([p g] & Hp & Hin). cbn in Hp. subst p.
  destruct (li_waits _ _ _ _ Hok i g Hin) as (t' & Ht' & Hop). simplify_eq.
  destruct t as [|p|]; try done. destruct Hl as (k & Hk & _).
  by destruct p, k; cbn in Hk; try done; destruct Hk.
Qed.

Lemma somebody_granted `{!RwLockLaws _} ent now c m :
  locked_ok c m → l_queue c ≠ [] → (∀ p, held_of (l_held c) p = []) →
  ∃ k c', work_step ent now (Grant k) c = Some c'.
Proof.
  intros Hok Hq Hh. destruct (admits_somebody _ _ Hq Hh) as (k & [[p g] Hk] & Ha).
  exists k. cbn. rewrite Hk. cbn. rewrite Ha. destruct p as [i|]; [|by eexists].
  destruct (li_waits _ _ _ _ Hok i g (list_elem_of_lookup_2 _ _ _ Hk)) as (t & Ht & _).
  destruct (task_step_some ent now i _ t Ht) as [d' ->]. by eexists.
Qed.

Lemma work_goes_on `{!RwLockLaws _} ent now c m :
  locked_ok c m → d_tasks (l_daemon c) ≠ ∅ → ∃ w c', work_step ent now w c = Some c'.
Proof.
  intros Hok Hne.
  destruct (decide (map_Forall (λ i _, Some i ∈ (l_queue c).*1) (d_tasks (l_daemon c)))) as [Hall|Hsome].
  - destruct (held_of (l_held c) None) as [|g gs] eqn:Hn.
    2: { exists CheckDone. cbn. rewrite Hn. by eexists. }
    destruct (somebody_granted ent now c m Hok) as (k & c' & E); [..|by exists (Grant k), c'].
    + intros Hq. apply Hne, map_empty. intros i. destruct (_ !! i) as [t|] eqn:Hi; [|done].
      specialize (Hall i t Hi). cbn in Hall. rewrite Hq in Hall. by apply elem_of_nil in Hall.
    + intros [i|]; [|done]. destruct (d_tasks (l_daemon c) !! i) as [t|] eqn:Hi.
      * eapply waiting_holds_nothing; [exact Hok|exact Hi|exact (Hall i t Hi)].
      * by apply (li_gone _ _ _ _ Hok).
  - apply map_not_Forall in Hsome as (i & t & Hi & Hq); [|by intros ? ?; apply _].
    destruct (lock_op t) as [g|] eqn:Hop.
    + exists (Request i). cbn. rewrite Hi. cbn. rewrite Hop. cbn.
      rewrite bool_decide_eq_false_2 by done. by eexists.
    + exists (Run i). cbn. rewrite Hi. cbn. rewrite Hop.
      destruct (task_step_some ent now i _ t Hi) as [d' ->]. by eexists.
Qed.

Lemma work_bounded `{!RwLockLaws _} k c c' m :
  locked_ok c m → nsteps work k c c' →
  d_alive (l_daemon c') = false ∧ (k ≤ work_left c m)%nat ∨
  ∃ m', locked_ok c' m' ∧ (k + work_left c' m' ≤ work_left c m)%nat.
Proof.
  intros Hok Hs. revert m Hok. induction Hs as [c|k c1 c2 c3 Hw Hs IH]; intros m Hok.
  { right. exists m. split; [done|lia]. }
  destruct (work_decreases _ _ _ Hok Hw) as [[Hd Hpos]|(m' & Hok' & Hlt)].
  - left. inversion Hs as [|k' ? ? ? Hw']; subst; [split; [done|lia]|].
    destruct Hw' as [Ha _]. congruence.
  - destruct (IH m' Hok') as [[Hd Hk]|(m'' & Hok'' & Hk)]; [left|right].
    + split; [done|lia].
    + exists m''. split; [done|lia].
Qed.

(** C34: the lock deadlocks no schedule and every schedule is finite.  From any
    state the daemon can reach, with its connections and its checker queueing
    for the lock, the work of the tasks and of the checker stops after at most
    nine steps for each open connection and two for the checker, whatever the
    order and whomever the lock prefers; and as long as the process lives and a connection is open, there is
    a next step, so that the work stops only when every connection is served
    or the process has ended. *)
Theorem daemon_drains `{!RwLockLaws _} c :
  locked_reachable c →
  ∀ k c', nsteps work k c c' →
    (k ≤ 9 * size (d_tasks (l_daemon c)) + 2)%nat ∧
    (d_alive (l_daemon c') = true → d_tasks (l_daemon c') ≠ ∅ → ∃ c'', work c' c'').
Proof.
  intros Hr k c' Hs. destruct (d_alive (l_daemon c)) eqn:Ha.
  - destruct (locked_reachable_ok c Hr Ha) as [m Hok].
    pose proof (lock_inv_total _ _ _ _ Hok) as Ht. fold (work_left c m) in Ht.
    destruct (work_bounded _ _ _ _ Hok Hs) as [[Hd Hk]|(m' & Hok' & Hk)].
    + split; [lia|congruence].
    + split; [lia|]. intros Ha' Hne.
      destruct (work_goes_on ent0 0 c' m' Hok' Hne) as (w & c'' & E).
      exists c''. split; [done|]. by exists ent0, 0, w.
  - inversion Hs as [|k' ? ? ? [Ha' _]]; subst; [|congruence]. split; [lia|congruence].
Qed.

End schedules.

(** ** Concrete executions *)

Import Concrete.

#[local] Existing Instances small_codec release.

(** A lock that serves the parties in the order of their arrival. *)
#[local] Instance fifo : RwLockPolicy := {
  lock_admits h q k :=
    bool_decide (k = 0%nat) && match q with (_, g) :: _ => available g h | [] => false end }.

#[local] Instance fifo_laws : RwLockLaws fifo.
Proof.
  split; cbn.
  - intros h q k p g Hk [Hz Ha]%andb_true_iff. apply bool_decide_eq_true in Hz as ->.
    destruct q as [|[p' g'] q]; [done|]. by injection Hk as <- <-.
  - intros h [|[p g] q] Hq Hh; [done|]. exists 0%nat. split; [by eexists|]. cbn.
    destruct g; [apply available_read|by apply available_write].
    intros p'. rewrite Hh. apply not_elem_of_nil.
Qed.

(** Work driven by a schedule. *)
Fixpoint do_works (ws : list (Entropy * work_item)) (c : locked_daemon) : option locked_daemon :=
  match ws with
  | [] => Some c
  | (ent, w) :: ws =>
    if d_alive (l_daemon c) then c ← work_step ent 0 w c; do_works ws c else None
  end.

Lemma do_works_nsteps ws c c' : do_works ws c = Some c' → nsteps work (length ws) c c'.
Proof.
  revert c. induction ws as [|[ent w] ws IH]; intros c; cbn.
  - intros [= <-]. constructor.
  - destruct (d_alive (l_daemon c)) eqn:Ha; [|done]. intros (c1 & E & Hs)%bind_Some.
    econstructor; [|by apply IH]. split; [done|]. by exists ent, 0, w.
Qed.

(** Two clients ask for a ceremony and the checker wakes up. *)
Definition two_ceremonies : locked_daemon :=
  MkLocked (accept (sends (GenerateCeremony 2 3)) (accept (sends (GenerateCeremony 2 3)) daemon_start))
    ∅ [(None, WriteGuard)].

Lemma two_ceremonies_reachable : locked_reachable two_ceremonies.
Proof.
  eapply rtc_l; [by apply (locked_accept (sends (GenerateCeremony 2 3)))|].
  eapply rtc_l; [by apply (locked_accept (sends (GenerateCeremony 2 3)))|].
  eapply rtc_l; [apply locked_wake|]; [done|apply not_elem_of_nil|done|]. apply rtc_refl.
Qed.

(** Both tasks see that there is no key before either asks for the write
    guard. *)
Definition both_checked : list (Entropy * work_item) :=
  [(entropy_const (tag 1), Run 0); (entropy_const (tag 2), Run 1);
   (ent0, Request 0); (ent0, Grant 0); (ent0, CheckDone); (ent0, Request 1); (ent0, Grant 0);
   (ent0, Grant 0); (ent0, Run 0); (ent0, Run 1); (ent0, Request 1); (ent0, Request 0)].


Definition after_works (ws : list (Entropy * work_item)) : locked_daemon :=
  default locked_start (do_works ws two_ceremonies).

Lemma do_works_some ws :
  bool_decide (is_Some (do_works ws two_ceremonies)) = true →
  nsteps work (length ws) two_ceremonies (after_works ws).
Proof.
  intros [c E]%bool_decide_eq_true. apply do_works_nsteps. unfold after_works. by rewrite E.
Qed.


Lemma daemon_drains_witness :
  (12 ≤ 20)%nat ∧ d_tasks (l_daemon (after_works both_checked)) ≠ ∅ ∧
  ∃ c, work (after_works both_checked) c.
Proof.
  assert (d_tasks (l_daemon (after_works both_checked)) ≠ ∅) as Hne
    by (intros E; apply (f_equal size) in E; vm_compute in E; discriminate).
  pose proof (daemon_drains two_ceremonies two_ceremonies_reachable 12 (after_works both_checked)
    (do_works_some both_checked eq_refl)) as [Hk Hgo].
  split; [exact Hk|]. split; [exact Hne|]. by apply Hgo.
Defined.
