(* ===== verification/Protobuf.v ===== *)
(** * The protobuf and gRPC decoders of the SPIRE client

    Models the hand-written decoders of
    [kms-service/src/infrastructure/identity.rs]: varints, length-delimited
    fields, the [X509SVIDResponse] message, gRPC frames and the PEM encoder.
    Integers are kept at their width: a varint is a [u64] whose high bits are
    lost by [<<], field numbers are cut to [u32], and an offset that overflows
    [usize] ends in a panic (of the addition with overflow checks, of the slice
    without). *)

From S2P Require Import Prelude.
From S2P Require Import Interfaces.
From S2P Require Import Protocol.

(** ** Errors *)

Inductive AuthError :=
| Failed (m : string)
| UntrustedIdentity (m : string)
| MissingMetadata (m : string).

Definition AuthError_display (e : AuthError) : string :=
  match e with
  | Failed m => "authentication failed: " +s+ m
  | UntrustedIdentity m => "identity is not trusted: " +s+ m
  | MissingMetadata m => "missing identity metadata: " +s+ m
  end.

(** A call that returns [Result<_, AuthError>], or panics. *)
Definition auth (X : Type) : Type := outcome (result X AuthError).

Definition auth_ok {X} (x : X) : auth X := Value (Ok x).
Definition auth_err {X} (e : AuthError) : auth X := Value (Err e).
Definition auth_of {X} (r : result X AuthError) : auth X := Value r.
Definition auth_bind {X Y} (m : auth X) (k : X → auth Y) : auth Y :=
  match m with
  | Value (Ok x) => k x
  | Value (Err e) => Value (Err e)
  | Panics w => Panics w
  | Aborts => Aborts
  end.
Definition auth_map_err {X} (f : AuthError → AuthError) (m : auth X) : auth X :=
  match m with Value r => Value (map_err f r) | other => other end.

Notation "'let^' x ':=' m 'in' k" := (auth_bind m (λ x, k))
  (at level 10, x pattern, m at level 100, k at level 200,
   format "'[hv' 'let^'  x  ':='  m  'in'  '/' k ']'") : kms_scope.

(** ** Varints *)

Definition u64_modulus : Z := 18446744073709551616.
(** [x << shift] on [u64], for [shift < 64]. *)
Definition shl_u64 (x shift : Z) : Z := Z.shiftl x shift mod u64_modulus.

(** The loop, on the bytes from the offset on. *)
Fixpoint varint_loop (bs : list byte) (offset : nat) (acc shift : Z) : result (Z * nat) AuthError :=
  match bs with
  | [] =>
    Err (Failed "truncated protobuf varint while decoding SPIRE Workload API response")
  | byte :: bs =>
    let offset := S offset in
    let acc := Z.lor acc (shl_u64 (Z.land (Z_of_byte byte) 127) shift) in
    if Z.land (Z_of_byte byte) 128 =? 0 then Ok (acc, offset)
    else
      let shift := shift + 7 in
      if 64 <=? shift then
        Err (Failed "overlong protobuf varint while decoding SPIRE Workload API response")
      else varint_loop bs offset acc shift
  end.

Definition decode_varint (bytes : list byte) (offset : nat) : result (Z * nat) AuthError :=
  varint_loop (drop offset bytes) offset 0 0.

(** ** Length-delimited fields *)

Definition decode_length_delimited (data : list byte) (offset : nat) : auth (list byte * nat) :=
  let^ (length_, offset) := auth_of (decode_varint data offset) in
  let end_ := Z.of_nat offset + length_ in
  if u64_modulus <=? end_ then Panics SliceRange
  else if blen data <? end_ then
    auth_err (Failed
      "protobuf length-delimited field exceeds the SPIRE Workload API response size")
  else
    let n := Z.to_nat length_ in
    auth_ok (take n (drop offset data), (offset + n)%nat).

(** [String::from_utf8(bytes)]; the text of its error. *)
Class Utf8Display := { utf8_error : list byte → string }.

Definition decode_string `{Utf8Display} (data : list byte) (offset : nat) : auth (string * nat) :=
  let^ (bytes, offset) := decode_length_delimited data offset in
  if is_utf8_bytes bytes then auth_ok (str_of_bytes bytes, offset)
  else auth_err (Failed ("invalid UTF-8 SPIRE Workload API string field: "
                         +s+ utf8_error bytes)).

(** ** X509SVIDResponse *)

Record X509SVID := MkX509SVID {
  sv_spiffe_id : string;
  sv_x509_svid : list byte;
  sv_x509_svid_key : list byte;
  sv_bundle : list byte;
  sv_hint : string }.
Definition X509SVID_default : X509SVID := MkX509SVID EmptyString [] [] [] EmptyString.

Section messages.
  Context `{Utf8Display}.

(** One field of an SVID, whose tag has been read. *)
Definition svid_field (value : list byte) (svid : X509SVID) (type_id number : Z) (inner : nat) :
    auth (X509SVID * nat) :=
  if type_id =? 0 then
    let^ (_, inner) := auth_of (decode_varint value inner) in auth_ok (svid, inner)
  else if type_id =? 2 then
    if number =? 1 then
      let^ (s, inner) := decode_string value inner in
      auth_ok (MkX509SVID s (sv_x509_svid svid) (sv_x509_svid_key svid) (sv_bundle svid)
                 (sv_hint svid), inner)
    else if number =? 5 then
      let^ (s, inner) := decode_string value inner in
      auth_ok (MkX509SVID (sv_spiffe_id svid) (sv_x509_svid svid) (sv_x509_svid_key svid)
                 (sv_bundle svid) s, inner)
    else
      let^ (bs, inner) := decode_length_delimited value inner in
      auth_ok
        (if number =? 2 then
           MkX509SVID (sv_spiffe_id svid) bs (sv_x509_svid_key svid) (sv_bundle svid)
             (sv_hint svid)
         else if number =? 3 then
           MkX509SVID (sv_spiffe_id svid) (sv_x509_svid svid) bs (sv_bundle svid) (sv_hint svid)
         else if number =? 4 then
           MkX509SVID (sv_spiffe_id svid) (sv_x509_svid svid) (sv_x509_svid_key svid) bs
             (sv_hint svid)
         else svid, inner)
  else
    auth_err (Failed ("unsupported SPIRE Workload API wire type " +s+ pretty type_id
                      +s+ " for field " +s+ pretty number)).

(** [while inner < value.len()], at most [fuel] rounds: [None] when they are
    used up. *)
Fixpoint svid_loop (fuel : nat) (value : list byte) (svid : X509SVID) (inner : nat) :
    option (auth X509SVID) :=
  if (length value <=? inner)%nat then Some (auth_ok svid)
  else
    match fuel with
    | O => None
    | S fuel =>
      match
        let^ (tag, inner) := auth_of (decode_varint value inner) in
        svid_field value svid (Z.land tag 7) (as_u32 (Z.shiftr tag 3)) inner
      with
      | Value (Ok (svid, inner)) => svid_loop fuel value svid inner
      | Value (Err e) => Some (auth_err e)
      | Panics w => Some (Panics w)
      | Aborts => Some Aborts
      end
    end.

(** Every round reads a tag: as many rounds as bytes are enough. *)
Definition decode_svid (value : list byte) : auth X509SVID :=
  default Aborts (svid_loop (length value) value X509SVID_default 0).

(** One field of the response, whose tag has been read. *)
Definition response_field (data : list byte) (svids : list X509SVID)
    (wire_type field_number : Z) (offset : nat) : auth (list X509SVID * nat) :=
  if wire_type =? 0 then
    let^ (_, offset) := auth_of (decode_varint data offset) in auth_ok (svids, offset)
  else if (wire_type =? 1) || (wire_type =? 5) then
    let^ (_, offset) := decode_length_delimited data offset in auth_ok (svids, offset)
  else if wire_type =? 2 then
    let^ (value, offset) := decode_length_delimited data offset in
    if field_number =? 1 then
      let^ svid := decode_svid value in auth_ok (svids ++ [svid], offset)
    else auth_ok (svids, offset)
  else
    auth_err (Failed ("unsupported SPIRE Workload API protobuf wire type " +s+ pretty wire_type
                      +s+ " while decoding field " +s+ pretty field_number)).

Fixpoint response_loop (fuel : nat) (data : list byte) (svids : list X509SVID) (offset : nat) :
    option (auth (list X509SVID)) :=
  if (length data <=? offset)%nat then Some (auth_ok svids)
  else
    match fuel with
    | O => None
    | S fuel =>
      match
        let^ (field, offset) := auth_of (decode_varint data offset) in
        response_field data svids (Z.land field 7) (as_u32 (Z.shiftr field 3)) offset
      with
      | Value (Ok (svids, offset)) => response_loop fuel data svids offset
      | Value (Err e) => Some (auth_err e)
      | Panics w => Some (Panics w)
      | Aborts => Some Aborts
      end
    end.

Definition decode_x509_svid_response (data : list byte) : auth (list X509SVID) :=
  default Aborts (response_loop (length data) data [] 0).

End messages.

(** ** gRPC frames *)

Definition grpc_encode_message (payload : list byte) : list byte :=
  byte_of_Z 0 :: u32_to_be_bytes (as_u32 (blen payload)) ++ payload.

(** [while offset + 5 <= data.len()], on the bytes from the offset on; each
    round takes at least five of them. *)
Fixpoint grpc_loop (fuel : nat) (data : list byte) (frames : list (list byte)) :
    option (result (list (list byte)) AuthError) :=
  match data with
  | compressed :: l1 :: l2 :: l3 :: l4 :: rest =>
    match fuel with
    | O => None
    | S fuel =>
      if negb (Z_of_byte compressed =? 0) then
        Some (Err (Failed
          "compressed gRPC messages are not supported by this SPIRE Workload API client"))
      else
        let length_ := u32_from_be_bytes [l1; l2; l3; l4] in
        if blen rest <? length_ then
          Some (Err (Failed "truncated gRPC Workload API response payload received from SPIRE"))
        else
          let n := Z.to_nat length_ in
          grpc_loop fuel (drop n rest) (frames ++ [take n rest])
    end
  | _ => Some (Ok frames)
  end.

Definition parse_grpc_frames (data : list byte) : result (list (list byte)) AuthError :=
  default (Err (Failed EmptyString)) (grpc_loop (length data) data []).

(** ** PEM *)

Definition newline : list byte := [byte_of_Z 10].
Definition der_to_pem `{Base64} (der : list byte) (label : string) : list byte :=
  let encoded := str_bytes (b64_encode der) in
  str_bytes ("-----BEGIN " +s+ label +s+ "-----") ++ newline ++
  concat ((λ chunk, chunk ++ newline) <$> list_chunks 64 encoded) ++
  str_bytes ("-----END " +s+ label +s+ "-----") ++ newline.

(** ** The encoding *)

(** The protobuf encoding of messages with length-delimited fields, as the
    protocol defines it: seven bits a byte, the lowest first. *)
Fixpoint varint_bytes (fuel : nat) (n : Z) : list byte :=
  match fuel with
  | O => []
  | S fuel =>
    if n <? 128 then [byte_of_Z n]
    else byte_of_Z (n mod 128 + 128) :: varint_bytes fuel (n / 128)
  end.
(** Ten bytes hold 64 bits. *)
Definition encode_varint (n : Z) : list byte := varint_bytes 10 n.

Definition ld_field (number : Z) (bs : list byte) : list byte :=
  encode_varint (number * 8 + 2) ++ encode_varint (blen bs) ++ bs.
Definition ld_fields (fields : list (Z * list byte)) : list byte :=
  concat ((λ '(n, bs), ld_field n bs) <$> fields).

(** Empty fields are left out. *)
Definition svid_fields (s : X509SVID) : list (Z * list byte) :=
  filter (λ f, f.2 ≠ [])
    [(1, str_bytes (sv_spiffe_id s)); (2, sv_x509_svid s); (3, sv_x509_svid_key s);
     (4, sv_bundle s); (5, str_bytes (sv_hint s))].
Definition encode_svid (s : X509SVID) : list byte := ld_fields (svid_fields s).
Definition encode_response (svids : list X509SVID) : list byte :=
  ld_fields ((λ s, (1, encode_svid s)) <$> svids).

(** ** Varints *)

Lemma land_byte b :
  Z.land (Z_of_byte b) 127 = Z_of_byte b mod 128 ∧
  (Z.land (Z_of_byte b) 128 =? 0) = (Z_of_byte b <? 128).
Proof. by destruct b. Qed.

Lemma lor_shifted a x k :
  0 ≤ k → 0 ≤ a < 2 ^ k → Z.lor a (Z.shiftl x k) = a + x * 2 ^ k.
Proof.
  intros Hk Ha.
  assert (Z.land a (Z.shiftl x k) = 0) as Hland.
  { apply Z.bits_inj'. intros i Hi. rewrite Z.land_spec, Z.bits_0.
    destruct (decide (i < k)).
    - rewrite Z.shiftl_spec_low by lia. apply andb_false_r.
    - rewrite (proj1 (Z.bounded_iff_bits_nonneg k a Hk ltac:(lia)) ltac:(lia) i) by lia. done. }
  rewrite <- Z.lxor_lor, <- Z.add_nocarry_lxor by exact Hland.
  by rewrite Z.shiftl_mul_pow2 by lia.
Qed.

Lemma lor_shl_u64 acc x s :
  0 ≤ s → 0 ≤ acc < 2 ^ s → 0 ≤ x → x * 2 ^ s < 2 ^ 64 →
  Z.lor acc (shl_u64 x s) = acc + x * 2 ^ s.
Proof.
  intros Hs Ha Hx Hlt. unfold shl_u64. rewrite Z.mod_small; [by apply lor_shifted|].
  rewrite Z.shiftl_mul_pow2 by lia. change u64_modulus with (2 ^ 64). nia.
Qed.

Lemma lor_u64 a b : 0 ≤ a < 2 ^ 64 → 0 ≤ b < 2 ^ 64 → 0 ≤ Z.lor a b < 2 ^ 64.
Proof.
  intros Ha Hb. assert (0 ≤ Z.lor a b) by (apply Z.lor_nonneg; lia). split; [done|].
  apply (Z.bounded_iff_bits_nonneg 64); [lia|done|]. intros l Hl. rewrite Z.lor_spec.
  rewrite (proj1 (Z.bounded_iff_bits_nonneg 64 a ltac:(lia) ltac:(lia)) ltac:(lia) l) by lia.
  by rewrite (proj1 (Z.bounded_iff_bits_nonneg 64 b ltac:(lia) ltac:(lia)) ltac:(lia) l) by lia.
Qed.

Lemma shl_u64_range x s : 0 ≤ shl_u64 x s < 2 ^ 64.
Proof. unfold shl_u64. apply Z.mod_pos_bound. reflexivity. Qed.

(** The value fits a [u64], and between one and ten bytes are read. *)
Lemma varint_loop_bounds bs : ∀ offset acc k v offset',
  0 ≤ acc < 2 ^ 64 → (k ≤ 9)%nat →
  varint_loop bs offset acc (7 * Z.of_nat k) = Ok (v, offset') →
  0 ≤ v < 2 ^ 64 ∧ (offset < offset' ≤ offset + length bs)%nat ∧ (offset' ≤ offset + (10 - k))%nat.
Proof.
  induction bs as [|b bs IH]; intros offset acc k v offset' Ha Hk; cbn [varint_loop]; [done|].
  pose proof (lor_u64 _ _ Ha (shl_u64_range (Z.land (Z_of_byte b) 127) (7 * Z.of_nat k))) as Hl.
  destruct (_ =? 0); [intros [= <- <-]; cbn [length]; split_and!; lia|].
  destruct (Z.leb_spec 64 (7 * Z.of_nat k + 7)); [done|].
  replace (7 * Z.of_nat k + 7) with (7 * Z.of_nat (S k)) by lia.
  intros E. apply IH in E; [|done|lia]. cbn [length]. lia.
Qed.

Lemma decode_varint_bounds data offset v offset' :
  decode_varint data offset = Ok (v, offset') →
  0 ≤ v < 2 ^ 64 ∧ (offset < offset' ≤ length data)%nat ∧ (offset' ≤ offset + 10)%nat.
Proof.
  unfold decode_varint. change 0 with (7 * Z.of_nat 0) at 2. intros E.
  destruct (decide (offset ≤ length data)%nat) as [Hl|Hl].
  - apply varint_loop_bounds in E; [|lia|lia]. rewrite length_drop in E. lia.
  - rewrite drop_ge in E by lia. discriminate.
Qed.

Lemma varint_loop_encode fuel : ∀ k n acc offset rest,
  (fuel + k = 10)%nat → 0 ≤ n < 2 ^ (64 - 7 * Z.of_nat k) → (k ≤ 9)%nat →
  0 ≤ acc < 2 ^ (7 * Z.of_nat k) →
  varint_loop (varint_bytes fuel n ++ rest) offset acc (7 * Z.of_nat k) =
  Ok (acc + n * 2 ^ (7 * Z.of_nat k), (offset + length (varint_bytes fuel n))%nat).
Proof.
  induction fuel as [|fuel IH]; intros k n acc offset rest Hf Hn Hk Ha; [lia|].
  set (s := 7 * Z.of_nat k) in *. assert (0 ≤ s ≤ 63) by lia.
  assert (Hpow : 2 ^ 64 = 2 ^ (64 - s) * 2 ^ s) by (rewrite <- Z.pow_add_r by lia; f_equal; lia).
  assert (0 < 2 ^ s) by lia.
  cbn [varint_bytes]. destruct (Z.ltb_spec n 128) as [Hlt|Hge].
  - cbn [app varint_loop length]. destruct (land_byte (byte_of_Z n)) as [-> ->].
    rewrite Z_of_byte_of_Z, (Z.mod_small n 256), (Z.mod_small n 128) by lia.
    rewrite (proj2 (Z.ltb_lt _ _) Hlt). rewrite lor_shl_u64 by nia. do 2 f_equal. lia.
  - assert (s + 7 < 64) as Hs.
    { destruct (decide (s + 7 < 64)); [done|]. exfalso.
      assert (2 ^ (64 - s) ≤ 2 ^ 7) by (apply Z.pow_le_mono_r; lia). lia. }
    pose proof (Z.mod_pos_bound n 128 ltac:(lia)) as Hm.
    cbn [app varint_loop length]. destruct (land_byte (byte_of_Z (n mod 128 + 128))) as [-> ->].
    rewrite Z_of_byte_of_Z, (Z.mod_small (n mod 128 + 128) 256) by lia.
    rewrite (proj2 (Z.ltb_ge (n mod 128 + 128) 128)) by lia.
    replace ((n mod 128 + 128) mod 128) with (n mod 128)
      by (rewrite <- (Z.mul_1_l 128) at 3; rewrite Z.mod_add, Z.mod_mod by lia; done).
    destruct (Z.leb_spec 64 (s + 7)); [lia|].
    assert (Hsplit : 2 ^ (64 - s) = 2 ^ (57 - s) * 128)
      by (replace (64 - s) with (57 - s + 7) by lia; rewrite Z.pow_add_r by lia; done).
    assert (Hs7 : 2 ^ (s + 7) = 2 ^ s * 128) by (rewrite Z.pow_add_r by lia; done).
    rewrite lor_shl_u64 by nia.
    replace (s + 7) with (7 * Z.of_nat (S k)) by lia. rewrite IH; [|lia| |lia|].
    + do 2 f_equal; [|lia]. replace (7 * Z.of_nat (S k)) with (s + 7) by lia. rewrite Hs7.
      pose proof (Z.div_mod n 128). nia.
    + replace (64 - 7 * Z.of_nat (S k)) with (57 - s) by lia.
      split; [by apply Z.div_pos; lia|]. apply Z.div_lt_upper_bound; lia.
    + replace (7 * Z.of_nat (S k)) with (s + 7) by lia. rewrite Hs7. nia.
Qed.

Lemma decode_varint_encode pre n rest :
  0 ≤ n < u64_modulus →
  decode_varint (pre ++ encode_varint n ++ rest) (length pre) =
  Ok (n, (length pre + length (encode_varint n))%nat).
Proof.
  intros Hn. unfold decode_varint, encode_varint. rewrite drop_app_length.
  change 0 with (7 * Z.of_nat 0) at 2. rewrite (varint_loop_encode 10 0) by (done || lia).
  do 2 f_equal. change (2 ^ (7 * Z.of_nat 0)) with 1. lia.
Qed.

Lemma encode_varint_length n : (1 ≤ length (encode_varint n))%nat.
Proof. unfold encode_varint. cbn [varint_bytes]. destruct (n <? 128); cbn [length]; lia. Qed.

(** ** Fields *)

Lemma decode_length_delimited_encode pre bs rest :
  blen (pre ++ encode_varint (blen bs) ++ bs ++ rest) < u64_modulus →
  decode_length_delimited (pre ++ encode_varint (blen bs) ++ bs ++ rest) (length pre) =
  auth_ok (bs, (length pre + length (encode_varint (blen bs)) + length bs)%nat).
Proof.
  intros Hlen. unfold decode_length_delimited.
  assert (0 ≤ blen bs < u64_modulus) by (unfold blen in *; rewrite !length_app in Hlen; lia).
  rewrite decode_varint_encode by done. cbn [auth_bind auth_of].
  set (e := encode_varint (blen bs)) in *. set (off := (length pre + length e)%nat).
  assert (Z.of_nat off + blen bs ≤ blen (pre ++ e ++ bs ++ rest)) as Hoff
    by (unfold blen, off; rewrite !length_app; lia).
  rewrite (proj2 (Z.leb_gt _ _)) by lia. rewrite (proj2 (Z.ltb_ge _ _)) by lia.
  assert (Z.to_nat (blen bs) = length bs) as -> by apply Nat2Z.id. do 2 f_equal.
  rewrite app_assoc. unfold off. rewrite <- length_app, drop_app_length. apply take_app_length.
Qed.

Lemma decode_length_delimited_advances data offset v offset' :
  decode_length_delimited data offset = auth_ok (v, offset') → (offset < offset')%nat.
Proof.
  unfold decode_length_delimited. destruct (decode_varint data offset) as [[n o]|] eqn:E; [|done].
  cbn [auth_bind auth_of]. apply decode_varint_bounds in E.
  repeat case_match; try done. intros [= _ <-]. lia.
Qed.

(** The tag of a field, taken apart. *)
Lemma field_tag number :
  1 ≤ number ≤ 5 →
  0 ≤ number * 8 + 2 < u64_modulus ∧ Z.land (number * 8 + 2) 7 = 2 ∧
  as_u32 (Z.shiftr (number * 8 + 2) 3) = number.
Proof.
  intros Hn. assert (number ∈ [1; 2; 3; 4; 5]) as Hin by (rewrite !elem_of_cons; lia).
  rewrite !elem_of_cons, elem_of_nil in Hin. by destruct_or!; subst.
Qed.

Section fields.
  Context `{Utf8Display}.

Definition set_svid_field (s : X509SVID) (f : Z * list byte) : X509SVID :=
  let '(number, bs) := f in
  if number =? 1 then
    MkX509SVID (str_of_bytes bs) (sv_x509_svid s) (sv_x509_svid_key s) (sv_bundle s) (sv_hint s)
  else if number =? 2 then
    MkX509SVID (sv_spiffe_id s) bs (sv_x509_svid_key s) (sv_bundle s) (sv_hint s)
  else if number =? 3 then
    MkX509SVID (sv_spiffe_id s) (sv_x509_svid s) bs (sv_bundle s) (sv_hint s)
  else if number =? 4 then
    MkX509SVID (sv_spiffe_id s) (sv_x509_svid s) (sv_x509_svid_key s) bs (sv_hint s)
  else
    MkX509SVID (sv_spiffe_id s) (sv_x509_svid s) (sv_x509_svid_key s) (sv_bundle s)
      (str_of_bytes bs).

(** Fields of an SVID: texts are UTF-8. *)
Definition svid_field_ok (f : Z * list byte) : Prop :=
  1 ≤ f.1 ≤ 5 ∧ (f.1 = 1 ∨ f.1 = 5 → is_utf8_bytes f.2 = true).

Lemma svid_field_encoded pre number bs rest s :
  blen (pre ++ ld_field number bs ++ rest) < u64_modulus → svid_field_ok (number, bs) →
  svid_field (pre ++ ld_field number bs ++ rest) s 2 number
    (length (pre ++ encode_varint (number * 8 + 2))) =
  auth_ok (set_svid_field s (number, bs), length (pre ++ ld_field number bs)).
Proof.
  intros Hlen [Hn Hu].
  assert (pre ++ ld_field number bs ++ rest =
    (pre ++ encode_varint (number * 8 + 2)) ++ encode_varint (blen bs) ++ bs ++ rest) as Hdata
    by (unfold ld_field; by rewrite <- !app_assoc).
  rewrite Hdata in *.
  assert (length (pre ++ ld_field number bs) = (length (pre ++ encode_varint (number * 8 + 2)) +
    length (encode_varint (blen bs)) + length bs)%nat) as ->
    by (unfold ld_field; rewrite !length_app; lia).
  pose proof (decode_length_delimited_encode _ bs rest Hlen) as Hd.
  unfold svid_field, set_svid_field, decode_string. cbn [Z.eqb Pos.eqb]. rewrite Hd.
  cbn [auth_bind auth_ok fst snd] in *.
  destruct (Z.eqb_spec number 1); [rewrite Hu by lia; done|].
  destruct (Z.eqb_spec number 5); [rewrite Hu by lia|].
  - subst. done.
  - destruct (Z.eqb_spec number 2), (Z.eqb_spec number 3), (Z.eqb_spec number 4); try done; lia.
Qed.

Lemma ld_field_length number bs : (1 ≤ length (ld_field number bs))%nat.
Proof. unfold ld_field. rewrite length_app. pose proof (encode_varint_length (number * 8 + 2)). lia. Qed.

Lemma ld_fields_length fields : (length fields ≤ length (ld_fields fields))%nat.
Proof.
  induction fields as [|[n bs] fields IH]; [done|]. unfold ld_fields in *. cbn [fmap list_fmap concat].
  rewrite length_app. pose proof (ld_field_length n bs). cbn [length]. lia.
Qed.

(** Reading the encoded fields sets them one after the other. *)
Lemma svid_loop_fields fields : ∀ fuel pre s,
  (length fields ≤ fuel)%nat → Forall svid_field_ok fields →
  blen (pre ++ ld_fields fields) < u64_modulus →
  svid_loop fuel (pre ++ ld_fields fields) s (length pre) =
  Some (auth_ok (foldl set_svid_field s fields)).
Proof.
  induction fields as [|[number bs] fields IH]; intros fuel pre s Hf Hok Hlen.
  { cbn [ld_fields fmap list_fmap concat foldl]. rewrite app_nil_r. destruct fuel; cbn [svid_loop];
      by rewrite Nat.leb_refl. }
  apply Forall_cons in Hok as [Hok Hoks]. destruct fuel as [|fuel]; [cbn in Hf; lia|].
  change (ld_fields ((number, bs) :: fields)) with (ld_field number bs ++ ld_fields fields) in *.
  cbn [svid_loop foldl]. rewrite (proj2 (Nat.leb_gt _ _)).
  2: { rewrite !length_app. pose proof (ld_field_length number bs). lia. }
  destruct (field_tag number) as (Hr & Hw & Hnum); [by destruct Hok|].
  assert (decode_varint (pre ++ ld_field number bs ++ ld_fields fields) (length pre) =
    Ok (number * 8 + 2, length (pre ++ encode_varint (number * 8 + 2)))) as ->.
  { unfold ld_field. rewrite <- !app_assoc, length_app. by apply decode_varint_encode. }
  cbn [auth_bind auth_of]. rewrite Hw, Hnum, svid_field_encoded by done.
  cbn [auth_ok]. rewrite app_assoc in *. apply IH; [cbn in Hf; lia|done|done].
Qed.

End fields.

(** ** Messages *)

Section message_properties.
  Context `{Utf8Display}.

(** An SVID as the API sends it: its texts are UTF-8. *)
Definition svid_wf (s : X509SVID) : Prop :=
  is_utf8 (sv_spiffe_id s) = true ∧ is_utf8 (sv_hint s) = true.

Lemma svid_fields_ok s : svid_wf s → Forall svid_field_ok (svid_fields s).
Proof.
  intros [Hi Hh]. apply Forall_forall. intros f [_ Hf]%list_elem_of_filter.
  rewrite !elem_of_cons, elem_of_nil in Hf. unfold svid_field_ok, is_utf8 in *.
  destruct_or!; subst f; cbn [fst snd]; (split; [lia|]); intros Hor; try done; lia.
Qed.

Lemma set_svid_fields s : foldl set_svid_field X509SVID_default (svid_fields s) = s.
Proof.
  assert (∀ i x k b h, foldl set_svid_field X509SVID_default
    (filter (λ f, f.2 ≠ []) [(1, i); (2, x); (3, k); (4, b); (5, h)]) =
    MkX509SVID (str_of_bytes i) x k b (str_of_bytes h)) as Hset
    by (intros [] [] [] [] []; reflexivity).
  destruct s. unfold svid_fields. rewrite Hset.
  cbn [sv_spiffe_id sv_x509_svid sv_x509_svid_key sv_bundle sv_hint]. by rewrite !str_of_str_bytes.
Qed.

Lemma decode_svid_encode s :
  svid_wf s → blen (encode_svid s) < u64_modulus → decode_svid (encode_svid s) = auth_ok s.
Proof.
  intros Hwf Hlen. unfold decode_svid, encode_svid in *.
  pose proof (svid_loop_fields (svid_fields s) (length (ld_fields (svid_fields s))) []
    X509SVID_default (ld_fields_length _) (svid_fields_ok s Hwf) Hlen) as E.
  cbn [app length] in E. rewrite E, set_svid_fields. done.
Qed.

Lemma response_loop_svids svids : ∀ fuel pre done_,
  (length svids ≤ fuel)%nat → Forall svid_wf svids →
  blen (pre ++ encode_response svids) < u64_modulus →
  response_loop fuel (pre ++ encode_response svids) done_ (length pre) =
  Some (auth_ok (done_ ++ svids)).
Proof.
  induction svids as [|s svids IH]; intros fuel pre done_ Hf Hwf Hlen.
  { cbn [encode_response ld_fields fmap list_fmap concat]. rewrite !app_nil_r.
    destruct fuel; cbn [response_loop]; by rewrite Nat.leb_refl. }
  apply Forall_cons in Hwf as [Hs Hss]. destruct fuel as [|fuel]; [cbn in Hf; lia|].
  change (encode_response (s :: svids)) with (ld_field 1 (encode_svid s) ++ encode_response svids) in *.
  cbn [response_loop]. rewrite (proj2 (Nat.leb_gt _ _)).
  2: { rewrite !length_app. pose proof (ld_field_length 1 (encode_svid s)). lia. }
  set (bs := encode_svid s) in *.
  assert (pre ++ ld_field 1 bs ++ encode_response svids =
    (pre ++ encode_varint 10) ++ encode_varint (blen bs) ++ bs ++ encode_response svids) as Hdata
    by (unfold ld_field; by rewrite <- !app_assoc).
  assert (decode_varint (pre ++ ld_field 1 bs ++ encode_response svids) (length pre) =
    Ok (10, length (pre ++ encode_varint 10))) as ->.
  { rewrite Hdata, <- app_assoc, length_app. by apply decode_varint_encode. }
  cbn [auth_bind auth_of]. change (Z.land 10 7) with 2. change (as_u32 (Z.shiftr 10 3)) with 1.
  unfold response_field. cbn [Z.eqb Pos.eqb orb]. rewrite Hdata in *.
  rewrite decode_length_delimited_encode by done. cbn [auth_bind auth_ok Z.eqb Pos.eqb].
  subst bs. rewrite decode_svid_encode; [|done|].
  2: { unfold blen in *. rewrite !length_app in Hlen. lia. }
  cbn [auth_bind auth_ok].
  replace (length (pre ++ encode_varint 10) + _ + _)%nat with (length (pre ++ ld_field 1 (encode_svid s)))
    by (unfold ld_field; rewrite !length_app; change (1 * 8 + 2) with 10; lia).
  rewrite <- Hdata, app_assoc in *. rewrite IH; [|cbn in Hf; lia|done|done].
  by rewrite <- app_assoc.
Qed.

(** What SPIRE encodes is decoded: a response with any number of SVIDs, of any
    content, is read back exactly. *)
Theorem svid_response_roundtrip svids :
  Forall svid_wf svids → blen (encode_response svids) < u64_modulus →
  decode_x509_svid_response (encode_response svids) = auth_ok svids.
Proof.
  intros Hwf Hlen. unfold decode_x509_svid_response.
  rewrite (response_loop_svids svids _ [] []); [done| |done|done].
  unfold encode_response. etransitivity; [|apply ld_fields_length]. by rewrite length_fmap.
Qed.

(** ** Termination *)

Lemma auth_bind_ok {X Y} (m : auth X) (k : X → auth Y) y :
  auth_bind m k = auth_ok y → ∃ x, m = auth_ok x ∧ k x = auth_ok y.
Proof. destruct m as [[x|e]| |]; cbn; try done. eauto. Qed.

Lemma decode_string_advances data offset v offset' :
  decode_string data offset = auth_ok (v, offset') → (offset < offset')%nat.
Proof.
  unfold decode_string. intros ([bs o] & Hd & E)%auth_bind_ok.
  apply decode_length_delimited_advances in Hd. case_match; [|done]. by injection E as _ <-.
Qed.

Lemma svid_field_advances value s ty n inner s' inner' :
  svid_field value s ty n inner = auth_ok (s', inner') → (inner < inner')%nat.
Proof.
  unfold svid_field. destruct (ty =? 0).
  - intros ([v o] & Hd & [= _ <-])%auth_bind_ok. injection Hd as Hd%decode_varint_bounds. lia.
  - destruct (ty =? 2); [|done]. destruct (n =? 1); [|destruct (n =? 5)].
    + intros ([v o] & Hd%decode_string_advances & [= _ <-])%auth_bind_ok. lia.
    + intros ([v o] & Hd%decode_string_advances & [= _ <-])%auth_bind_ok. lia.
    + intros ([v o] & Hd%decode_length_delimited_advances & [= _ <-])%auth_bind_ok. lia.
Qed.

Lemma response_field_advances data svids ty n o svids' o' :
  response_field data svids ty n o = auth_ok (svids', o') → (o < o')%nat.
Proof.
  unfold response_field. destruct (ty =? 0).
  - intros ([v o1] & Hd & [= _ <-])%auth_bind_ok. injection Hd as Hd%decode_varint_bounds. lia.
  - destruct (_ || _); [|destruct (ty =? 2); [|done]].
    + intros ([v o1] & Hd%decode_length_delimited_advances & [= _ <-])%auth_bind_ok. lia.
    + intros ([v o1] & Hd%decode_length_delimited_advances & E)%auth_bind_ok.
      destruct (n =? 1); [|by injection E as _ <-].
      apply auth_bind_ok in E as (s & _ & [= _ <-]). lia.
Qed.

Lemma svid_loop_total fuel : ∀ value s inner,
  (length value ≤ fuel + inner)%nat → is_Some (svid_loop fuel value s inner).
Proof.
  induction fuel as [|fuel IH]; intros value s inner Hf; cbn [svid_loop].
  { rewrite (proj2 (Nat.leb_le _ _)) by lia. by eexists. }
  case_match; [by eexists|].
  destruct (auth_bind _ _) as [[[s' i']|e]|w|] eqn:E; try by eexists.
  apply IH. apply auth_bind_ok in E as ([tag o] & Hd & E).
  injection Hd as Hd%decode_varint_bounds. apply svid_field_advances in E. lia.
Qed.

Lemma response_loop_total fuel : ∀ data svids offset,
  (length data ≤ fuel + offset)%nat → is_Some (response_loop fuel data svids offset).
Proof.
  induction fuel as [|fuel IH]; intros data svids offset Hf; cbn [response_loop].
  { rewrite (proj2 (Nat.leb_le _ _)) by lia. by eexists. }
  case_match; [by eexists|].
  destruct (auth_bind _ _) as [[[s' i']|e]|w|] eqn:E; try by eexists.
  apply IH. apply auth_bind_ok in E as ([tag o] & Hd & E).
  injection Hd as Hd%decode_varint_bounds. apply response_field_advances in E. lia.
Qed.

Lemma grpc_loop_total fuel : ∀ data frames,
  (length data ≤ fuel)%nat → is_Some (grpc_loop fuel data frames).
Proof.
  induction fuel as [|fuel IH]; intros data frames Hf.
  { destruct data; [by eexists|cbn in Hf; lia]. }
  destruct data as [|c [|a [|b [|d [|e rest]]]]]; try by eexists.
  cbn [grpc_loop]. repeat case_match; try by eexists.
  apply IH. rewrite length_drop. cbn in Hf. lia.
Qed.

(** C31: the decoders end on every input, whatever the agent sends: each round of
    their loops consumes input, so as many rounds as there are bytes are
    enough; and a varint is a [u64] of at most ten bytes of the input. *)
Theorem decoders_terminate data :
  (∀ s inner, is_Some (svid_loop (length data) data s inner)) ∧
  (∀ svids offset, is_Some (response_loop (length data) data svids offset)) ∧
  (∀ frames, is_Some (grpc_loop (length data) data frames)) ∧
  (∀ offset v offset', decode_varint data offset = Ok (v, offset') →
     0 ≤ v < u64_modulus ∧ (offset < offset' ≤ length data)%nat ∧ (offset' ≤ offset + 10)%nat).
Proof.
  split_and!; intros.
  - apply svid_loop_total. lia.
  - apply response_loop_total. lia.
  - by apply grpc_loop_total.
  - by apply decode_varint_bounds.
Qed.

(** ** What the decoder does not handle *)

(** A length close to [2 ^ 64] does not end in an error but in a panic: the
    end of the field is computed without a check. *)
Theorem oversized_length_panics n rest :
  u64_modulus - 2 ≤ n < u64_modulus →
  decode_x509_svid_response (encode_varint 10 ++ encode_varint n ++ rest) = Panics SliceRange.
Proof.
  intros Hn. unfold decode_x509_svid_response.
  assert (Hlen : (1 ≤ length (encode_varint n))%nat) by apply encode_varint_length.
  set (data := encode_varint 10 ++ encode_varint n ++ rest).
  destruct (length data) as [|fuel] eqn:El.
  { unfold data in El. cbn in El. lia. }
  cbn [response_loop]. rewrite El. cbn [Nat.leb].
  assert (Hd1 : decode_varint data 0 = Ok (10, 1%nat)).
  { unfold data. apply (decode_varint_encode [] 10); done. }
  rewrite Hd1. cbn [auth_bind auth_of]. change (Z.land 10 7) with 2.
  change (as_u32 (Z.shiftr 10 3)) with 1. unfold response_field. cbn [Z.eqb Pos.eqb orb].
  unfold decode_length_delimited.
  assert (decode_varint data 1 = Ok (n, (1 + length (encode_varint n))%nat)) as ->.
  { unfold data. apply (decode_varint_encode (encode_varint 10) n rest).
    unfold u64_modulus in *. lia. }
  cbn [auth_bind auth_of]. by rewrite (proj2 (Z.leb_le _ _)) by lia.
Qed.

(** A four-byte field is skipped as if it had a length: a response that is
    well-formed but for an unknown [fixed32] field before its SVIDs is
    refused. *)
Theorem fixed32_field_misread svids :
  blen (encode_response svids) < 268435455 →
  decode_x509_svid_response
    (map byte_of_Z [2 * 8 + 5; 255; 255; 255; 127] ++ encode_response svids) =
  auth_err (Failed "protobuf length-delimited field exceeds the SPIRE Workload API response size").
Proof.
  intros Hlen. unfold decode_x509_svid_response.
  set (data := map byte_of_Z [2 * 8 + 5; 255; 255; 255; 127] ++ encode_response svids).
  assert (El : length data = (5 + length (encode_response svids))%nat) by done.
  rewrite El. cbn [Nat.add response_loop]. rewrite El. cbn [Nat.leb].
  change (decode_varint data 0) with (Ok (E := AuthError) (21, 1%nat)).
  cbn [auth_bind auth_of]. change (Z.land 21 7) with 5.
  change (as_u32 (Z.shiftr 21 3)) with 2. unfold response_field. cbn [Z.eqb Pos.eqb orb].
  unfold decode_length_delimited.
  change (decode_varint data 1) with (Ok (E := AuthError) (268435455, 5%nat)).
  cbn [auth_bind auth_of]. rewrite (proj2 (Z.leb_gt _ _)) by done.
  rewrite (proj2 (Z.ltb_lt _ _)); [done|]. unfold blen in *. rewrite El. lia.
Qed.

End message_properties.

(** ** Frames *)

Lemma grpc_loop_frames payloads : ∀ fuel frames tail,
  Forall (λ p, blen p ≤ u32_max) payloads → (length tail < 5)%nat →
  (length payloads ≤ fuel)%nat →
  grpc_loop fuel (concat (grpc_encode_message <$> payloads) ++ tail) frames =
  Some (Ok (frames ++ payloads)).
Proof.
  induction payloads as [|p payloads IH]; intros fuel frames tail Hp Ht Hf.
  { cbn [fmap list_fmap concat app]. rewrite app_nil_r.
    destruct tail as [|c [|a [|b [|d [|e tail]]]]]; [by destruct fuel..|cbn in Ht; lia]. }
  apply Forall_cons in Hp as [Hp Hps]. destruct fuel as [|fuel]; [cbn in Hf; lia|].
  cbn [fmap list_fmap concat]. rewrite <- app_assoc. unfold grpc_encode_message at 1.
  rewrite <- app_comm_cons. rewrite <- app_assoc.
  assert (0 ≤ blen p ≤ u32_max) as Hr by (unfold blen in *; lia).
  assert (as_u32 (blen p) = blen p) as -> by (apply Z.mod_small; unfold u32_max in *; lia).
  pose proof (u32_be_roundtrip (blen p) Hr) as Hbe.
  destruct (u32_to_be_bytes (blen p)) as [|l1 [|l2 [|l3 [|l4 [|]]]]] eqn:El; try discriminate.
  cbn [app grpc_loop]. change (Z_of_byte (byte_of_Z 0)) with 0. cbn [Z.eqb negb].
  rewrite Hbe. rewrite (proj2 (Z.ltb_ge _ _)) by (unfold blen; rewrite length_app; lia).
  assert (Z.to_nat (blen p) = length p) as -> by apply Nat2Z.id.
  rewrite drop_app_length, take_app_length, IH; [by rewrite <- app_assoc|done|done|cbn in Hf; lia].
Qed.

(** The frames of a stream are read back, one message each; fewer than five
    trailing bytes are ignored. *)
Theorem grpc_frames_roundtrip payloads tail :
  Forall (λ p, blen p ≤ u32_max) payloads → (length tail < 5)%nat →
  parse_grpc_frames (concat (grpc_encode_message <$> payloads) ++ tail) = Ok payloads.
Proof.
  intros Hp Ht. unfold parse_grpc_frames. rewrite grpc_loop_frames; [done|done|done|].
  rewrite length_app. clear Hp. induction payloads as [|p payloads IH]; [cbn; lia|].
  cbn [fmap list_fmap concat length]. rewrite length_app.
  unfold grpc_encode_message at 1. cbn [length]. lia.
Qed.

(** ** Concrete messages *)

Section ProtobufWitnesses.

#[local] Instance no_utf8_text : Utf8Display := { utf8_error _ := EmptyString }.

Definition demo_svid : X509SVID :=
  MkX509SVID "spiffe://example.org/kms" [byte_of_Z 1; byte_of_Z 2] [byte_of_Z 3] [byte_of_Z 4] EmptyString.

Lemma svid_response_roundtrip_witness :
  decode_x509_svid_response (encode_response [demo_svid; demo_svid]) =
  auth_ok [demo_svid; demo_svid].
Proof.
  apply svid_response_roundtrip; [|vm_compute; reflexivity].
  repeat constructor; vm_compute; reflexivity.
Defined.

Lemma oversized_length_panics_witness :
  decode_x509_svid_response (encode_varint 10 ++ encode_varint 18446744073709551615 ++ []) =
  Panics SliceRange.
Proof. apply oversized_length_panics. vm_compute. split; [discriminate|reflexivity]. Defined.

Lemma fixed32_field_misread_witness :
  decode_x509_svid_response
    (map byte_of_Z [2 * 8 + 5; 255; 255; 255; 127] ++ encode_response [demo_svid]) =
  auth_err (Failed "protobuf length-delimited field exceeds the SPIRE Workload API response size").
Proof. apply fixed32_field_misread. vm_compute. reflexivity. Defined.

Lemma grpc_frames_roundtrip_witness :
  parse_grpc_frames (concat (grpc_encode_message <$> [[byte_of_Z 7]; []]) ++ [byte_of_Z 1]) =
  Ok [[byte_of_Z 7]; []].
Proof. apply grpc_frames_roundtrip; [repeat constructor; vm_compute; discriminate|cbn; lia]. Defined.

End ProtobufWitnesses.
