(* ===== verification/Domain.v ===== *)
(** * Domain types and the error type of the KMS service

    Models the types of [kms-service/src/domain] shared by the components and
    [kms-service/src/errors/app_error.rs]. *)

From S2P Require Import Prelude.
From S2P Require Import Interfaces.
From S2P Require Import Protocol.

(** ** Keys *)

(** [struct ServiceId(pub String)] *)
Abbreviation ServiceId := string (only parsing).

Inductive KeyAlgorithm := Ed25519 | X25519 | AES256GCM | HmacSha256 | EcdsaP256.

Definition KeyAlgorithm_as_str (a : KeyAlgorithm) : string :=
  match a with
  | Ed25519 => "Ed25519"
  | X25519 => "X25519"
  | AES256GCM => "AES256GCM"
  | HmacSha256 => "HmacSha256"
  | EcdsaP256 => "ECDSA_P256"
  end.

(** [format!("{:?}", a)]: the derived [Debug]. *)
Definition KeyAlgorithm_debug (a : KeyAlgorithm) : string :=
  match a with
  | Ed25519 => "Ed25519"
  | X25519 => "X25519"
  | AES256GCM => "AES256GCM"
  | HmacSha256 => "HmacSha256"
  | EcdsaP256 => "EcdsaP256"
  end.

Inductive KeyPurpose := Signing | Encryption | Authentication.

(** Instants are nanoseconds since the Unix epoch. *)
Inductive KeyStatus :=
| Active
| Deprecated (valid_until : Z)
| Revoked
| Expired
| Compromised.

Inductive RotationReason := Scheduled | RotationCompromised | Manual.

#[export] Instance KeyAlgorithm_eq_dec : EqDecision KeyAlgorithm.
Proof. solve_decision. Defined.
#[export] Instance KeyStatus_eq_dec : EqDecision KeyStatus.
Proof. solve_decision. Defined.
#[export] Instance KeyPurpose_eq_dec : EqDecision KeyPurpose.
Proof. solve_decision. Defined.

#[export] Instance KeyAlgorithm_countable : Countable KeyAlgorithm.
Proof.
  refine (inj_countable (λ a, match a with
    | Ed25519 => 0 | X25519 => 1 | AES256GCM => 2 | HmacSha256 => 3 | EcdsaP256 => 4 end)
  (λ n, match n with
    | 0 => Some Ed25519 | 1 => Some X25519 | 2 => Some AES256GCM
    | 3 => Some HmacSha256 | 4 => Some EcdsaP256 | _ => None end) _).
  by intros [].
Defined.

(** ** Errors *)

Inductive AppError :=
| KeyNotFound (m : string)
| Unauthorized
| Forbidden
| NotFound (m : string)
| ValidationError (m : string)
| CryptoError (m : string) (source : option string)
| DatabaseError (m : string) (source : option string)
| RedisError (source : string)
| HsmError (source : HsmClientError)
| TimeoutError
| ConfigError (m : string)
| SerializationError (m : string)
| RuntimeError (m : string)
| Conflict (m : string)
| ExternalServiceError (m : string)
| InternalError (m : string).

(** The constructors, with the text of the source error, and the conversions,
    which drop it. *)
Definition database_error (message : string) : AppError := DatabaseError message None.
Definition database_error_with_source (message source : string) : AppError :=
  DatabaseError message (Some source).
Definition crypto_error (message : string) : AppError := CryptoError message None.
Definition crypto_error_with_source (message source : string) : AppError :=
  CryptoError message (Some source).
Definition AppError_from_serde_json (source : string) : AppError :=
  SerializationError "Invalid request payload".
Definition AppError_from_anyhow (source : string) : AppError :=
  RuntimeError "Internal runtime error".
Definition AppError_from_elapsed : AppError := TimeoutError.

(** [Display] of the two error types ([#[error("...")]]). *)
Definition HsmClientError_display (e : HsmClientError) : string :=
  match e with
  | Io _ => "connection to HSM failed"
  | Timeout => "HSM request timed out"
  | InvalidFrame => "HSM frame is invalid"
  | InvalidResponse => "HSM response was invalid"
  | Serialization _ => "serializing HSM request failed"
  | Remote msg => "HSM returned an error: " +s+ msg
  | PlatformNotSupported => "Unix domain sockets are not available on this platform"
  end.

Definition AppError_display (e : AppError) : string :=
  match e with
  | KeyNotFound m => "Nie znaleziono klucza: " +s+ m
  | Unauthorized => "Autoryzacja nie powiodła się"
  | Forbidden => "Brak uprawnień do wykonania tej akcji"
  | NotFound m => "Nie znaleziono zasobu: " +s+ m
  | ValidationError m => "Błędne dane wejściowe: " +s+ m
  | CryptoError m _ => m
  | DatabaseError m _ => m
  | RedisError _ => "Błąd usługi Redis"
  | HsmError source => "Błąd komunikacji z HSM: " +s+ HsmClientError_display source
  | TimeoutError => "Błąd timeout"
  | ConfigError m => "Błąd konfiguracji: " +s+ m
  | SerializationError m => "Błąd serializacji/deserializacji: " +s+ m
  | RuntimeError m => "Błąd środowiska wykonawczego: " +s+ m
  | Conflict m => "Zasób w konflikcie: " +s+ m
  | ExternalServiceError m => "Błąd zewnętrznej usługi (HTTP): " +s+ m
  | InternalError m => "Wystąpił nieoczekiwany błąd serwera: " +s+ m
  end.

Definition error_code (e : AppError) : string :=
  match e with
  | KeyNotFound _ => "KEY_NOT_FOUND"
  | Unauthorized => "UNAUTHORIZED"
  | Forbidden => "FORBIDDEN"
  | NotFound _ => "RESOURCE_NOT_FOUND"
  | ValidationError _ => "VALIDATION_ERROR"
  | Conflict _ => "CONFLICT_ERROR"
  | CryptoError _ _ => "CRYPTO_FAILURE"
  | DatabaseError _ _ => "INTERNAL_SERVER_ERROR"
  | RedisError _ => "INTERNAL_SERVER_ERROR"
  | HsmError _ => "HSM_COMMUNICATION_ERROR"
  | TimeoutError => "TIMEOUT_ERROR"
  | ConfigError _ => "CONFIG_INVALID"
  | SerializationError _ => "VALIDATION_ERROR"
  | ExternalServiceError _ => "EXTERNAL_SERVICE_UNAVAILABLE"
  | RuntimeError _ => "INTERNAL_SERVER_ERROR"
  | InternalError _ => "INTERNAL_SERVER_ERROR"
  end.

Definition public_message (e : AppError) : string :=
  match e with
  | KeyNotFound _ => "Key not found"
  | Unauthorized => "Authentication failed"
  | Forbidden => "Forbidden"
  | NotFound _ => "Resource not found"
  | ValidationError _ => "Invalid request"
  | Conflict _ => "Resource conflict"
  | CryptoError _ _ => "Cryptographic operation failed"
  | DatabaseError _ _ => "Internal server error"
  | RedisError _ => "Internal server error"
  | HsmError _ => "HSM communication error"
  | TimeoutError => "Request timed out"
  | ConfigError _ => "Configuration error"
  | SerializationError _ => "Invalid request"
  | ExternalServiceError _ => "External service unavailable"
  | RuntimeError _ => "Internal server error"
  | InternalError _ => "Internal server error"
  end.

(** The HTTP status and the JSON body. *)
Record ErrorResponse := MkErrorResponse {
  er_status : Z; er_code : string; er_message : string; er_request_id : option string }.

Definition into_response (e : AppError) : ErrorResponse :=
  let status :=
    match e with
    | KeyNotFound _ => 404
    | Unauthorized => 401
    | Forbidden => 403
    | NotFound _ => 404
    | ValidationError _ => 400
    | Conflict _ => 409
    | CryptoError _ _ => 422
    | DatabaseError _ _ => 500
    | RedisError _ => 500
    | HsmError _ => 502
    | SerializationError _ => 400
    | ConfigError _ => 500
    | ExternalServiceError _ => 502
    | RuntimeError _ => 500
    | InternalError _ => 500
    | TimeoutError => 408
    end in
  {| er_status := status; er_code := error_code e; er_message := public_message e;
     er_request_id := None |}.

(** The kind of an error, without what it carries. *)
Definition erase_error (e : AppError) : AppError :=
  let x := "erased" in
  match e with
  | KeyNotFound _ => KeyNotFound x
  | Unauthorized => Unauthorized
  | Forbidden => Forbidden
  | NotFound _ => NotFound x
  | ValidationError _ => ValidationError x
  | CryptoError _ _ => CryptoError x None
  | DatabaseError _ _ => DatabaseError x None
  | RedisError _ => RedisError x
  | HsmError _ => HsmError Timeout
  | TimeoutError => TimeoutError
  | ConfigError _ => ConfigError x
  | SerializationError _ => SerializationError x
  | RuntimeError _ => RuntimeError x
  | Conflict _ => Conflict x
  | ExternalServiceError _ => ExternalServiceError x
  | InternalError _ => InternalError x
  end.

(** ** Properties *)

(** An error response reveals only the kind of the error: messages,
    database, Redis and vHSM details never reach the client, and the status
    is a client or server error. *)
Theorem error_response_opaque e :
  into_response e = into_response (erase_error e) ∧
  400 ≤ er_status (into_response e) < 600.
Proof. destruct e; split; try done; simpl; lia. Qed.
