(* ===== verification/Effects.v ===== *)
(** * Steps with state, errors and panics

    A call of the service that changes a state, returns [Result<T, AppError>]
    or panics: [act S X].  A panic keeps the state the earlier calls made, as
    it unwinds the task and not the database or the remote servers.

    The programs outside the service use [anyhow::Result]: [io S X] is such a
    step over the state [S] of the operating system and of the remote
    servers.  An error is the text [{:#}] prints, its contexts first. *)

From S2P Require Import Prelude.
From S2P Require Import Interfaces.
From S2P Require Import Protocol.
From S2P Require Import Domain.

(** The call returned; [Value] is also the type of JSON values. *)
Abbreviation Done := Interfaces.Value.

Definition act (S X : Type) : Type := S → outcome (result X AppError) * S.

Definition act_ret {S X} (x : X) : act S X := λ s, (Done (Ok x), s).
Definition act_err {S X} (e : AppError) : act S X := λ s, (Done (Err e), s).
Definition act_panic {S X} (why : PanicReason) : act S X := λ s, (Panics why, s).

(** [m.await?] followed by the rest. *)
Definition act_bind {S X Y} (m : act S X) (k : X → act S Y) : act S Y := λ s,
  match m s with
  | (Done (Ok x), s) => k x s
  | (Done (Err e), s) => (Done (Err e), s)
  | (Panics why, s) => (Panics why, s)
  | (Aborts, s) => (Aborts, s)
  end.

(** [let _ = m.await]: errors are dropped, panics are not. *)
Definition act_ignore {S X} (m : act S X) : act S unit := λ s,
  match m s with
  | (Done _, s) => (Done (Ok ()), s)
  | (Panics why, s) => (Panics why, s)
  | (Aborts, s) => (Aborts, s)
  end.

Definition act_of {S X} (r : result X AppError) : act S X := λ s, (Done r, s).
Definition act_or_panic {S X} (why : PanicReason) (o : option X) : act S X :=
  match o with Some x => act_ret x | None => act_panic why end.

(** Reads the state, and replaces it. *)
Definition act_get {S} : act S S := λ s, (Done (Ok s), s).
Definition act_put {S} (s' : S) : act S unit := λ _, (Done (Ok ()), s').

(** A remote call with an error text of its own. *)
Definition act_call {S X} (err : string → AppError) (f : S → result X string * S) : act S X :=
  λ s, let (r, s) := f s in (Done (map_err err r), s).

Notation "'let@' x ':=' m 'in' k" := (act_bind m (λ x, k))
  (at level 10, x pattern, m at level 100, k at level 200,
   format "'[hv' 'let@'  x  ':='  m  'in'  '/' k ']'") : kms_scope.
Notation "m ';;@' k" := (act_bind m (λ _, k))
  (at level 100, right associativity, format "'[hv' m  ';;@' '/' k ']'") : kms_scope.

Section ActLemmas.
  Context {S : Type}.

Lemma act_bind_Ok {X Y} (m : act S X) (k : X → act S Y) s y s' :
  act_bind m k s = (Done (Ok y), s') ↔
  ∃ x s1, m s = (Done (Ok x), s1) ∧ k x s1 = (Done (Ok y), s').
Proof.
  unfold act_bind. destruct (m s) as [[[x|e]| |] s1]; split; try (by eauto);
    intros (? & ? & ? & ?); by simplify_eq.
Qed.

Lemma act_bind_step {X Y} (m : act S X) (k : X → act S Y) s x s1 :
  m s = (Done (Ok x), s1) → act_bind m k s = k x s1.
Proof. unfold act_bind. by intros ->. Qed.

(** What every call keeps, their sequence keeps. *)
Definition keeps {X} (I : S → Prop) (m : act S X) : Prop := ∀ s, I s → I (m s).2.

Lemma keeps_bind {X Y} I (m : act S X) (k : X → act S Y) :
  keeps I m → (∀ x, keeps I (k x)) → keeps I (act_bind m k).
Proof.
  intros Hm Hk s Hs. specialize (Hm s Hs). unfold act_bind.
  destruct (m s) as [[[x|e]| |] s1]; try done. by apply Hk.
Qed.

Lemma keeps_ignore {X} I (m : act S X) : keeps I m → keeps I (act_ignore m).
Proof.
  intros Hm s Hs. specialize (Hm s Hs). unfold act_ignore.
  by destruct (m s) as [[[x|e]| |] s1].
Qed.

Lemma keeps_ret {X} I (x : X) : keeps I (act_ret x).
Proof. by intros s. Qed.
Lemma keeps_err {X} I e : keeps (X := X) I (act_err e).
Proof. by intros s. Qed.
Lemma keeps_panic {X} I w : keeps (X := X) I (act_panic w).
Proof. by intros s. Qed.
Lemma keeps_of {X} I (r : result X AppError) : keeps I (act_of r).
Proof. by intros s. Qed.
Lemma keeps_or_panic {X} I w (o : option X) : keeps I (act_or_panic w o).
Proof. by intros s; destruct o. Qed.
Lemma keeps_get I : keeps I act_get.
Proof. by intros s. Qed.

End ActLemmas.

#[export] Hint Resolve keeps_bind keeps_ignore keeps_ret keeps_err keeps_panic keeps_of
  keeps_or_panic keeps_get : kms.

(** Splits a run of [let@] that returned [Ok]. *)
Ltac inv_act :=
  repeat match goal with
  | H : act_bind _ _ _ = (Done (Ok _), _) |- _ =>
      apply act_bind_Ok in H; destruct H as (? & ? & ? & ?)
  | H : act_ret _ _ = (Done (Ok _), _) |- _ => injection H as H; try subst
  | H : act_err _ _ = (Done (Ok _), _) |- _ => discriminate H
  | H : act_panic _ _ = (Done (Ok _), _) |- _ => discriminate H
  | H : act_of ?r ?s = (Done (Ok _), _) |- _ => unfold act_of in H
  | H : act_get _ = (Done (Ok _), _) |- _ => unfold act_get in H
  | H : act_put _ _ = (Done (Ok _), _) |- _ => unfold act_put in H
  end; simplify_eq/=.

(** ** Steps with [anyhow] errors *)

Definition io (S X : Type) : Type := S → result X string * S.

Definition io_ret {S X} (x : X) : io S X := λ s, (Ok x, s).
Definition io_err {S X} (e : string) : io S X := λ s, (Err e, s).
Definition io_of {S X} (r : result X string) : io S X := λ s, (r, s).
Definition io_read {S X} (f : S → X) : io S X := λ s, (Ok (f s), s).

(** [m.await?] followed by the rest. *)
Definition io_bind {S X Y} (m : io S X) (k : X → io S Y) : io S Y := λ s,
  match m s with (Ok x, s) => k x s | (Err e, s) => (Err e, s) end.

(** [m.await] with the error left to the caller, and dropped. *)
Definition io_try {S X} (m : io S X) : io S (result X string) := λ s,
  let (r, s) := m s in (Ok r, s).
Definition io_ignore {S X} (m : io S X) : io S unit := λ s, (Ok (), (m s).2).

(** [.context(c)] *)
Definition context {X} (c : string) (r : result X string) : result X string :=
  map_err (λ e, c +s+ ": " +s+ e) r.
Definition io_context {S X} (c : string) (m : io S X) : io S X := λ s,
  let (r, s) := m s in (context c r, s).

Notation "'let>' x ':=' m 'in' k" := (io_bind m (λ x, k))
  (at level 10, x pattern, m at level 100, k at level 200,
   format "'[hv' 'let>'  x  ':='  m  'in'  '/' k ']'") : kms_scope.
Notation "m ';;>' k" := (io_bind m (λ _, k))
  (at level 100, right associativity, format "'[hv' m  ';;>' '/' k ']'") : kms_scope.

Lemma io_bind_Ok {S X Y} (m : io S X) (k : X → io S Y) s y s' :
  io_bind m k s = (Ok y, s') ↔ ∃ x s1, m s = (Ok x, s1) ∧ k x s1 = (Ok y, s').
Proof.
  unfold io_bind. destruct (m s) as [[x|e] s1]; split; try (by eauto);
    intros (? & ? & ? & ?); by simplify_eq.
Qed.

Lemma io_bind_step {S X Y} (m : io S X) (k : X → io S Y) s x s1 :
  m s = (Ok x, s1) → io_bind m k s = k x s1.
Proof. unfold io_bind. by intros ->. Qed.

Lemma io_bind_fail {S X Y} (m : io S X) (k : X → io S Y) s e s1 :
  m s = (Err e, s1) → io_bind m k s = (Err e, s1).
Proof. unfold io_bind. by intros ->. Qed.

(** Splits a run of [let>] that returned [Ok]. *)
Ltac inv_io :=
  repeat match goal with
  | H : io_bind _ _ _ = (Ok _, _) |- _ =>
      apply io_bind_Ok in H; destruct H as (? & ? & ? & ?)
  | H : io_ret _ _ = (Ok _, _) |- _ => injection H as H; try subst
  | H : io_err _ _ = (Ok _, _) |- _ => discriminate H
  | H : io_of _ _ = (Ok _, _) |- _ => unfold io_of in H
  | H : io_read _ _ = (Ok _, _) |- _ => unfold io_read in H
  end; simplify_eq/=.

(** A step from a state in [P]: it returns in [Q] or fails in [E]. *)
Definition io_triple {S X} (P : S → Prop) (m : io S X) (Q : X → S → Prop) (E : S → Prop) : Prop :=
  ∀ s, P s → match m s with (Ok x, s) => Q x s | (Err _, s) => E s end.

Lemma io_triple_bind {S X Y} (P : S → Prop) (m : io S X) (k : X → io S Y) Q R E :
  io_triple P m Q E → (∀ x, io_triple (Q x) (k x) R E) → io_triple P (io_bind m k) R E.
Proof.
  intros Hm Hk s Hs. unfold io_bind. specialize (Hm s Hs). destruct (m s) as [[x|e] s1]; [|done].
  by apply Hk.
Qed.

Lemma io_triple_ret {S X} (x : X) (Q : X → S → Prop) E : io_triple (Q x) (io_ret x) Q E.
Proof. by intros s Hs. Qed.

Lemma io_triple_of {S X} (r : result X string) (P : S → Prop) :
  io_triple P (io_of r) (λ _, P) P.
Proof. intros s Hs. by destruct r. Qed.

Lemma io_triple_context {S X} c (P : S → Prop) (m : io S X) Q E :
  io_triple P m Q E → io_triple P (io_context c m) Q E.
Proof. intros Hm s Hs. unfold io_context. specialize (Hm s Hs). by destruct (m s) as [[x|e] s1]. Qed.

Lemma io_triple_conseq {S X} (P P' : S → Prop) (m : io S X) (Q Q' : X → S → Prop) (E E' : S → Prop) :
  io_triple P' m Q' E' → (∀ s, P s → P' s) → (∀ x s, Q' x s → Q x s) → (∀ s, E' s → E s) →
  io_triple P m Q E.
Proof. intros Hm HP HQ HE s Hs. specialize (Hm s (HP s Hs)). destruct (m s) as [[x|e] s1]; auto. Qed.

