(* ===== verification/Acl.v ===== *)
(** * Access control

    Models [kms-service/src/config/acl.rs] (settings, compilation to lookup
    sets, authorization), [config/iam_json.rs] (statement evaluation and
    pattern matching) and [config/providers_acl.rs] (validation). *)

From S2P Require Import Prelude.
From S2P Require Import Interfaces.
From S2P Require Import Protocol.
From S2P Require Import Domain.

(** ** Service ACL *)

Inductive KeyAccessLevel := PrivateKey | PublicKey | SymmetricKey | GenerateDataKeyAccess.

Inductive ControlAction :=
| GenerateKeys | RotateOwnKeys | RotateAllKeys | RevokeKeys
| AuditVerify | AuditRead | BootstrapImport | CaSignIntermediate.

#[export] Instance KeyAccessLevel_eq_dec : EqDecision KeyAccessLevel.
Proof. solve_decision. Defined.
#[export] Instance ControlAction_eq_dec : EqDecision ControlAction.
Proof. solve_decision. Defined.

#[export] Instance KeyAccessLevel_countable : Countable KeyAccessLevel.
Proof.
  refine (inj_countable (λ a, match a with
    | PrivateKey => 0 | PublicKey => 1 | SymmetricKey => 2 | GenerateDataKeyAccess => 3 end)
  (λ n, match n with
    | 0 => Some PrivateKey | 1 => Some PublicKey | 2 => Some SymmetricKey
    | 3 => Some GenerateDataKeyAccess | _ => None end) _).
  by intros [].
Defined.

#[export] Instance ControlAction_countable : Countable ControlAction.
Proof.
  refine (inj_countable (λ a, match a with
    | GenerateKeys => 0 | RotateOwnKeys => 1 | RotateAllKeys => 2 | RevokeKeys => 3
    | AuditVerify => 4 | AuditRead => 5 | BootstrapImport => 6 | CaSignIntermediate => 7 end)
  (λ n, match n with
    | 0 => Some GenerateKeys | 1 => Some RotateOwnKeys | 2 => Some RotateAllKeys
    | 3 => Some RevokeKeys | 4 => Some AuditVerify | 5 => Some AuditRead
    | 6 => Some BootstrapImport | 7 => Some CaSignIntermediate | _ => None end) _).
  by intros [].
Defined.

Record AccessRule := MkAccessRule {
  target_service : ServiceId;
  rule_algorithm : KeyAlgorithm;
  rule_access_level : KeyAccessLevel;
  preload_flag : bool }.

Record ServiceConfig := MkServiceConfig {
  service_id : ServiceId;
  secret : list byte;
  allowed_access : list AccessRule;
  allowed_actions : option (list ControlAction) }.

(** [HashMap<String, ServiceConfig>] *)
Record AclSettings := MkAclSettings { services : gmap string ServiceConfig }.

(** [AccessRuleKey] and [PreloadKey] are compared and hashed field by field. *)
Definition AccessRuleKey : Type := ServiceId * ServiceId * KeyAlgorithm * KeyAccessLevel.
Definition PreloadKey : Type := ServiceId * KeyAlgorithm.

#[export] Instance AccessRuleKey_eq_dec : EqDecision AccessRuleKey.
Proof. unfold AccessRuleKey. apply _. Defined.
#[export] Instance AccessRuleKey_countable : Countable AccessRuleKey.
Proof. unfold AccessRuleKey. apply _. Defined.
#[export] Instance PreloadKey_eq_dec : EqDecision PreloadKey.
Proof. unfold PreloadKey. apply _. Defined.
#[export] Instance PreloadKey_countable : Countable PreloadKey.
Proof. unfold PreloadKey. apply _. Defined.

Record CompiledAcl := MkCompiledAcl {
  access : gset AccessRuleKey;
  preload : gset PreloadKey;
  actions : gmap string (gset ControlAction) }.

Definition CompiledAcl_default : CompiledAcl := MkCompiledAcl ∅ ∅ ∅.

Definition CompiledAcl_is_allowed (c : CompiledAcl) (caller target : ServiceId)
    (algorithm : KeyAlgorithm) (requested_access : KeyAccessLevel) : bool :=
  bool_decide ((caller, target, algorithm, requested_access) ∈ access c).

Definition CompiledAcl_should_preload_for (c : CompiledAcl) (target : ServiceId)
    (algorithm : KeyAlgorithm) : bool :=
  bool_decide ((target, algorithm) ∈ preload c).

Definition CompiledAcl_has_control_action (c : CompiledAcl) (caller : ServiceId)
    (action : ControlAction) : bool :=
  match actions c !! caller with
  | Some s => bool_decide (action ∈ s)
  | None => false
  end.

Definition authorize_key_access (policy : CompiledAcl) (caller target : ServiceId)
    (algorithm : KeyAlgorithm) (acc : KeyAccessLevel) : bool :=
  CompiledAcl_is_allowed policy caller target algorithm acc.

Definition authorize_control_action (policy : CompiledAcl) (caller : ServiceId)
    (action : ControlAction) : bool :=
  CompiledAcl_has_control_action policy caller action.

(** The two loops of [AclSettings::compile]; the outer one visits the values
    of the hash map in an unspecified order, here the order of [values]. *)
Definition compile_rule (cfg : ServiceConfig) (c : CompiledAcl) (rule : AccessRule) :
    CompiledAcl :=
  {| access :=
       {[(service_id cfg, target_service rule, rule_algorithm rule,
          rule_access_level rule)]} ∪ access c;
     preload :=
       if preload_flag rule
       then {[(target_service rule, rule_algorithm rule)]} ∪ preload c
       else preload c;
     actions := actions c |}.

Definition compile_service (c : CompiledAcl) (cfg : ServiceConfig) : CompiledAcl :=
  let service_actions := list_to_set (default [] (allowed_actions cfg)) in
  foldl (compile_rule cfg)
    {| access := access c; preload := preload c;
       actions := <[service_id cfg := service_actions]> (actions c) |}
    (allowed_access cfg).

Definition compile (values : list ServiceConfig) : CompiledAcl :=
  foldl compile_service CompiledAcl_default values.

(** The orders in which [services.values()] may visit the settings. *)
Definition values_order (s : AclSettings) (values : list ServiceConfig) : Prop :=
  values ≡ₚ (map_to_list (services s)).*2.

Definition rule_matches (target : ServiceId) (algorithm : KeyAlgorithm) (rule : AccessRule) : bool :=
  bool_decide (target_service rule = target) && bool_decide (rule_algorithm rule = algorithm).

Definition AclSettings_is_allowed (s : AclSettings) (caller target : ServiceId)
    (algorithm : KeyAlgorithm) (requested_access : KeyAccessLevel) : bool :=
  match services s !! caller with
  | None => false
  | Some service_cfg =>
    existsb (λ rule, rule_matches target algorithm rule
                     && bool_decide (rule_access_level rule = requested_access))
      (allowed_access service_cfg)
  end.

Definition AclSettings_should_preload_for (s : AclSettings) (target : ServiceId)
    (algorithm : KeyAlgorithm) : bool :=
  existsb (λ cfg, existsb (λ rule, rule_matches target algorithm rule && preload_flag rule)
                    (allowed_access cfg))
    (map_to_list (services s)).*2.

Definition AclSettings_has_control_action (s : AclSettings) (caller : ServiceId)
    (action : ControlAction) : bool :=
  match services s !! caller with
  | None => false
  | Some service_cfg =>
    match allowed_actions service_cfg with
    | Some acts => bool_decide (action ∈ acts)
    | None => false
    end
  end.

(** ** IAM statements *)

Record IamStatement := MkIamStatement {
  sid : string; effect : string;
  roles : list string; stmt_actions : list string; resources : list string }.

Record IamCredentialPolicy := MkIamCredentialPolicy {
  version : string; statements : list IamStatement }.

(** [strip_suffix] of a [char], [strip_prefix] of a [&str]. *)
Fixpoint strip_suffix_char (c : Ascii.ascii) (s : string) : option string :=
  match s with
  | EmptyString => None
  | String a EmptyString => if Ascii.eqb a c then Some EmptyString else None
  | String a s' => String a <$> strip_suffix_char c s'
  end.
Definition strip_prefix (p s : string) : option string :=
  if starts_with p s then Some (str_drop (String.length p) s) else None.

Definition star : Ascii.ascii := Ascii.ascii_of_nat 42.

Definition match_pattern (pattern candidate : string) : bool :=
  if String.eqb pattern "*" || String.eqb pattern candidate then true
  else match strip_suffix_char star pattern with
  | Some prefix => starts_with prefix candidate
  | None =>
    match strip_prefix pattern candidate with
    | Some suffix => starts_with ":" suffix || is_empty suffix
    | None =>
      match strip_suffix_char star candidate with
      | Some prefix => starts_with prefix pattern
      | None => false
      end
    end
  end.

(** The three [continue] guards of the loop. *)
Definition stmt_matches (role action resource : string) (stmt : IamStatement) : bool :=
  existsb (λ r, String.eqb r "*" || String.eqb r role) (roles stmt)
  && existsb (λ a, match_pattern a action) (stmt_actions stmt)
  && existsb (λ r, match_pattern r resource) (resources stmt).

(** One round of the loop on [(matched_allow, matched_deny)]. *)
Definition eval_stmt (role action resource : string) (m : bool * bool)
    (stmt : IamStatement) : bool * bool :=
  if stmt_matches role action resource stmt then
    if String.eqb (effect stmt) "Deny" then (m.1, true)
    else if String.eqb (effect stmt) "Allow" then (true, m.2)
    else m
  else m.

Definition is_action_allowed (policy : IamCredentialPolicy) (role action resource : string) : bool :=
  let '(matched_allow, matched_deny) :=
    foldl (eval_stmt role action resource) (false, false) (statements policy) in
  if matched_deny then false else matched_allow.

(** [str::to_lowercase], on all of Unicode. *)
Class Unicode := { to_lowercase : string → string }.
Class UnicodeLaws (U : Unicode) := {
  to_lowercase_ascii s :
    forallb (λ b, Z_of_byte b <=? 127) (str_bytes s) = true →
    to_lowercase s = to_ascii_lowercase s }.

Definition build_resource_arn `{Unicode} (target_type resource : string) : string :=
  let target_type_clean := trim target_type in
  let resource_trimmed := trim resource in
  if starts_with "arn:" resource_trimmed then resource_trimmed
  else "arn:kms:" +s+ to_lowercase target_type_clean +s+ ":" +s+ resource_trimmed.

Definition validate_agent_credential_acl `{Unicode} (policy : IamCredentialPolicy)
    (caller_service target_type resource : string) : result unit AppError :=
  let target_type_clean := to_lowercase (trim target_type) in
  let action := "kms:credentials:provision:" +s+ target_type_clean in
  let resource_arn := build_resource_arn target_type resource in
  if negb (is_action_allowed policy caller_service action resource_arn)
  then Err Forbidden else Ok tt.

(** ** Provider policies *)

Record ProviderConstraints := MkProviderConstraints {
  max_ttl_seconds : option Z; default_ttl_seconds : option Z }.
Record RedisProviderConfig := MkRedisProviderConfig { acl_rules : list string }.
Record ProviderPolicy := MkProviderPolicy {
  constraints : ProviderConstraints; redis : option RedisProviderConfig }.
Record ProvidersAclSettings := MkProvidersAclSettings {
  provider_services : gmap string ProviderPolicy }.

(** One round of the loop over the services. *)
Definition validate_provider (name : string) (policy : ProviderPolicy) : result unit string :=
  let def := default_ttl_seconds (constraints policy) in
  let max := max_ttl_seconds (constraints policy) in
  let nonpositive o := match o with Some z => z <=? 0 | None => false end in
  if nonpositive def then Err ("default_ttl_seconds for '" +s+ name +s+ "' must be > 0")
  else if nonpositive max then Err ("max_ttl_seconds for '" +s+ name +s+ "' must be > 0")
  else if match def, max with Some d, Some m => m <? d | _, _ => false end then
    Err ("default_ttl_seconds > max_ttl_seconds for '" +s+ name +s+ "'")
  else if match redis policy with Some r => (length (acl_rules r) =? 0)%nat | None => false end then
    Err ("service '" +s+ name +s+ "' has empty redis.acl_rules")
  else Ok tt.

Fixpoint validate_providers (l : list (string * ProviderPolicy)) : result unit string :=
  match l with
  | [] => Ok tt
  | (name, policy) :: l =>
    let? _ := validate_provider name policy in validate_providers l
  end.

(** [order] is the order in which the hash map is visited. *)
Definition providers_validate (order : list (string * ProviderPolicy)) : result unit string :=
  if (length order =? 0)%nat then Err "providers_acl.json contains no services"
  else validate_providers order.

(** ** Lemmas on compilation *)

Lemma compile_rules_spec cfg rules c :
  let c' := foldl (compile_rule cfg) c rules in
  (∀ k, k ∈ access c' ↔ k ∈ access c ∨ ∃ r, r ∈ rules ∧
     k = (service_id cfg, target_service r, rule_algorithm r, rule_access_level r)) ∧
  (∀ k, k ∈ preload c' ↔ k ∈ preload c ∨ ∃ r, r ∈ rules ∧ preload_flag r = true ∧
     k = (target_service r, rule_algorithm r)) ∧
  actions c' = actions c.
Proof.
  revert c. induction rules as [|r rules IH]; intros c; simpl.
  - split_and!; [intros k|intros k|done]; (split; [by left|]);
      intros [?|(r & Hr%elem_of_nil & _)]; done.
  - destruct (IH (compile_rule cfg c r)) as (Ha & Hp & Hact).
    setoid_rewrite list_exists_cons.
    split_and!; [intros k|intros k|by rewrite Hact].
    + rewrite Ha. simpl. rewrite elem_of_union, elem_of_singleton. tauto.
    + rewrite Hp. simpl. destruct (preload_flag r) eqn:E;
        rewrite ?elem_of_union, ?elem_of_singleton; intuition congruence.
Qed.

(** The key a configuration contributes. *)
Definition grants (cfg : ServiceConfig) (k : AccessRuleKey) : Prop :=
  ∃ r, r ∈ allowed_access cfg ∧
    k = (service_id cfg, target_service r, rule_algorithm r, rule_access_level r).
Definition preloads (cfg : ServiceConfig) (k : PreloadKey) : Prop :=
  ∃ r, r ∈ allowed_access cfg ∧ preload_flag r = true ∧
    k = (target_service r, rule_algorithm r).

Lemma compile_access_preload values c :
  let c' := foldl compile_service c values in
  (∀ k, k ∈ access c' ↔ k ∈ access c ∨ ∃ cfg, cfg ∈ values ∧ grants cfg k) ∧
  (∀ k, k ∈ preload c' ↔ k ∈ preload c ∨ ∃ cfg, cfg ∈ values ∧ preloads cfg k).
Proof.
  revert c. induction values as [|cfg values IH]; intros c; simpl.
  - split; intros k; (split; [by left|]); intros [?|(r & Hr%elem_of_nil & _)]; done.
  - setoid_rewrite list_exists_cons.
    destruct (IH (compile_service c cfg)) as (Ha & Hp).
    destruct (compile_rules_spec cfg (allowed_access cfg)
      {| access := access c; preload := preload c;
         actions := <[service_id cfg := list_to_set (default [] (allowed_actions cfg))]>
                      (actions c) |}) as (Ha' & Hp' & _).
    split; intros k; rewrite ?Ha, ?Hp; unfold compile_service; rewrite ?Ha', ?Hp';
      simpl; unfold grants, preloads; tauto.
Qed.

(** With distinct service ids, each service has exactly its own actions. *)
Lemma compile_actions values c :
  NoDup (service_id <$> values) →
  (∀ cfg, cfg ∈ values →
     actions (foldl compile_service c values) !! service_id cfg =
     Some (list_to_set (default [] (allowed_actions cfg)))) ∧
  (∀ k, k ∉ service_id <$> values →
     actions (foldl compile_service c values) !! k = actions c !! k).
Proof.
  assert (∀ c cfg, actions (compile_service c cfg) =
    <[service_id cfg := list_to_set (default [] (allowed_actions cfg))]> (actions c)) as Hact.
  { intros c' cfg. unfold compile_service.
    by destruct (compile_rules_spec cfg (allowed_access cfg)
      {| access := access c'; preload := preload c';
         actions := <[service_id cfg := list_to_set (default [] (allowed_actions cfg))]>
                      (actions c') |}) as (_ & _ & ->). }
  revert c. induction values as [|cfg values IH]; intros c Hnd; simpl.
  - split; [|done]. intros cfg Hin. by apply elem_of_nil in Hin.
  - rewrite fmap_cons in Hnd. apply NoDup_cons in Hnd as [Hni Hnd].
    destruct (IH (compile_service c cfg) Hnd) as [Hin Hout]. split.
    + intros cfg' [->|Hcfg']%elem_of_cons; [|by apply Hin].
      rewrite Hout by done. rewrite Hact. apply lookup_insert_eq.
    + intros k Hk. rewrite elem_of_cons in Hk. rewrite Hout by tauto.
      rewrite Hact. apply lookup_insert_ne. intros <-. tauto.
Qed.

(** The settings name each service by its own id. *)
Definition acl_keyed (s : AclSettings) : Prop :=
  ∀ k cfg, services s !! k = Some cfg → service_id cfg = k.

Lemma values_elem s values cfg :
  values_order s values → cfg ∈ values ↔ ∃ k, services s !! k = Some cfg.
Proof.
  unfold values_order. intros ->. rewrite list_elem_of_fmap. split.
  - intros ([k c] & -> & Hk%elem_of_map_to_list). by exists k.
  - intros [k Hk]. exists (k, cfg). by rewrite elem_of_map_to_list.
Qed.

Lemma values_ids_nodup s values :
  acl_keyed s → values_order s values → NoDup (service_id <$> values).
Proof.
  unfold values_order. intros Hk ->.
  rewrite <- list_fmap_compose.
  replace ((service_id ∘ snd) <$> map_to_list (services s)) with (map_to_list (services s)).*1.
  - apply NoDup_fst_map_to_list.
  - apply list_fmap_ext. intros i [k cfg] Hi. simpl. symmetry. apply Hk.
    apply elem_of_map_to_list. by eapply list_elem_of_lookup_2.
Qed.

(** ** Lemmas on statements *)

Definition has_effect (role action resource eff : string) (l : list IamStatement) : bool :=
  existsb (λ st, stmt_matches role action resource st && String.eqb (effect st) eff) l.

Lemma eval_stmts_spec role action resource l m :
  foldl (eval_stmt role action resource) m l =
  (m.1 || has_effect role action resource "Allow" l,
   m.2 || has_effect role action resource "Deny" l).
Proof.
  revert m. induction l as [|st l IH]; intros [a d]; simpl; [by rewrite !orb_false_r|].
  rewrite IH. unfold eval_stmt, has_effect; simpl.
  destruct (stmt_matches role action resource st); simpl; [|done].
  destruct (String.eqb_spec (effect st) "Deny") as [->|]; simpl.
  - by rewrite orb_true_r.
  - destruct (String.eqb (effect st) "Allow"); simpl; [|done]. by rewrite orb_true_r.
Qed.

Lemma has_effect_elem role action resource eff l :
  has_effect role action resource eff l = true ↔
  ∃ st, st ∈ l ∧ stmt_matches role action resource st = true ∧ effect st = eff.
Proof.
  unfold has_effect. rewrite existsb_exists. split.
  - intros (st & Hin & [Hm He%String.eqb_eq]%andb_true_iff). exists st.
    by rewrite list_elem_of_In.
  - intros (st & Hin%list_elem_of_In & Hm & He). exists st. split; [done|].
    by rewrite Hm, He, String.eqb_refl.
Qed.

Lemma validate_providers_ok l :
  validate_providers l = Ok tt ↔ ∀ n p, (n, p) ∈ l → validate_provider n p = Ok tt.
Proof.
  induction l as [|[n p] l IH]; simpl.
  - split; [|done]. by intros _ n p ?%elem_of_nil.
  - setoid_rewrite elem_of_cons. destruct (validate_provider n p) as [[]|e] eqn:E; simpl.
    + rewrite IH. split; [intros H n' p' [[= -> ->]|?]; auto|auto].
    + split; [done|]. intros H. specialize (H n p (or_introl eq_refl)). congruence.
Qed.

(** What a valid provider policy satisfies. *)
Definition provider_ok (p : ProviderPolicy) : Prop :=
  (∀ d, default_ttl_seconds (constraints p) = Some d → 0 < d) ∧
  (∀ m, max_ttl_seconds (constraints p) = Some m → 0 < m) ∧
  (∀ d m, default_ttl_seconds (constraints p) = Some d →
          max_ttl_seconds (constraints p) = Some m → d ≤ m) ∧
  (∀ r, redis p = Some r → acl_rules r ≠ []).

Lemma validate_provider_ok n p : validate_provider n p = Ok tt ↔ provider_ok p.
Proof.
  unfold validate_provider, provider_ok.
  destruct p as [[mx df] rd]; simpl.
  assert (∀ (r : RedisProviderConfig), (length (acl_rules r) =? 0)%nat = true ↔ acl_rules r = []) as Hr.
  { intros r. rewrite Nat.eqb_eq. by rewrite length_zero_iff_nil. }
  destruct df as [d|], mx as [m|], rd as [r|]; simpl;
    try destruct (Z.leb_spec d 0); try destruct (Z.leb_spec m 0);
    try destruct (Z.ltb_spec m d);
    try (specialize (Hr r); destruct (length (acl_rules r) =? 0)%nat);
    simpl; split; try done; intros;
    repeat match goal with
    | H : _ ∧ _ |- _ => destruct H
    | H : ∀ d, Some ?x = Some d → _ |- _ => specialize (H x eq_refl)
    | H : ∀ d m, Some ?x = Some d → Some ?y = Some m → _ |- _ => specialize (H x y eq_refl eq_refl)
    end; split_and?; intros; simplify_eq; try lia; intuition congruence.
Qed.

Lemma starts_with_app p s : starts_with p (p +s+ s) = true.
Proof.
  unfold starts_with. induction p as [|a p IH]; simpl; [by destruct s|].
  by destruct (Ascii.ascii_dec a a).
Qed.

Lemma starts_with_split p s :
  starts_with p s = true ↔ ∃ r, s = p +s+ r.
Proof.
  split; [|intros [r ->]; apply starts_with_app].
  unfold starts_with. revert s. induction p as [|a p IH]; intros s; [intros _; by exists s|].
  destruct s as [|b s]; [done|]. simpl. destruct (Ascii.ascii_dec a b) as [->|]; [|done].
  intros [r ->]%IH. by exists r.
Qed.

Lemma strip_suffix_char_app c s : strip_suffix_char c (s +s+ String c EmptyString) = Some s.
Proof.
  induction s as [|a s IH]; simpl; [by rewrite Ascii.eqb_refl|].
  rewrite IH. by destruct s.
Qed.

Section compiled.
  Variables (s : AclSettings) (values : list ServiceConfig).
  Hypotheses (Hkeyed : acl_keyed s) (Hord : values_order s values).

Lemma compile_is_allowed caller target alg lvl :
  CompiledAcl_is_allowed (compile values) caller target alg lvl =
  AclSettings_is_allowed s caller target alg lvl.
Proof.
  destruct (compile_access_preload values CompiledAcl_default) as (Hacc & _).
  unfold CompiledAcl_is_allowed, AclSettings_is_allowed.
  apply eq_true_iff_eq. rewrite bool_decide_eq_true. unfold compile. rewrite Hacc.
  setoid_rewrite (values_elem s values _ Hord). unfold grants. simpl.
  destruct (services s !! caller) as [cfg|] eqn:Ec.
  - rewrite existsb_exists. unfold rule_matches.
    setoid_rewrite andb_true_iff. setoid_rewrite andb_true_iff.
    setoid_rewrite bool_decide_eq_true. setoid_rewrite <- list_elem_of_In.
    pose proof (Hkeyed _ _ Ec). split.
    + intros [?%elem_of_empty|(cfg' & [k Hk] & r & Hr & Heq)]; [done|].
      assert (k = caller) as -> by (pose proof (Hkeyed _ _ Hk); congruence).
      assert (cfg' = cfg) as -> by congruence. simplify_eq. eauto 10.
    + intros (r & Hr & [? ?] & ?). right. exists cfg. split; [eauto|].
      exists r. split; [done|]. by simplify_eq.
  - split; [|done]. intros [?%elem_of_empty|(cfg' & [k Hk] & r & Hr & Heq)]; [done|].
    assert (k = caller) as -> by (pose proof (Hkeyed _ _ Hk); congruence). congruence.
Qed.

Lemma compile_has_control_action caller act :
  CompiledAcl_has_control_action (compile values) caller act =
  AclSettings_has_control_action s caller act.
Proof.
  destruct (compile_actions values CompiledAcl_default) as (Hact & Hnact);
    [by eapply values_ids_nodup|].
  unfold CompiledAcl_has_control_action, AclSettings_has_control_action, compile.
  destruct (services s !! caller) as [cfg|] eqn:Ec.
  - rewrite <- (Hkeyed _ _ Ec) at 1.
    rewrite Hact by (apply (values_elem s); eauto).
    destruct (allowed_actions cfg); simpl; [|done].
    apply bool_decide_ext, elem_of_list_to_set.
  - rewrite Hnact; [done|].
    intros (cfg & -> & [k Hk]%(values_elem s _ _ Hord))%list_elem_of_fmap.
    pose proof (Hkeyed _ _ Hk). congruence.
Qed.

Lemma compile_should_preload target alg :
  CompiledAcl_should_preload_for (compile values) target alg =
  AclSettings_should_preload_for s target alg.
Proof.
  destruct (compile_access_preload values CompiledAcl_default) as (_ & Hpre).
  unfold CompiledAcl_should_preload_for, AclSettings_should_preload_for, compile.
  apply eq_true_iff_eq. rewrite bool_decide_eq_true, Hpre, existsb_exists.
  setoid_rewrite existsb_exists. unfold rule_matches, preloads.
  setoid_rewrite andb_true_iff. setoid_rewrite andb_true_iff.
  setoid_rewrite bool_decide_eq_true. setoid_rewrite <- list_elem_of_In.
  setoid_rewrite Hord. split.
  - intros [?%elem_of_empty|(cfg & Hc & r & Hr & Hf & [= -> ->])]; [done|]. eauto 10.
  - intros (cfg & Hc & r & Hr & [<- <-] & Hf). right. eauto 10.
Qed.

End compiled.

Lemma strip_suffix_star s : strip_suffix_char star (s +s+ "*") = Some s.
Proof. exact (strip_suffix_char_app star s). Qed.

(** ** Properties *)

(** C21: the compiled ACL implements the configured one: whatever order the
    hash map is visited in, when each service is configured under its own id
    the compiled sets answer every authorization, control-action and preload
    question exactly as the settings do. *)
Theorem acl_compile_refines s values :
  acl_keyed s → values_order s values →
  (∀ caller target alg lvl,
     authorize_key_access (compile values) caller target alg lvl =
     AclSettings_is_allowed s caller target alg lvl) ∧
  (∀ caller act,
     authorize_control_action (compile values) caller act =
     AclSettings_has_control_action s caller act) ∧
  (∀ target alg,
     CompiledAcl_should_preload_for (compile values) target alg =
     AclSettings_should_preload_for s target alg).
Proof.
  intros Hkeyed Hord. split_and!; intros; [by apply compile_is_allowed|
    by apply compile_has_control_action|by apply compile_should_preload].
Qed.

(** An IAM decision is "some statement allows and none denies", for the
    statements that match role, action and resource: an explicit deny wins
    wherever it stands, and the order of the statements is irrelevant. *)
Theorem deny_overrides_allow policy role action resource :
  is_action_allowed policy role action resource = true ↔
  (∃ st, st ∈ statements policy ∧ stmt_matches role action resource st = true ∧
         effect st = "Allow"%string) ∧
  ¬ (∃ st, st ∈ statements policy ∧ stmt_matches role action resource st = true ∧
           effect st = "Deny"%string).
Proof.
  unfold is_action_allowed. rewrite eval_stmts_spec. simpl.
  rewrite <- !has_effect_elem.
  destruct (has_effect role action resource "Deny" (statements policy)),
    (has_effect role action resource "Allow" (statements policy)); naive_solver.
Qed.

(** A request may itself carry the wildcard: a candidate [q*] matches
    every pattern that properly extends [q], so a request for [*] matches
    every pattern of a policy, however narrow. *)
Theorem wildcard_candidate_matches pattern q :
  starts_with q pattern = true → q ≠ pattern → strip_suffix_char star pattern = None →
  match_pattern pattern (q +s+ "*") = true.
Proof.
  intros Hq Hne Hstar. unfold match_pattern.
  destruct (_ || _) eqn:E; [done|]. rewrite Hstar.
  unfold strip_prefix. destruct (starts_with pattern (q +s+ "*")) eqn:Ep.
  - exfalso. apply starts_with_split in Hq as [r ->]. apply starts_with_split in Ep as [r' Hr'].
    rewrite str_app_assoc in Hr'. apply str_app_inj in Hr'.
    destruct r as [|a [|b r]]; rewrite ?str_app_cons in Hr'; simplify_eq/=.
    + by rewrite str_app_nil_r in Hne.
    + pose proof (strip_suffix_star q). congruence.
  - by rewrite strip_suffix_star.
Qed.

Section escalation.
  Context `{UnicodeLaws}.

(** A policy that allows one service one resource. *)
Definition narrow_policy : IamCredentialPolicy := {|
  version := "test";
  statements := [{|
    sid := "AllowAuth"; effect := "Allow"; roles := ["auth-service"];
    stmt_actions := ["kms:credentials:provision:postgres"];
    resources := ["arn:kms:postgres:postgres_auth"] |}] |}.

(** Under a policy that allows one service one database, the check of a
    credential request refuses another database but accepts the resource
    [arn:*], which stands for all of them. *)
Theorem wildcard_request_escalates :
  validate_agent_credential_acl narrow_policy "auth-service" "postgres"
    "arn:kms:postgres:other" = Err Forbidden ∧
  validate_agent_credential_acl narrow_policy "auth-service" "postgres" "arn:*" = Ok tt.
Proof.
  unfold validate_agent_credential_acl.
  rewrite (to_lowercase_ascii (trim "postgres")) by reflexivity.
  split; vm_compute; reflexivity.
Qed.

End escalation.

(** Provider policies are accepted exactly when there is at least one and
    each has positive lifetimes, a default within its maximum, and no empty
    Redis rule list; the order the hash map is visited in does not matter. *)
Theorem providers_validate_spec (s : ProvidersAclSettings) order :
  order ≡ₚ map_to_list (provider_services s) →
  providers_validate order = Ok tt ↔
  provider_services s ≠ ∅ ∧ map_Forall (λ _ p, provider_ok p) (provider_services s).
Proof.
  intros Hord. unfold providers_validate.
  assert ((length order =? 0)%nat = true ↔ provider_services s = ∅) as Hlen.
  { rewrite Nat.eqb_eq, Hord, length_map_to_list. by rewrite map_size_empty_iff. }
  destruct (length order =? 0)%nat; [naive_solver|].
  rewrite validate_providers_ok. setoid_rewrite validate_provider_ok.
  setoid_rewrite Hord. setoid_rewrite elem_of_map_to_list. unfold map_Forall. naive_solver.
Qed.

(** ** Concrete instances *)

Definition demo_cfg : ServiceConfig := {|
  service_id := "gw"; secret := [];
  allowed_access := [{| target_service := "auth"; rule_algorithm := Ed25519;
                        rule_access_level := PublicKey; preload_flag := true |}];
  allowed_actions := Some [AuditRead] |}.
Definition demo_acl : AclSettings := {| services := {["gw"%string := demo_cfg]} |}.

Lemma demo_acl_keyed : acl_keyed demo_acl.
Proof. intros k cfg. simpl. by intros [<- <-]%lookup_singleton_Some. Qed.

Lemma demo_acl_order : values_order demo_acl [demo_cfg].
Proof. unfold values_order. simpl. by rewrite map_to_list_singleton. Qed.

Lemma acl_compile_refines_witness :
  authorize_key_access (compile [demo_cfg]) "gw" "auth" Ed25519 PublicKey = true ∧
  authorize_key_access (compile [demo_cfg]) "gw" "auth" Ed25519 PrivateKey = false.
Proof.
  destruct (acl_compile_refines demo_acl [demo_cfg] demo_acl_keyed demo_acl_order)
    as (Ha & _ & _).
  rewrite !Ha. split; vm_compute; reflexivity.
Defined.

Lemma wildcard_candidate_matches_witness :
  match_pattern "arn:kms:postgres:postgres_auth" ("arn:" +s+ "*") = true.
Proof.
  apply wildcard_candidate_matches; [reflexivity|discriminate|reflexivity].
Defined.

Module AsciiUnicode.
#[export] Instance ascii_unicode : Unicode := { to_lowercase := to_ascii_lowercase }.
#[export] Instance ascii_unicode_laws : UnicodeLaws ascii_unicode.
Proof. by split. Qed.
End AsciiUnicode.
Import AsciiUnicode.

Lemma wildcard_request_escalates_witness :
  validate_agent_credential_acl narrow_policy "auth-service" "postgres"
    "arn:kms:postgres:other" = Err Forbidden ∧
  validate_agent_credential_acl narrow_policy "auth-service" "postgres" "arn:*" = Ok tt.
Proof. apply wildcard_request_escalates. Defined.

Definition demo_policy : ProviderPolicy :=
  {| constraints := {| max_ttl_seconds := Some 86400; default_ttl_seconds := Some 900 |};
     redis := None |}.

Definition demo_providers : ProvidersAclSettings :=
  {| provider_services := {["pg"%string := demo_policy]} |}.

Lemma providers_validate_spec_witness :
  providers_validate [("pg"%string, demo_policy)] = Ok tt ↔
  provider_services demo_providers ≠ ∅ ∧
  map_Forall (λ _ p, provider_ok p) (provider_services demo_providers).
Proof.
  apply (providers_validate_spec demo_providers [("pg"%string, demo_policy)]).
  simpl. by rewrite map_to_list_singleton.
Defined.
