(* ===== verification/Providers.v ===== *)
(** * Providers of target resources

    Models [kms-service/src/infrastructure/providers]: the trait
    [TargetResourceProvider], its Postgres and Redis implementations and the
    factory.  A target server is reached through [sqlx], [fred] and [url]: its
    state is a parameter, changed by the statements and commands the
    providers send.  The statements are read back with the lexical rules of
    Postgres. *)

From Stdlib Require Import Ascii.
From S2P Require Import Prelude.
From S2P Require Import Interfaces.
From S2P Require Import Protocol.
From S2P Require Import Domain.
From S2P Require Import Effects.
From S2P Require Import Acl.

(** ** The trait *)

Record GeneratedCredential := MkGeneratedCredential {
  gc_username : string;
  gc_secret : string;
  gc_ttl_seconds : Z }.

(** [trait TargetResourceProvider]; [P] is the state of the target systems. *)
Record TargetResourceProvider (P : Type) := MkTargetResourceProvider {
  create_user : string (* target_conn_str *) → string (* caller_service *) →
    string (* username *) → option string (* granted_role *) → Z (* ttl_seconds *) →
    option (list byte) (* password *) → act P GeneratedCredential;
  revoke_user : string (* target_conn_str *) → string (* username *) → act P unit }.
Arguments MkTargetResourceProvider {P}.
Arguments create_user {P}.
Arguments revoke_user {P}.

(** ** SQL text *)

Definition dquote : ascii := ascii_of_nat 34.
Definition squote : ascii := ascii_of_nat 39.
Definition char_str (c : ascii) : string := String c EmptyString.

(** [str::replace] with a character for its pattern. *)
Fixpoint replace_char (c : ascii) (to s : string) : string :=
  match s with
  | EmptyString => EmptyString
  | String x s =>
    if Ascii.eqb x c then to +s+ replace_char c to s else String x (replace_char c to s)
  end.

Definition quote_sql_identifier (value : string) : string :=
  let escaped := replace_char dquote (char_str dquote +s+ char_str dquote) value in
  char_str dquote +s+ escaped +s+ char_str dquote.

Definition escape_sql_literal (value : string) : string :=
  replace_char squote (char_str squote +s+ char_str squote) value.

(** The statements of [create_user] and [revoke_user]. *)
Definition create_user_sql (safe_username safe_password expiry : string) : string :=
  "CREATE USER " +s+ safe_username +s+ " WITH PASSWORD '" +s+ safe_password
    +s+ "' VALID UNTIL '" +s+ expiry +s+ "' INHERIT;".
Definition grant_sql (safe_role safe_username : string) : string :=
  "GRANT " +s+ safe_role +s+ " TO " +s+ safe_username +s+ ";".
Definition drop_user_sql (quoted_username : string) : string :=
  "REASSIGN OWNED BY " +s+ quoted_username +s+ " TO CURRENT_USER; DROP OWNED BY "
    +s+ quoted_username +s+ "; DROP USER IF EXISTS " +s+ quoted_username +s+ ";".

(** ** The Postgres provider *)

(** A server reached with [PgPoolOptions::connect] and [sqlx::query]. *)
Class PgServer (P : Type) := {
  pg_connect : string → P → result unit string;
  pg_execute : string (* connection *) → string (* statement *) → P → result unit string * P }.

(** [chrono]: adding seconds to an instant ([None]: the panic on a duration or
    date out of range), and the format ["%Y-%m-%d %H:%M:%S%.6f%z"]. *)
Class ChronoTtl := {
  datetime_add_seconds : Z → Z → option Z;
  format_expiry : Z → string }.
Class ChronoTtlLaws (C : ChronoTtl) := {
  format_expiry_unquoted t : forallb (λ c, negb (Ascii.eqb c squote)) (chars (format_expiry t)) = true }.

Definition postgres_ddl_error (operation username err : string) : AppError :=
  InternalError ("PostgreSQL " +s+ operation +s+ " operation failed for user '"
    +s+ username +s+ "': " +s+ err).

Section Postgres.
  Context {P : Type} `{PgServer P} `{Base64} `{ChronoTtl}.

(** The text a password is set to: itself when it is UTF-8. *)
Definition password_text (password_bytes : list byte) : string :=
  if is_utf8_bytes password_bytes then str_of_bytes password_bytes
  else b64_encode password_bytes.

Definition pg_open (operation username conn : string) : act P unit := λ s,
  (Done (map_err (postgres_ddl_error operation username) (pg_connect conn s)), s).
Definition pg_run (operation username conn sql : string) : act P unit :=
  act_call (postgres_ddl_error operation username) (pg_execute conn sql).

Definition PostgresTargetProvider_create_user (now : Z) (target_conn_str _caller_service
    username : string) (granted_role : option string) (ttl_seconds : Z)
    (password : option (list byte)) : act P GeneratedCredential :=
  match password with
  | None => act_err (InternalError "No password provided for Postgres provider")
  | Some password_bytes =>
    let text := password_text password_bytes in
    pg_open "create_user" username target_conn_str ;;@
    let safe_username := quote_sql_identifier username in
    let safe_password := escape_sql_literal text in
    let@ expiry_at := act_or_panic TimeRange (datetime_add_seconds now ttl_seconds) in
    let expiry := format_expiry expiry_at in
    pg_run "create_user" username target_conn_str
      (create_user_sql safe_username safe_password expiry) ;;@
    match granted_role with
    | Some role =>
      if is_empty (trim role) then act_ret ()
      else pg_run "grant_role" username target_conn_str
             (grant_sql (quote_sql_identifier (trim role)) safe_username)
    | None => act_ret ()
    end ;;@
    act_ret (MkGeneratedCredential username text ttl_seconds)
  end.

Definition PostgresTargetProvider_revoke_user (target_conn_str username : string) : act P unit :=
  pg_open "drop_user" username target_conn_str ;;@
  pg_run "drop_user" username target_conn_str (drop_user_sql (quote_sql_identifier username)).

Definition PostgresTargetProvider (now : Z) : TargetResourceProvider P := {|
  create_user := PostgresTargetProvider_create_user now;
  revoke_user := PostgresTargetProvider_revoke_user |}.

End Postgres.

(** ** The Redis provider *)

(** The parts of a [url::Url] the provider reads. *)
Record Url := MkUrl {
  url_host : option string;
  url_port : option Z;
  url_username : string;
  url_password : option string;
  url_path : string }.
Class UrlLib := { url_parse : string → option Url }.

(** The fields of [fred]'s configuration the provider sets. *)
Record RedisTarget := MkRedisTarget {
  rt_host : string; rt_port : Z; rt_username : option string;
  rt_password : option string; rt_database : Z }.

(** [timeout(5 s, wait_for_connect())] *)
Inductive ConnectOutcome := Connected | ConnectFailed (e : string) | ConnectTimedOut.

Class RedisServer (P : Type) := {
  redis_connect : RedisTarget → P → ConnectOutcome;
  acl_setuser : RedisTarget → string → list string → P → result unit string * P;
  acl_deluser : RedisTarget → string → P → result unit string * P }.

(** [{:?}] of a list of strings. *)
Class DebugStrings := { debug_strings : list string → string }.

(** [str::trim_start_matches('/')] and [str::parse::<u8>]. *)
Fixpoint trim_slashes (s : string) : string :=
  match s with
  | String c s' => if Ascii.eqb c (ascii_of_nat 47) then trim_slashes s' else s
  | EmptyString => EmptyString
  end.
Definition parse_u8 : string → option Z := parse_uint 255.

Definition redis_acl_error (operation username err : string) : AppError :=
  InternalError ("Redis " +s+ operation +s+ " operation failed for user '"
    +s+ username +s+ "': " +s+ err).

(** [rules.iter().any(|r| r.starts_with('>'))] *)
Definition sets_password (rule : string) : bool := starts_with ">" rule.

(** The configured rules, with the password in second place unless one of them
    sets a password, and without the administrative commands. *)
Definition redis_user_rules (rules : list string) (encoded_password : string) : list string :=
  let rules :=
    if existsb sets_password rules then rules
    else take 1 rules ++ [">" +s+ encoded_password] ++ drop 1 rules in
  if existsb (λ r, String.eqb r "-@admin") rules then rules else rules ++ ["-@admin"%string].

Section Redis.
  Context {P : Type} `{RedisServer P} `{UrlLib} `{Base64} `{DebugStrings}.

Definition connect_admin (target_conn_str : string) : act P RedisTarget :=
  match url_parse target_conn_str with
  | None => act_err (InternalError "Invalid Redis connection string format")
  | Some url =>
    match url_host url with
    | None => act_err (InternalError "Redis connection string missing host")
    | Some host =>
      let client := {|
        rt_host := host; rt_port := default 6379 (url_port url);
        rt_username := if is_empty (url_username url) then None else Some (url_username url);
        rt_password := url_password url;
        rt_database := default 0 (parse_u8 (trim_slashes (url_path url))) |} in
      λ s, match redis_connect client s with
           | Connected => (Done (Ok client), s)
           | ConnectFailed e => (Done (Err (RedisError e)), s)
           | ConnectTimedOut =>
             (Done (Err (ConfigError "Timeout during Redis connection initialization")), s)
           end
    end
  end.

(** [available] is the order in which the hash map of the policies is visited. *)
Definition RedisTargetProvider_create_user (providers_acl : ProvidersAclSettings)
    (available : list string) (target_conn_str caller_service username : string)
    (_granted_role : option string) (ttl_seconds : Z) (password : option (list byte)) :
    act P GeneratedCredential :=
  match password with
  | None => act_err (InternalError "No password provided for Redis provider")
  | Some password_bytes =>
    let encoded_password := b64_encode password_bytes in
    let@ client := connect_admin target_conn_str in
    match provider_services providers_acl !! caller_service with
    | None => act_err (ConfigError ("No Redis ACL policy configured for caller_service '"
        +s+ caller_service +s+ "'. Available: " +s+ debug_strings available))
    | Some policy =>
      match redis policy with
      | None => act_err (ConfigError ("No redis configuration for caller_service '"
          +s+ caller_service +s+ "'"))
      | Some redis_policy =>
        let rules := acl_rules redis_policy in
        if (length rules =? 0)%nat then
          act_err (ConfigError ("No redis.acl_rules for caller_service '"
            +s+ caller_service +s+ "'"))
        else
          act_call (redis_acl_error "create_user" username)
            (acl_setuser client username (redis_user_rules rules encoded_password)) ;;@
          act_ret (MkGeneratedCredential username encoded_password ttl_seconds)
      end
    end
  end.

(** When the user cannot be deleted it is switched off. *)
Definition RedisTargetProvider_revoke_user (target_conn_str username : string) : act P unit :=
  let@ client := connect_admin target_conn_str in
  λ s, match acl_deluser client username s with
       | (Ok _, s) => (Done (Ok ()), s)
       | (Err _, s) =>
         act_call (redis_acl_error "drop_user" username)
           (acl_setuser client username ["off"%string]) s
       end.

Definition RedisTargetProvider (providers_acl : ProvidersAclSettings) (available : list string) :
    TargetResourceProvider P := {|
  create_user := RedisTargetProvider_create_user providers_acl available;
  revoke_user := RedisTargetProvider_revoke_user |}.

End Redis.

(** ** The factory *)

Abbreviation ProviderFactory P := (gmap string (TargetResourceProvider P)).

Section Factory.
  Context {P : Type} `{Unicode}.

Definition ProviderFactory_new `{PgServer P} `{RedisServer P} `{UrlLib} `{Base64} `{ChronoTtl}
    `{DebugStrings} (now : Z) (providers_acl : ProvidersAclSettings) (available : list string) :
    ProviderFactory P :=
  <["redis"%string := RedisTargetProvider providers_acl available]>
    {["postgres"%string := PostgresTargetProvider now]}.

Definition ProviderFactory_get (providers : ProviderFactory P) (target_type : string) :
    result (TargetResourceProvider P) AppError :=
  let normalized_type := to_lowercase target_type in
  match providers !! normalized_type with
  | Some p => Ok p
  | None => Err (NotFound ("Unsupported provider type: " +s+ target_type))
  end.

End Factory.

(** ** Reading statements back

    The lexical rules of Postgres the statements use: words separated by
    spaces, semicolons, quoted identifiers and string constants (with
    [standard_conforming_strings], a backslash is an ordinary character); a
    doubled quote inside a quoted token stands for one quote. *)

Inductive Quoting := Identifier | Constant.
Inductive Token :=
| TWord (w : string)
| TQuoted (k : Quoting) (s : string)
| TSemicolon.

Inductive LexState :=
| InWord (rev_word : list ascii)
| InQuotes (k : Quoting) (rev_text : list ascii)
| AfterQuote (k : Quoting) (rev_text : list ascii).

Definition quote_char (k : Quoting) : ascii :=
  match k with Identifier => dquote | Constant => squote end.

Definition end_word (rev_word : list ascii) : list Token :=
  match rev_word with
  | [] => []
  | _ => [TWord (String.string_of_list_ascii (reverse rev_word))]
  end.
Definition end_quotes (k : Quoting) (rev_text : list ascii) : list Token :=
  [TQuoted k (String.string_of_list_ascii (reverse rev_text))].

(** The tokens a character completes, and the next state. *)
Definition lex_word (rev_word : list ascii) (c : ascii) : list Token * LexState :=
  if Ascii.eqb c dquote then (end_word rev_word, InQuotes Identifier [])
  else if Ascii.eqb c squote then (end_word rev_word, InQuotes Constant [])
  else if Ascii.eqb c (ascii_of_nat 32) then (end_word rev_word, InWord [])
  else if Ascii.eqb c (ascii_of_nat 59) then (end_word rev_word ++ [TSemicolon], InWord [])
  else ([], InWord (c :: rev_word)).
Definition lex_step (st : LexState) (c : ascii) : list Token * LexState :=
  match st with
  | InWord w => lex_word w c
  | InQuotes k t =>
    if Ascii.eqb c (quote_char k) then ([], AfterQuote k t) else ([], InQuotes k (c :: t))
  | AfterQuote k t =>
    if Ascii.eqb c (quote_char k) then ([], InQuotes k (c :: t))
    else let (ts, st) := lex_word [] c in (end_quotes k t ++ ts, st)
  end.

Fixpoint lex_run (st : LexState) (l : list ascii) : list Token * LexState :=
  match l with
  | [] => ([], st)
  | c :: l =>
    let (ts, st) := lex_step st c in
    let (ts', st) := lex_run st l in (ts ++ ts', st)
  end.

(** The tokens of a statement; [None] when a quote is not closed. *)
Definition sql_tokens (sql : string) : option (list Token) :=
  match lex_run (InWord []) (chars sql) with
  | (ts, InWord w) => Some (ts ++ end_word w)
  | (ts, AfterQuote k t) => Some (ts ++ end_quotes k t)
  | (_, InQuotes _ _) => None
  end.

Lemma lex_run_app st l1 l2 :
  lex_run st (l1 ++ l2) =
  let (ts, st) := lex_run st l1 in let (ts', st) := lex_run st l2 in (ts ++ ts', st).
Proof.
  revert st. induction l1 as [|c l1 IH]; intros st; cbn [app lex_run].
  - by destruct (lex_run st l2).
  - destruct (lex_step st c) as [ts st1]. rewrite IH.
    destruct (lex_run st1 l1) as [ts1 st2]. destruct (lex_run st2 l2) as [ts2 st3].
    by rewrite app_assoc.
Qed.

(** Escaped text, read inside quotes, is the text. *)
Lemma lex_escaped k s t :
  lex_run (InQuotes k t)
    (chars (replace_char (quote_char k)
              (char_str (quote_char k) +s+ char_str (quote_char k)) s)) =
  ([], InQuotes k (reverse (chars s) ++ t)).
Proof.
  revert t. induction s as [|c s IH]; intros t; [done|].
  assert (reverse (chars (String c s)) ++ t = reverse (chars s) ++ c :: t) as ->.
  { change (chars (String c s)) with (c :: chars s). by rewrite reverse_cons, <- app_assoc. }
  cbn [replace_char]. destruct (Ascii.eqb_spec c (quote_char k)) as [->|Hne].
  - rewrite !chars_app, lex_run_app.
    assert (∀ q, chars (char_str q) = [q]) as Hq by done. rewrite !Hq.
    cbn [app lex_run lex_step]. rewrite Ascii.eqb_refl. cbn [lex_run lex_step].
    rewrite Ascii.eqb_refl. cbn. by rewrite IH.
  - change (chars (String c ?x)) with (c :: chars x).
    cbn [lex_run lex_step]. rewrite (proj2 (Ascii.eqb_neq _ _) Hne). by rewrite IH.
Qed.

(** Text without quotes is itself. *)
Lemma lex_unquoted k l t :
  forallb (λ c, negb (Ascii.eqb c (quote_char k))) l = true →
  lex_run (InQuotes k t) l = ([], InQuotes k (reverse l ++ t)).
Proof.
  revert t. induction l as [|c l IH]; intros t; [done|]. cbn [forallb].
  intros [Hc%negb_true_iff Hl]%andb_true_iff. cbn [lex_run lex_step]. rewrite Hc, IH by done.
  by rewrite reverse_cons, <- app_assoc.
Qed.

Lemma string_of_chars s : String.string_of_list_ascii (chars s) = s.
Proof. apply String.string_of_list_ascii_of_string. Qed.

Lemma lex_identifier v :
  lex_run (InWord []) (chars (quote_sql_identifier v)) =
  ([], AfterQuote Identifier (reverse (chars v))).
Proof.
  unfold quote_sql_identifier. rewrite !chars_app. cbn [chars].
  assert (∀ q, chars (char_str q) = [q]) as Hq by done. rewrite !Hq.
  cbn [app lex_run]. change (lex_step (InWord []) dquote) with ([] : list Token, InQuotes Identifier []).
  cbn match. rewrite lex_run_app. pose proof (lex_escaped Identifier v []) as E.
  cbn [quote_char] in E. rewrite E, app_nil_r. done.
Qed.

Lemma end_quotes_text k s : end_quotes k (reverse (chars s)) = [TQuoted k s].
Proof. unfold end_quotes. by rewrite reverse_involutive, string_of_chars. Qed.

(** Reads the next piece of a statement: a fixed text, evaluated from a state
    with unknown quoted text, or a quoted piece, by its lemma. *)
Ltac lex_fixed C t s :=
  let f := eval cbv -[end_quotes] in (fun unread => lex_run (C unread) (chars s)) in
  change (lex_run (C t) (chars s)) with (f t); cbv beta match.
Ltac lex_piece :=
  cbv beta match;
  match goal with
  | |- context [lex_run ?st (?a ++ ?b)] => rewrite (lex_run_app st a b)
  | |- context [lex_run (InWord []) (chars (quote_sql_identifier ?v))] =>
      rewrite (lex_identifier v)
  | E : lex_run ?st (chars ?s) = _ |- context [lex_run ?st (chars ?s)] => rewrite E
  | |- context [lex_run (InWord []) (chars ?s)] => lex_fixed InWord (@nil ascii) s
  | |- context [lex_run (AfterQuote ?k ?x) (chars ?s)] => lex_fixed (AfterQuote k) x s
  | |- context [lex_run (InQuotes ?k ?x) (chars ?s)] => lex_fixed (InQuotes k) x s
  end.

(** C28: the statements the Postgres provider sends mean what the provider means,
    whatever the user name, password and role contain: read by the rules of
    Postgres, the user name and role are the text of one quoted identifier and
    the password of one string constant, between the fixed words. *)
Theorem statements_injection_free `{ChronoTtlLaws} username password role t :
  sql_tokens (create_user_sql (quote_sql_identifier username) (escape_sql_literal password)
                (format_expiry t)) =
    Some [TWord "CREATE"; TWord "USER"; TQuoted Identifier username; TWord "WITH";
          TWord "PASSWORD"; TQuoted Constant password; TWord "VALID"; TWord "UNTIL";
          TQuoted Constant (format_expiry t); TWord "INHERIT"; TSemicolon] ∧
  sql_tokens (grant_sql (quote_sql_identifier role) (quote_sql_identifier username)) =
    Some [TWord "GRANT"; TQuoted Identifier role; TWord "TO"; TQuoted Identifier username;
          TSemicolon] ∧
  sql_tokens (drop_user_sql (quote_sql_identifier username)) =
    Some [TWord "REASSIGN"; TWord "OWNED"; TWord "BY"; TQuoted Identifier username;
          TWord "TO"; TWord "CURRENT_USER"; TSemicolon;
          TWord "DROP"; TWord "OWNED"; TWord "BY"; TQuoted Identifier username; TSemicolon;
          TWord "DROP"; TWord "USER"; TWord "IF"; TWord "EXISTS"; TQuoted Identifier username;
          TSemicolon].
Proof.
  split_and!; unfold sql_tokens, create_user_sql, grant_sql, drop_user_sql; rewrite !chars_app.
  - pose proof (lex_escaped Constant password []) as Ep. cbn [quote_char] in Ep.
    fold (escape_sql_literal password) in Ep. rewrite app_nil_r in Ep.
    pose proof (lex_unquoted Constant _ [] (format_expiry_unquoted t)) as Ee.
    rewrite app_nil_r in Ee.
    repeat lex_piece. by rewrite !end_quotes_text.
  - repeat lex_piece. by rewrite !end_quotes_text.
  - repeat lex_piece. by rewrite !end_quotes_text.
Qed.

(** The rules a Redis user is created with: the configured ones in their
    order, led by the same rule; some rule sets a password and the
    administrative commands are taken away.  The generated password is the
    second rule unless the policy sets one, and in that case it is not set at
    all, although the provider returns it as the user's secret. *)
Theorem redis_rules_spec rules pw :
  rules ≠ [] →
  let out := redis_user_rules rules pw in
  rules `sublist_of` out ∧ head out = head rules ∧
  existsb sets_password out = true ∧ "-@admin"%string ∈ out ∧
  (existsb sets_password rules = false → out !! 1%nat = Some (">" +s+ pw)) ∧
  (existsb sets_password rules = true → (">" +s+ pw) ∉ rules → (">" +s+ pw) ∉ out).
Proof.
  intros Hne out. subst out. unfold redis_user_rules.
  set (mid := if existsb sets_password rules then rules else _).
  assert (rules `sublist_of` mid ∧ head mid = head rules ∧ existsb sets_password mid = true ∧
    (existsb sets_password rules = false → mid !! 1%nat = Some (">" +s+ pw)) ∧
    (existsb sets_password rules = true → mid = rules)) as (Hsub & Hh & Hp & Hf & Ht).
  { unfold mid. destruct (existsb sets_password rules) eqn:E; [done|].
    destruct rules as [|r rules]; [done|]. cbn [take drop app]. rewrite drop_0.
    split_and!; try done; [by apply sublist_skip, sublist_cons|].
    cbn [existsb] in *. apply orb_false_iff in E as [-> _]. by destruct pw. }
  clearbody mid. assert ((">" +s+ pw) ≠ "-@admin"%string) as Hd by done.
  destruct (existsb (λ r, String.eqb r "-@admin") mid) eqn:E.
  - apply existsb_exists in E as (x & Hx%list_elem_of_In & ->%String.eqb_eq).
    split_and!; [done..|]. intros H. by rewrite (Ht H).
  - split_and!.
    + by apply sublist_inserts_r.
    + destruct mid, rules; done.
    + by rewrite existsb_app, Hp.
    + set_solver.
    + intros H. apply lookup_app_l_Some. by apply Hf.
    + intros H Hn. rewrite (Ht H). set_solver.
Qed.

(** ** Concrete servers *)

Module ConcreteTargets.

(** The users a Postgres and a Redis server know, with their passwords or
    rules.  Postgres runs one command per prepared statement. *)
Record Targets := MkTargets {
  pg_users : list (string * string);
  redis_users : list (string * list string) }.

#[export] Instance token_pg : PgServer Targets := {
  pg_connect conn s := if String.eqb conn "down" then Err "refused"%string else Ok ();
  pg_execute conn sql s :=
    match sql_tokens sql with
    | Some [TWord _; TWord _; TQuoted Identifier u; TWord _; TWord _; TQuoted Constant p;
            TWord _; TWord _; TQuoted Constant _; TWord _; TSemicolon] =>
      if existsb (λ '(u', _), String.eqb u u') (pg_users s)
      then (Err "role already exists"%string, s)
      else (Ok (), MkTargets ((u, p) :: pg_users s) (redis_users s))
    | Some [TWord _; TQuoted Identifier r; TWord _; TQuoted Identifier u; TSemicolon] =>
      if String.eqb r "missing" then (Err "role does not exist"%string, s) else (Ok (), s)
    | _ => (Err "cannot insert multiple commands into a prepared statement"%string, s)
    end }.

#[export] Instance plain_chrono_ttl : ChronoTtl := {
  datetime_add_seconds t d :=
    if (d <=? 9223372036854775) && (-9223372036854775 <=? d) then Some (t + d * 1000000000)
    else None;
  format_expiry t := EmptyString }.
#[export] Instance plain_chrono_ttl_laws : ChronoTtlLaws plain_chrono_ttl.
Proof. by split. Qed.

#[export] Instance plain_redis : RedisServer Targets := {
  redis_connect _ _ := Connected;
  acl_setuser _ u rules s := (Ok (), MkTargets (pg_users s) ((u, rules) :: redis_users s));
  acl_deluser _ u s :=
    (Ok (), MkTargets (pg_users s) (filter (λ x, x.1 ≠ u) (redis_users s))) }.

#[export] Instance plain_url : UrlLib := {
  url_parse s := Some (MkUrl (Some s) None EmptyString None EmptyString) }.
#[export] Instance plain_debug_strings : DebugStrings := {
  debug_strings l := String.concat ", " l }.

End ConcreteTargets.

Import ConcreteTargets.

Lemma statements_injection_free_witness :
  sql_tokens (grant_sql (quote_sql_identifier "a; DROP") (quote_sql_identifier "u")) =
    Some [TWord "GRANT"; TQuoted Identifier "a; DROP"; TWord "TO"; TQuoted Identifier "u";
          TSemicolon].
Proof.
  destruct (statements_injection_free (C := plain_chrono_ttl) "u" "p" "a; DROP" 0)
    as (_ & Hg & _). exact Hg.
Defined.

Lemma redis_rules_spec_witness :
  redis_user_rules ["on"; "~*"]%string "pw" !! 1%nat = Some ">pw"%string.
Proof.
  destruct (redis_rules_spec ["on"; "~*"]%string "pw" ltac:(discriminate))
    as (_ & _ & _ & _ & H & _). exact (H eq_refl).
Defined.
