(* ===== verification/AuditLog.v ===== *)
(** * Audit records: hashing, sanitization and the audit service

    Models [kms-core/src/audit.rs], [kms-service/src/domain/audit/models.rs]
    and [kms-service/src/domain/audit/service.rs].  [serde_json], [chrono] and
    [uuid] are interfaces. *)

From S2P Require Import Prelude.
From S2P Require Import Interfaces.
From S2P Require Import Protocol.
From S2P Require Import Domain.

(** ** JSON values *)

(** [serde_json::Value]; an object is its list of entries in key order, a
    number its text. *)
Inductive Value :=
| VNull
| VBool (b : bool)
| VNumber (repr : string)
| VString (s : string)
| VArray (items : list Value)
| VObject (entries : list (string * Value)).

(** [BTreeMap::insert] on the entries in key order. *)
Fixpoint btree_insert (k : string) (v : Value) (l : list (string * Value)) :
    list (string * Value) :=
  match l with
  | [] => [(k, v)]
  | (k', v') :: l' =>
    match String.compare k k' with
    | Lt => (k, v) :: l
    | Eq => (k, v) :: l'
    | Gt => (k', v') :: btree_insert k v l'
    end
  end.

Definition btree_of_list (l : list (string * Value)) : list (string * Value) :=
  foldl (λ m kv, btree_insert kv.1 kv.2 m) [] l.

Fixpoint keys_ascending (l : list (string * Value)) : bool :=
  match l with
  | (k, _) :: (((k', _) :: _) as l') =>
    match String.compare k k' with Lt => keys_ascending l' | _ => false end
  | _ => true
  end.

(** An object of strings and nulls, as the audit payloads are. *)
Definition flat_value (v : Value) : bool :=
  match v with
  | VObject l =>
    keys_ascending l &&
    forallb (λ kv, is_utf8 kv.1 &&
      match kv.2 with VNull => true | VString s => is_utf8 s | _ => false end) l
  | _ => false
  end.

Class Json := { json_to_string : Value → result string string }.
Class JsonLaws (J : Json) := {
  json_flat_ok v : flat_value v = true → ∃ s, json_to_string v = Ok s;
  json_flat_inj v w s :
    flat_value v = true → flat_value w = true →
    json_to_string v = Ok s → json_to_string w = Ok s → v = w }.

(** ** Times and identifiers *)

(** Instants in nanoseconds since 1970; [valid_time] are the years 1970 to
    9999. *)
Definition valid_time (t : Z) : Prop := 0 ≤ t < 253402300800 * 1000000000.

Class Chrono := {
  to_rfc3339 : Z → string;
  to_rfc3339_micros : Z → string }.
Class ChronoLaws (C : Chrono) := {
  to_rfc3339_inj a b : valid_time a → valid_time b → to_rfc3339 a = to_rfc3339 b → a = b;
  to_rfc3339_utf8 a : is_utf8 (to_rfc3339 a) = true }.

(** A [Uuid] is its 128-bit value. *)
Class UuidFmt := { uuid_to_string : Z → string }.
Class UuidLaws (U : UuidFmt) := {
  uuid_to_string_inj a b : uuid_to_string a = uuid_to_string b → a = b;
  uuid_to_string_utf8 a : is_utf8 (uuid_to_string a) = true }.

(** ** kms-core/src/audit.rs *)

Inductive AuditHashVersion := V1.

Definition CURRENT : AuditHashVersion := V1.

Definition AuditHashVersion_as_str (v : AuditHashVersion) : string :=
  match v with V1 => "v1" end.

Definition AuditHashVersion_from_str (s : string) : result AuditHashVersion string :=
  if String.eqb s "v1" then Ok V1 else Err ("Unsupported audit hash version: " +s+ s).

Definition version_is_current (v : AuditHashVersion) : bool :=
  match v, CURRENT with V1, V1 => true end.

Record AuditHashInput := MkAuditHashInput {
  hi_id : string;
  hi_caller_service : string;
  hi_target_service : string;
  hi_action : string;
  hi_algorithm : string;
  hi_status : string;
  hi_reason : option string;
  hi_prev_hash : string;
  hi_timestamp : Z;
  hi_request_id : option string;
  hi_operation_id : option string;
  hi_target_id : option string;
  hi_metadata : option string;
  hi_hash_version : AuditHashVersion }.

Definition opt_value (o : option string) : Value :=
  match o with Some s => VString s | None => VNull end.

Section hashing.
  Context `{Sha256} `{Hex} `{Json} `{Chrono}.

(** The insertions of [compute_hash_for_version], in source order. *)
Definition audit_payload (version : AuditHashVersion) (input : AuditHashInput) : Value :=
  VObject (btree_of_list (
    (if negb (version_is_current version)
     then [("hash_version"%string, VString (AuditHashVersion_as_str version))] else []) ++
    [("action"%string, VString (hi_action input));
     ("algorithm"%string, VString (hi_algorithm input));
     ("caller_service"%string, VString (hi_caller_service input));
     ("id"%string, VString (hi_id input));
     ("prev_hash"%string, VString (hi_prev_hash input));
     ("reason"%string, opt_value (hi_reason input));
     ("status"%string, VString (hi_status input));
     ("target_service"%string, VString (hi_target_service input));
     ("timestamp"%string, VString (to_rfc3339 (hi_timestamp input)));
     ("request_id"%string, opt_value (hi_request_id input));
     ("operation_id"%string, opt_value (hi_operation_id input));
     ("target_id"%string, opt_value (hi_target_id input));
     ("metadata"%string, opt_value (hi_metadata input))])).

(** [None] is the panic of [expect]. *)
Definition compute_hash_for_version (version : AuditHashVersion) (input : AuditHashInput) :
    option string :=
  match json_to_string (audit_payload version input) with
  | Ok s => Some (hex_encode (sha256 (str_bytes s)))
  | Err _ => None
  end.

Definition compute_audit_hash (input : AuditHashInput) : option string :=
  compute_hash_for_version (hi_hash_version input) input.

End hashing.

(** ** domain/audit/models.rs *)

Inductive AuditAction :=
| GetPrivateKey | GetPublicKey | GetSymmetricKey | GenerateKey | AuditGenerateDataKey
| EncryptData | DecryptData | RotateKey | RewrapKeys | SignData | IssueAgentCredential
| ImportBootstrapCredential | CredentialProvisioned | CredentialProvisionFailed
| KeyRotated | KeyRevoked | KeyExpired | SystemStarted | SystemShutdown
| MasterKeyGenerated | MasterKeyUnsealed | MasterKeySealed | MasterKeyOperationFailed
| AuditVerification | AuditCaSignIntermediate.

(** [format!("{:?}", action)] *)
Definition AuditAction_debug (a : AuditAction) : string :=
  match a with
  | GetPrivateKey => "GetPrivateKey"
  | GetPublicKey => "GetPublicKey"
  | GetSymmetricKey => "GetSymmetricKey"
  | GenerateKey => "GenerateKey"
  | AuditGenerateDataKey => "GenerateDataKey"
  | EncryptData => "EncryptData"
  | DecryptData => "DecryptData"
  | RotateKey => "RotateKey"
  | RewrapKeys => "RewrapKeys"
  | SignData => "SignData"
  | IssueAgentCredential => "IssueAgentCredential"
  | ImportBootstrapCredential => "ImportBootstrapCredential"
  | CredentialProvisioned => "CredentialProvisioned"
  | CredentialProvisionFailed => "CredentialProvisionFailed"
  | KeyRotated => "KeyRotated"
  | KeyRevoked => "KeyRevoked"
  | KeyExpired => "KeyExpired"
  | SystemStarted => "SystemStarted"
  | SystemShutdown => "SystemShutdown"
  | MasterKeyGenerated => "MasterKeyGenerated"
  | MasterKeyUnsealed => "MasterKeyUnsealed"
  | MasterKeySealed => "MasterKeySealed"
  | MasterKeyOperationFailed => "MasterKeyOperationFailed"
  | AuditVerification => "AuditVerification"
  | AuditCaSignIntermediate => "CaSignIntermediate"
  end.

Inductive AuditStatus :=
| Recorded | Success | AccessDenied | StatusNotFound | ValidationFailure | Failure.

Definition AuditStatus_as_str (s : AuditStatus) : string :=
  match s with
  | Recorded => "RECORDED"
  | Success => "SUCCESS"
  | AccessDenied => "ACCESS_DENIED"
  | StatusNotFound => "NOT_FOUND"
  | ValidationFailure => "VALIDATION_FAILURE"
  | Failure => "FAILURE"
  end.

Record AuditLog := MkAuditLog {
  al_id : Z;
  al_caller_service : ServiceId;
  al_target_service : ServiceId;
  al_action : AuditAction;
  al_algorithm : KeyAlgorithm;
  al_status : AuditStatus;
  al_reason : option string;
  al_hash_version : AuditHashVersion;
  al_request_id : option string;
  al_operation_id : option string;
  al_target_id : option string;
  al_metadata : option string;
  al_timestamp : Z }.

Record RequestContext := MkRequestContext {
  rc_operation_id : string;
  rc_nonce : option string;
  rc_actor_id : ServiceId;
  rc_ip : option string;
  rc_user_agent : option string }.

Record CanonicalAuditEntry := MkCanonicalAuditEntry {
  ce_id : Z;
  ce_caller_service : ServiceId;
  ce_target_service : ServiceId;
  ce_action : AuditAction;
  ce_algorithm : KeyAlgorithm;
  ce_status : AuditStatus;
  ce_reason : option string;
  ce_prev_hash : string;
  ce_request_id : option string;
  ce_operation_id : option string;
  ce_target_id : option string;
  ce_metadata : option Value;
  ce_timestamp : Z }.

(** The scalar case of [canonicalize_value]. *)
Definition redact_leaf (value : Value) (parent_key : option string) : Value :=
  match parent_key with
  | Some key =>
    if contains "secret" (to_ascii_lowercase key) then VString "[REDACTED]" else value
  | None => value
  end.

Definition child_key (parent_key : option string) (key : string) : string :=
  match parent_key with Some parent => parent +s+ "." +s+ key | None => key end.

Fixpoint canonicalize_value (value : Value) (parent_key : option string) : Value :=
  match value with
  | VObject map =>
    VObject ((fix go (map acc : list (string * Value)) :=
      match map with
      | [] => acc
      | (key, inner) :: map =>
        let redacted_key := child_key parent_key key in
        go map (btree_insert key (canonicalize_value inner (Some redacted_key)) acc)
      end) map [])
  | VArray items => VArray ((fix go (items : list Value) :=
      match items with
      | [] => []
      | item :: items => canonicalize_value item parent_key :: go items
      end) items)
  | _ => redact_leaf value parent_key
  end.

Definition sanitize_details (details : option Value) : option Value :=
  (λ value, canonicalize_value value None) <$> details.

(** [id] is [Uuid::now_v7()], [now] is [Utc::now()]. *)
Definition CanonicalAuditEntry_new (id now : Z) (context : RequestContext)
    (action : AuditAction) (status : AuditStatus) (details : option Value)
    (prev_hash : string) (algorithm : KeyAlgorithm) : CanonicalAuditEntry :=
  let target := rc_actor_id context in
  {| ce_id := id;
     ce_caller_service := rc_actor_id context;
     ce_target_service := target;
     ce_action := action;
     ce_algorithm := algorithm;
     ce_status := status;
     ce_reason := None;
     ce_prev_hash := prev_hash;
     ce_request_id := Some (rc_operation_id context);
     ce_operation_id := Some (rc_operation_id context);
     ce_target_id := None;
     ce_metadata := sanitize_details details;
     ce_timestamp := now |}.

Section canonical.
  Context `{Sha256} `{Hex} `{Json} `{Chrono} `{UuidFmt}.

Definition opt_default (o : option string) : string := default EmptyString o.

Definition canonical_json (e : CanonicalAuditEntry) : result string string :=
  json_to_string (VObject (btree_of_list [
    ("action"%string, VString (AuditAction_debug (ce_action e)));
    ("algorithm"%string, VString (KeyAlgorithm_as_str (ce_algorithm e)));
    ("caller_service"%string, VString (ce_caller_service e));
    ("id"%string, VString (uuid_to_string (ce_id e)));
    ("operation_id"%string, VString (opt_default (ce_operation_id e)));
    ("hash_version"%string, VString (AuditHashVersion_as_str CURRENT));
    ("prev_hash"%string, VString (ce_prev_hash e));
    ("reason"%string, VString (opt_default (ce_reason e)));
    ("request_id"%string, VString (opt_default (ce_request_id e)));
    ("status"%string, VString (AuditStatus_as_str (ce_status e)));
    ("target_id"%string, VString (opt_default (ce_target_id e)));
    ("target_service"%string, VString (ce_target_service e));
    ("timestamp"%string, VString (to_rfc3339_micros (ce_timestamp e)));
    ("metadata"%string, default VNull (ce_metadata e))])).

Definition hash_chain (e : CanonicalAuditEntry) : result string string :=
  let? canonical := canonical_json e in
  Ok (hex_encode (sha256 (str_bytes canonical))).

End canonical.

Definition AuditLog_new (id : Z) (caller_service target_service : ServiceId)
    (action : AuditAction) (algorithm : KeyAlgorithm) (status : AuditStatus)
    (reason request_id operation_id target_id metadata : option string)
    (timestamp : Z) : AuditLog :=
  {| al_id := id;
     al_caller_service := caller_service;
     al_target_service := target_service;
     al_action := action;
     al_algorithm := algorithm;
     al_status := status;
     al_reason := reason;
     al_hash_version := CURRENT;
     al_request_id := request_id;
     al_operation_id := operation_id;
     al_target_id := target_id;
     al_metadata := metadata;
     al_timestamp := timestamp |}.

Definition SENSITIVE_KEYWORDS : list string :=
  ["password"; "secret"; "private_key"; "master_key"; "kek"; "dek"; "pin";
   "passphrase"; "api_key"; "hmac"; "plaintext"; "bootstrap"].

(** The inner [loop] of [sanitize_reason]; [None] when the fuel runs out. *)
Fixpoint redact_loop (fuel : nat) (keyword sanitized : string) : option string :=
  match fuel with
  | O => None
  | S fuel =>
    match find_sub keyword (to_ascii_lowercase sanitized) with
    | Some pos =>
      let end_ := (pos + String.length keyword)%nat in
      redact_loop fuel keyword
        (str_take pos sanitized +s+ "[REDACTED]" +s+ str_drop end_ sanitized)
    | None => Some sanitized
    end
  end.

(** Each round leaves strictly less text after the last replacement, so the
    length is enough fuel: see [redact_loop_total]. *)
Definition redact (sanitized keyword : string) : string :=
  default sanitized (redact_loop (S (String.length sanitized)) keyword sanitized).

Definition sanitize_reason (reason : option string) : option string :=
  match reason with
  | None => None
  | Some reason =>
    if is_empty (trim reason) then None
    else
      let sanitized := foldl redact reason SENSITIVE_KEYWORDS in
      if is_empty sanitized then None else Some sanitized
  end.

(** ** domain/audit/service.rs

    [repo] is the [record] method of the repository. *)

Definition GENESIS_HASH : string :=
  "0000000000000000000000000000000000000000000000000000000000000000".

Section service.
  Context `{Json} {R : Type} (repo : AuditLog → R).

Definition record_internal (id now : Z) (ctx : RequestContext) (action : AuditAction)
    (status : AuditStatus) (details : option Value) (reason : option string)
    (algorithm : KeyAlgorithm) : R :=
  let entry :=
    CanonicalAuditEntry_new id now ctx action status details GENESIS_HASH algorithm in
  repo (AuditLog_new (ce_id entry) (ce_caller_service entry) (ce_target_service entry)
    (ce_action entry) algorithm (ce_status entry)
    (match reason with Some r => Some r | None => ce_reason entry end)
    (ce_request_id entry) (ce_operation_id entry) (ce_target_id entry)
    ((λ value, match json_to_string value with Ok s => s | Err _ => EmptyString end)
       <$> ce_metadata entry)
    (ce_timestamp entry)).

Definition record_success (id now : Z) (ctx : RequestContext) (action : AuditAction)
    (details : option Value) : R :=
  record_internal id now ctx action Success details None AES256GCM.

Definition record_failure (id now : Z) (ctx : RequestContext) (action : AuditAction)
    (reason : string) : R :=
  let sanitized := sanitize_reason (Some reason) in
  record_internal id now ctx action Failure (Some (VString reason)) sanitized AES256GCM.

Definition record_access_denied (id now : Z) (ctx : RequestContext) (action : AuditAction)
    (reason : string) : R :=
  let sanitized := sanitize_reason (Some reason) in
  record_internal id now ctx action AccessDenied (Some (VString reason)) sanitized AES256GCM.

Definition record_validation_failure (id now : Z) (ctx : RequestContext)
    (action : AuditAction) (reason : string) : R :=
  let sanitized := sanitize_reason (Some reason) in
  record_internal id now ctx action ValidationFailure (Some (VString reason)) sanitized
    AES256GCM.

End service.

(** ** Redaction *)

Definition marker : list Ascii.ascii := chars "[redacted]".
Definition lbracket : Ascii.ascii := Ascii.ascii_of_nat 91.
Definition rbracket : Ascii.ascii := Ascii.ascii_of_nat 93.

(** A keyword the marker can neither contain nor extend. *)
Definition good_keyword (k : string) : bool :=
  negb (is_empty k)
  && negb (existsb (λ c, Ascii.eqb c lbracket || Ascii.eqb c rbracket) (chars k))
  && negb (contains k "[redacted]").

Lemma sensitive_keywords_good : forallb good_keyword SENSITIVE_KEYWORDS = true.
Proof. vm_compute. reflexivity. Qed.

Lemma good_keyword_inv k :
  good_keyword k = true →
  chars k ≠ [] ∧ (lbracket ∉ chars k) ∧ (rbracket ∉ chars k) ∧ ∀ i, ¬ occurs (chars k) marker i.
Proof.
  unfold good_keyword. intros [[He Hb]%andb_true_iff Hc]%andb_true_iff.
  apply negb_true_iff in He, Hb, Hc. rewrite <- not_true_iff_false, existsb_exists in Hb.
  split_and!.
  - by destruct k.
  - intros Hin%list_elem_of_In. apply Hb. eexists. split; [exact Hin|].
    by rewrite Ascii.eqb_refl.
  - intros Hin%list_elem_of_In. apply Hb. eexists. split; [exact Hin|].
    by rewrite Ascii.eqb_refl, orb_true_r.
  - by apply contains_false.
Qed.

(** An occurrence in a text with one piece replaced by the marker lies
    entirely before or entirely after the marker. *)
Lemma occurs_splice k l pos e i :
  good_keyword k = true → (pos ≤ length l)%nat →
  occurs (chars k) (take pos l ++ marker ++ drop e l) i →
  ((i < pos)%nat ∧ occurs (chars k) l i) ∨
  ((pos + 10 ≤ i)%nat ∧ occurs (chars k) l (e + (i - pos - 10))).
Proof.
  intros (Hne & Hl & Hr & Hm)%good_keyword_inv Hpos Ho.
  assert (length (take pos l) = pos) as Hlen by (rewrite length_take; lia).
  destruct (decide (i < pos)%nat) as [Hi|Hi]; [left|
    destruct (decide (i < pos + 10)%nat) as [Hi'|Hi']; [exfalso|right]].
  - split; [done|]. intros j c Hj. pose proof (Ho j c Hj) as Hc.
    destruct (decide (i + j < pos)%nat) as [Hij|Hij].
    + rewrite lookup_app_l, lookup_take_lt in Hc by lia. done.
    + exfalso. apply Hl.
      destruct (lookup_lt_is_Some_2 (chars k) (pos - i)) as [d Hd].
      { apply lookup_lt_Some in Hj. lia. }
      pose proof (Ho _ _ Hd) as Hc'.
      replace (i + (pos - i))%nat with pos in Hc' by lia.
      rewrite lookup_app_r, Hlen, Nat.sub_diag in Hc' by lia.
      injection Hc' as <-. by eapply list_elem_of_lookup_2.
  - destruct (decide (i + length (chars k) ≤ pos + 10)%nat) as [Hk|Hk].
    + apply (Hm (i - pos)%nat). intros j c Hj. pose proof (Ho j c Hj) as Hc.
      apply lookup_lt_Some in Hj.
      rewrite lookup_app_r, Hlen, lookup_app_l in Hc by (simpl; lia).
      rewrite <- Hc. f_equal. lia.
    + apply Hr.
      destruct (lookup_lt_is_Some_2 (chars k) (pos + 9 - i)) as [d Hd]; [lia|].
      pose proof (Ho _ _ Hd) as Hc'.
      rewrite lookup_app_r, Hlen, lookup_app_l in Hc' by (simpl; lia).
      replace (i + (pos + 9 - i) - pos)%nat with 9%nat in Hc' by lia.
      injection Hc' as <-. by eapply list_elem_of_lookup_2.
  - split; [lia|]. intros j c Hj. pose proof (Ho j c Hj) as Hc.
    rewrite !lookup_app_r in Hc by (rewrite ?Hlen; simpl; lia).
    rewrite lookup_drop, Hlen in Hc. rewrite <- Hc. f_equal. simpl. lia.
Qed.

Definition lower_chars (s : string) : list Ascii.ascii := chars (to_ascii_lowercase s).

(** The text after one replacement. *)
Definition replaced (pos e : nat) (s : string) : string :=
  str_take pos s +s+ "[REDACTED]" +s+ str_drop e s.

Lemma lower_chars_replaced pos e s :
  lower_chars (replaced pos e s) =
  take pos (lower_chars s) ++ marker ++ drop e (lower_chars s).
Proof.
  unfold lower_chars, replaced. rewrite !chars_lower, !chars_app, chars_take, chars_drop.
  by rewrite !fmap_app, fmap_take, fmap_drop.
Qed.

Lemma occurs_bound k l i : k ≠ [] → occurs k l i → (i + length k ≤ length l)%nat.
Proof.
  intros Hk Ho. destruct (lookup_lt_is_Some_2 k (length k - 1)) as [c Hc].
  { destruct k; [done|simpl; lia]. }
  specialize (Ho _ _ Hc). apply lookup_lt_Some in Ho.
  destruct k; [done|simpl in *; lia].
Qed.

(** The loop ends: no occurrence of the keyword starts before the end of the
    last marker, and each round moves that end towards the end of the text. *)
Lemma redact_loop_total k fuel n s :
  good_keyword k = true →
  (∀ i, (i < n)%nat → ¬ occurs (chars k) (lower_chars s) i) →
  (String.length s - n < fuel)%nat → is_Some (redact_loop fuel k s).
Proof.
  intros Hk. pose proof (good_keyword_inv k Hk) as (Hne & _).
  revert n s. induction fuel as [|fuel IH]; intros n s Hclean Hf; [lia|]. simpl.
  destruct (find_sub k (to_ascii_lowercase s)) as [pos|] eqn:E; [|by eexists].
  apply find_sub_Some in E as [Ho Hmin]. fold (lower_chars s) in Ho, Hmin.
  pose proof (occurs_bound _ _ _ Hne Ho) as Hb.
  assert (length (lower_chars s) = String.length s) as Hls.
  { unfold lower_chars. rewrite chars_lower, length_fmap. apply chars_length. }
  rewrite chars_length in Hb.
  assert (n ≤ pos)%nat by (destruct (decide (pos < n)%nat); [by destruct (Hclean pos)|lia]).
  change (is_Some (redact_loop fuel k (replaced pos (pos + String.length k) s))).
  apply (IH (pos + 10)%nat).
  - intros i Hi. rewrite lower_chars_replaced.
    intros [[? ?]|[? ?]]%occurs_splice; [by apply (Hmin i)|lia|done|lia].
  - unfold replaced. rewrite !str_app_length, <- !chars_length, chars_take, chars_drop,
      length_take, length_drop, !chars_length. simpl.
    assert (0 < String.length k)%nat; [|lia].
    rewrite <- chars_length. destruct (chars k); [done|simpl; lia].
Qed.

Lemma redact_loop_clean k fuel s r :
  redact_loop fuel k s = Some r → ∀ i, ¬ occurs (chars k) (lower_chars r) i.
Proof.
  revert s. induction fuel as [|fuel IH]; intros s; simpl; [done|].
  destruct (find_sub k (to_ascii_lowercase s)) as [pos|] eqn:E; [by apply IH|].
  intros [= <-]. by apply find_sub_None.
Qed.

(** Redacting one keyword never brings back another one. *)
Lemma redact_loop_preserves k k' fuel s r :
  good_keyword k = true → good_keyword k' = true →
  (∀ i, ¬ occurs (chars k') (lower_chars s) i) →
  redact_loop fuel k s = Some r → ∀ i, ¬ occurs (chars k') (lower_chars r) i.
Proof.
  intros Hk Hk'. pose proof (good_keyword_inv k Hk) as (Hne & _).
  revert s. induction fuel as [|fuel IH]; intros s Hs; simpl; [done|].
  destruct (find_sub k (to_ascii_lowercase s)) as [pos|] eqn:E; [|by intros [= <-]].
  apply IH. intros i. apply find_sub_Some in E as [Ho _].
  pose proof (occurs_bound _ _ _ Hne Ho) as Hb.
  fold (replaced pos (pos + String.length k) s). rewrite lower_chars_replaced.
  intros [[_ ?]|[_ ?]]%occurs_splice; [by eapply Hs|by eapply Hs|done|].
  unfold lower_chars. lia.
Qed.

Lemma redact_spec s k :
  good_keyword k = true →
  redact_loop (S (String.length s)) k s = Some (redact s k).
Proof.
  intros Hk. unfold redact.
  destruct (redact_loop_total k (S (String.length s)) 0 s Hk) as [r Hr]; [lia|lia|].
  by rewrite Hr.
Qed.

Lemma redact_all_clean ks s :
  forallb good_keyword ks = true →
  ∀ k, k ∈ ks → ∀ i, ¬ occurs (chars k) (lower_chars (foldl redact s ks)) i.
Proof.
  rewrite forallb_forall. intros Hks.
  assert (∀ (pre : list string) s, (∀ k, k ∈ pre → good_keyword k = true ∧
            ∀ i, ¬ occurs (chars k) (lower_chars s) i) →
          ∀ k, k ∈ pre ∨ k ∈ ks → ∀ i, ¬ occurs (chars k) (lower_chars (foldl redact s ks)) i)
    as Hgen; [|intros k Hk; apply (Hgen []); [by intros ? ?%elem_of_nil|by right]].
  induction ks as [|k0 ks IH]; intros pre s0 Hpre k Hk; simpl.
  { destruct Hk as [Hk|?%elem_of_nil]; [by apply Hpre|done]. }
  assert (good_keyword k0 = true) as Hk0 by (apply Hks; by left).
  apply (IH (λ x Hx, Hks x (or_intror Hx)) (k0 :: pre)).
  - pose proof (redact_spec s0 k0 Hk0) as Hr.
    intros k' [->|Hk']%elem_of_cons; [split; [done|by eapply redact_loop_clean]|].
    destruct (Hpre k' Hk') as [Hg Hc]. split; [done|].
    eapply (redact_loop_preserves k0 k' _ s0); eauto.
  - rewrite elem_of_cons in *. tauto.
Qed.

Lemma redact_loop_nonempty k fuel s r :
  redact_loop fuel k s = Some r → is_empty s = false → is_empty r = false.
Proof.
  revert s. induction fuel as [|fuel IH]; intros s; simpl; [done|].
  case_match; [|by intros [= <-]]. intros Hr _. apply (IH _ Hr).
  by destruct (str_take _ s).
Qed.

(** ** Redaction of JSON details *)

(** [leaf v pk path x]: the scalar [x] is a leaf of [v], where [v] itself
    hangs under the dotted path [pk], and its own dotted path is [path]. *)
Inductive leaf : Value → option string → option string → Value → Prop :=
| leaf_here v pk :
    (match v with VArray _ | VObject _ => False | _ => True end) → leaf v pk pk v
| leaf_array items item pk path x :
    item ∈ items → leaf item pk path x → leaf (VArray items) pk path x
| leaf_object entries k v pk path x :
    (k, v) ∈ entries → leaf v (Some (child_key pk k)) path x →
    leaf (VObject entries) pk path x.

Definition secret_path (path : option string) : bool :=
  match path with Some p => contains "secret" (to_ascii_lowercase p) | None => false end.

Lemma btree_insert_elem k v l kv :
  kv ∈ btree_insert k v l → kv = (k, v) ∨ kv ∈ l.
Proof.
  induction l as [|[k' v'] l IH]; simpl.
  - rewrite list_elem_of_singleton. auto.
  - destruct (String.compare k k'); rewrite !elem_of_cons; naive_solver.
Qed.

(** The entries of a canonicalized object. *)
Fixpoint canonicalize_entries (pk : option string) (map acc : list (string * Value)) :
    list (string * Value) :=
  match map with
  | [] => acc
  | (key, inner) :: map =>
    canonicalize_entries pk map
      (btree_insert key (canonicalize_value inner (Some (child_key pk key))) acc)
  end.

Lemma canonicalize_object entries pk :
  canonicalize_value (VObject entries) pk = VObject (canonicalize_entries pk entries []).
Proof.
  cbn [canonicalize_value]. f_equal. generalize (@nil (string * Value)).
  induction entries as [|[k v] entries IH]; intros acc; simpl; [done|]. apply IH.
Qed.

Lemma canonicalize_array items pk :
  canonicalize_value (VArray items) pk = VArray ((λ v, canonicalize_value v pk) <$> items).
Proof. reflexivity. Qed.

Lemma canonicalize_entries_elem pk map acc k v :
  (k, v) ∈ canonicalize_entries pk map acc →
  (k, v) ∈ acc ∨ ∃ v0, (k, v0) ∈ map ∧ v = canonicalize_value v0 (Some (child_key pk k)).
Proof.
  revert acc. induction map as [|[k' v'] map IH]; intros acc; simpl; [auto|].
  intros [Hin|(v0 & Hin & ->)]%IH.
  - apply btree_insert_elem in Hin as [[= -> ->]|Hin]; [|auto].
    right. exists v'. split; [by left|done].
  - right. exists v0. split; [by right|done].
Qed.

(** Size of a value, for induction through arrays and objects. *)
Fixpoint value_size (v : Value) : nat :=
  match v with
  | VArray items => S (foldr (λ v n, value_size v + n) 0 items)
  | VObject entries => S (foldr (λ kv n, value_size kv.2 + n) 0 entries)
  | _ => 1
  end%nat.

Lemma value_size_array v items :
  v ∈ items → (value_size v < value_size (VArray items))%nat.
Proof.
  simpl. induction 1 as [v items|v w items _ IH]; simpl; lia.
Qed.

Lemma value_size_object k v entries :
  (k, v) ∈ entries → (value_size v < value_size (VObject entries))%nat.
Proof.
  simpl. intros Hin. remember (k, v) as kv eqn:E. revert E.
  induction Hin as [kv l|kv kv' l Hin IH]; intros ->; simpl in *; [lia|].
  specialize (IH eq_refl). lia.
Qed.

Lemma canonicalize_leaf n v pk path x :
  (value_size v ≤ n)%nat → leaf (canonicalize_value v pk) pk path x →
  secret_path path = true → x = VString "[REDACTED]".
Proof.
  revert v pk. induction n as [|n IH]; intros v pk Hn; [destruct v; simpl in Hn; lia|].
  assert (∀ v, (match v with VArray _ | VObject _ => False | _ => True end) →
    leaf (redact_leaf v pk) pk path x → secret_path path = true →
    x = VString "[REDACTED]") as Hscalar.
  { intros v0 Hv0 Hl Hs. unfold redact_leaf in Hl.
    destruct pk as [p|]; [destruct (contains "secret" (to_ascii_lowercase p)) eqn:Ec|];
      inversion Hl; subst; try done; simpl in Hs; congruence. }
  destruct v as [| | | |items|entries]; try by apply Hscalar.
  - rewrite canonicalize_array.
    inversion 1 as [? ? Hf|? item ? ? ? Hin Hl|]; subst; [done|]. apply list_elem_of_fmap in Hin as (v0 & -> & Hin).
    eapply IH; [|exact Hl]. apply value_size_array in Hin. lia.
  - rewrite canonicalize_object.
    inversion 1 as [? ? Hf| |? k v0 ? ? ? Hin Hl]; subst; [done|]. apply canonicalize_entries_elem in Hin as [?%elem_of_nil|(v1 & Hin & ->)]; [done|].
    eapply IH; [|exact Hl]. apply value_size_object in Hin. lia.
Qed.

(** ** Hash lemmas *)

Definition opt_utf8 (o : option string) : bool :=
  match o with Some s => is_utf8 s | None => true end.

(** Inputs the Rust types allow: UTF-8 strings and a time in range. *)
Definition input_wf (i : AuditHashInput) : Prop :=
  is_utf8 (hi_id i) = true ∧ is_utf8 (hi_caller_service i) = true ∧
  is_utf8 (hi_target_service i) = true ∧ is_utf8 (hi_action i) = true ∧
  is_utf8 (hi_algorithm i) = true ∧ is_utf8 (hi_status i) = true ∧
  opt_utf8 (hi_reason i) = true ∧ is_utf8 (hi_prev_hash i) = true ∧
  opt_utf8 (hi_request_id i) = true ∧ opt_utf8 (hi_operation_id i) = true ∧
  opt_utf8 (hi_target_id i) = true ∧ opt_utf8 (hi_metadata i) = true ∧
  valid_time (hi_timestamp i).

Definition input_wfb (i : AuditHashInput) : bool :=
  forallb is_utf8 [hi_id i; hi_caller_service i; hi_target_service i; hi_action i;
    hi_algorithm i; hi_status i; hi_prev_hash i] &&
  forallb opt_utf8 [hi_reason i; hi_request_id i; hi_operation_id i; hi_target_id i;
    hi_metadata i] &&
  (0 <=? hi_timestamp i) && (hi_timestamp i <? 253402300800 * 1000000000).

Lemma input_wfb_spec i : input_wfb i = true → input_wf i.
Proof.
  unfold input_wfb, input_wf, valid_time. cbn [forallb].
  rewrite !andb_true_iff, Z.leb_le, Z.ltb_lt. intuition.
Qed.

Section hash_proofs.
  Context `{Hsha : Sha256} `{HexLaws} `{JsonLaws} `{ChronoLaws}.

Lemma audit_payload_entries v i :
  audit_payload v i = VObject [
    ("action"%string, VString (hi_action i));
    ("algorithm"%string, VString (hi_algorithm i));
    ("caller_service"%string, VString (hi_caller_service i));
    ("id"%string, VString (hi_id i));
    ("metadata"%string, opt_value (hi_metadata i));
    ("operation_id"%string, opt_value (hi_operation_id i));
    ("prev_hash"%string, VString (hi_prev_hash i));
    ("reason"%string, opt_value (hi_reason i));
    ("request_id"%string, opt_value (hi_request_id i));
    ("status"%string, VString (hi_status i));
    ("target_id"%string, opt_value (hi_target_id i));
    ("target_service"%string, VString (hi_target_service i));
    ("timestamp"%string, VString (to_rfc3339 (hi_timestamp i)))].
Proof. by destruct v. Qed.

Lemma opt_value_flat o :
  match opt_value o with VNull => true | VString s => is_utf8 s | _ => false end = opt_utf8 o.
Proof. by destruct o. Qed.

Lemma audit_payload_flat v i : input_wf i → flat_value (audit_payload v i) = true.
Proof.
  intros (W1 & W2 & W3 & W4 & W5 & W6 & W7 & W8 & W9 & W10 & W11 & W12 & _).
  rewrite audit_payload_entries. unfold flat_value. cbn [forallb fst snd].
  rewrite !opt_value_flat, W1, W2, W3, W4, W5, W6, W7, W8, W9, W10, W11, W12,
    to_rfc3339_utf8.
  vm_compute. reflexivity.
Qed.

Lemma opt_value_inj a b : opt_value a = opt_value b → a = b.
Proof. destruct a, b; simpl; congruence. Qed.

Lemma audit_payload_inj v w a b :
  input_wf a → input_wf b → audit_payload v a = audit_payload w b →
  a = {| hi_id := hi_id b; hi_caller_service := hi_caller_service b;
         hi_target_service := hi_target_service b; hi_action := hi_action b;
         hi_algorithm := hi_algorithm b; hi_status := hi_status b;
         hi_reason := hi_reason b; hi_prev_hash := hi_prev_hash b;
         hi_timestamp := hi_timestamp b; hi_request_id := hi_request_id b;
         hi_operation_id := hi_operation_id b; hi_target_id := hi_target_id b;
         hi_metadata := hi_metadata b; hi_hash_version := hi_hash_version a |}.
Proof.
  intros Ha Hb. rewrite !audit_payload_entries. intros [= E1 E2 E3 E4 E5 E6 E7 E8 E9 E10 E11 E12 E13].
  apply opt_value_inj in E5, E6, E8, E9, E11.
  apply to_rfc3339_inj in E13; [|apply Ha|apply Hb].
  clear Ha Hb. destruct a; cbn in *. by subst.
Qed.

Lemma compute_audit_hash_total i : input_wf i → is_Some (compute_audit_hash i).
Proof.
  intros Hi. unfold compute_audit_hash, compute_hash_for_version.
  destruct (json_flat_ok _ (audit_payload_flat (hi_hash_version i) i Hi)) as [s ->].
  by eexists.
Qed.

(** An explicit pair of texts on which the digest collides. *)
Definition payload_collision (a b : AuditHashInput) : Prop :=
  ∃ x y, json_to_string (audit_payload (hi_hash_version a) a) = Ok x ∧
         json_to_string (audit_payload (hi_hash_version b) b) = Ok y ∧
         x ≠ y ∧ sha256 (str_bytes x) = sha256 (str_bytes y).

Lemma compute_audit_hash_inj a b h :
  input_wf a → input_wf b → compute_audit_hash a = Some h → compute_audit_hash b = Some h →
  a = b ∨ payload_collision a b.
Proof.
  intros Ha Hb. unfold compute_audit_hash, compute_hash_for_version.
  destruct (json_to_string (audit_payload (hi_hash_version a) a)) as [x|] eqn:Ex; [|done].
  destruct (json_to_string (audit_payload (hi_hash_version b) b)) as [y|] eqn:Ey; [|done].
  intros [= <-] [= Heq%hex_encode_inj].
  destruct (decide (x = y)) as [->|Hne]; [left|right; by exists x, y].
  assert (audit_payload (hi_hash_version a) a = audit_payload (hi_hash_version b) b) as Hp
    by (eapply json_flat_inj; eauto using audit_payload_flat).
  apply audit_payload_inj in Hp; [|done|done]. rewrite Hp. destruct b as [?????????????[]].
  by destruct (hi_hash_version a).
Qed.

End hash_proofs.

Lemma redact_all_nonempty ks s :
  forallb good_keyword ks = true → is_empty s = false →
  is_empty (foldl redact s ks) = false.
Proof.
  revert s. induction ks as [|k ks IH]; intros s; simpl; [done|].
  intros [Hk Hks]%andb_true_iff Hs. apply IH; [done|].
  by eapply redact_loop_nonempty; [apply redact_spec|].
Qed.

(** ** Properties *)

(** [sanitize_reason] drops exactly the blank reasons, and what it keeps
    contains none of the sensitive keywords in any mixture of case: redacting
    one keyword never uncovers another. *)
Theorem sanitize_reason_removes_keywords reason :
  (sanitize_reason (Some reason) = None ↔ is_empty (trim reason) = true) ∧
  ∀ out k, sanitize_reason (Some reason) = Some out → k ∈ SENSITIVE_KEYWORDS →
    contains k (to_ascii_lowercase out) = false.
Proof.
  unfold sanitize_reason. destruct (is_empty (trim reason)) eqn:Et; [done|].
  assert (is_empty reason = false) as Hr by (by destruct reason).
  pose proof (redact_all_nonempty _ _ sensitive_keywords_good Hr) as Hne.
  pose proof (redact_all_clean _ reason sensitive_keywords_good) as Hc.
  revert Hne Hc. generalize (foldl redact reason SENSITIVE_KEYWORDS). intros r -> Hc.
  split; [done|]. intros out k [= <-] Hk. apply contains_false. by apply Hc.
Qed.

(** The redaction loop of every sensitive keyword ends, within as many
    rounds as the text has characters. *)
Theorem redaction_terminates k s :
  k ∈ SENSITIVE_KEYWORDS → ∃ r, redact_loop (S (String.length s)) k s = Some r.
Proof.
  intros Hk%list_elem_of_In. eexists. apply redact_spec.
  pose proof sensitive_keywords_good as Hg. rewrite forallb_forall in Hg. by apply Hg.
Qed.

(** Details written to the audit log keep no scalar under a dotted key
    path that mentions [secret], at any depth of objects and arrays. *)
Theorem details_redact_secrets details v path x :
  sanitize_details (Some details) = Some v → leaf v None path x →
  secret_path path = true → x = VString "[REDACTED]".
Proof. intros [= <-]. by eapply canonicalize_leaf. Qed.

Section audit_properties.
  Context `{Hsha : Sha256} `{HexLaws} `{JsonLaws} `{ChronoLaws}.

(** The audit hash binds every field of a record: two records with the
    same hash are equal, or their canonical texts are an explicit collision
    of the digest. *)
Theorem audit_hash_binding a b h :
  input_wf a → input_wf b → compute_audit_hash a = Some h → compute_audit_hash b = Some h →
  a = b ∨ payload_collision a b.
Proof. apply compute_audit_hash_inj. Qed.

End audit_properties.

(** Although the reason column is sanitized, [record_failure] stores the
    raw reason in the metadata of the same record. *)
Theorem failure_metadata_keeps_raw_reason `{Json} id now ctx action reason s :
  json_to_string (VString reason) = Ok s →
  al_metadata (record_failure (λ log, log) id now ctx action reason) = Some s ∧
  al_reason (record_failure (λ log, log) id now ctx action reason) =
    sanitize_reason (Some reason).
Proof.
  intros Hs. unfold record_failure, record_internal.
  generalize (sanitize_reason (Some reason)). intros sanitized. simpl. rewrite Hs.
  split; [done|]. by destruct sanitized.
Qed.

(** ** Concrete instances *)

Module ConcreteAudit.

(** Entries of strings and nulls, numbered and written in binary. *)
Definition flat_entry (kv : string * Value) : option (string * option string) :=
  match kv.2 with
  | VNull => Some (kv.1, None)
  | VString s => Some (kv.1, Some s)
  | _ => None
  end.

Fixpoint pos_text (p : positive) : string :=
  match p with
  | xH => "1"
  | xO p => String (Ascii.ascii_of_nat 48) (pos_text p)
  | xI p => String (Ascii.ascii_of_nat 49) (pos_text p)
  end.

Lemma pos_text_inj p q : pos_text p = pos_text q → p = q.
Proof.
  revert q. induction p as [p IH|p IH|]; intros [q|q|] E; simpl in E;
    try discriminate E; try done; injection E as E.
  - f_equal. by apply IH.
  - destruct p; discriminate.
  - f_equal. by apply IH.
  - destruct q; discriminate.
Qed.

#[export] Instance binary_json : Json := {
  json_to_string v :=
    match v with
    | VObject l =>
      match mapM flat_entry l with
      | Some es => Ok (pos_text (encode es))
      | None => Err "unsupported"
      end
    | VString s => Ok s
    | _ => Err "unsupported"
    end }.

Lemma flat_entries l :
  forallb (λ kv, is_utf8 kv.1 &&
    match kv.2 with VNull => true | VString s => is_utf8 s | _ => false end) l = true →
  is_Some (mapM flat_entry l).
Proof.
  rewrite forallb_forall. intros Hl. apply mapM_is_Some, Forall_forall.
  intros kv Hkv%list_elem_of_In. apply Hl, andb_true_iff in Hkv as [_ Hv].
  unfold flat_entry. destruct kv as [k []]; try discriminate Hv; by eexists.
Qed.

Lemma flat_entry_inj a b e : flat_entry a = Some e → flat_entry b = Some e → a = b.
Proof.
  destruct a as [ka va], b as [kb vb]. unfold flat_entry. simpl.
  destruct va, vb; intros; simplify_eq; done.
Qed.

Lemma mapM_flat_entry_inj l m es :
  mapM flat_entry l = Some es → mapM flat_entry m = Some es → l = m.
Proof.
  rewrite !mapM_Some. intros Hl. revert m. induction Hl as [|a e l es Ha Hl IH]; intros m.
  - by inversion 1.
  - inversion 1 as [|b ? m' ? Hb Hm]; subst. f_equal; [by eapply flat_entry_inj|by apply IH].
Qed.

#[export] Instance binary_json_laws : JsonLaws binary_json.
Proof.
  split.
  - intros [] Hf; try discriminate Hf. simpl in *.
    apply andb_true_iff in Hf as [_ Hf]. destruct (flat_entries _ Hf) as [es ->]. by eexists.
  - intros v w txt Hv Hw. destruct v as [| | | | |l]; try discriminate Hv.
    destruct w as [| | | | |m]; try discriminate Hw. simpl.
    destruct (mapM flat_entry l) as [es|] eqn:El; [|discriminate].
    destruct (mapM flat_entry m) as [es'|] eqn:Em; [|discriminate].
    intros [= <-] [= Heq%pos_text_inj%(inj _)]. subst es'.
    f_equal. by eapply mapM_flat_entry_inj.
Qed.

Lemma pos_text_utf8 p : is_utf8 (pos_text p) = true.
Proof. induction p as [p IH|p IH|]; [exact IH|exact IH|reflexivity]. Qed.

#[export] Instance binary_chrono : Chrono := {
  to_rfc3339 t := pos_text (encode t);
  to_rfc3339_micros t := pos_text (encode (t / 1000)) }.
#[export] Instance binary_chrono_laws : ChronoLaws binary_chrono.
Proof.
  split; simpl.
  - intros a b _ _ E%pos_text_inj. by apply (inj encode) in E.
  - intros a. apply pos_text_utf8.
Qed.

#[export] Instance binary_uuid : UuidFmt := { uuid_to_string u := pos_text (encode u) }.
#[export] Instance binary_uuid_laws : UuidLaws binary_uuid.
Proof.
  split; simpl.
  - intros a b E%pos_text_inj. by apply (inj encode) in E.
  - intros a. apply pos_text_utf8.
Qed.

End ConcreteAudit.

Import Concrete ConcreteAudit.

Lemma redaction_terminates_witness :
  ∃ r, redact_loop 15 "secret" "SecretSECRETxy" = Some r.
Proof. apply (redaction_terminates "secret" "SecretSECRETxy"). right. left. Defined.

Definition demo_details : Value :=
  VObject [("auth"%string, VObject [("SecretKey"%string, VArray [VString "k1"; VString "k2"])])].

Lemma details_redact_secrets_witness :
  ∃ v, sanitize_details (Some demo_details) = Some v ∧
    ∀ path x, leaf v None path x → secret_path path = true → x = VString "[REDACTED]".
Proof.
  eexists. split; [reflexivity|]. intros path x.
  apply (details_redact_secrets demo_details). reflexivity.
Defined.

Definition demo_input : AuditHashInput := {|
  hi_id := "a"; hi_caller_service := "b"; hi_target_service := "c"; hi_action := "d";
  hi_algorithm := "e"; hi_status := "f"; hi_reason := None; hi_prev_hash := "g";
  hi_timestamp := 5; hi_request_id := None; hi_operation_id := None;
  hi_target_id := None; hi_metadata := None; hi_hash_version := V1 |}.

Lemma audit_hash_binding_witness :
  ∃ h, compute_audit_hash demo_input = Some h ∧
    (demo_input = demo_input ∨ payload_collision demo_input demo_input).
Proof.
  assert (input_wf demo_input) as Hwf.
  { unfold input_wf, valid_time; simpl. split_and!; try reflexivity; lia. }
  eexists. split; [vm_compute; reflexivity|].
  eapply (audit_hash_binding demo_input demo_input); [exact Hwf|exact Hwf|..];
    vm_compute; reflexivity.
Defined.

Definition demo_ctx : RequestContext := {|
  rc_operation_id := "op"; rc_nonce := None; rc_actor_id := "svc"; rc_ip := None;
  rc_user_agent := None |}.

Lemma failure_metadata_keeps_raw_reason_witness :
  al_metadata (record_failure (λ log, log) 1 2 demo_ctx SignData "password=x") =
    Some "password=x"%string ∧
  al_reason (record_failure (λ log, log) 1 2 demo_ctx SignData "password=x") =
    sanitize_reason (Some "password=x"%string).
Proof. apply failure_metadata_keeps_raw_reason. reflexivity. Defined.
