(* ===== verification/AuditChain.v ===== *)
(** * The audit chain in the database

    Models the audit queries of [kms-db/src/repositories.rs],
    [kms-service/src/infrastructure/postgres/audit.rs] and
    [verify_audit_handler] of [kms-service/src/handlers/audit.rs].  The table
    [audit_logs] is the list of its rows; Postgres keeps timestamps in
    microseconds (interface [PgTime]). *)

From stdpp Require Import sorting.
From S2P Require Import Prelude.
From S2P Require Import Interfaces.
From S2P Require Import Protocol.
From S2P Require Import Domain.
From S2P Require Import Acl.
From S2P Require Import AuditLog.

(** ** Rows and queries *)

Record AuditRow := MkAuditRow {
  ar_id : Z;
  ar_caller_service : string;
  ar_target_service : string;
  ar_action : string;
  ar_algorithm : string;
  ar_status : string;
  ar_reason : option string;
  ar_prev_hash : string;
  ar_hash : string;
  ar_signature : option (list byte);
  ar_request_id : option string;
  ar_operation_id : option string;
  ar_target_id : option string;
  ar_metadata : option string;
  ar_created_at : Z }.

(** What a [timestamptz] column keeps of an instant: microseconds. *)
Class PgTime := { pg_timestamptz : Z → Z }.
Class PgTimeLaws (P : PgTime) := {
  pg_timestamptz_micros t : pg_timestamptz t mod 1000 = 0;
  pg_timestamptz_exact t : t mod 1000 = 0 → pg_timestamptz t = t }.

(** [ORDER BY created_at, id] *)
Definition row_le (r1 r2 : AuditRow) : Prop :=
  ar_created_at r1 < ar_created_at r2 ∨
  (ar_created_at r1 = ar_created_at r2 ∧ ar_id r1 ≤ ar_id r2).
#[export] Instance row_le_dec : RelDecision row_le.
Proof. intros r1 r2. unfold row_le. apply _. Defined.

Definition sorted_rows (db : list AuditRow) : list AuditRow := merge_sort row_le db.

(** [(limit.unwrap_or(1000) + 1) as i64] on [usize], without overflow checks. *)
Definition as_u64 (z : Z) : Z := z mod 18446744073709551616.
Definition as_i64 (z : Z) : Z :=
  let u := as_u64 z in
  if u <? 9223372036854775808 then u else u - 18446744073709551616.
Definition sql_limit (limit : option Z) : Z := as_i64 (as_u64 (default 1000 limit + 1)).

Definition list_recent (db : list AuditRow) (limit : option Z) (full : bool) :
    result (list AuditRow) SqlError :=
  if full then Ok (sorted_rows db)
  else
    let n := sql_limit limit in
    if n <? 0 then Err InvalidRowCountInLimit
    else Ok (reverse (take (Z.to_nat n) (reverse (sorted_rows db)))).

Definition latest_hash (db : list AuditRow) : option string :=
  ar_hash <$> last (sorted_rows db).

Definition audit_insert `{PgTime} (db : list AuditRow) (row : AuditRow) :
    result (list AuditRow) SqlError :=
  if decide (ar_id row ∈ ar_id <$> db) then Err (UniqueViolation "audit_logs_pkey")
  else
    Ok (db ++ [{|
      ar_id := ar_id row; ar_caller_service := ar_caller_service row;
      ar_target_service := ar_target_service row; ar_action := ar_action row;
      ar_algorithm := ar_algorithm row; ar_status := ar_status row;
      ar_reason := ar_reason row; ar_prev_hash := ar_prev_hash row;
      ar_hash := ar_hash row; ar_signature := ar_signature row;
      ar_request_id := ar_request_id row; ar_operation_id := ar_operation_id row;
      ar_target_id := ar_target_id row; ar_metadata := ar_metadata row;
      ar_created_at := pg_timestamptz (ar_created_at row) |}]).

(** ** PgAuditRepository::record, as its read and its write *)

Section record.
  Context `{Sha256} `{Hex} `{Json} `{Chrono} `{UuidFmt} `{PgTime} `{SqlDisplay}.

(** [database_error_with_source(format!("Database operation failed: {err}"), err)] *)
Definition db_error (e : SqlError) : AppError :=
  DatabaseError ("Database operation failed: " +s+ sql_display e) (Some (sql_display e)).

Definition record_read (db : list AuditRow) : string := default GENESIS_HASH (latest_hash db).

(** The row built from a log and the hash read before; [None] is a panic. *)
Definition record_row (prev_hash : string) (log : AuditLog) : option AuditRow :=
  let action_str := AuditAction_debug (al_action log) in
  let algorithm_str := KeyAlgorithm_as_str (al_algorithm log) in
  let status_str := AuditStatus_as_str (al_status log) in
  let safe_reason := sanitize_reason (al_reason log) in
  match compute_audit_hash {|
    hi_id := uuid_to_string (al_id log);
    hi_caller_service := al_caller_service log;
    hi_target_service := al_target_service log;
    hi_action := action_str;
    hi_algorithm := algorithm_str;
    hi_status := status_str;
    hi_reason := safe_reason;
    hi_prev_hash := prev_hash;
    hi_timestamp := al_timestamp log;
    hi_request_id := al_request_id log;
    hi_operation_id := al_operation_id log;
    hi_target_id := al_target_id log;
    hi_metadata := al_metadata log;
    hi_hash_version := al_hash_version log |}
  with
  | None => None
  | Some hash_hex =>
    Some {|
      ar_id := al_id log;
      ar_caller_service := al_caller_service log;
      ar_target_service := al_target_service log;
      ar_action := action_str;
      ar_algorithm := algorithm_str;
      ar_status := status_str;
      ar_reason := safe_reason;
      ar_prev_hash := prev_hash;
      ar_hash := hash_hex;
      ar_signature := None;
      ar_request_id := al_request_id log;
      ar_operation_id := al_operation_id log;
      ar_target_id := al_target_id log;
      ar_metadata := al_metadata log;
      ar_created_at := al_timestamp log |}
  end.

Definition record_write (db : list AuditRow) (prev_hash : string) (log : AuditLog) :
    option (result (list AuditRow) AppError) :=
  match record_row prev_hash log with
  | None => None
  | Some row =>
    Some (map_err db_error (audit_insert db row))
  end.

Definition record (db : list AuditRow) (log : AuditLog) :
    option (result (list AuditRow) AppError) :=
  record_write db (record_read db) log.

End record.

(** ** Verification *)

(** [base64] and [ed25519-dalek] *)
Class Ed25519Lib := {
  verifying_key : Type;
  base64_decode : string → option (list byte);
  vk_from_bytes : list byte → option verifying_key;
  vk_verify_strict : verifying_key → list byte (* message *) → list byte → bool }.

(** [str::lines]: pieces ended by a line feed, without a trailing carriage
    return. *)
Definition strip_cr (rev_line : list Ascii.ascii) : list Ascii.ascii :=
  match rev_line with
  | c :: l => if Ascii.eqb c (Ascii.ascii_of_nat 13) then l else rev_line
  | [] => []
  end.
Fixpoint lines_go (cur : list Ascii.ascii) (l : list Ascii.ascii) : list string :=
  match l with
  | [] =>
    match cur with
    | [] => []
    | _ => [String.string_of_list_ascii (reverse cur)]
    end
  | c :: l =>
    if Ascii.eqb c (Ascii.ascii_of_nat 10)
    then String.string_of_list_ascii (reverse (strip_cr cur)) :: lines_go [] l
    else lines_go (c :: cur) l
  end.
Definition str_lines (s : string) : list string := lines_go [] (chars s).

Record VerifyReport := MkVerifyReport {
  vr_ok : bool; vr_total_checked : Z; vr_ok_count : Z; vr_errors : list string }.

Section verify.
  Context `{Sha256} `{Hex} `{Json} `{Chrono} `{UuidFmt} `{SqlDisplay} `{Ed25519Lib}.

Definition parse_ed25519_pub_from_pem (pem : string) : option verifying_key :=
  let b64 := String.concat EmptyString
    (filter (λ l, starts_with "-----" l = false) (str_lines pem)) in
  match base64_decode b64 with
  | None => None
  | Some der =>
    if (32 <=? length der)%nat then vk_from_bytes (drop (length der - 32) der) else None
  end.

Definition row_hash_input (rec : AuditRow) : AuditHashInput := {|
  hi_id := uuid_to_string (ar_id rec);
  hi_caller_service := ar_caller_service rec;
  hi_target_service := ar_target_service rec;
  hi_action := ar_action rec;
  hi_algorithm := ar_algorithm rec;
  hi_status := ar_status rec;
  hi_reason := ar_reason rec;
  hi_prev_hash := ar_prev_hash rec;
  hi_timestamp := ar_created_at rec;
  hi_request_id := ar_request_id rec;
  hi_operation_id := ar_operation_id rec;
  hi_target_id := ar_target_id rec;
  hi_metadata := ar_metadata rec;
  hi_hash_version := V1 |}.

(** The signature check of one record: is the record acceptable? *)
Definition signature_ok (pubkeys : list verifying_key) (computed : string)
    (signature : option (list byte)) : bool :=
  match signature with
  | None => true
  | Some sig_bytes =>
    if (length sig_bytes =? 64)%nat && negb (length pubkeys =? 0)%nat
    then existsb (λ pk, vk_verify_strict pk (str_bytes computed) sig_bytes) pubkeys
    else true
  end.

(** The loop over the records: how many were accepted, and the errors.
    [None] is a panic while hashing. *)
Fixpoint verify_loop (pubkeys : list verifying_key) (last_hash : string)
    (ok_count : Z) (recs : list AuditRow) : option (Z * list string) :=
  match recs with
  | [] => Some (ok_count, [])
  | rec :: recs =>
    let violation := "Integrity violation at id " +s+ uuid_to_string (ar_id rec) in
    if negb (String.eqb (ar_prev_hash rec) last_hash) then
      Some (ok_count, [violation +s+ ": prev_hash mismatch (expected " +s+ last_hash
                       +s+ " got " +s+ ar_prev_hash rec +s+ ")"])
    else match compute_audit_hash (row_hash_input rec) with
    | None => None
    | Some computed =>
      if negb (String.eqb computed (ar_hash rec)) then
        Some (ok_count, [violation +s+ ": hash mismatch (expected " +s+ ar_hash rec
                         +s+ " got " +s+ computed +s+ ")"])
      else if negb (signature_ok pubkeys computed (ar_signature rec)) then
        Some (ok_count, ["Signature verification failed for id "
                         +s+ uuid_to_string (ar_id rec)])
      else verify_loop pubkeys (ar_hash rec) (ok_count + 1) recs
    end
  end.

(** The rows and the signing keys come from the database. *)
Definition verify_audit_handler (acl : AclSettings) (caller : ServiceId)
    (db : list AuditRow) (signing_keys : list string)
    (q_limit : option Z) (q_full : option bool) : option (result VerifyReport AppError) :=
  if negb (AclSettings_has_control_action acl caller AuditVerify) then Some (Err Forbidden)
  else
    let limit := default 1000 q_limit in
    let full := default false q_full in
    match list_recent db (Some limit) full with
    | Err e => Some (Err (db_error e))
    | Ok rows =>
      match rows with
      | [] => Some (Ok (MkVerifyReport true 0 0 []))
      | first :: rest =>
        let '(anchor_hash, records) :=
          if negb full && (limit <? blen rows) then (ar_hash first, rest)
          else (GENESIS_HASH, rows) in
        let pubkeys := omap parse_ed25519_pub_from_pem signing_keys in
        match verify_loop pubkeys anchor_hash 0 records with
        | None => None
        | Some (ok_count, errors) =>
          Some (Ok (MkVerifyReport (length errors =? 0)%nat (ok_count + blen errors)
                      ok_count errors))
        end
      end
    end.

End verify.

(** ** Order of the rows *)

#[export] Instance row_le_trans : Transitive row_le.
Proof. intros a b c. unfold row_le. lia. Qed.
#[export] Instance row_le_total : Total row_le.
Proof. intros a b. unfold row_le. lia. Qed.

(** Strictly later in the order of the table. *)
Definition row_lt (r1 r2 : AuditRow) : Prop :=
  ar_created_at r1 < ar_created_at r2 ∨
  (ar_created_at r1 = ar_created_at r2 ∧ ar_id r1 < ar_id r2).

Definition ascending (db : list AuditRow) : Prop := StronglySorted row_lt db.

Lemma ascending_le db : ascending db → StronglySorted row_le db.
Proof.
  induction 1 as [|r db Hs IH Hall]; constructor; [done|].
  eapply Forall_impl; [exact Hall|]. intros x. unfold row_lt, row_le. lia.
Qed.

Lemma ascending_unique db x y : ascending db → x ∈ db → y ∈ db → row_le x y → row_le y x → x = y.
Proof.
  induction 1 as [|r db Hs IH Hall]; [by intros ?%elem_of_nil|].
  rewrite Forall_forall in Hall. rewrite !elem_of_cons. unfold row_le, row_lt in *.
  intros [->|Hx] [->|Hy]; auto.
  - specialize (Hall y Hy). lia.
  - specialize (Hall x Hx). lia.
Qed.

Lemma sorted_rows_ascending db : ascending db → sorted_rows db = db.
Proof.
  intros Hdb. unfold sorted_rows.
  apply (StronglySorted_unique_strong row_le); [|apply (StronglySorted_merge_sort row_le)|
    by apply ascending_le|apply merge_sort_Permutation].
  intros x y Hx Hy. rewrite merge_sort_Permutation in Hx. by apply (ascending_unique db).
Qed.

Lemma ascending_snoc db r :
  ascending db → (∀ x, x ∈ db → row_lt x r) → ascending (db ++ [r]).
Proof.
  intros Hdb Hr. induction Hdb as [|x db Hs IH Hall]; simpl.
  - repeat constructor.
  - constructor; [apply IH; intros y Hy; apply Hr; by right|].
    apply Forall_app. split; [done|]. constructor; [|constructor]. apply Hr. by left.
Qed.

(** ** Linked rows *)

Section chain_proofs.
  Context `{Hsha : Sha256} `{Hhex : Hex} `{Hjson : Json} `{Hchrono : Chrono}
    `{Huuid : UuidFmt} `{Hpg : PgTime} `{Hsql : SqlDisplay} `{Hed : Ed25519Lib}.

Definition row_hash_ok (r : AuditRow) : Prop :=
  compute_audit_hash (row_hash_input r) = Some (ar_hash r).

Fixpoint linked (h : string) (rows : list AuditRow) : Prop :=
  match rows with
  | [] => True
  | r :: rows => ar_prev_hash r = h ∧ row_hash_ok r ∧ linked (ar_hash r) rows
  end.

(** The hash the next row has to carry. *)
Definition tip (h : string) (rows : list AuditRow) : string :=
  match last rows with Some r => ar_hash r | None => h end.

Lemma linked_snoc h rows r :
  linked h (rows ++ [r]) ↔ linked h rows ∧ ar_prev_hash r = tip h rows ∧ row_hash_ok r.
Proof.
  revert h. induction rows as [|x rows IH]; intros h; simpl; [unfold tip; simpl; tauto|].
  rewrite IH. assert (tip (ar_hash x) rows = tip h (x :: rows)) as ->.
  { unfold tip. rewrite last_cons. by destruct (last rows). }
  tauto.
Qed.

Lemma linked_elem h rows r : linked h rows → r ∈ rows → row_hash_ok r.
Proof.
  revert h. induction rows as [|x rows IH]; intros h; [by intros _ ?%elem_of_nil|].
  intros (_ & Hx & Hl) [->|Hr]%elem_of_cons; eauto.
Qed.

Lemma verify_loop_linked pks h c rows n :
  verify_loop pks h c rows = Some (n, []) → linked h rows ∧ n = c + blen rows.
Proof.
  revert h c. induction rows as [|r rows IH]; intros h c; cbn [verify_loop linked].
  - intros [= <-]. split; [done|]. unfold blen; simpl; lia.
  - destruct (String.eqb_spec (ar_prev_hash r) h); [|discriminate].
    cbn [negb]. unfold row_hash_ok.
    destruct (compute_audit_hash (row_hash_input r)) as [hh|]; [|discriminate].
    destruct (String.eqb_spec hh (ar_hash r)) as [->|]; [|discriminate]. cbn [negb].
    destruct (signature_ok pks (ar_hash r) (ar_signature r)); [|discriminate].
    intros [Hl ->]%IH. split; [done|]. unfold blen; simpl; lia.
Qed.

(** No signature, or one of the wrong length, which is not checked. *)
Definition unsigned (r : AuditRow) : Prop :=
  match ar_signature r with Some sig => length sig ≠ 64%nat | None => True end.

Lemma unsigned_ok pks h r : unsigned r → signature_ok pks h (ar_signature r) = true.
Proof.
  unfold unsigned, signature_ok. destruct (ar_signature r) as [sig|]; [|done].
  intros Hn. by rewrite (proj2 (Nat.eqb_neq _ _) Hn).
Qed.

Lemma linked_verify_loop pks h c rows :
  linked h rows → (∀ r, r ∈ rows → unsigned r) →
  verify_loop pks h c rows = Some (c + blen rows, []).
Proof.
  revert h c. induction rows as [|r rows IH]; intros h c; cbn [verify_loop linked].
  - intros _ _. unfold blen; simpl. do 2 f_equal. lia.
  - intros (-> & Hh & Hl) Hsig. rewrite String.eqb_refl. cbn [negb]. rewrite Hh.
    rewrite String.eqb_refl. cbn [negb]. rewrite unsigned_ok by (apply Hsig; by left).
    cbn [negb]. rewrite IH; [|done|intros; apply Hsig; by right].
    unfold blen; simpl. do 2 f_equal. lia.
Qed.

Lemma verify_loop_broken pks h c rows r rest :
  linked h rows → ar_prev_hash r ≠ tip h rows →
  ∀ n, verify_loop pks h c (rows ++ r :: rest) ≠ Some (n, []).
Proof.
  intros Hl Hr n Hv. apply verify_loop_linked in Hv as [Hv _].
  assert (∀ rows h, linked h (rows ++ r :: rest) → linked h (rows ++ [r])) as Hpre.
  { clear. induction rows as [|x rows IH]; intros h; simpl; [tauto|].
    intros (? & ? & ?). auto. }
  apply Hpre, linked_snoc in Hv as (_ & ? & _). done.
Qed.

(** The report on a non-empty full verification. *)
Lemma verify_full_report acl caller db keys :
  AclSettings_has_control_action acl caller AuditVerify = true → db ≠ [] →
  verify_audit_handler acl caller db keys None (Some true) =
  match verify_loop (omap parse_ed25519_pub_from_pem keys) GENESIS_HASH 0 (sorted_rows db) with
  | None => None
  | Some (ok_count, errors) =>
    Some (Ok (MkVerifyReport (length errors =? 0)%nat (ok_count + blen errors) ok_count errors))
  end.
Proof.
  intros Hacl Hdb. unfold verify_audit_handler. rewrite Hacl. cbn -[verify_loop sorted_rows].
  destruct (sorted_rows db) as [|r rows] eqn:E; [|done].
  exfalso. apply Hdb. apply Permutation_nil. rewrite <- E. unfold sorted_rows.
  by rewrite merge_sort_Permutation.
Qed.

Lemma verify_full_ok acl caller db keys rep :
  verify_audit_handler acl caller db keys None (Some true) = Some (Ok rep) →
  vr_ok rep = true → linked GENESIS_HASH (sorted_rows db).
Proof.
  intros Hv Hok. destruct (AclSettings_has_control_action acl caller AuditVerify) eqn:Ha;
    [|unfold verify_audit_handler in Hv; by rewrite Ha in Hv].
  destruct (decide (db = [])) as [->|Hne]; [done|].
  rewrite verify_full_report in Hv by done.
  destruct (verify_loop _ _ _ _) as [[n errs]|] eqn:E; [|done]. injection Hv as <-.
  simpl in Hok. apply Nat.eqb_eq, nil_length_inv in Hok. subst errs.
  by eapply verify_loop_linked.
Qed.

(** A table with a row whose hash is not that of its fields does not verify. *)
Lemma verify_bad_hash acl caller db keys rep r :
  r ∈ db → ¬ row_hash_ok r →
  verify_audit_handler acl caller db keys None (Some true) = Some (Ok rep) → vr_ok rep = false.
Proof.
  intros Hr Hbad Hv. destruct (vr_ok rep) eqn:Hok; [|done]. exfalso. apply Hbad.
  eapply linked_elem; [by eapply verify_full_ok|]. unfold sorted_rows. by rewrite merge_sort_Permutation.
Qed.

(** The row as the table keeps it. *)
Definition stored (row : AuditRow) : AuditRow := {|
  ar_id := ar_id row; ar_caller_service := ar_caller_service row;
  ar_target_service := ar_target_service row; ar_action := ar_action row;
  ar_algorithm := ar_algorithm row; ar_status := ar_status row;
  ar_reason := ar_reason row; ar_prev_hash := ar_prev_hash row;
  ar_hash := ar_hash row; ar_signature := ar_signature row;
  ar_request_id := ar_request_id row; ar_operation_id := ar_operation_id row;
  ar_target_id := ar_target_id row; ar_metadata := ar_metadata row;
  ar_created_at := pg_timestamptz (ar_created_at row) |}.

Lemma record_write_inv db prev log db' :
  record_write db prev log = Some (Ok db') →
  ∃ row, record_row prev log = Some row ∧ db' = db ++ [stored row] ∧
    ar_id row ∉ (ar_id <$> db).
Proof.
  unfold record_write. destruct (record_row prev log) as [row|]; [|done].
  intros [= Hi]. apply map_err_Ok in Hi. unfold audit_insert in Hi.
  case_decide; [done|]. injection Hi as <-. by exists row.
Qed.

(** The hash input a log is recorded under. *)
Definition log_hash_input (prev_hash : string) (log : AuditLog) : AuditHashInput := {|
  hi_id := uuid_to_string (al_id log);
  hi_caller_service := al_caller_service log;
  hi_target_service := al_target_service log;
  hi_action := AuditAction_debug (al_action log);
  hi_algorithm := KeyAlgorithm_as_str (al_algorithm log);
  hi_status := AuditStatus_as_str (al_status log);
  hi_reason := sanitize_reason (al_reason log);
  hi_prev_hash := prev_hash;
  hi_timestamp := al_timestamp log;
  hi_request_id := al_request_id log;
  hi_operation_id := al_operation_id log;
  hi_target_id := al_target_id log;
  hi_metadata := al_metadata log;
  hi_hash_version := al_hash_version log |}.

Lemma record_row_inv prev log row :
  record_row prev log = Some row →
  compute_audit_hash (log_hash_input prev log) = Some (ar_hash row) ∧
  row_hash_input row = log_hash_input prev log ∧
  ar_id row = al_id log ∧ ar_created_at row = al_timestamp log ∧
  ar_prev_hash row = prev ∧ ar_signature row = None.
Proof.
  unfold record_row. fold (log_hash_input prev log).
  destruct (compute_audit_hash (log_hash_input prev log)) as [h|] eqn:Eh; [|done].
  intros [= <-]. split_and!; try done.
  unfold row_hash_input, log_hash_input; simpl. by destruct (al_hash_version log).
Qed.

(** A log that comes after every row of the table. *)
Definition log_after (db : list AuditRow) (log : AuditLog) : Prop :=
  ∀ r, r ∈ db → ar_created_at r < al_timestamp log ∨
    (ar_created_at r = al_timestamp log ∧ ar_id r < al_id log).

(** Logs recorded one after the other, at microsecond precision. *)
Inductive history : list AuditLog → list AuditRow → Prop :=
| history_nil : history [] []
| history_snoc logs db log db' :
    history logs db → al_timestamp log mod 1000 = 0 → log_after db log →
    record db log = Some (Ok db') → history (logs ++ [log]) db'.

Lemma record_read_ascending db : ascending db → record_read db = tip GENESIS_HASH db.
Proof.
  intros Hdb. unfold record_read, latest_hash, tip.
  rewrite sorted_rows_ascending by done. by destruct (last db).
Qed.

Lemma history_inv `{!PgTimeLaws Hpg} logs db :
  history logs db →
  ascending db ∧ linked GENESIS_HASH db ∧
  (∀ r, r ∈ db → unsigned r) ∧ length db = length logs.
Proof.
  induction 1 as [|logs db log db' Hh (Hasc & Hlink & Hsig & Hlen) Ht Hafter Hrec].
  { split_and!; try done; [constructor|by intros r ?%elem_of_nil]. }
  unfold record in Hrec. rewrite record_read_ascending in Hrec by done.
  apply record_write_inv in Hrec as (row & Hrow & -> & _).
  apply record_row_inv in Hrow as (Hc & Hin & Hid & Hts & Hprev & Hs).
  assert (stored row = row) as ->.
  { unfold stored. rewrite pg_timestamptz_exact by (by rewrite Hts). by destruct row. }
  split_and!.
  - apply ascending_snoc; [done|]. intros x Hx. unfold row_lt. rewrite Hid, Hts.
    by apply Hafter.
  - apply linked_snoc. split_and!; [done|done|]. unfold row_hash_ok. by rewrite Hin.
  - intros r [Hr|Hr]%elem_of_app; [by apply Hsig|].
    apply list_elem_of_singleton in Hr as ->. unfold unsigned. by rewrite Hs.
  - rewrite !length_app. simpl. lia.
Qed.

(** Two linked lists of the same length with the same tip. *)
Lemma linked_tamper `{!HexLaws Hhex} `{!JsonLaws Hjson} `{!ChronoLaws Hchrono} h h' rows rows' :
  length rows = length rows' → linked h rows → linked h' rows' → tip h rows = tip h' rows' →
  (∀ r, r ∈ rows ++ rows' → input_wf (row_hash_input r)) →
  row_hash_input <$> rows = row_hash_input <$> rows' ∨
  ∃ i r r', rows !! i = Some r ∧ rows' !! i = Some r' ∧
    payload_collision (row_hash_input r) (row_hash_input r').
Proof.
  revert rows'. induction rows as [|r rows IH] using rev_ind; intros rows' Hlen Hl Hl' Ht Hwf.
  { destruct rows'; [by left|done]. }
  destruct rows' as [|r' rows' _] using rev_ind; [rewrite length_app in Hlen; simpl in Hlen; lia|].
  rewrite !length_app in Hlen. simpl in Hlen.
  apply linked_snoc in Hl as (Hl & Hp & Hr). apply linked_snoc in Hl' as (Hl' & Hp' & Hr').
  unfold tip in Ht. rewrite !last_snoc in Ht. unfold row_hash_ok in Hr, Hr'.
  rewrite Ht in Hr.
  assert (input_wf (row_hash_input r)) as Hw by (apply Hwf; set_solver).
  assert (input_wf (row_hash_input r')) as Hw' by (apply Hwf; set_solver).
  destruct (compute_audit_hash_inj _ _ _ Hw Hw' Hr Hr') as [Heq|Hcol].
  - destruct (IH rows') as [E|(i & x & x' & Hx & Hx' & Hc)]; [lia|done|done| |set_solver|..].
    + rewrite <- Hp, <- Hp'. by injection Heq.
    + left. rewrite !fmap_app, E. f_equal. cbn [fmap list_fmap]. by rewrite Heq.
    + right. exists i, x, x'. split_and!; [by apply lookup_app_l_Some..|done].
  - right. exists (length rows), r, r'. split_and!; [by apply list_lookup_middle|
      apply list_lookup_middle; lia|done].
Qed.

End chain_proofs.

(** ** Properties *)

Section chain_properties.
  Context `{Hsha : Sha256} `{Hhex : Hex} `{Hjson : Json} `{Hchrono : Chrono}
    `{Huuid : UuidFmt} `{Hpg : PgTime} `{Hsql : SqlDisplay} `{Hed : Ed25519Lib}.

(** What the repository records, the handler verifies.  After any
    sequence of records made one after the other with increasing
    microsecond timestamps, a full verification accepts every row. *)
Theorem recorded_chain_verifies `{!PgTimeLaws Hpg} acl caller keys logs db :
  AclSettings_has_control_action acl caller AuditVerify = true → history logs db →
  verify_audit_handler acl caller db keys None (Some true) =
  Some (Ok (MkVerifyReport true (blen logs) (blen logs) [])).
Proof.
  intros Hacl (Hasc & Hlink & Hsig & Hlen)%history_inv.
  destruct (decide (db = [])) as [->|Hne].
  - destruct logs; [|done]. unfold verify_audit_handler. by rewrite Hacl.
  - rewrite verify_full_report by done.
    rewrite sorted_rows_ascending by done. rewrite linked_verify_loop by done.
    unfold blen. rewrite Hlen. simpl. do 3 f_equal; lia.
Qed.

(** C3: a verified chain cannot be altered unnoticed: two tables of the same
    size that both verify and end in the same hash hold the same records, or
    two records at the same position are an explicit collision of the digest. *)
Theorem verified_chain_tamper_evident `{!HexLaws Hhex} `{!JsonLaws Hjson} `{!ChronoLaws Hchrono}
    acl caller keys db db' rep rep' :
  verify_audit_handler acl caller db keys None (Some true) = Some (Ok rep) →
  vr_ok rep = true →
  verify_audit_handler acl caller db' keys None (Some true) = Some (Ok rep') →
  vr_ok rep' = true →
  length db = length db' → latest_hash db = latest_hash db' →
  (∀ r, r ∈ db ++ db' → input_wf (row_hash_input r)) →
  row_hash_input <$> sorted_rows db = row_hash_input <$> sorted_rows db' ∨
  ∃ i r r', sorted_rows db !! i = Some r ∧ sorted_rows db' !! i = Some r' ∧
    payload_collision (row_hash_input r) (row_hash_input r').
Proof.
  intros Hv Hok Hv' Hok' Hlen Hlast Hwf.
  pose proof (verify_full_ok _ _ _ _ _ Hv Hok). pose proof (verify_full_ok _ _ _ _ _ Hv' Hok').
  unfold sorted_rows in *.
  eapply linked_tamper; [by rewrite !merge_sort_Permutation|done|done| |].
  - unfold latest_hash, sorted_rows in Hlast. unfold tip.
    destruct (last (merge_sort row_le db)), (last (merge_sort row_le db')); by simplify_eq/=.
  - intros r. rewrite !merge_sort_Permutation. apply Hwf.
Qed.

(** A record whose timestamp is not a whole number of microseconds does
    not verify: the hash covers nanoseconds the table does not keep. *)
Theorem submicrosecond_record_fails `{!HexLaws Hhex} `{!JsonLaws Hjson} `{!ChronoLaws Hchrono}
    `{!PgTimeLaws Hpg} acl caller keys log db :
  AclSettings_has_control_action acl caller AuditVerify = true →
  al_timestamp log mod 1000 ≠ 0 →
  input_wf (log_hash_input GENESIS_HASH log) → valid_time (pg_timestamptz (al_timestamp log)) →
  record [] log = Some (Ok db) →
  (∃ rep, verify_audit_handler acl caller db keys None (Some true) = Some (Ok rep) ∧
          vr_ok rep = false) ∨
  ∃ row, db = [row] ∧
    payload_collision (log_hash_input GENESIS_HASH log) (row_hash_input row).
Proof.
  intros Hacl Hsub Hwf Hval (row & Hrow & -> & _)%record_write_inv.
  change (record_read []) with GENESIS_HASH in Hrow.
  apply record_row_inv in Hrow as (Hc & Hin & Hid & Hts & Hprev & Hs).
  assert (input_wf (row_hash_input (stored row))) as Hwf'.
  { revert Hwf. rewrite <- Hin. unfold input_wf, row_hash_input, stored; simpl.
    rewrite Hts. tauto. }
  destruct (compute_audit_hash_total _ Hwf') as [h Hh].
  destruct (decide (h = ar_hash row)) as [->|Hne].
  - right. exists (stored row). split; [done|].
    destruct (compute_audit_hash_inj _ _ _ Hwf Hwf' Hc Hh) as [Heq|]; [|done].
    exfalso. apply (f_equal hi_timestamp) in Heq. simpl in Heq. rewrite Hts in Heq.
    pose proof (pg_timestamptz_micros (al_timestamp log)). congruence.
  - left. rewrite verify_full_report by done.
    change (sorted_rows ([] ++ [stored row])) with [stored row]. cbn [verify_loop].
    change (ar_prev_hash (stored row)) with (ar_prev_hash row).
    rewrite Hprev, String.eqb_refl, Hh. cbn [negb].
    change (ar_hash (stored row)) with (ar_hash row).
    destruct (String.eqb_spec h (ar_hash row)); [done|]. cbn [negb].
    eexists. split; [reflexivity|done].
Qed.

(** Recording is not safe under concurrency: when two records read the
    latest hash before either inserts, both rows carry the same previous hash
    and the chain no longer verifies. *)
Theorem concurrent_records_break_chain `{!PgTimeLaws Hpg} acl caller keys logs db l1 l2 db1 db2 :
  AclSettings_has_control_action acl caller AuditVerify = true → history logs db →
  al_timestamp l1 mod 1000 = 0 → al_timestamp l2 mod 1000 = 0 → log_after db l1 →
  record_write db (record_read db) l1 = Some (Ok db1) →
  log_after db1 l2 → record_write db1 (record_read db) l2 = Some (Ok db2) →
  (∀ row, record_row (record_read db) l1 = Some row → ar_hash row ≠ record_read db) →
  ∀ rep, verify_audit_handler acl caller db2 keys None (Some true) = Some (Ok rep) →
    vr_ok rep = false.
Proof.
  intros Hacl Hh Ht1 Ht2 Ha1 Hw1 Ha2 Hw2 Hne rep Hv.
  assert (history (logs ++ [l1]) db1) as Hh1 by (by eapply history_snoc).
  apply record_write_inv in Hw2 as (r2 & Hr2 & -> & _).
  pose proof (history_inv _ _ Hh1) as (Hasc1 & Hlink1 & _ & _).
  pose proof (history_inv _ _ Hh) as (Hasc & _).
  apply record_write_inv in Hw1 as (r1 & Hr1 & Hdb1 & _).
  apply record_row_inv in Hr2 as (_ & _ & Hid2 & Hts2 & Hp2 & _).
  assert (ascending (db1 ++ [stored r2])) as Hasc2.
  { apply ascending_snoc; [done|]. intros x Hx. unfold row_lt. simpl.
    rewrite Hid2, Hts2, pg_timestamptz_exact by done. by apply Ha2. }
  destruct (vr_ok rep) eqn:Hok; [|done]. exfalso.
  apply verify_full_ok in Hv; [|done]. rewrite sorted_rows_ascending in Hv by done.
  apply linked_snoc in Hv as (_ & Hp & _). apply (Hne r1 Hr1).
  change (ar_prev_hash (stored r2)) with (ar_prev_hash r2) in Hp.
  rewrite Hp2 in Hp. rewrite Hp, Hdb1. unfold tip. by rewrite last_snoc.
Qed.

(** A verification asked for with the largest [limit] wraps around to
    [LIMIT 0], reads no row and reports success, whatever the table holds. *)
Theorem verify_limit_wraps acl caller keys db :
  AclSettings_has_control_action acl caller AuditVerify = true →
  verify_audit_handler acl caller db keys (Some 18446744073709551615) None =
  Some (Ok (MkVerifyReport true 0 0 [])).
Proof.
  intros Hacl. unfold verify_audit_handler. rewrite Hacl. cbn [negb default list_recent].
  by change (sql_limit (Some 18446744073709551615)) with 0.
Qed.

End chain_properties.

(** ** Concrete instances *)

Import Concrete ConcreteAudit.

Module ConcretePg.

#[export] Instance floor_pg : PgTime := { pg_timestamptz t := t / 1000 * 1000 }.
#[export] Instance floor_pg_laws : PgTimeLaws floor_pg.
Proof.
  split; simpl; intros t.
  - apply Z.mod_mul. lia.
  - intros Ht. pose proof (Z.div_mod t 1000). lia.
Qed.

#[export] Instance no_ed25519 : Ed25519Lib := {
  verifying_key := unit;
  base64_decode _ := None;
  vk_from_bytes _ := None;
  vk_verify_strict _ _ _ := false }.

End ConcretePg.

Import ConcretePg.

Definition cli_acl : AclSettings := {| services := {["kms-cli"%string :=
  {| service_id := "kms-cli"; secret := []; allowed_access := [];
     allowed_actions := Some [AuditVerify] |}]} |}.

Definition demo_log (id t : Z) : AuditLog :=
  AuditLog_new id "svc" "svc" SignData AES256GCM Success None None None None None t.

Definition table_of (o : option (result (list AuditRow) AppError)) : list AuditRow :=
  match o with Some (Ok db) => db | _ => [] end.

Definition db_one : list AuditRow := table_of (record [] (demo_log 1 1000)).
Definition db_two : list AuditRow := table_of (record db_one (demo_log 2 2000)).

Lemma db_one_history : history [demo_log 1 1000] db_one.
Proof.
  apply (history_snoc [] [] (demo_log 1 1000)); [constructor|reflexivity| |vm_compute; reflexivity].
  by intros r ?%elem_of_nil.
Qed.

Lemma db_two_history : history [demo_log 1 1000; demo_log 2 2000] db_two.
Proof.
  apply (history_snoc [demo_log 1 1000] db_one (demo_log 2 2000));
    [exact db_one_history|reflexivity| |vm_compute; reflexivity].
  intros r Hr. left. assert (Forall (λ r, ar_created_at r = 1000) db_one) as Hall
    by (vm_compute; repeat constructor).
  rewrite Forall_forall in Hall. rewrite (Hall r Hr). reflexivity.
Qed.

Lemma recorded_chain_verifies_witness :
  verify_audit_handler cli_acl "kms-cli" db_two [] None (Some true) =
  Some (Ok (MkVerifyReport true 2 2 [])).
Proof.
  apply (recorded_chain_verifies cli_acl "kms-cli" [] _ _ eq_refl db_two_history).
Defined.

Lemma demo_rows_wf r : r ∈ db_one ++ db_one → input_wf (row_hash_input r).
Proof.
  intros Hr%list_elem_of_In. apply input_wfb_spec.
  assert (forallb (λ r, input_wfb (row_hash_input r)) (db_one ++ db_one) = true) as Hall
    by (vm_compute; reflexivity).
  rewrite forallb_forall in Hall. by apply Hall.
Qed.

Lemma verified_chain_tamper_evident_witness :
  row_hash_input <$> sorted_rows db_one = row_hash_input <$> sorted_rows db_one ∨
  ∃ i r r', sorted_rows db_one !! i = Some r ∧ sorted_rows db_one !! i = Some r' ∧
    payload_collision (row_hash_input r) (row_hash_input r').
Proof.
  eapply (verified_chain_tamper_evident cli_acl "kms-cli" [] db_one db_one
            (MkVerifyReport true 1 1 []) (MkVerifyReport true 1 1 []));
    [vm_compute; reflexivity|reflexivity|vm_compute; reflexivity|reflexivity|reflexivity|reflexivity|].
  exact demo_rows_wf.
Defined.

Definition db_sub : list AuditRow := table_of (record [] (demo_log 1 1001)).

Lemma submicrosecond_record_fails_witness :
  (∃ rep, verify_audit_handler cli_acl "kms-cli" db_sub [] None (Some true) = Some (Ok rep) ∧
          vr_ok rep = false) ∨
  ∃ row, db_sub = [row] ∧
    payload_collision (log_hash_input GENESIS_HASH (demo_log 1 1001)) (row_hash_input row).
Proof.
  apply (submicrosecond_record_fails cli_acl "kms-cli" [] (demo_log 1 1001) db_sub).
  - vm_compute; reflexivity.
  - vm_compute; discriminate.
  - apply input_wfb_spec. vm_compute. reflexivity.
  - vm_compute. split; [discriminate|reflexivity].
  - vm_compute; reflexivity.
Defined.

Definition db_fork : list AuditRow :=
  table_of (record_write db_one GENESIS_HASH (demo_log 2 2000)).

Lemma concurrent_records_break_chain_witness :
  ∃ rep, verify_audit_handler cli_acl "kms-cli" db_fork [] None (Some true) = Some (Ok rep) ∧
    vr_ok rep = false.
Proof.
  destruct (verify_audit_handler cli_acl "kms-cli" db_fork [] None (Some true))
    as [[rep|e]|] eqn:Hv; [|vm_compute in Hv; discriminate|vm_compute in Hv; discriminate].
  exists rep. split; [reflexivity|]. revert rep Hv.
  apply (concurrent_records_break_chain cli_acl "kms-cli" [] [] [] (demo_log 1 1000)
           (demo_log 2 2000) db_one db_fork).
  - vm_compute; reflexivity.
  - constructor.
  - reflexivity.
  - reflexivity.
  - by intros r ?%elem_of_nil.
  - vm_compute; reflexivity.
  - intros r Hr. left. assert (Forall (λ r, ar_created_at r = 1000) db_one) as Hall
      by (vm_compute; repeat constructor).
    rewrite Forall_forall in Hall. rewrite (Hall r Hr). reflexivity.
  - vm_compute; reflexivity.
  - intros row. vm_compute. intros [= <-]. discriminate.
Defined.

Lemma verify_limit_wraps_witness :
  verify_audit_handler cli_acl "kms-cli" db_fork [] (Some 18446744073709551615) None =
  Some (Ok (MkVerifyReport true 0 0 [])).
Proof. apply verify_limit_wraps. vm_compute; reflexivity. Defined.
