(* ===== verification/RateLimit.v ===== *)
(** * Rate limiters and nonce stores

    Models [kms-service/src/domain/rate_limiter.rs] (both in-memory stores and
    the Redis nonce store), [config/rate_limit.rs],
    [infrastructure/redis/client.rs] ([set_if_not_exists]),
    [infrastructure/redis/keys.rs] and
    [server/middleware/redis_limiter.rs].  Instants ([std::time::Instant]) are
    nanoseconds of a monotonic clock; each operation holds the mutex for its
    whole body, so a history is the sequence of its calls. *)

From Stdlib Require Import Ascii.
From S2P Require Import Prelude.
From S2P Require Import Interfaces.
From S2P Require Import Protocol.
From S2P Require Import Domain.

(** [Duration::from_secs] and [Instant::duration_since], which saturates. *)
Definition from_secs (s : Z) : Z := s * 1000000000.
Definition duration_since (now t : Z) : Z := Z.max 0 (now - t).

(** ** Nonce stores *)

(** [trait NonceStore]: the answer and the store after the call. *)
Class NonceStore (St : Type) := {
  mark_used : St → Z → string → Z → result bool AppError * St }.

(** What the middleware relies on, for a fixed time to live: [marked s k t]
    says that [k] was accepted at [t] and is still remembered. *)
Class NonceStoreLaws (St : Type) (N : NonceStore St) (ttl : Z) := {
  marked : St → string → Z → Prop;
  mark_used_remembers s now k s' :
    mark_used s now k ttl = (Ok true, s') → marked s' k now;
  mark_used_keeps s now k k' t :
    marked s k t → t ≤ now ≤ t + from_secs ttl →
    marked (mark_used s now k' ttl).2 k t;
  mark_used_refuses s now k t :
    marked s k t → t ≤ now ≤ t + from_secs ttl →
    (mark_used s now k ttl).1 ≠ Ok true }.

(** [struct InMemoryNonceStore]: a mutex around a map. *)
Record InMemoryNonceStore := MkInMemoryNonceStore {
  used : gmap string Z;
  poisoned : bool }.

Definition InMemoryNonceStore_new : InMemoryNonceStore := MkInMemoryNonceStore ∅ false.

Definition InMemoryNonceStore_mark_used (self : InMemoryNonceStore) (now : Z) (key : string)
    (ttl_sec : Z) : result bool AppError * InMemoryNonceStore :=
  let ttl := from_secs (Z.max ttl_sec 1) in
  if poisoned self then
    (Err (InternalError "In-memory nonce cache is poisoned"), self)
  else
    let used := filter (λ kt, duration_since now kt.2 ≤ ttl) (used self) in
    match used !! key with
    | Some _ => (Ok false, MkInMemoryNonceStore used false)
    | None => (Ok true, MkInMemoryNonceStore (<[key := now]> used) false)
    end.

#[export] Instance InMemoryNonceStore_ops : NonceStore InMemoryNonceStore := {
  mark_used := InMemoryNonceStore_mark_used }.

(** *** The Redis store *)

(** A reply of the server, and the client library's view of it. *)
Inductive Reply := Nil | OkStatus | Bulk (s : string).

(** The [fred] client and the server behind it: [SET key value [EX s] [NX]
    [GET]], the value a key has at an instant, and the conversion of a reply
    to [bool]. *)
Class Redis := {
  RedisDb : Type;
  redis_value : RedisDb → Z → string → option string;
  redis_set (db : RedisDb) (now : Z) (key value : string) (ex : option Z)
    (nx get : bool) : result Reply string * RedisDb;
  reply_to_bool : Reply → result bool string }.

(** Documented: without [NX] the key is always set; with [GET] the reply is
    the previous value, nil when there was none.  Nil is not converted to
    [true], the string [1] is. *)
Class RedisLaws (R : Redis) := {
  redis_set_get_reply db now k v ex r :
    (redis_set db now k v (Some ex) false true).1 = Ok r →
    r = from_option Bulk Nil (redis_value db now k);
  redis_set_value db now k v ex r db' t :
    redis_set db now k v (Some ex) false true = (Ok r, db') →
    now ≤ t < now + from_secs ex → redis_value db' t k = Some v;
  reply_to_bool_nil : reply_to_bool Nil ≠ Ok true;
  reply_to_bool_one : reply_to_bool (Bulk "1") = Ok true }.

Section RedisNonce.
  Context `{Redis}.

(** [ttl_sec.try_into()] : [u64] to [i64]. *)
Definition set_if_not_exists (db : RedisDb) (now : Z) (key value : string) (ttl_sec : Z) :
    result bool AppError * RedisDb :=
  if 9223372036854775807 <? ttl_sec then
    (Err (ValidationError "TTL jest zbyt duży"), db)
  else
    let (r, db) := redis_set db now key value (Some ttl_sec) false true in
    (map_err RedisError (let? reply := r in reply_to_bool reply), db).

Definition RedisNonceStore_mark_used (db : RedisDb) (now : Z) (key : string) (ttl_sec : Z) :
    result bool AppError * RedisDb :=
  set_if_not_exists db now key "1" ttl_sec.

#[export] Instance RedisNonceStore_ops : NonceStore RedisDb := {
  mark_used := RedisNonceStore_mark_used }.

End RedisNonce.

(** ** Rate limiters *)

Record RateLimitStatus := MkRateLimitStatus { allowed : bool; current : Z }.

(** [HashMap<String, VecDeque<Instant>>]; a poisoned mutex is entered anyway. *)
Abbreviation InMemoryRateLimiter := (gmap string (list Z)) (only parsing).

Definition InMemoryRateLimiter_new : InMemoryRateLimiter := ∅.

Definition InMemoryRateLimiter_check (buckets : InMemoryRateLimiter) (now : Z) (key : string)
    (limit window_sec : Z) : RateLimitStatus * InMemoryRateLimiter :=
  let window := from_secs (Z.max window_sec 1) in
  let entries := filter (λ t, duration_since now t ≤ window) (default [] (buckets !! key)) in
  let current := Z.of_nat (length entries) in
  let allowed := current <? limit in
  (MkRateLimitStatus allowed (current + Z.b2z allowed),
   <[key := if allowed then entries ++ [now] else entries]> buckets).

(** A history of checks, [(now, key)] each. *)
Fixpoint run_checks (limit window_sec : Z) (evs : list (Z * string))
    (buckets : InMemoryRateLimiter) : list RateLimitStatus :=
  match evs with
  | [] => []
  | (now, key) :: evs =>
    let (st, buckets) := InMemoryRateLimiter_check buckets now key limit window_sec in
    st :: run_checks limit window_sec evs buckets
  end.

(** *** config/rate_limit.rs *)

Record RateLimitConfig := MkRateLimitConfig {
  global_per_second : Z;
  global_burst : Z;
  health_per_second : Z;
  health_burst : Z;
  auth_per_second : Z;
  auth_burst : Z }.

Inductive RateLimitTier := Global | Auth | Health.

Definition RateLimitTier_from_path (path : string) : RateLimitTier :=
  if starts_with "/auth" path then Auth
  else if starts_with "/health" path then Health
  else Global.

Definition get_limits (tier : RateLimitTier) (config : RateLimitConfig) : Z * Z :=
  match tier with
  | Global => (global_burst config, global_per_second config)
  | Auth => (auth_burst config, auth_per_second config)
  | Health => (health_burst config, health_per_second config)
  end.

(** [path.trim_start_matches('/')] *)
Fixpoint trim_start_slashes (path : string) : string :=
  match path with
  | String c rest => if decide (c = "/"%char) then trim_start_slashes rest else path
  | EmptyString => EmptyString
  end.

(** [RedisKey::rate_limit] *)
Definition rate_limit_key (path ip : string) : string :=
  "rl:" +s+ trim_start_slashes path +s+ ":" +s+ ip.

(** *** server/middleware/redis_limiter.rs *)

(** [trait RateLimiter] *)
Class RateLimiter (St : Type) := {
  check : St → Z → string → Z → Z → result RateLimitStatus AppError * St }.

#[export] Instance InMemoryRateLimiter_ops : RateLimiter InMemoryRateLimiter := {
  check buckets now key limit window_sec :=
    let (st, buckets) := InMemoryRateLimiter_check buckets now key limit window_sec in
    (Ok st, buckets) }.

(** [limit.saturating_sub(current)] on [u64]. *)
Definition build_rate_limit_headers (limit current : Z) : list (string * string) :=
  let remaining := Z.max 0 (limit - current) in
  [("x-ratelimit-limit", pretty limit); ("x-ratelimit-remaining", pretty remaining)].

(** What the layer does with the request: it answers itself, or runs the rest
    of the stack and extends the response's headers. *)
Inductive LimitDecision :=
| LimitError (status : Z)
| LimitExceeded (status : Z) (headers : list (string * string)) (body : string)
| LimitNext (headers : list (string * string)).

Definition redis_rate_limit_middleware {St} `{RateLimiter St} (config : RateLimitConfig)
    (limiter : St) (now : Z) (path ip : string) : LimitDecision * St :=
  let tier := RateLimitTier_from_path path in
  let (limit, window) := get_limits tier config in
  let key := rate_limit_key path ip in
  match check limiter now key limit window with
  | (Err e, limiter) => (LimitError 500, limiter)
  | (Ok rl_status, limiter) =>
    let headers := build_rate_limit_headers limit (current rl_status) in
    if negb (allowed rl_status) then
      (LimitExceeded 429 headers "Rate limit exceeded. Please try again later.", limiter)
    else (LimitNext headers, limiter)
  end.

(** ** The in-memory nonce store keeps its contract *)

(** [marked]: the store is usable and [k] carries the instant [t]. *)
Definition nonce_marked (s : InMemoryNonceStore) (k : string) (t : Z) : Prop :=
  poisoned s = false ∧ used s !! k = Some t.

Lemma nonce_marked_live ttl now t :
  t ≤ now ≤ t + from_secs ttl → duration_since now t ≤ from_secs (Z.max ttl 1).
Proof. unfold duration_since, from_secs. lia. Qed.

#[export] Instance InMemoryNonceStore_laws ttl :
  NonceStoreLaws InMemoryNonceStore InMemoryNonceStore_ops ttl.
Proof.
  refine {| marked := nonce_marked |}; cbn [mark_used InMemoryNonceStore_ops];
    unfold InMemoryNonceStore_mark_used, nonce_marked.
  - intros s now k s' E. split_cases. by rewrite lookup_insert_eq.
  - intros s now k k' t [-> Hk] Ht%nonce_marked_live.
    assert (filter (λ kt : string * Z, duration_since now kt.2 ≤ from_secs (Z.max ttl 1))
      (used s) !! k = Some t) as Hf by by apply map_lookup_filter_Some.
    case_match eqn:Hk'; cbn; split; try done.
    rewrite lookup_insert_ne; [done|]. congruence.
  - intros s now k t [-> Hk] Ht%nonce_marked_live.
    assert (filter (λ kt : string * Z, duration_since now kt.2 ≤ from_secs (Z.max ttl 1))
      (used s) !! k = Some t) as -> by by apply map_lookup_filter_Some.
    done.
Qed.

(** ** The rate limiter is a sliding-window limiter *)

(** The reference: the log of every granted check, and a count over it. *)
Definition recent (window : Z) (now : Z) (key : string) (log : list (Z * string)) :
    list (Z * string) :=
  filter (λ tk, tk.2 = key ∧ now - window ≤ tk.1) log.

Fixpoint window_checks (limit window : Z) (evs log : list (Z * string)) :
    list RateLimitStatus :=
  match evs with
  | [] => []
  | (now, key) :: evs =>
    let n := Z.of_nat (length (recent window now key log)) in
    if n <? limit
    then MkRateLimitStatus true (n + 1) :: window_checks limit window evs (log ++ [(now, key)])
    else MkRateLimitStatus false n :: window_checks limit window evs log
  end.

(** The checks that were granted. *)
Fixpoint granted (evs : list (Z * string)) (sts : list RateLimitStatus) : list (Z * string) :=
  match evs, sts with
  | ev :: evs, st :: sts => if allowed st then ev :: granted evs sts else granted evs sts
  | _, _ => []
  end.

(** Instants do not decrease along the history. *)
Definition monotone (from : Z) (evs : list (Z * string)) : Prop :=
  ∀ i ev, evs !! i = Some ev →
    from ≤ ev.1 ∧ ∀ j ev', evs !! j = Some ev' → (i ≤ j)%nat → ev.1 ≤ ev'.1.

Lemma monotone_cons from ev evs :
  monotone from (ev :: evs) → from ≤ ev.1 ∧ monotone ev.1 evs.
Proof.
  intros M. split; [by apply (M 0%nat)|]. intros i ev' Hi. split.
  - apply (M 0%nat ev eq_refl) with (S i); [done|lia].
  - intros j ev'' Hj Hij. apply (M (S i) ev' Hi) with (S j); [done|lia].
Qed.

Lemma monotone_nil from : monotone from [].
Proof. intros i ev Hi. by rewrite lookup_nil in Hi. Qed.

Lemma monotone_cons_intro from ev evs :
  from ≤ ev.1 → monotone ev.1 evs → monotone from (ev :: evs).
Proof.
  intros Hf M [|i] ev' Hi; cbn in Hi.
  - injection Hi as <-. split; [done|]. intros [|j] ev'' Hj _; cbn in Hj; [by injection Hj as <-|].
    by apply M in Hj as [? _].
  - destruct (M i ev' Hi) as [H1 H2]. split; [lia|]. intros [|j] ev'' Hj Hij; [lia|].
    apply (H2 j); [done|lia].
Qed.

(** For concrete histories. *)
Ltac solve_monotone :=
  repeat (apply monotone_cons_intro; [cbn; lia|]); apply monotone_nil.

(** The buckets against the log: a bucket is what a cutoff keeps of its key's
    granted instants. *)
Definition buckets_of_log (window last : Z) (log : list (Z * string))
    (buckets : InMemoryRateLimiter) : Prop :=
  (∀ tk, tk ∈ log → tk.1 ≤ last) ∧
  ∀ key, ∃ c, c ≤ last - window ∧
    default [] (buckets !! key) = (filter (λ tk, tk.2 = key ∧ c ≤ tk.1) log).*1.

Lemma filter_fst_retain window now c key (log : list (Z * string)) :
  0 ≤ window → c ≤ now - window → 
  filter (λ t, duration_since now t ≤ window) (filter (λ tk, tk.2 = key ∧ c ≤ tk.1) log).*1 =
  (recent window now key log).*1.
Proof.
  intros Hw Hc. unfold recent, duration_since. induction log as [|[t k] log IH]; [done|].
  rewrite !filter_cons. cbn [fst snd].
  repeat case_decide; cbn [fmap list_fmap fst]; rewrite ?filter_cons; cbn [fst];
    repeat case_decide; rewrite ?IH; try done; lia || naive_solver lia.
Qed.

(** The window of a limiter, in nanoseconds. *)
Definition window_ns (window_sec : Z) : Z := from_secs (Z.max window_sec 1).

Lemma window_ns_nonneg w : 0 ≤ window_ns w.
Proof. unfold window_ns, from_secs. lia. Qed.

Lemma recent_snoc window now key log :
  0 ≤ window →
  filter (λ tk : Z * string, tk.2 = key ∧ now - window ≤ tk.1) (log ++ [(now, key)]) =
  recent window now key log ++ [(now, key)].
Proof.
  intros Hw. rewrite filter_app. f_equal. rewrite filter_cons_True; [done|].
  cbn. split; [done|lia].
Qed.

Lemma check_entries window_sec last now key log buckets :
  buckets_of_log (window_ns window_sec) last log buckets → last ≤ now →
  filter (λ t, duration_since now t ≤ window_ns window_sec) (default [] (buckets !! key)) =
  (recent (window_ns window_sec) now key log).*1.
Proof.
  intros [_ B] Hn. destruct (B key) as (c & Hc & ->).
  apply filter_fst_retain; [apply window_ns_nonneg|lia].
Qed.

(** A bucket that holds the recent instants of [key], in an extended log. *)
Lemma buckets_of_log_insert window last now key log log' entries buckets :
  buckets_of_log window last log buckets → last ≤ now →
  (log' = log ∨ log' = log ++ [(now, key)]) →
  entries = (filter (λ tk, tk.2 = key ∧ now - window ≤ tk.1) log').*1 →
  buckets_of_log window now log' (<[key := entries]> buckets).
Proof.
  intros [L B] Hn Hl ->. split.
  - intros tk Htk. assert (tk ∈ log ∨ tk = (now, key)) as [H| ->].
    + destruct Hl as [-> | ->]; [by left|]. rewrite elem_of_app, list_elem_of_singleton in Htk. done.
    + specialize (L tk H). lia.
    + cbn. lia.
  - intros k. destruct (decide (k = key)) as [->|Hk].
    + exists (now - window). rewrite lookup_insert_eq. split; [lia|done].
    + rewrite lookup_insert_ne by done. destruct (B k) as (c & Hc & ->).
      exists c. split; [lia|]. destruct Hl as [-> | ->]; [done|].
      rewrite filter_app, filter_cons_False; [by rewrite filter_nil, app_nil_r|].
      cbn. naive_solver.
Qed.

Lemma run_checks_reference limit window_sec evs : ∀ last log buckets,
  monotone last evs → buckets_of_log (window_ns window_sec) last log buckets →
  run_checks limit window_sec evs buckets =
  window_checks limit (window_ns window_sec) evs log.
Proof.
  induction evs as [|[now key] evs IH]; intros last log buckets M B; [done|].
  apply monotone_cons in M as [Hl M]. cbn [fst] in *.
  cbn [run_checks window_checks]. unfold InMemoryRateLimiter_check.
  change (from_secs (Z.max window_sec 1)) with (window_ns window_sec).
  rewrite (check_entries _ last now key log) by done. rewrite length_fmap.
  case_match eqn:E; cbn [Z.b2z]; rewrite ?Z.add_0_r; f_equal.
  - apply (IH now _ _ M). eapply buckets_of_log_insert; eauto.
    rewrite recent_snoc by apply window_ns_nonneg. by rewrite fmap_app.
  - apply (IH now _ _ M). eapply buckets_of_log_insert; eauto.
Qed.

(** The grants of [key] in the closed interval from [a] of the window's length. *)
Definition in_window (window a : Z) (key : string) (log : list (Z * string)) :
    list (Z * string) :=
  filter (λ tk, tk.2 = key ∧ a ≤ tk.1 ≤ a + window) log.

Lemma in_window_app window a key l1 l2 :
  in_window window a key (l1 ++ l2) = in_window window a key l1 ++ in_window window a key l2.
Proof. apply filter_app. Qed.

Lemma in_window_recent window a now key log :
  a ≤ now ≤ a + window →
  (length (in_window window a key log) ≤ length (recent window now key log))%nat.
Proof.
  intros Ha. unfold in_window, recent. induction log as [|[t k] log IH]; [done|].
  rewrite !filter_cons. cbn [fst snd].
  repeat case_decide; cbn [length]; lia || naive_solver lia.
Qed.

Lemma granted_bound limit window key a evs : ∀ log,
  0 ≤ limit →
  Z.of_nat (length (in_window window a key log)) ≤ limit →
  Z.of_nat (length (in_window window a key
    (log ++ granted evs (window_checks limit window evs log)))) ≤ limit.
Proof.
  induction evs as [|[now k] evs IH]; intros log Hlim Hlog; cbn [window_checks granted];
    [by rewrite app_nil_r|].
  destruct (_ <? _) eqn:E; cbn [granted allowed]; [|by apply IH].
  rewrite cons_middle, app_assoc. apply IH; [done|].
  rewrite in_window_app, length_app. unfold in_window at 2. rewrite filter_cons, filter_nil.
  cbn [fst snd]. case_decide as Hd; cbn [length]; [|lia].
  destruct Hd as [-> Ha]. apply Z.ltb_lt in E.
  pose proof (in_window_recent window a now key log Ha). lia.
Qed.

(** C19: the in-memory rate limiter is a sliding-window limiter: along any
    history of checks at non-decreasing instants its answers are those of the
    reference that counts the key's grants of the last [window] in a log of
    all grants, so that a check is granted exactly when fewer than [limit]
    grants are that recent, and in every interval of the window's length at
    most [limit] checks of a key are granted. *)
Theorem rate_limiter_sliding_window limit window_sec evs start :
  0 ≤ limit → monotone start evs →
  let out := run_checks limit window_sec evs InMemoryRateLimiter_new in
  out = window_checks limit (window_ns window_sec) evs [] ∧
  ∀ key a, Z.of_nat (length (in_window (window_ns window_sec) a key (granted evs out))) ≤ limit.
Proof.
  intros Hl M out.
  assert (out = window_checks limit (window_ns window_sec) evs []) as E.
  { apply (run_checks_reference _ _ _ start); [done|]. split; [set_solver|].
    intros key. exists (start - window_ns window_sec). split; [lia|done]. }
  split; [done|]. intros key a. rewrite E.
  by apply (granted_bound limit (window_ns window_sec) key a evs []).
Qed.

Lemma rate_limiter_sliding_window_witness :
  allowed <$> run_checks 2 1 [(0, "a"); (1, "a"); (2, "a"); (3, "b"); (1000000001, "a")]%string ∅
    = [true; true; false; true; true] ∧
  ∀ key a, Z.of_nat (length (in_window (window_ns 1) a key (granted
    [(0, "a"); (1, "a"); (2, "a"); (3, "b"); (1000000001, "a")]%string
    (run_checks 2 1 [(0, "a"); (1, "a"); (2, "a"); (3, "b"); (1000000001, "a")]%string ∅)))) ≤ 2.
Proof.
  split; [vm_compute; reflexivity|].
  apply (rate_limiter_sliding_window 2 1 _ 0); [lia|].
  solve_monotone.
Defined.

(** ** The Redis nonce store *)

(** A server of the toy kind: each key with its value and its expiry. *)
Module ConcreteRedis.

Definition live (now : Z) (e : option (string * Z)) : option string :=
  match e with Some (v, until) => if now <? until then Some v else None | None => None end.

#[export] Instance map_redis : Redis := {
  RedisDb := gmap string (string * Z);
  redis_value db now k := live now (db !! k);
  redis_set db now k v ex nx get :=
    let old := live now (db !! k) in
    let until := from_option (λ s, now + from_secs s) (now + from_secs 1000000000) ex in
    let db' := if nx && bool_decide (is_Some old) then db else <[k := (v, until)]> db in
    (Ok (if get then from_option Bulk Nil old else OkStatus), db');
  reply_to_bool r :=
    match r with Bulk s => if decide (s = "1"%string) then Ok true else Err "not a bool"%string
    | _ => Err "not a bool"%string end }.

#[export] Instance map_redis_laws : RedisLaws map_redis.
Proof.
  split; cbn [redis_set redis_value reply_to_bool map_redis fst]; try done.
  - intros db now k v ex r [= <-]. done.
  - intros db now k v ex r db' t [= <- <-] Ht.
    rewrite lookup_insert_eq. cbn [live from_option].
    by rewrite (proj2 (Z.ltb_lt _ _)) by lia.
Qed.

End ConcreteRedis.

(** Over Redis the nonce store answers the wrong way round.
    [set_if_not_exists] sends [SET key 1 EX ttl GET] without [NX], whose reply
    is the previous value: a nonce never seen is not accepted, and once it has
    been stored the same nonce is accepted for the whole time to live. *)
Theorem redis_nonce_store_inverted `{RedisLaws} db now key ttl :
  0 < ttl ≤ 9223372036854775807 → redis_value db now key = None →
  (RedisNonceStore_mark_used db now key ttl).1 ≠ Ok true ∧
  ∀ r db1 t r' db2,
    redis_set db now key "1" (Some ttl) false true = (Ok r, db1) →
    now ≤ t < now + from_secs ttl →
    redis_set db1 t key "1" (Some ttl) false true = (Ok r', db2) →
    (RedisNonceStore_mark_used db now key ttl).2 = db1 ∧
    (RedisNonceStore_mark_used db1 t key ttl).1 = Ok true.
Proof.
  intros Ht Hn. unfold RedisNonceStore_mark_used, set_if_not_exists.
  rewrite (proj2 (Z.ltb_ge _ _)) by lia. split.
  - destruct (redis_set db now key "1" (Some ttl) false true) as [[r|e] db1] eqn:E; [|done].
    cbn [fst result_bind map_err].
    rewrite (redis_set_get_reply db now key "1" ttl r), Hn by by rewrite E.
    cbn [from_option]. pose proof reply_to_bool_nil as Hnil.
    destruct (reply_to_bool Nil); cbn; congruence.
  - intros r db1 t r' db2 E Htt E2. rewrite E. split; [done|]. rewrite E2. cbn [fst result_bind].
    rewrite (redis_set_get_reply db1 t key "1" ttl r') by by rewrite E2.
    rewrite (redis_set_value _ _ _ _ _ _ _ t E Htt). cbn [from_option].
    by rewrite reply_to_bool_one.
Qed.

Lemma redis_nonce_store_inverted_witness :
  (RedisNonceStore_mark_used (H := ConcreteRedis.map_redis) ∅ 0 "n" 300).1 ≠ Ok true ∧
  (RedisNonceStore_mark_used (H := ConcreteRedis.map_redis)
    {["n"%string := ("1"%string, from_secs 300)]} 5 "n" 300).1 = Ok true.
Proof.
  destruct (redis_nonce_store_inverted (R := ConcreteRedis.map_redis)
    (H := ConcreteRedis.map_redis_laws) ∅ 0 "n" 300) as [Hfirst Hagain]; [lia|reflexivity|].
  split; [exact Hfirst|].
  eapply (Hagain Nil _ 5 (Bulk "1")); [reflexivity|vm_compute; split; congruence|reflexivity].
Defined.
