(* ===== verification/RedisLimiter.v ===== *)
(** * The Redis client and the rate limiter over it

    [infrastructure/redis/client.rs], [infrastructure/redis/rate_limiter.rs]
    and the Lua script [infrastructure/scripts/redis_rate_limit.lua].  The
    script runs atomically on the server; whether it runs at all, and whether
    its answer comes back, is up to the connection. *)

From S2P Require Import Prelude.
From S2P Require Import Interfaces.
From S2P Require Import Protocol.
From S2P Require Import Domain.
From S2P Require Import RateLimit.

(** ** The client *)

(** [config/redis.rs] *)
Record RedisConfig := MkRedisConfig {
  rd_host : string;
  rd_port : Z;
  rd_password : option string;
  (** [i32] *)
  rd_db : Z;
  rd_enabled : bool }.

Definition RedisConfig_default : RedisConfig := MkRedisConfig "127.0.0.1" 6379 None 0 true.

(** What [fred::Client::new] is given; the reconnect policy is exponential,
    without a limit on the attempts, from 100 to 5000 milliseconds. *)
Record FredConfig := MkFredConfig {
  fc_server : string * Z;
  fc_password : option string;
  fc_database : option Z;
  fc_reconnect : Z * Z * Z * Z }.

(** The commands of [fred]'s client over the state [C] of the connection and
    the server. *)
Class FredClient (C : Type) := {
  fred_connect : FredConfig → C → timed unit * C;
  fred_set : string → string → option Z → C → result unit string * C;
  fred_get : string → C → result (option string) string * C;
  fred_del : string → C → result unit string * C;
  fred_ping : C → result unit string * C;
  fred_quit : C → result unit string * C }.

Section manager.
  Context {C : Type} `{FredClient C} (io_text : IoError → string).

(** [RedisManager::new]: [u8::try_from(config.db)], then at most five seconds
    for the connection. *)
Definition RedisManager_new (config : RedisConfig) (c : C) : result unit AppError * C :=
  if negb ((0 <=? rd_db config) && (rd_db config <=? 255)) then
    (Err (ValidationError "Index bazy danych Redis musi mieścić się w zakresie 0-255"), c)
  else
    let redis_config := {|
      fc_server := (rd_host config, rd_port config);
      fc_password := rd_password config;
      fc_database := Some (rd_db config);
      fc_reconnect := (0, 100, 5000, 2) |} in
    let (r, c) := fred_connect redis_config c in
    (match r with
     | Completed (Ok _) => Ok ()
     | Completed (Err e) => Err (RedisError (io_text e))
     | Elapsed => Err (ConfigError "Timeout podczas inicjalizacji połączenia z Redis")
     end, c).

(** A command whose error becomes [AppError::RedisError]. *)
Definition redis_command {X} (m : C → result X string * C) (c : C) : result X AppError * C :=
  let (r, c) := m c in (map_err RedisError r, c).

Definition RedisManager_set_ex (key value : string) (ttl_sec : Z) (c : C) :
    result unit AppError * C :=
  if 9223372036854775807 <? ttl_sec then (Err (ValidationError "TTL jest zbyt duży"), c)
  else redis_command (fred_set key value (Some ttl_sec)) c.

Definition RedisManager_get (key : string) : C → result (option string) AppError * C :=
  redis_command (fred_get key).
Definition RedisManager_del (key : string) : C → result unit AppError * C :=
  redis_command (fred_del key).
Definition RedisManager_ping : C → result unit AppError * C := redis_command fred_ping.
Definition RedisManager_close : C → result unit AppError * C := redis_command fred_quit.

End manager.

(** ** The server's counters *)

(** [INCR] and [EXPIRE], and what a key holds at an instant: a counter and
    the instant it expires at, if any. *)
Class RedisCounters := {
  CounterDb : Type;
  counter : CounterDb → Z → string → option (Z * option Z);
  redis_incr : CounterDb → Z → string → result Z string * CounterDb;
  redis_expire : CounterDb → Z → string → Z → result unit string * CounterDb }.

(** A counter with the deadline [d], as it is seen at [t]. *)
Definition until (d : option Z) (t v : Z) : option (Z * option Z) :=
  match d with
  | Some deadline => if t <? deadline then Some (v, d) else None
  | None => Some (v, d)
  end.

(** The longest time to live the server converts to milliseconds. *)
Definition max_expire : Z := 9000000000.

(** Documented: a missing key counts from zero and has no deadline, a counter
    keeps its deadline, a time to live that is not positive deletes the key,
    and a command changes no other key. *)
Class RedisCounterLaws (R : RedisCounters) := {
  incr_missing db now k :
    counter db now k = None →
    (redis_incr db now k).1 = Ok 1 ∧
    ∀ t, now ≤ t → counter (redis_incr db now k).2 t k = Some (1, None);
  incr_present db now k v d :
    counter db now k = Some (v, d) → v < 9223372036854775807 →
    (redis_incr db now k).1 = Ok (v + 1) ∧
    ∀ t, now ≤ t → counter (redis_incr db now k).2 t k = until d t (v + 1);
  expire_present db now k v d s :
    counter db now k = Some (v, d) → s ≤ max_expire →
    (redis_expire db now k s).1 = Ok () ∧
    ∀ t, now ≤ t → counter (redis_expire db now k s).2 t k =
      if 0 <? s then until (Some (now + from_secs s)) t v else None;
  incr_other db now k k' t : k ≠ k' → counter (redis_incr db now k).2 t k' = counter db t k';
  expire_other db now k k' s t :
    k ≠ k' → counter (redis_expire db now k s).2 t k' = counter db t k' }.

(** *** redis_rate_limit.lua *)

Section limiter.
  Context `{Hredis : RedisCounters}.

Definition redis_rate_limit_script (now : Z) (key : string) (window : Z) (db : CounterDb) :
    result Z string * CounterDb :=
  match redis_incr db now key with
  | (Ok current, db) =>
    if current =? 1 then
      let (r, db) := redis_expire db now key window in ((let? _ := r in Ok current), db)
    else (Ok current, db)
  | (Err e, db) => (Err e, db)
  end.

(** What becomes of a script sent to the server. *)
Inductive Delivery := Delivered | NotRun (e : string) | ReplyLost (e : string).

Definition run_script (d : Delivery) (script : CounterDb → result Z string * CounterDb)
    (db : CounterDb) : result Z string * CounterDb :=
  match d with
  | Delivered => script db
  | NotRun e => (Err e, db)
  | ReplyLost e => (Err e, (script db).2)
  end.

(** [RedisRateLimiter::new]: the hash of the loaded script, empty when loading
    failed. *)
Definition RedisRateLimiter_new (script_load : result string string) : string :=
  match script_load with Ok hash => hash | Err _ => EmptyString end.

Definition fallback_eval (d : Delivery) (now : Z) (key : string) (window_sec : Z)
    (db : CounterDb) : result Z AppError * CounterDb :=
  let (r, db) := run_script d (redis_rate_limit_script now key window_sec) db in
  (map_err RedisError r, db).

(** [sha] and [eval] are the fates of the two requests the check may send. *)
Definition RedisRateLimiter_check (script_hash : string) (sha eval : Delivery) (db : CounterDb)
    (now : Z) (key : string) (limit window_sec : Z) : result RateLimitStatus AppError * CounterDb :=
  let (r, db) :=
    if negb (is_empty script_hash) then
      match run_script sha (redis_rate_limit_script now key window_sec) db with
      | (Ok res, db) => (Ok res, db)
      | (Err _, db) => fallback_eval eval now key window_sec db
      end
    else fallback_eval eval now key window_sec db in
  (let? result := r in
   let current := result mod 18446744073709551616 in
   Ok (MkRateLimitStatus (current <=? limit) current), db).

#[export] Instance RedisRateLimiter_ops (script_hash : string) (sha eval : Delivery) :
    RateLimiter CounterDb := {
  check := RedisRateLimiter_check script_hash sha eval }.

(** A history of checks, each with the fates of its two requests. *)
Fixpoint redis_run_checks (script_hash : string) (limit window_sec : Z)
    (evs : list (Z * string * (Delivery * Delivery))) (db : CounterDb) :
    list (result RateLimitStatus AppError) :=
  match evs with
  | [] => []
  | (now, key, (sha, eval)) :: evs =>
    let (r, db) := RedisRateLimiter_check script_hash sha eval db now key limit window_sec in
    r :: redis_run_checks script_hash limit window_sec evs db
  end.

End limiter.

(** ** The limiter over Redis is a fixed-window limiter *)

(** The reference: the start of the current window of each key and the runs of
    the script since then, refused and unanswered ones included. *)
Definition window_hit (window now : Z) (key : string) (m : gmap string (Z * Z)) :
    gmap string (Z * Z) :=
  match m !! key with
  | Some (start, count) =>
    if now <? start + window then <[key := (start, count + 1)]> m else <[key := (now, 1)]> m
  | None => <[key := (now, 1)]> m
  end.

Definition window_count (key : string) (m : gmap string (Z * Z)) : Z :=
  match m !! key with Some (_, count) => count | None => 0 end.

(** How often a request runs the script, and the error when no answer comes
    back. *)
Definition request_fate (d : Delivery) : nat * option string :=
  match d with
  | Delivered => (1%nat, None)
  | NotRun e => (0%nat, Some e)
  | ReplyLost e => (1%nat, Some e)
  end.

(** The same of a check: one request, or two when the script is loaded and the
    first one is not answered. *)
Definition check_fate (loaded : bool) (sha eval : Delivery) : nat * option string :=
  if loaded then
    match request_fate sha with
    | (hits, None) => (hits, None)
    | (hits, Some _) => ((hits + (request_fate eval).1)%nat, (request_fate eval).2)
    end
  else request_fate eval.

Definition fixed_window_check (limit window : Z) (fate : nat * option string) (now : Z)
    (key : string) (m : gmap string (Z * Z)) :
    result RateLimitStatus AppError * gmap string (Z * Z) :=
  let m := Nat.iter fate.1 (window_hit window now key) m in
  let count := window_count key m in
  (match fate.2 with
   | None => Ok (MkRateLimitStatus (count <=? limit) count)
   | Some e => Err (RedisError e)
   end, m).

Fixpoint fixed_window_checks (loaded : bool) (limit window : Z)
    (evs : list (Z * string * (Delivery * Delivery))) (m : gmap string (Z * Z)) :
    list (result RateLimitStatus AppError) :=
  match evs with
  | [] => []
  | (now, key, (sha, eval)) :: evs =>
    let (r, m) := fixed_window_check limit window (check_fate loaded sha eval) now key m in
    r :: fixed_window_checks loaded limit window evs m
  end.

(** The checks that were answered with a grant. *)
Definition is_grant (r : result RateLimitStatus AppError) : bool :=
  match r with Ok st => allowed st | Err _ => false end.

Fixpoint granted_checks (evs : list (Z * string)) (rs : list (result RateLimitStatus AppError)) :
    list (Z * string) :=
  match evs, rs with
  | ev :: evs, r :: rs => if is_grant r then ev :: granted_checks evs rs else granted_checks evs rs
  | _, _ => []
  end.

Section limiter_properties.
  Context `{Hlaws : RedisCounterLaws} (window_sec : Z)
    (Hwindow : 0 < window_sec ≤ max_expire).

Abbreviation script := (λ now key db, redis_rate_limit_script now key window_sec db).

(** The script at a key without a live counter, and at one with it. *)
Lemma script_missing now key db :
  counter db now key = None →
  (script now key db).1 = Ok 1 ∧
  ∀ t, now ≤ t → counter (script now key db).2 t key = until (Some (now + from_secs window_sec)) t 1.
Proof.
  intros Hc. destruct (incr_missing db now key Hc) as [E1 H1]. unfold redis_rate_limit_script.
  destruct (redis_incr db now key) as [r db1]. cbn [fst snd] in *. subst r. cbn [Z.eqb Pos.eqb].
  destruct (expire_present db1 now key 1 None window_sec (H1 now ltac:(lia)) ltac:(lia)) as [E2 H2].
  destruct (redis_expire db1 now key window_sec) as [r db2]. cbn [fst snd] in *. subst r.
  split; [done|]. intros t Ht. rewrite (H2 t Ht).
  by rewrite (proj2 (Z.ltb_lt _ _)) by lia.
Qed.

Lemma script_present now key db v d :
  counter db now key = Some (v, d) → 1 ≤ v < 9223372036854775807 →
  (script now key db).1 = Ok (v + 1) ∧
  ∀ t, now ≤ t → counter (script now key db).2 t key = until d t (v + 1).
Proof.
  intros Hc Hv. destruct (incr_present db now key v d Hc ltac:(lia)) as [E1 H1].
  unfold redis_rate_limit_script.
  destruct (redis_incr db now key) as [r db1]. cbn [fst snd] in *. subst r.
  by rewrite (proj2 (Z.eqb_neq _ _)) by lia.
Qed.

Lemma script_other now key key' db t :
  key ≠ key' → counter (script now key db).2 t key' = counter db t key'.
Proof.
  intros Hk. unfold redis_rate_limit_script.
  pose proof (incr_other db now key key' t Hk) as H1.
  destruct (redis_incr db now key) as [[c|e] db1]; [|done]. cbn [snd] in H1.
  case_match; [|done]. pose proof (expire_other db1 now key key' window_sec t Hk) as H2.
  destruct (redis_expire db1 now key window_sec). cbn [snd] in *. congruence.
Qed.

(** The counters of the server against the reference, from [last] on; [n] is
    a bound on the checks so far. *)
Definition counters_match (last n : Z) (m : gmap string (Z * Z)) (db : CounterDb) : Prop :=
  ∀ k t, last ≤ t →
    match m !! k with
    | Some (start, count) => 1 ≤ count ≤ n ∧
        counter db t k = until (Some (start + from_secs window_sec)) t count
    | None => counter db t k = None
    end.

Lemma counters_match_insert last n m db now key start count :
  counters_match last n m db → last ≤ now → 1 ≤ count ≤ n + 1 →
  (∀ t, now ≤ t → counter (script now key db).2 t key =
    until (Some (start + from_secs window_sec)) t count) →
  counters_match now (n + 1) (<[key := (start, count)]> m) (script now key db).2.
Proof.
  intros M Hl Hc Hk k t Ht. destruct (decide (key = k)) as [<-|Hne].
  - rewrite lookup_insert_eq. split; [done|by apply Hk].
  - rewrite lookup_insert_ne, script_other by done. specialize (M k t ltac:(lia)).
    destruct (m !! k) as [[??]|]; [|done]. destruct M. split; [lia|done].
Qed.

Lemma window_hit_insert window now key m :
  ∃ start count, window_hit window now key m = <[key := (start, count)]> m.
Proof. unfold window_hit. repeat case_match; by eexists _, _. Qed.

Lemma script_step last n m db now key :
  0 ≤ n < 9223372036854775807 → counters_match last n m db → last ≤ now →
  let m' := window_hit (from_secs window_sec) now key m in
  (script now key db).1 = Ok (window_count key m') ∧ 1 ≤ window_count key m' ≤ n + 1 ∧
  counters_match now (n + 1) m' (script now key db).2.
Proof.
  intros Hn M Hl. pose proof (M key now Hl) as Hk. unfold window_hit, window_count. cbn zeta.
  assert (counter db now key = None →
    (script now key db).1 = Ok 1 ∧ 1 ≤ 1 ≤ n + 1 ∧
    counters_match now (n + 1) (<[key := (now, 1)]> m) (script now key db).2) as Hnone.
  { intros Hc. destruct (script_missing now key db Hc) as [E1 H1].
    split_and!; try done; [lia..|]. apply (counters_match_insert last); done || lia. }
  destruct (m !! key) as [[start count]|].
  - destruct Hk as [Hc Hk]. cbn [until] in Hk. destruct (now <? _); rewrite lookup_insert_eq.
    + destruct (script_present now key db _ _ Hk ltac:(lia)) as [E1 H1].
      split_and!; try done; [lia..|]. apply (counters_match_insert last); done || lia.
    + by apply Hnone.
  - rewrite lookup_insert_eq. by apply Hnone.
Qed.

Lemma counters_match_later last n m db now :
  counters_match last n m db → last ≤ now → counters_match now (n + 1) m db.
Proof.
  intros M Hl k t Ht. specialize (M k t ltac:(lia)). destruct (m !! k) as [[??]|]; [|done].
  destruct M. split; [lia|done].
Qed.

(** A request against the reference. *)
Lemma request_step d last n m db now key :
  0 ≤ n < 9223372036854775807 → counters_match last n m db → last ≤ now →
  let m' := Nat.iter (request_fate d).1 (window_hit (from_secs window_sec) now key) m in
  (run_script d (script now key) db).1 =
    match (request_fate d).2 with None => Ok (window_count key m') | Some e => Err e end ∧
  ((request_fate d).2 = None → 1 ≤ window_count key m' ≤ n + 1) ∧
  counters_match now (n + 1) m' (run_script d (script now key) db).2.
Proof.
  intros Hn M Hl. destruct (script_step last n m db now key Hn M Hl) as (E & Hc & M').
  destruct d; cbn; [done|..]; (split; [done|]; split; [done|]).
  - by eapply counters_match_later.
  - done.
Qed.

Lemma iter_iter {k : nat} {m : gmap string (Z * Z)} j f :
  Nat.iter k f (Nat.iter j f m) = Nat.iter (j + k) f m.
Proof. rewrite Nat.add_comm. symmetry. apply Nat.iter_add. Qed.

(** A check against the reference, whatever becomes of its requests. *)
Lemma check_step script_hash sha eval limit last n m db now key :
  0 ≤ n → n + 2 ≤ 9223372036854775807 → counters_match last n m db → last ≤ now →
  let ref := fixed_window_check limit (from_secs window_sec)
    (check_fate (negb (is_empty script_hash)) sha eval) now key m in
  let (r, db') := RedisRateLimiter_check script_hash sha eval db now key limit window_sec in
  r = ref.1 ∧ counters_match now (n + 2) ref.2 db'.
Proof.
  intros Hn Hmax M Hl. unfold RedisRateLimiter_check, fallback_eval, check_fate, fixed_window_check.
  destruct (is_empty script_hash); cbn [negb].
  - destruct (request_step eval last n m db now key ltac:(lia) M Hl) as (E & Hc & M').
    destruct (run_script eval _ db) as [r db1]. cbn [fst snd] in *. subst r.
    split; [|replace (n + 2) with (n + 1 + 1) by lia; by eapply counters_match_later].
    destruct (request_fate eval).2; [done|]. cbn. by rewrite Z.mod_small by (specialize (Hc eq_refl); lia).
  - destruct (request_step sha last n m db now key ltac:(lia) M Hl) as (E & Hc & M').
    destruct (run_script sha _ db) as [r db1]. cbn [fst snd] in *.
    destruct (request_fate sha) as [h1 [e|]]; cbn [fst snd] in *; subst r.
    + destruct (request_step eval now (n + 1) _ db1 now key ltac:(lia) M' ltac:(lia)) as (E2 & Hc2 & M2).
      rewrite iter_iter in E2, Hc2, M2.
      destruct (run_script eval _ db1) as [r db2]. cbn [fst snd] in *. subst r.
      split; [|by replace (n + 2) with (n + 1 + 1) by lia].
      destruct (request_fate eval).2; [done|]. cbn.
      by rewrite Z.mod_small by (specialize (Hc2 eq_refl); lia).
    + split; [|replace (n + 2) with (n + 1 + 1) by lia; by eapply counters_match_later].
      cbn. by rewrite Z.mod_small by (specialize (Hc eq_refl); lia).
Qed.

Lemma redis_run_checks_reference script_hash limit evs : ∀ last n m db,
  0 ≤ n → n + 2 * Z.of_nat (length evs) ≤ 9223372036854775807 →
  monotone last evs.*1 → counters_match last n m db →
  redis_run_checks script_hash limit window_sec evs db =
  fixed_window_checks (negb (is_empty script_hash)) limit (from_secs window_sec) evs m.
Proof.
  induction evs as [|[[now key] [sha eval]] evs IH]; intros last n m db Hn Hlen M C; [done|].
  apply monotone_cons in M as [Hl M]. cbn [fst length redis_run_checks fixed_window_checks] in *.
  pose proof (check_step script_hash sha eval limit last n m db now key Hn ltac:(lia) C Hl) as Hs.
  destruct (RedisRateLimiter_check _ _ _ _ _ _ _ _) as [r db'].
  destruct (fixed_window_check _ _ _ _ _ _) as [r' m']. destruct Hs as [-> C'].
  f_equal. apply (IH now (n + 2)); done || lia.
Qed.

End limiter_properties.

(** *** How much a fixed window grants *)

(** The grants of [key] in the half-open interval from [a] of the window's
    length. *)
Definition in_interval (window a : Z) (key : string) (log : list (Z * string)) :
    list (Z * string) :=
  filter (λ tk, tk.2 = key ∧ a ≤ tk.1 < a + window) log.

(** How many grants the interval may hold, by the key's current window. *)
Definition interval_bound (limit window a : Z) (e : option (Z * Z)) : Z :=
  match e with
  | None => 0
  | Some (start, count) =>
    if start + window <=? a then 0
    else if start <=? a then Z.min count limit
    else if start <? a + window then limit + Z.min count limit
    else 2 * limit
  end.

Ltac split_bounds :=
  repeat match goal with
  | |- context [?x <=? ?y] => destruct (Z.leb_spec x y)
  | |- context [?x <? ?y] => destruct (Z.ltb_spec x y)
  end; case_bool_decide; cbn [andb Z.b2z]; lia.

(** The window of a key, when it has one, is not in the future. *)
Definition window_past (now : Z) (key : string) (m : gmap string (Z * Z)) : Prop :=
  ∀ start count, m !! key = Some (start, count) → start ≤ now ∧ 0 ≤ count.

Lemma window_hit_bound limit window now key m a :
  0 ≤ limit → 0 < window → window_past now key m →
  let m' := window_hit window now key m in
  window_past now key m' ∧
  interval_bound limit window a (m !! key)
    + Z.b2z ((window_count key m' <=? limit) && bool_decide (a ≤ now < a + window))
    ≤ interval_bound limit window a (m' !! key).
Proof.
  intros Hlim Hw Hm. unfold window_hit, window_count, window_past. cbn zeta.
  destruct (m !! key) as [[start count]|] eqn:E.
  - destruct (Hm _ _ E). destruct (Z.ltb_spec now (start + window)); rewrite lookup_insert_eq;
      (split; [intros ? ? [= <- <-]; lia|]); cbn [interval_bound]; split_bounds.
  - rewrite lookup_insert_eq. split; [intros ? ? [= <- <-]; lia|].
    cbn [interval_bound]; split_bounds.
Qed.

Lemma window_hits_bound limit window now key m a k :
  0 ≤ limit → 0 < window → window_past now key m →
  let m' := Nat.iter k (window_hit window now key) m in
  window_past now key m' ∧
  interval_bound limit window a (m !! key) ≤ interval_bound limit window a (m' !! key).
Proof.
  intros Hlim Hw Hm. cbn zeta. induction k as [|k [IH1 IH2]]; [done|]. rewrite Nat.iter_succ.
  destruct (window_hit_bound limit window now key _ a Hlim Hw IH1) as [Hp Hb]. split; [done|].
  etrans; [exact IH2|]. etrans; [|exact Hb]. destruct (_ && _); cbn [Z.b2z]; lia.
Qed.

Lemma check_fate_answered loaded sha eval :
  (check_fate loaded sha eval).2 = None → ∃ k, (check_fate loaded sha eval).1 = S k.
Proof. destruct loaded, sha, eval; cbn; intros; simplify_eq; by eexists. Qed.

Lemma fixed_window_check_bound limit window fate now key m a :
  0 ≤ limit → 0 < window → window_past now key m → (fate.2 = None → ∃ k, fate.1 = S k) →
  let (r, m') := fixed_window_check limit window fate now key m in
  window_past now key m' ∧
  interval_bound limit window a (m !! key)
    + Z.b2z (is_grant r && bool_decide (a ≤ now < a + window))
    ≤ interval_bound limit window a (m' !! key).
Proof.
  intros Hlim Hw Hm Hf. unfold fixed_window_check. destruct fate as [k [e|]]; cbn [fst snd] in *.
  - destruct (window_hits_bound limit window now key m a k Hlim Hw Hm) as [Hp Hb].
    split; [done|]. cbn [is_grant andb Z.b2z]. lia.
  - destruct (Hf eq_refl) as [j ->]. rewrite Nat.iter_succ.
    destruct (window_hits_bound limit window now key m a j Hlim Hw Hm) as [Hp Hb].
    destruct (window_hit_bound limit window now key _ a Hlim Hw Hp) as [Hp' Hb'].
    split; [done|]. etrans; [|exact Hb'].
    by apply Z.add_le_mono_r.
Qed.

Lemma fixed_window_check_other limit window fate now k key m :
  k ≠ key → (fixed_window_check limit window fate now k m).2 !! key = m !! key.
Proof.
  intros Hk. unfold fixed_window_check. cbn [snd]. induction fate.1 as [|n IH]; [done|].
  rewrite Nat.iter_succ. destruct (window_hit_insert window now k (Nat.iter n (window_hit window now k) m))
    as (? & ? & ->). by rewrite lookup_insert_ne.
Qed.

Lemma fixed_window_bound loaded limit window key a evs : ∀ last n m,
  0 ≤ limit → 0 < window → monotone last evs.*1 → window_past last key m →
  n ≤ interval_bound limit window a (m !! key) →
  n + Z.of_nat (length (in_interval window a key
    (granted_checks evs.*1 (fixed_window_checks loaded limit window evs m)))) ≤ 2 * limit.
Proof.
  induction evs as [|[[now k] [sha eval]] evs IH]; intros last n m Hlim Hw M Hm Hn.
  { cbn. destruct (m !! key) as [[s c]|]; cbn in Hn; repeat case_match; lia. }
  apply monotone_cons in M as [Hl M]. cbn [fst fixed_window_checks fmap list_fmap] in *.
  assert (window_past now key m) as Hm' by (intros s c E; destruct (Hm s c E); lia).
  destruct (decide (k = key)) as [->|Hk].
  - pose proof (fixed_window_check_bound limit window _ now key m a Hlim Hw Hm'
      (check_fate_answered loaded sha eval)) as B.
    destruct (fixed_window_check limit window _ now key m) as [r m'].
    destruct B as [Hp B]. cbn [granted_checks].
    ospecialize (IH now (n + Z.b2z (is_grant r && bool_decide (a ≤ now < a + window))) m' Hlim Hw M Hp _);
      [lia|].
    destruct (is_grant r); cbn [andb Z.b2z] in IH; [|lia].
    unfold in_interval. rewrite filter_cons. cbn [fst snd].
    case_bool_decide as Ha; cbn [Z.b2z] in IH; unfold in_interval in IH;
      (case_decide; [cbn [length]|]); lia || naive_solver.
  - pose proof (fixed_window_check_other limit window (check_fate loaded sha eval) now k key m Hk) as E.
    destruct (fixed_window_check limit window _ now k m) as [r m']. cbn [snd granted_checks] in *.
    ospecialize (IH now n m' Hlim Hw M _ _);
      [intros s c; rewrite E; apply Hm'|by rewrite E|].
    destruct (is_grant r); [|done]. unfold in_interval. rewrite filter_cons. cbn [fst snd].
    case_decide; [naive_solver|done].
Qed.

(** A server that keeps a map of counters. *)
Module ConcreteCounters.

#[export] Instance map_counters : RedisCounters := {
  CounterDb := gmap string (Z * option Z);
  counter db now k := '(v, d) ← db !! k; until d now v;
  redis_incr db now k :=
    let '(v, d) := default (0, None) ('(v, d) ← db !! k; until d now v) in
    (Ok (v + 1), <[k := (v + 1, d)]> db);
  redis_expire db now k s :=
    (Ok (), match db !! k with
            | Some (v, d) =>
              if 0 <? s then <[k := (v, Some (now + from_secs s))]> db else delete k db
            | None => db
            end) }.

#[export] Instance map_counters_laws : RedisCounterLaws map_counters.
Proof.
  split; cbn [CounterDb counter redis_incr redis_expire map_counters].
  - intros db now k ->. cbn. split; [done|]. intros t Ht. by rewrite lookup_insert_eq.
  - intros db now k v d -> Hv. cbn. split; [done|]. intros t Ht. by rewrite lookup_insert_eq.
  - intros db now k v d s E Hs. split; [done|]. intros t Ht. cbn [snd].
    destruct (db !! k) as [[v' d']|]; [|done]. cbn in E.
    assert (v' = v) as -> by (destruct d'; cbn in E; [case_match|]; congruence).
    destruct (0 <? s); [by rewrite lookup_insert_eq|by rewrite lookup_delete_eq].
  - intros db now k k' t Hk. case_match. cbn [snd]. by rewrite lookup_insert_ne.
  - intros db now k k' s t Hk. cbn [snd]. destruct (db !! k) as [[v d]|]; [|done].
    case_match; [by rewrite lookup_insert_ne|by rewrite lookup_delete_ne].
Qed.

End ConcreteCounters.

(** C20: over Redis the limiter is a fixed-window limiter.  Along any history
    of checks at non-decreasing instants, whatever becomes of their requests,
    its answers are those of the reference that counts the runs of the script
    for a key, refused and unanswered ones included, from the first one of its
    window on: one run for a delivered check, whether or not the script could
    be loaded, none for a request that does not arrive, and one more for a
    request whose answer is lost.  An interval of the window's length holds at
    most twice [limit] grants of a key.  The window is positive and no counter
    is live at the start. *)
Theorem redis_rate_limiter_fixed_window `{RedisCounterLaws} script_hash limit window_sec evs start db :
  0 ≤ limit → 0 < window_sec ≤ max_expire → monotone start evs.*1 →
  2 * Z.of_nat (length evs) ≤ 9223372036854775807 →
  (∀ k t, start ≤ t → counter db t k = None) →
  let out := fixed_window_checks (negb (is_empty script_hash)) limit (from_secs window_sec) evs ∅ in
  redis_run_checks script_hash limit window_sec evs db = out ∧
  ∀ key a, Z.of_nat (length (in_interval (from_secs window_sec) a key (granted_checks evs.*1 out)))
    ≤ 2 * limit.
Proof.
  intros Hl Hw M Hlen Hdb out. split.
  - apply (redis_run_checks_reference window_sec Hw script_hash limit evs start 0); done || lia.
  - intros key a. apply (fixed_window_bound _ limit (from_secs window_sec) key a evs start 0);
      try done. unfold from_secs. lia.
Qed.

(** A burst at the end of a window and one at the start of the next; the first
    answer of the third check is lost. *)
Definition double_burst : list (Z * string) :=
  [(0, "a"); (999999999, "a"); (1000000000, "a"); (1000000001, "a")]%string.

Definition lossy_burst : list (Z * string * (Delivery * Delivery)) :=
  zip double_burst [(Delivered, Delivered); (NotRun "closed", Delivered);
                    (ReplyLost "reset", Delivered); (Delivered, Delivered)]%string.

Lemma redis_rate_limiter_fixed_window_witness :
  (redis_run_checks (Hredis := ConcreteCounters.map_counters) "sha" 2 1 lossy_burst ∅ =
   [Ok (MkRateLimitStatus true 1); Ok (MkRateLimitStatus true 2);
    Ok (MkRateLimitStatus true 2); Ok (MkRateLimitStatus false 3)]) ∧
  Z.of_nat (length (in_interval (from_secs 1) 5 "a" (granted_checks double_burst
    (fixed_window_checks true 2 (from_secs 1) lossy_burst ∅)))) ≤ 4.
Proof.
  destruct (redis_rate_limiter_fixed_window (R := ConcreteCounters.map_counters)
    (H := ConcreteCounters.map_counters_laws) "sha" 2 1 lossy_burst 0 ∅)
    as [E B].
  - lia.
  - vm_compute; split; congruence.
  - unfold lossy_burst, double_burst. cbn. solve_monotone.
  - vm_compute; congruence.
  - intros k t Ht. reflexivity.
  - split; [by rewrite E|apply B].
Defined.

(** ** When the limiter does not count what it is asked to *)

(** A request whose answer is lost has run; the fallback runs the script
    again, and the one check counts twice. *)
Lemma lost_reply_counts_twice `{RedisCounterLaws} script_hash e db now key limit window_sec v d :
  script_hash ≠ EmptyString →
  (∀ t, now ≤ t → counter db t key = until d t v) → until d now v = Some (v, d) →
  1 ≤ v < 9223372036854775806 →
  (RedisRateLimiter_check script_hash (ReplyLost e) Delivered db now key limit window_sec).1 =
  Ok (MkRateLimitStatus (v + 2 <=? limit) (v + 2)).
Proof.
  intros Hh Hc Hd Hv. pose proof (Hc now ltac:(lia)) as Hc0. rewrite Hd in Hc0.
  destruct (script_present window_sec now key db v d Hc0 ltac:(lia)) as [E1 H1].
  assert (counter (redis_rate_limit_script now key window_sec db).2 now key = Some (v + 1, d)) as H2.
  { rewrite H1 by lia. destruct d as [deadline|]; [|done]. cbn in *. by destruct (now <? deadline). }
  destruct (script_present window_sec now key _ _ _ H2 ltac:(lia)) as [E3 _].
  unfold RedisRateLimiter_check, fallback_eval, run_script.
  destruct script_hash; [done|]. cbn [is_empty negb].
  destruct (redis_rate_limit_script now key window_sec db) as [r1 db1]. cbn [fst snd] in *.
  destruct (redis_rate_limit_script now key window_sec db1) as [r2 db2]. cbn [fst snd] in *.
  subst r2. cbn [map_err result_bind fst]. replace (v + 1 + 1) with (v + 2) by lia.
  by rewrite Z.mod_small by lia.
Qed.

(** With its requests delivered a check is one run of the script, whether or
    not the script was loaded. *)
Lemma check_delivered `{Hredis : RedisCounters} script_hash db now key limit window_sec count :
  (redis_rate_limit_script now key window_sec db).1 = Ok count → 0 ≤ count < 18446744073709551616 →
  RedisRateLimiter_check script_hash Delivered Delivered db now key limit window_sec =
    (Ok (MkRateLimitStatus (count <=? limit) count), (redis_rate_limit_script now key window_sec db).2).
Proof.
  intros E Hc. unfold RedisRateLimiter_check, fallback_eval, run_script.
  destruct (redis_rate_limit_script now key window_sec db) as [r db1]. cbn [fst snd] in *. subst r.
  destruct (is_empty script_hash); cbn [negb map_err result_bind]; by rewrite Z.mod_small.
Qed.

(** A window of zero seconds turns the limit off.  The script sets the
    time to live of a new counter to zero, which deletes the counter, so every
    check of a key is again the first one: along any history each check is
    granted, whatever the limit, if the limit is at least one. *)
Theorem redis_zero_window_unlimited `{RedisCounterLaws} script_hash limit evs start db :
  1 ≤ limit → monotone start evs → (∀ k t, start ≤ t → counter db t k = None) →
  redis_run_checks script_hash limit 0 ((λ ev, (ev, (Delivered, Delivered))) <$> evs) db =
  (λ _, Ok (MkRateLimitStatus true 1)) <$> evs.
Proof.
  intros Hl. revert start db.
  induction evs as [|[now key] evs IH]; intros start db M Hdb; [done|].
  apply monotone_cons in M as [Hs M]. cbn [fst] in *.
  assert ((redis_rate_limit_script now key 0 db).1 = Ok 1 ∧
    ∀ t, now ≤ t → counter (redis_rate_limit_script now key 0 db).2 t key = None) as [E Hk].
  { destruct (incr_missing db now key (Hdb key now Hs)) as [E1 H1]. unfold redis_rate_limit_script.
    destruct (redis_incr db now key) as [r db1]. cbn [fst snd] in *. subst r. cbn [Z.eqb Pos.eqb].
    destruct (expire_present db1 now key 1 None 0 (H1 now ltac:(lia)) ltac:(done)) as [E2 H2].
    destruct (redis_expire db1 now key 0) as [r db2]. cbn [fst snd] in *. by subst r. }
  rewrite !fmap_cons. cbn [redis_run_checks].
  rewrite (check_delivered script_hash db now key limit 0 1 E) by lia.
  rewrite (proj2 (Z.leb_le _ _)) by lia. f_equal. apply (IH now); [done|].
  intros k t Ht. destruct (decide (key = k)) as [<-|Hne]; [by apply Hk|].
  rewrite script_other by done. apply Hdb. lia.
Qed.

Lemma redis_zero_window_unlimited_witness :
  redis_run_checks (Hredis := ConcreteCounters.map_counters) "sha" 1 0
    ((λ ev, (ev, (Delivered, Delivered))) <$> double_burst) ∅ =
  replicate 4 (Ok (MkRateLimitStatus true 1)).
Proof.
  apply (redis_zero_window_unlimited (R := ConcreteCounters.map_counters)
    (H := ConcreteCounters.map_counters_laws) "sha" 1 double_burst 0 ∅).
  - lia.
  - unfold double_burst. solve_monotone.
  - intros k t Ht. reflexivity.
Defined.
