(* ===== verification/Security.v ===== *)
(** * Request authentication

    Models [hmac_security_middleware] of
    [kms-service/src/server/middleware/security.rs] with the principal of
    [kms-service/src/domain/auth.rs], and the client side that signs requests,
    [kms-ceremony-cli/src/cli/hmac.rs].  The middleware runs against any nonce
    store of [RateLimit]; the two clocks it reads, [Utc::now] and
    [Instant::now], are arguments. *)

From S2P Require Import Prelude.
From S2P Require Import Interfaces.
From S2P Require Import Protocol.
From S2P Require Import Domain.
From S2P Require Import Acl.
From S2P Require Import RateLimit.

(** ** Interfaces *)

(** The [hmac] crate: [None] when the key is refused, which HMAC never does. *)
Class HmacLib := { hmac_sha256 : list byte → list byte → option (list byte) }.
Class HmacLaws (H : HmacLib) := {
  hmac_accepts_key k m : is_Some (hmac_sha256 k m) }.

(** [HeaderValue::from_str] and [HeaderValue::to_str] of the [http] crate. *)
Class HttpLib := {
  header_from_str : string → option (list byte);
  header_to_str : list byte → option string }.
Class HttpLaws (H : HttpLib) := {
  header_from_str_visible s : visible_ascii s = true → header_from_str s = Some (str_bytes s);
  header_to_str_visible s : visible_ascii s = true → header_to_str (str_bytes s) = Some s }.

(** [Utc.timestamp_opt(s, 0).single()] and [DateTime::parse_from_rfc3339] of
    [chrono], as nanoseconds since the epoch. *)
Class ChronoParse := {
  timestamp_opt : Z → option Z;
  parse_from_rfc3339 : string → option Z }.
Class ChronoParseLaws (C : ChronoParse) := {
  timestamp_opt_in_range s : 0 ≤ s < 253402300800 → timestamp_opt s = Some (from_secs s) }.

(** ** Requests *)

(** A [HeaderMap]: names are kept in lower case, [get] finds the first value. *)
Definition HeaderMap : Type := list (string * list byte).

Fixpoint hm_get (h : HeaderMap) (name : string) : option (list byte) :=
  match h with
  | [] => None
  | (n, v) :: h => if decide (n = to_ascii_lowercase name) then Some v else hm_get h name
  end.

Definition hm_insert (h : HeaderMap) (name : string) (v : list byte) : HeaderMap :=
  filter (λ nv, nv.1 ≠ name) h ++ [(name, v)].

(** [Request<Body>]; the body is [None] when its stream fails. *)
Record Request := MkRequest {
  req_method : string;
  req_path : string;
  req_headers : HeaderMap;
  req_body : option (list byte) }.

(** [axum::body::to_bytes(body, limit)] *)
Definition to_bytes (body : option (list byte)) (limit : Z) : option (list byte) :=
  match body with
  | Some bs => if limit <? Z.of_nat (length bs) then None else Some bs
  | None => None
  end.

(** [domain/auth.rs] *)
Inductive Principal :=
| PrincipalService (id : string) (attributes : gmap string string)
| PrincipalSpiffe (uri : string) (attributes : gmap string string)
| PrincipalOperator (id : string) (attributes : gmap string string)
| PrincipalSystem (id : string) (attributes : gmap string string)
| PrincipalUnknown (subject : string) (attributes : gmap string string).

Definition Principal_service (service_id : string) : Principal :=
  PrincipalService service_id ∅.

Definition Principal_operator (id : string) : Principal := PrincipalOperator id ∅.
Definition Principal_system (id : string) : Principal := PrincipalSystem id ∅.

Definition Principal_as_str (p : Principal) : string :=
  match p with
  | PrincipalService id _ | PrincipalOperator id _ | PrincipalSystem id _
  | PrincipalUnknown id _ => id
  | PrincipalSpiffe uri _ => uri
  end.

Inductive PrincipalKind :=
| KindService | KindSpiffe | KindMtls | KindOperator | KindSystem | KindOther.

Definition Principal_kind (p : Principal) : PrincipalKind :=
  match p with
  | PrincipalService _ _ => KindService
  | PrincipalSpiffe _ _ => KindSpiffe
  | PrincipalOperator _ _ => KindOperator
  | PrincipalSystem _ _ => KindSystem
  | PrincipalUnknown _ _ => KindOther
  end.

Definition MAX_HMAC_BODY_SIZE : Z := 10 * 1024 * 1024.
Definition MAX_CLOCK_SKEW_SECONDS : Z := 300.
Definition MAX_NONCE_TTL_SECONDS : Z := 300.

(** [state.settings], as far as the middleware reads it. *)
Record Settings := MkSettings {
  public_endpoints : list string;
  acl : AclSettings }.

(** The two clocks at a request. *)
Record Clock := MkClock { utc : Z; mono : Z }.

(** The middleware answers with an error, or runs the rest of the stack on the
    request with its buffered body and, when authenticated, the service and
    principal in its extensions. *)
Inductive Handled :=
| Respond (e : AppError)
| Next (extensions : option (ServiceId * Principal)) (req : Request).

(** ** The middleware *)

Section Middleware.
  Context `{Sha256, Hex, HmacLib, HttpLib, ChronoParse}.
  Context {St : Type} `{NonceStore St}.

Definition parse_timestamp (value : string) : result Z AppError :=
  match parse_i64 value with
  | Some epoch_seconds =>
    match timestamp_opt epoch_seconds with Some dt => Ok dt | None => Err Unauthorized end
  | None =>
    match parse_from_rfc3339 value with Some dt => Ok dt | None => Err Unauthorized end
  end.

(** [headers.get(n1).or_else(|| headers.get(n2))...and_then(|v| v.to_str().ok())] *)
Definition header_str (h : HeaderMap) (names : list string) : result string AppError :=
  match list_find is_Some (hm_get h <$> names) with
  | Some (_, Some v) =>
    match header_to_str v with Some s => Ok s | None => Err Unauthorized end
  | _ => Err Unauthorized
  end.

(** [TimeDelta::num_seconds] drops the fraction. *)
Definition num_seconds (d : Z) : Z := Z.quot d 1000000000.

Definition ok_or {A} (o : option A) (e : AppError) : result A AppError :=
  match o with Some a => Ok a | None => Err e end.

(** [format!("{}:{}:{}:{}:{}", method, path, timestamp, nonce, body_sha256)] *)
Definition canonical_payload (method path timestamp nonce body_sha256 : string) : string :=
  method +s+ ":" +s+ path +s+ ":" +s+ timestamp +s+ ":" +s+ nonce +s+ ":" +s+ body_sha256.

Definition nonce_key (service_name nonce timestamp : string) : string :=
  "hmac:nonce:" +s+ service_name +s+ ":" +s+ nonce +s+ ":" +s+ timestamp.

(** The checks between the public-endpoint test and the nonce store: the
    service's name and the nonce key, or the error the request is answered
    with. *)
Definition verify_request (settings : Settings) (now : Z) (req : Request)
    (body_bytes : list byte) : result (string * string) AppError :=
  let headers := req_headers req in
  let? service_name := header_str headers ["X-Service-ID"; "X-Service-Name"]%string in
  let? timestamp := header_str headers ["X-Timestamp"]%string in
  let? timestamp_dt := parse_timestamp timestamp in
  let skew := Z.abs (num_seconds (now - timestamp_dt)) in
  if MAX_CLOCK_SKEW_SECONDS <? skew then Err Unauthorized else
  let? nonce := header_str headers ["X-Nonce"; "x-nonce"]%string in
  let? signature_hex :=
    header_str headers ["X-Signature"; "x-signature"; "X-HMAC-Signature"]%string in
  let body_sha256 := hex_encode (sha256 body_bytes) in
  let payload :=
    canonical_payload (req_method req) (req_path req) timestamp nonce body_sha256 in
  let? service_cfg := ok_or (services (acl settings) !! service_name) Unauthorized in
  let? mac :=
    ok_or (hmac_sha256 (secret service_cfg) (str_bytes payload))
      (InternalError "HMAC init failed") in
  let expected_signature := hex_encode mac in
  if decide (str_bytes signature_hex = str_bytes expected_signature)
  then Ok (service_name, nonce_key service_name nonce timestamp)
  else Err Unauthorized.

Definition hmac_security_middleware (settings : Settings) (clk : Clock) (req : Request)
    (nonce_store : St) : Handled * St :=
  match to_bytes (req_body req) MAX_HMAC_BODY_SIZE with
  | None => (Respond Unauthorized, nonce_store)
  | Some body_bytes =>
    let request :=
      MkRequest (req_method req) (req_path req) (req_headers req) (Some body_bytes) in
    if bool_decide (req_path req ∈ public_endpoints settings)
    then (Next None request, nonce_store)
    else
      match verify_request settings (utc clk) req body_bytes with
      | Err e => (Respond e, nonce_store)
      | Ok (service_name, key) =>
        let (r, nonce_store) :=
          mark_used nonce_store (mono clk) key MAX_NONCE_TTL_SECONDS in
        match r with
        | Ok true =>
          (Next (Some (service_name, Principal_service service_name)) request, nonce_store)
        | _ => (Respond Unauthorized, nonce_store)
        end
      end
  end.

(** Requests served one after the other. *)
Fixpoint serve_all (settings : Settings) (evs : list (Clock * Request)) (st : St) :
    list Handled :=
  match evs with
  | [] => []
  | (clk, req) :: evs =>
    let (out, st) := hmac_security_middleware settings clk req st in
    out :: serve_all settings evs st
  end.

End Middleware.

(** ** The client *)

Record CliConfig := MkCliConfig {
  cli_service_id : string;
  cli_secret : string;
  cli_service_url : string }.

Section Client.
  Context `{Sha256, Hex, HmacLib, HttpLib}.

Definition canonical_request_string (method path : string) (timestamp : Z)
    (nonce body_hash : option string) : string :=
  let nonce_part := from_option (λ n, ":" +s+ n) EmptyString nonce in
  let body_part := from_option (λ h, ":" +s+ h) EmptyString body_hash in
  method +s+ ":" +s+ path +s+ ":" +s+ pretty timestamp +s+ nonce_part +s+ body_part.

Definition sign_hmac_sha256 (secret method path : string) (timestamp : Z)
    (nonce body_hash : option string) : string :=
  match hmac_sha256 (str_bytes secret)
          (str_bytes (canonical_request_string method path timestamp nonce body_hash)) with
  | Some mac => hex_encode mac
  | None => EmptyString
  end.

Definition sha256_hex (bytes : list byte) : string := hex_encode (sha256 bytes).

Definition header_value (s : string) : result (list byte) string :=
  match header_from_str s with
  | Some v => Ok v
  | None => Err "failed to parse header value"%string
  end.

(** [timestamp] and [nonce] are [Utc::now().timestamp()] and
    [Uuid::now_v7().to_string()]. *)
Definition build_signed_request_headers_with_body (cfg : CliConfig) (method path : string)
    (body : option (list byte)) (timestamp : Z) (nonce : string) : result HeaderMap string :=
  let body_hash := sha256_hex <$> body in
  let signature :=
    sign_hmac_sha256 (cli_secret cfg) method path timestamp (Some nonce) body_hash in
  let? service_id := header_value (cli_service_id cfg) in
  let headers := hm_insert [] "x-service-id" service_id in
  let? timestamp := header_value (pretty timestamp) in
  let headers := hm_insert headers "x-timestamp" timestamp in
  let? nonce := header_value nonce in
  let headers := hm_insert headers "x-nonce" nonce in
  let? signature := header_value signature in
  let headers := hm_insert headers "x-signature" signature in
  match body_hash with
  | Some hash =>
    let? hash := header_value hash in
    let headers := hm_insert headers "x-body-sha256" hash in
    Ok (hm_insert headers "content-type" (str_bytes "application/json"))
  | None => Ok headers
  end.

Definition build_signed_request_headers (cfg : CliConfig) (method path : string)
    (timestamp : Z) (nonce : string) : result HeaderMap string :=
  build_signed_request_headers_with_body cfg method path None timestamp nonce.

End Client.

(** ** What the middleware accepts *)

Section Properties.
  Context `{Sha256, Hex, HmacLib, HttpLib, ChronoParse}.
  Context {St : Type} `{NonceStore St}.
  Implicit Types (settings : Settings) (req : Request) (st : St).

(** The request carries a signature of [s] over its method, path, timestamp,
    nonce and body, made within the clock skew. *)
Definition authentic (settings : Settings) (now : Z) (req : Request) (body : list byte)
    (s key : string) : Prop :=
  ∃ timestamp nonce t cfg mac,
    header_str (req_headers req) ["X-Service-ID"; "X-Service-Name"]%string = Ok s ∧
    header_str (req_headers req) ["X-Timestamp"]%string = Ok timestamp ∧
    header_str (req_headers req) ["X-Nonce"; "x-nonce"]%string = Ok nonce ∧
    header_str (req_headers req) ["X-Signature"; "x-signature"; "X-HMAC-Signature"]%string
      = Ok (hex_encode mac) ∧
    parse_timestamp timestamp = Ok t ∧ Z.abs (now - t) < from_secs 301 ∧
    services (acl settings) !! s = Some cfg ∧
    hmac_sha256 (secret cfg) (str_bytes (canonical_payload (req_method req) (req_path req)
      timestamp nonce (hex_encode (sha256 body)))) = Some mac ∧
    key = nonce_key s nonce timestamp.

Lemma skew_iff now t :
  (MAX_CLOCK_SKEW_SECONDS <? Z.abs (num_seconds (now - t))) = false ↔
  Z.abs (now - t) < from_secs 301.
Proof.
  unfold num_seconds, MAX_CLOCK_SKEW_SECONDS, from_secs. rewrite Z.ltb_ge.
  generalize (now - t) as d. intros d. Z.to_euclidean_division_equations. lia.
Qed.

Lemma verify_request_authentic settings now req body s key :
  verify_request settings now req body = Ok (s, key) ↔
  authentic settings now req body s key.
Proof.
  unfold verify_request, authentic. split.
  - intros E. apply result_bind_Ok in E as (s' & Hs & E).
    apply result_bind_Ok in E as (ts & Hts & E).
    apply result_bind_Ok in E as (t & Ht & E).
    case_match eqn:Hskew; [done|]. apply skew_iff in Hskew.
    apply result_bind_Ok in E as (n & Hn & E).
    apply result_bind_Ok in E as (sig & Hsig & E).
    apply result_bind_Ok in E as (cfg & Hcfg & E).
    apply result_bind_Ok in E as (mac & Hmac & E).
    case_decide as Hd; [|done]. apply (inj str_bytes) in Hd as ->.
    injection E as -> <-.
    exists ts, n, t, cfg, mac. unfold ok_or in *. split_cases. by split_and!.
  - intros (ts & n & t & cfg & mac & Hs & Hts & Hn & Hsig & Ht & Hskew & Hcfg & Hmac & ->).
    rewrite Hs, Hts. cbn [result_bind]. rewrite Ht. cbn [result_bind].
    rewrite (proj2 (skew_iff now t) Hskew), Hn, Hsig. cbn [result_bind].
    rewrite Hcfg. cbn [ok_or result_bind]. rewrite Hmac. cbn [ok_or result_bind].
    by rewrite decide_True.
Qed.

(** The forwarded request: the received one with its body buffered. *)
Definition buffered (req : Request) (body : list byte) : Request :=
  MkRequest (req_method req) (req_path req) (req_headers req) (Some body).

(** The middleware decides exactly as specified.  A body that cannot be
    read within the limit is refused; a public endpoint is passed on without
    an identity; otherwise a request is passed on as service [s] exactly when
    it carries [s]'s signature over its method, path, timestamp, nonce and
    body, made within the clock skew, and the nonce store accepts its nonce.
    Every other request is answered with an error, and one that is not
    authentic leaves the nonce store as it was, so that nonces cannot be used
    up without the secret. *)
Theorem middleware_decides settings clk req st :
  let (out, st') := hmac_security_middleware settings clk req st in
  match to_bytes (req_body req) MAX_HMAC_BODY_SIZE with
  | None => out = Respond Unauthorized ∧ st' = st
  | Some body =>
    (req_path req ∈ public_endpoints settings ∧ out = Next None (buffered req body) ∧ st' = st) ∨
    ((req_path req ∉ public_endpoints settings) ∧
     ((∃ s key, authentic settings (utc clk) req body s key ∧
        let r := mark_used st (mono clk) key MAX_NONCE_TTL_SECONDS in
        st' = r.2 ∧
        (out = Next (Some (s, Principal_service s)) (buffered req body) ∧ r.1 = Ok true ∨
         out = Respond Unauthorized ∧ r.1 ≠ Ok true)) ∨
      ((∀ s key, ¬ authentic settings (utc clk) req body s key) ∧
       (∃ e, out = Respond e) ∧ st' = st)))
  end.
Proof.
  destruct (hmac_security_middleware settings clk req st) as [out st'] eqn:E.
  unfold hmac_security_middleware in E. case_match eqn:Hb; [|by simplify_eq].
  case_bool_decide as Hp; [by left; simplify_eq|right]. split; [done|].
  destruct (verify_request settings (utc clk) req l) as [[s key]|e] eqn:V.
  - left. exists s, key. apply verify_request_authentic in V. split; [done|].
    destruct (mark_used st (mono clk) key MAX_NONCE_TTL_SECONDS) as [r st1]. cbn [fst snd].
    destruct r as [[]|e]; injection E as <- <-; split; auto.
  - right. injection E as <- <-. split_and!; [|by eauto|done].
    intros s key A%verify_request_authentic. congruence.
Qed.

(** *** The nonce store, along a history *)

Lemma middleware_forwards settings clk req st s p r st' :
  hmac_security_middleware settings clk req st = (Next (Some (s, p)) r, st') ↔
  ∃ body key, to_bytes (req_body req) MAX_HMAC_BODY_SIZE = Some body ∧
    (req_path req ∉ public_endpoints settings) ∧
    authentic settings (utc clk) req body s key ∧
    mark_used st (mono clk) key MAX_NONCE_TTL_SECONDS = (Ok true, st') ∧
    p = Principal_service s ∧ r = buffered req body.
Proof.
  unfold hmac_security_middleware. split.
  - intros E. repeat (case_match; simplify_eq).
    eexists _, _. split_and!; try done; [by eapply bool_decide_eq_false_1|].
    by apply verify_request_authentic.
  - intros (body & key & -> & Hp & A%verify_request_authentic & Hm & -> & ->).
    rewrite bool_decide_eq_false_2 by done. by rewrite A, Hm.
Qed.

Lemma middleware_store settings clk req st :
  (hmac_security_middleware settings clk req st).2 = st ∨
  ∃ key, (hmac_security_middleware settings clk req st).2 =
         (mark_used st (mono clk) key MAX_NONCE_TTL_SECONDS).2.
Proof.
  unfold hmac_security_middleware. case_match; [|by left]. case_bool_decide; [by left|].
  destruct (verify_request settings (utc clk) req l) as [[s key]|e]; [|by left].
  right. exists key. destruct (mark_used st _ key _) as [[[]|] st']; done.
Qed.

(** The key is made of headers alone. *)
Lemma authentic_key settings settings' now now' req req' body body' s s' key key' :
  authentic settings now req body s key → authentic settings' now' req' body' s' key' →
  req_headers req = req_headers req' → key = key'.
Proof.
  intros (ts & n & t & cfg & mac & Hs & Hts & Hn & _ & _ & _ & _ & _ & ->)
    (ts' & n' & t' & cfg' & mac' & Hs' & Hts' & Hn' & _ & _ & _ & _ & _ & ->) E.
  rewrite E in *. congruence.
Qed.

(** Both clocks' readings; the monotonic one does not go back. *)
Definition clock_monotone (evs : list (Clock * Request)) : Prop :=
  ∀ i j ev ev', evs !! i = Some ev → evs !! j = Some ev' → (i ≤ j)%nat →
    mono ev.1 ≤ mono ev'.1.

Section Replay.
  Context `{!NonceStoreLaws St _ MAX_NONCE_TTL_SECONDS}.

Lemma middleware_keeps_mark settings clk req st key t :
  marked st key t → t ≤ mono clk ≤ t + from_secs MAX_NONCE_TTL_SECONDS →
  marked (hmac_security_middleware settings clk req st).2 key t.
Proof.
  intros M Ht. destruct (middleware_store settings clk req st) as [-> | [k ->]]; [done|].
  by apply mark_used_keeps.
Qed.

Lemma marked_not_forwarded settings clk req st key t :
  marked st key t → t ≤ mono clk ≤ t + from_secs MAX_NONCE_TTL_SECONDS →
  (∀ body s key', authentic settings (utc clk) req body s key' → key' = key) →
  ∀ s p r, (hmac_security_middleware settings clk req st).1 ≠ Next (Some (s, p)) r.
Proof.
  intros M Ht A s p r E.
  destruct (hmac_security_middleware settings clk req st) as [out st'] eqn:F.
  cbn [fst] in E. subst out. apply middleware_forwards in F as (body & k & _ & _ & Hk & Hm & _).
  apply A in Hk as ->. apply (mark_used_refuses _ _ _ _ M Ht). by rewrite Hm.
Qed.

Lemma serve_all_marked settings evs : ∀ st key t j clk req s p r,
  marked st key t → clock_monotone evs →
  (∀ ev, evs !! 0%nat = Some ev → t ≤ mono ev.1) →
  evs !! j = Some (clk, req) → serve_all settings evs st !! j = Some (Next (Some (s, p)) r) →
  (∀ body s key', authentic settings (utc clk) req body s key' → key' = key) →
  t + from_secs MAX_NONCE_TTL_SECONDS < mono clk.
Proof.
  induction evs as [|[c q] evs IH]; intros st key t j clk req s p r M Mon Hfst Hj Ho A; [done|].
  cbn [serve_all] in Ho. pose proof (Hfst _ eq_refl) as Hc. cbn [fst] in Hc.
  destruct (Z.le_gt_cases (mono clk) (t + from_secs MAX_NONCE_TTL_SECONDS)) as [Hle|]; [|lia].
  assert (mono c ≤ mono clk) by by apply (Mon 0%nat j _ _ eq_refl Hj); lia.
  destruct (hmac_security_middleware settings c q st) as [out st'] eqn:F.
  destruct j as [|j]; cbn in Hj, Ho; simplify_eq.
  - exfalso. eapply (marked_not_forwarded settings clk req st key t); [done|lia|done|by rewrite F].
  - eapply (IH st' key t j); try done.
    + pose proof (middleware_keeps_mark settings c q st key t M) as K. rewrite F in K.
      apply K. lia.
    + intros i i' ev ev' Hi Hi' Hl. apply (Mon (S i) (S i')); [done|done|lia].
    + intros ev Hev. trans (mono c); [done|]. apply (Mon 0%nat 1%nat (c, q)); [done|done|lia].
Qed.

(** C4: a request is accepted at most once while its nonce is remembered.
    Over any history of requests against a store with the nonce-store
    contract, if two requests with the same headers are both passed on as
    authenticated, more than the nonce's time to live lies between them,
    whatever else was served in between. *)
Theorem no_replay_within_ttl settings evs st i j ci qi cj qj si pi ri sj pj rj :
  clock_monotone evs → (i < j)%nat →
  evs !! i = Some (ci, qi) → evs !! j = Some (cj, qj) →
  req_headers qi = req_headers qj →
  serve_all settings evs st !! i = Some (Next (Some (si, pi)) ri) →
  serve_all settings evs st !! j = Some (Next (Some (sj, pj)) rj) →
  mono ci + from_secs MAX_NONCE_TTL_SECONDS < mono cj.
Proof.
  revert st i j. induction evs as [|[c q] evs IH]; intros st i j Mon Hij Hi Hj Hh Oi Oj; [done|].
  assert (clock_monotone evs) as Mon'.
  { intros k k' ev ev' Hk Hk' Hl. apply (Mon (S k) (S k')); [done|done|lia]. }
  destruct j as [|j]; [lia|]. cbn [serve_all] in Oi, Oj.
  destruct (hmac_security_middleware settings c q st) as [out st'] eqn:F.
  destruct i as [|i]; cbn in Hi, Hj, Oi, Oj; simplify_eq.
  - apply middleware_forwards in F as (body & key & _ & _ & Ha & Hm & _).
    eapply (serve_all_marked settings evs st' key (mono ci) j); try done.
    + by apply mark_used_remembers in Hm.
    + intros ev Hev. apply (Mon 0%nat 1%nat (ci, qi)); [done|done|lia].
    + intros body' s' key' Ha'. by eapply authentic_key.
  - by eapply (IH st' i j); try lia.
Qed.

End Replay.

End Properties.

(** ** The client's requests at the server *)

Section ClientServer.
  Context `{Sha256} `{!Hex, !HmacLib, !HttpLib, !ChronoParse}.
  Context `{!HexLaws _, !HmacLaws _, !HttpLaws _, !ChronoParseLaws _}.
  Context {St : Type} `{!NonceStore St}.

Lemma header_str_visible h n ns s :
  hm_get h n = Some (str_bytes s) → visible_ascii s = true → header_str h (n :: ns) = Ok s.
Proof.
  intros G V. unfold header_str. cbn [fmap list_fmap list_find]. rewrite G.
  rewrite decide_True by done. by rewrite header_to_str_visible.
Qed.

(** A received request carries the client's headers, possibly among others. *)
Definition carries (req : Request) (h : HeaderMap) : Prop :=
  ∀ name v, hm_get h name = Some v → hm_get (req_headers req) name = Some v.

Definition cli_signature (cfg : CliConfig) (method path : string) (body : option (list byte))
    (timestamp : Z) (nonce : string) : string :=
  sign_hmac_sha256 (cli_secret cfg) method path timestamp (Some nonce) (sha256_hex <$> body).

Lemma cli_signature_visible cfg method path body ts nonce :
  visible_ascii (cli_signature cfg method path body ts nonce) = true.
Proof. unfold cli_signature, sign_hmac_sha256. case_match; [apply hex_encode_visible|done]. Qed.

(** The signed headers a well-formed configuration gives. *)
Lemma cli_headers cfg method path body ts nonce :
  visible_ascii (cli_service_id cfg) = true → visible_ascii nonce = true → 0 ≤ ts →
  ∃ h, build_signed_request_headers_with_body cfg method path body ts nonce = Ok h ∧
    hm_get h "X-Service-ID" = Some (str_bytes (cli_service_id cfg)) ∧
    hm_get h "X-Timestamp" = Some (str_bytes (pretty ts)) ∧
    hm_get h "X-Nonce" = Some (str_bytes nonce) ∧
    hm_get h "X-Signature" = Some (str_bytes (cli_signature cfg method path body ts nonce)).
Proof.
  intros Vi Vn Ht. destruct (pretty_nonneg_value ts Ht) as (_ & Vt & _).
  pose proof (cli_signature_visible cfg method path body ts nonce) as Vs.
  unfold build_signed_request_headers_with_body, header_value.
  fold (cli_signature cfg method path body ts nonce).
  rewrite !header_from_str_visible by done. cbn [result_bind].
  generalize (str_bytes (cli_service_id cfg)) (str_bytes (pretty ts)) (str_bytes nonce)
    (str_bytes (cli_signature cfg method path body ts nonce)). intros.
  destruct body as [b|]; cbn [fmap option_fmap option_map].
  - rewrite header_from_str_visible by apply hex_encode_visible. cbn [result_bind].
    generalize (str_bytes (sha256_hex b)). intros. eexists. by split_and!.
  - eexists. by split_and!.
Qed.

(** What the server reads of them. *)
Lemma cli_headers_read cfg method path body ts nonce h req :
  visible_ascii (cli_service_id cfg) = true → visible_ascii nonce = true → 0 ≤ ts →
  build_signed_request_headers_with_body cfg method path body ts nonce = Ok h →
  carries req h →
  header_str (req_headers req) ["X-Service-ID"; "X-Service-Name"]%string
    = Ok (cli_service_id cfg) ∧
  header_str (req_headers req) ["X-Timestamp"]%string = Ok (pretty ts) ∧
  header_str (req_headers req) ["X-Nonce"; "x-nonce"]%string = Ok nonce ∧
  header_str (req_headers req) ["X-Signature"; "x-signature"; "X-HMAC-Signature"]%string
    = Ok (cli_signature cfg method path body ts nonce).
Proof.
  intros Vi Vn Ht E C. destruct (pretty_nonneg_value ts Ht) as (_ & Vt & _).
  destruct (cli_headers cfg method path body ts nonce Vi Vn Ht) as (h' & E' & G1 & G2 & G3 & G4).
  assert (h' = h) as -> by congruence.
  split_and!; apply header_str_visible; auto using cli_signature_visible.
Qed.

Lemma cli_timestamp_parses ts :
  0 ≤ ts < 253402300800 → parse_timestamp (pretty ts) = Ok (from_secs ts).
Proof.
  intros Ht. unfold parse_timestamp. rewrite parse_i64_pretty by lia.
  by rewrite timestamp_opt_in_range.
Qed.

(** The two crates' canonical strings agree when a body hash is present. *)
Lemma canonical_strings_agree method path ts nonce hash :
  canonical_request_string method path ts (Some nonce) (Some hash) =
  canonical_payload method path (pretty ts) nonce hash.
Proof. unfold canonical_request_string, canonical_payload. cbn [from_option]. by rewrite !str_app_assoc. Qed.

(** A request with a body, signed by the ceremony CLI, passes the
    server's authentication: with the service configured under the same
    secret, the client's clock within 301 seconds, the endpoint not public and
    the nonce fresh, the request is passed on as that service with its body
    unchanged. *)
Theorem cli_request_accepted settings clk req st st' cfg sc body ts nonce h :
  visible_ascii (cli_service_id cfg) = true → visible_ascii nonce = true →
  0 ≤ ts < 253402300800 → Z.abs (utc clk - from_secs ts) < from_secs 301 →
  services (acl settings) !! cli_service_id cfg = Some sc →
  secret sc = str_bytes (cli_secret cfg) →
  build_signed_request_headers_with_body cfg (req_method req) (req_path req) (Some body) ts nonce
    = Ok h →
  carries req h → req_body req = Some body → Z.of_nat (length body) ≤ MAX_HMAC_BODY_SIZE →
  (req_path req ∉ public_endpoints settings) →
  mark_used st (mono clk) (nonce_key (cli_service_id cfg) nonce (pretty ts))
    MAX_NONCE_TTL_SECONDS = (Ok true, st') →
  hmac_security_middleware settings clk req st =
    (Next (Some (cli_service_id cfg, Principal_service (cli_service_id cfg)))
       (buffered req body), st').
Proof.
  intros Vi Vn Ht Hskew Hsvc Hsec Hb Hc Hbody Hlen Hpub Hm.
  destruct (cli_headers_read _ _ _ _ _ _ _ _ Vi Vn (proj1 Ht) Hb Hc) as (Gs & Gt & Gn & Gg).
  destruct (hmac_accepts_key (secret sc) (str_bytes (canonical_payload (req_method req)
    (req_path req) (pretty ts) nonce (sha256_hex body)))) as [mac Hmac].
  apply middleware_forwards. exists body, (nonce_key (cli_service_id cfg) nonce (pretty ts)).
  split_and!; try done.
  { rewrite Hbody. cbn [to_bytes]. by rewrite (proj2 (Z.ltb_ge _ _)) by done. }
  exists (pretty ts), nonce, (from_secs ts), sc, mac.
  split_and!; try done; [|by apply cli_timestamp_parses].
  rewrite Gg. f_equal. unfold cli_signature, sign_hmac_sha256. cbn [fmap option_fmap option_map].
  by rewrite canonical_strings_agree, <- Hsec, Hmac.
Qed.

(** A request signed without a body, as the CLI signs its GET requests, is
    refused: the client leaves the body hash out of the string it signs and
    the server never does.  Only two different messages with one MAC under the
    service's secret could make the server accept. *)
Theorem cli_bodyless_refused settings clk req (st : St) cfg sc ts nonce h :
  visible_ascii (cli_service_id cfg) = true → visible_ascii nonce = true →
  0 ≤ ts →
  services (acl settings) !! cli_service_id cfg = Some sc →
  secret sc = str_bytes (cli_secret cfg) →
  build_signed_request_headers cfg (req_method req) (req_path req) ts nonce = Ok h →
  carries req h → (req_path req ∉ public_endpoints settings) →
  (∃ e, hmac_security_middleware settings clk req st = (Respond e, st)) ∨
  ∃ m1 m2, m1 ≠ m2 ∧ hmac_sha256 (secret sc) m1 = hmac_sha256 (secret sc) m2.
Proof.
  intros Vi Vn Ht Hsvc Hsec Hb Hc Hpub.
  destruct (cli_headers_read _ _ _ _ _ _ _ _ Vi Vn Ht Hb Hc) as (Gs & Gt & Gn & Gg).
  unfold hmac_security_middleware. case_match eqn:Hbody; [|by eauto].
  rewrite bool_decide_eq_false_2 by done.
  destruct (verify_request settings (utc clk) req l) as [[s key]|e] eqn:V; [right|by eauto].
  apply verify_request_authentic in V
    as (ts' & n & t & sc' & mac & Es & Ets & En & Eg & _ & _ & Esc & Emac & _).
  rewrite Gs in Es. rewrite Gt in Ets. rewrite Gn in En. rewrite Gg in Eg. simplify_eq.
  eexists _, _. split; [|etrans; [|symmetry; exact Emac]].
  2: { unfold cli_signature, sign_hmac_sha256 in Eg. rewrite <- Hsec in Eg.
       destruct (hmac_accepts_key (secret sc) (str_bytes (canonical_request_string
         (req_method req) (req_path req) ts (Some n) None))) as [m Hm].
       cbn [fmap option_fmap option_map] in Eg. rewrite Hm in Eg.
       apply hex_encode_inj in Eg as ->. exact Hm. }
  intros E%(inj str_bytes)%(f_equal String.length). revert E.
  unfold canonical_request_string, canonical_payload. cbn [from_option].
  rewrite !str_app_length. cbn [String.length]. lia.
Qed.

End ClientServer.

(** ** Replays after the nonce is forgotten *)

Section Gap.
  Context `{Sha256} `{!Hex, !HmacLib, !HttpLib, !ChronoParse}.

Lemma authentic_at settings now now' req body s key ts t :
  authentic settings now req body s key →
  header_str (req_headers req) ["X-Timestamp"]%string = Ok ts → parse_timestamp ts = Ok t →
  Z.abs (now' - t) < from_secs 301 → authentic settings now' req body s key.
Proof.
  intros (ts' & n & t' & cfg & mac & Hs & Hts & Hn & Hsig & Ht & _ & Hcfg & Hmac & ->) Hh Hp Hw.
  exists ts', n, t', cfg, mac. assert (ts' = ts) as -> by congruence.
  assert (t' = t) as -> by congruence. by split_and!.
Qed.

(** The in-memory store forgets a nonce while its timestamp is still
    accepted.  An accepted request is accepted a second time, unchanged, at
    any moment more than 300 seconds later that is within 301 seconds of its
    timestamp: for up to a second when the timestamp was current, for up to
    five minutes when the client's clock was ahead. *)
Theorem replay_after_ttl settings clk req (st st' : InMemoryNonceStore) s p r ts t delta :
  hmac_security_middleware settings clk req st = (Next (Some (s, p)) r, st') →
  header_str (req_headers req) ["X-Timestamp"]%string = Ok ts → parse_timestamp ts = Ok t →
  from_secs 300 < delta → Z.abs (utc clk + delta - t) < from_secs 301 →
  ∃ st'', hmac_security_middleware settings (MkClock (utc clk + delta) (mono clk + delta)) req st'
    = (Next (Some (s, p)) r, st'').
Proof.
  intros (body & key & Hb & Hp & A & Hm & -> & ->)%middleware_forwards Hts Ht Hd Hw.
  eexists. apply middleware_forwards. exists body, key. split_and!; try done.
  { by eapply authentic_at. }
  cbn [mark_used InMemoryNonceStore_ops] in *. unfold InMemoryNonceStore_mark_used in *.
  repeat (case_match; simplify_eq/=); [|done].
  match goal with H : filter _ _ !! _ = Some _ |- _ => apply map_lookup_filter_Some in H as [Hl Hk] end.
  rewrite lookup_insert_eq in Hl. injection Hl as <-. cbn [snd] in Hk.
  unfold duration_since, from_secs, MAX_NONCE_TTL_SECONDS in *. lia.
Qed.

End Gap.

(** ** Concrete instances *)

Module ConcreteAuth.

#[export] Instance concat_hmac : HmacLib := { hmac_sha256 k m := Some (k ++ m) }.
#[export] Instance concat_hmac_laws : HmacLaws concat_hmac.
Proof. split. by eexists. Qed.

#[export] Instance plain_http : HttpLib := {
  header_from_str s := if visible_ascii s then Some (str_bytes s) else None;
  header_to_str v := if visible_ascii (str_of_bytes v) then Some (str_of_bytes v) else None }.
#[export] Instance plain_http_laws : HttpLaws plain_http.
Proof.
  split; intros s V; cbn [header_from_str header_to_str plain_http];
    rewrite ?str_of_str_bytes; by rewrite V.
Qed.

#[export] Instance epoch_chrono : ChronoParse := {
  timestamp_opt s :=
    if (-8334601228800 <=? s) && (s <=? 8210266876799) then Some (from_secs s) else None;
  parse_from_rfc3339 _ := None }.
#[export] Instance epoch_chrono_laws : ChronoParseLaws epoch_chrono.
Proof.
  split. intros s Hs. cbn [timestamp_opt epoch_chrono].
  by rewrite !(proj2 (Z.leb_le _ _)) by lia.
Qed.

End ConcreteAuth.

Section Witnesses.
  Import Concrete ConcreteAuth.

Definition demo_cfg : CliConfig := MkCliConfig "svc" "s3" "http://localhost:8081".
Definition demo_service : ServiceConfig := MkServiceConfig "svc" (str_bytes "s3") [] None.
Definition demo_settings : Settings :=
  MkSettings ["/health"]%string (MkAclSettings {["svc"%string := demo_service]}).
Definition demo_request (method : string) (body : option (list byte)) : Request :=
  MkRequest method "/p"
    (match build_signed_request_headers_with_body demo_cfg method "/p" body 1700000000 "n1" with
     | Ok h => h | Err _ => [] end)
    (Some (default [] body)).
Definition demo_post : Request := demo_request "POST" (Some [Byte.x41]).
Definition demo_clock (delta : Z) : Clock := MkClock (from_secs 1700000000 + delta) delta.

Definition demo_ext : option (string * Principal) :=
  Some ("svc"%string, Principal_service "svc").

Lemma cli_request_accepted_witness :
  (hmac_security_middleware demo_settings (demo_clock 5) demo_post InMemoryNonceStore_new).1
  = Next demo_ext (buffered demo_post [Byte.x41]).
Proof.
  erewrite (cli_request_accepted demo_settings (demo_clock 5) demo_post InMemoryNonceStore_new
    _ demo_cfg demo_service [Byte.x41] 1700000000 "n1").
  - reflexivity.
  - reflexivity.
  - reflexivity.
  - lia.
  - vm_compute. reflexivity.
  - reflexivity.
  - reflexivity.
  - reflexivity.
  - intros name v E. exact E.
  - reflexivity.
  - vm_compute. congruence.
  - apply (bool_decide_unpack _). vm_compute. exact I.
  - vm_compute. reflexivity.
Defined.

Lemma cli_bodyless_refused_witness :
  ∃ e, hmac_security_middleware demo_settings (demo_clock 5) (demo_request "GET" None)
         InMemoryNonceStore_new = (Respond e, InMemoryNonceStore_new).
Proof.
  destruct (cli_bodyless_refused demo_settings (demo_clock 5) (demo_request "GET" None)
    InMemoryNonceStore_new demo_cfg demo_service 1700000000 "n1"
    (req_headers (demo_request "GET" None))) as [R|(m1 & m2 & Hne & E)].
  - reflexivity.
  - reflexivity.
  - lia.
  - reflexivity.
  - reflexivity.
  - reflexivity.
  - intros name v E. exact E.
  - apply (bool_decide_unpack _). vm_compute. exact I.
  - exact R.
  - exfalso. apply Hne. cbn [hmac_sha256 concat_hmac] in E. injection E as E. exact E.
Defined.

(** A replay one nanosecond after the nonce is forgotten. *)
Definition demo_history : list (Clock * Request) :=
  [(demo_clock 0, demo_post); (demo_clock (from_secs 300), demo_post);
   (demo_clock (from_secs 300 + 1), demo_post)].

Definition is_next (h : Handled) : bool := match h with Next (Some _) _ => true | _ => false end.

Lemma no_replay_within_ttl_witness :
  is_next <$> serve_all demo_settings demo_history InMemoryNonceStore_new = [true; false; true] ∧
  mono (demo_clock 0) + from_secs MAX_NONCE_TTL_SECONDS < mono (demo_clock (from_secs 300 + 1)).
Proof.
  split; [vm_compute; reflexivity|].
  eapply (no_replay_within_ttl demo_settings demo_history InMemoryNonceStore_new 0 2
    (demo_clock 0) demo_post (demo_clock (from_secs 300 + 1)) demo_post).
  - intros i j ev ev' Hi Hj Hl.
    do 3 (destruct i as [|i]; [injection Hi as <-; do 3 (destruct j as [|j];
      [injection Hj as <-; vm_compute; congruence || lia|]); done|]). done.
  - lia.
  - reflexivity.
  - reflexivity.
  - reflexivity.
  - vm_compute. reflexivity.
  - vm_compute. reflexivity.
Defined.

Lemma replay_after_ttl_witness :
  ∃ st'', hmac_security_middleware demo_settings (demo_clock (from_secs 300 + 1)) demo_post
    (hmac_security_middleware demo_settings (demo_clock 0) demo_post InMemoryNonceStore_new).2
    = (Next demo_ext (buffered demo_post [Byte.x41]), st'').
Proof.
  eapply (replay_after_ttl demo_settings (demo_clock 0) demo_post InMemoryNonceStore_new _ _ _ _
    "1700000000" (from_secs 1700000000) (from_secs 300 + 1)).
  - vm_compute. reflexivity.
  - vm_compute. reflexivity.
  - vm_compute. reflexivity.
  - lia.
  - vm_compute. reflexivity.
Defined.

End Witnesses.
