(* ===== verification/Identity.v ===== *)
(** * Workload identity

    Models [kms-service/src/infrastructure/identity.rs] (the SPIRE Workload
    API client and [SpiffeX509IdentityProvider]), the authenticators of
    [domain/auth.rs], and how [server/http.rs] takes the identity of the
    service and of its peers.  X.509 and PKCS#8 are parameters. *)

From Stdlib Require Import Ascii.
From S2P Require Import Prelude.
From S2P Require Import Interfaces.
From S2P Require Import Protocol.
From S2P Require Import Protobuf.
From S2P Require Import Domain.
From S2P Require Import Acl.
From S2P Require Import Security.

(** ** Data (domain/auth.rs) *)

Record TlsIdentity := MkTlsIdentity {
  ti_certificate_path : option string;
  ti_key_path : option string;
  ti_trust_bundle_path : option string;
  ti_workload_id : option string;
  ti_spiffe_id : option string }.

Inductive SpiffeIdentityMode := Authoritative | FileFallback.

Record WorkloadIdentityConfig := MkWorkloadIdentityConfig {
  wc_enabled : bool;
  wc_trust_domain : option string;
  wc_workload_id : option string;
  wc_spire_agent_socket_path : option string;
  wc_tls_identity : TlsIdentity;
  wc_rotation_interval_secs : Z;
  wc_identity_mode : SpiffeIdentityMode }.

(** [config::SpiffeConfig] *)
Record SpiffeConfig := MkSpiffeConfig {
  sc_enabled : bool;
  sc_trust_domain : option string;
  sc_workload_id : option string;
  sc_spire_agent_socket_path : option string;
  sc_tls_cert_path : option string;
  sc_tls_key_path : option string;
  sc_trust_bundle_path : option string;
  sc_rotation_interval_secs : option Z;
  sc_identity_mode : SpiffeIdentityMode }.

Definition effective_identity_mode (config : WorkloadIdentityConfig) : SpiffeIdentityMode :=
  match wc_identity_mode config with
  | Authoritative => Authoritative
  | FileFallback => FileFallback
  end.

(** [IdentityReloader]: every change of the paths is one to reload. *)
Definition should_reload (current next : TlsIdentity) : bool := true.

Definition TlsIdentity_default : TlsIdentity := MkTlsIdentity None None None None None.

(** The provider of the mTLS listener ([server/http.rs]). *)
Definition spiffe_provider_from_settings (spiffe : SpiffeConfig) : WorkloadIdentityConfig :=
  MkWorkloadIdentityConfig true (sc_trust_domain spiffe) (sc_workload_id spiffe)
    (sc_spire_agent_socket_path spiffe) TlsIdentity_default
    (default 300 (sc_rotation_interval_secs spiffe)) (sc_identity_mode spiffe).

(** The provider kept in the application state ([server/state.rs]). *)
Definition state_spiffe_identity (spiffe : SpiffeConfig) : option WorkloadIdentityConfig :=
  if sc_enabled spiffe then
    let tls_identity :=
      MkTlsIdentity (sc_tls_cert_path spiffe) (sc_tls_key_path spiffe)
        (sc_trust_bundle_path spiffe) (sc_workload_id spiffe) None in
    Some (MkWorkloadIdentityConfig true (sc_trust_domain spiffe) (sc_workload_id spiffe)
            (sc_spire_agent_socket_path spiffe) tls_identity
            (default 300 (sc_rotation_interval_secs spiffe)) (sc_identity_mode spiffe))
  else None.

(** The listener [main] starts, after its check of the TLS paths. *)
Inductive Listener := PlainHttp | MutualTls.

Definition choose_listener (spiffe : SpiffeConfig) : result Listener string :=
  if sc_enabled spiffe &&
     negb (bool_decide (is_Some (sc_tls_cert_path spiffe)) &&
           bool_decide (is_Some (sc_tls_key_path spiffe)) &&
           bool_decide (is_Some (sc_trust_bundle_path spiffe)))
  then Err ("SPIFFE is enabled but mTLS TLS configuration is incomplete: " +s+
            "cert, key, and trust bundle are required")
  else Ok (if sc_enabled spiffe then MutualTls else PlainHttp).

Record TlsIdentitySnapshot := MkTlsIdentitySnapshot {
  ts_certificate_chain_pem : list byte;
  ts_private_key : list byte;
  ts_trust_bundle_pem : list byte;
  ts_spiffe_id : string;
  ts_not_before : Z;
  ts_not_after : Z;
  ts_generation : Z }.

Definition Principal_spiffe (uri : string) : Principal := PrincipalSpiffe uri ∅.

Inductive AuthenticationMethod :=
| MethodHmac | MethodSpiffe | MethodMtls | MethodLegacy | MethodUnknown.

Record AuthenticationContext := MkAuthenticationContext {
  ac_principal : Principal;
  ac_authentication_method : AuthenticationMethod;
  ac_metadata : gmap string string;
  ac_request_id : option string;
  ac_session_id : option string }.

(** [trait Authenticator] and its implementations. *)
Definition HmacAuthenticator_authenticate (subject : string) (metadata : gmap string string) :
    result AuthenticationContext AuthError :=
  Ok (MkAuthenticationContext (Principal_service subject) MethodHmac metadata
        (metadata !! "request_id"%string) (metadata !! "session_id"%string)).

Definition SpiffeAuthenticator_authenticate (subject : string) (metadata : gmap string string) :
    result AuthenticationContext AuthError :=
  if is_empty (trim subject) then Err (Failed "empty SPIFFE subject")
  else
    Ok (MkAuthenticationContext (Principal_spiffe subject) MethodSpiffe
          (<["identity_source"%string := "spiffe"%string]> metadata)
          (metadata !! "request_id"%string) (metadata !! "session_id"%string)).

Definition MtlsAuthenticator_authenticate (subject : string) (metadata : gmap string string) :
    result AuthenticationContext AuthError :=
  if is_empty (trim subject) then Err (UntrustedIdentity "empty mTLS peer identity")
  else
    Ok (MkAuthenticationContext (Principal_spiffe subject) MethodMtls metadata
          (metadata !! "request_id"%string) (metadata !! "session_id"%string)).

(** ** Certificates and keys: [rustls_pki_types], [webpki] and [pkcs8] *)

Class PemLib := {
  cert_from_pem_slice : list byte → option (list byte);
  certs_from_pem : list byte → result (list (list byte)) string;
  private_key_from_pem : list byte → result (list byte) string }.

Class WebPki := {
  anchor : Type;
  end_entity_cert : list byte → result unit string;
  valid_uri_names : list byte → list string;
  subject_public_key_info : list byte → list byte;
  parsable_anchors : list (list byte) → list anchor;
  verify_client_auth : list byte → list anchor → Z → result unit string }.

(** The public key inside a SPKI or a PKCS#8 structure, when it has one. *)
Class Pkcs8Lib := {
  spki_public_key : list byte → result (option (list byte)) string;
  private_key_public : list byte → result (option (list byte)) string;
  document_from_pem : string → result (list byte) string }.

(** ** The SPIRE agent *)

(** [gr_status_text]: the [Display] of the status, with its reason phrase; the
    headers are [None] when absent or not text. *)
Record GrpcResponse := MkGrpcResponse {
  gr_status : Z;
  gr_status_text : string;
  gr_grpc_status : option string;
  gr_grpc_message : option string;
  gr_body : result (list byte) string }.

Inductive AgentReply :=
| AgentConnectFailed (e : string)
| AgentHandshakeFailed (e : string)
| AgentSendFailed (e : string)
| AgentResponded (r : GrpcResponse).

(** One HTTP/2 request over the agent's socket. *)
Class SpireAgent := { agent_exchange : string (* socket *) → list byte → AgentReply }.

Section client.
  Context `{Utf8Display} `{Base64} `{SpireAgent}.

Definition fetch_x509_svid_response (socket_path : string) : auth (list X509SVID) :=
  let grpc_body := grpc_encode_message [] in
  match agent_exchange socket_path grpc_body with
  | AgentConnectFailed e =>
    auth_err (MissingMetadata ("failed to connect to SPIRE agent socket '" +s+ socket_path
                               +s+ "': " +s+ e))
  | AgentHandshakeFailed e =>
    auth_err (Failed ("failed to establish HTTP/2 connection to SPIRE Workload API: " +s+ e))
  | AgentSendFailed e =>
    auth_err (Failed ("failed to send SPIRE gRPC FetchX509SVID request: " +s+ e))
  | AgentResponded response =>
    if negb (gr_status response =? 200) then
      auth_err (Failed ("SPIRE Workload API rejected FetchX509SVID with HTTP status "
                        +s+ gr_status_text response))
    else
      let status := default "0"%string (gr_grpc_status response) in
      if negb (String.eqb status "0") then
        auth_err (Failed ("SPIRE Workload API returned gRPC status '" +s+ status +s+ "': "
          +s+ default "unknown gRPC SPIRE error"%string (gr_grpc_message response)))
      else
        let^ chunks :=
          auth_of (map_err (λ e, Failed ("failed to read SPIRE Workload API response body: "
                                         +s+ e)) (gr_body response)) in
        let^ frames := auth_of (parse_grpc_frames chunks) in
        match head (filter (λ frame, frame ≠ []) frames) with
        | None =>
          auth_err (UntrustedIdentity "SPIRE Workload API returned an empty X.509 SVID stream")
        | Some message =>
          auth_map_err (λ err, Failed ("invalid SPIRE Workload API X509SVID response: "
                                       +s+ AuthError_display err))
            (decode_x509_svid_response message)
        end
  end.

(** The first SVID with an identifier. *)
Definition first_named (svids : list X509SVID) : option X509SVID :=
  head (filter (λ s, is_empty (sv_spiffe_id s) = false) svids).

Definition fetch_workload_svid (socket_path : string) : auth (list byte) :=
  let^ svids := fetch_x509_svid_response socket_path in
  match first_named svids with
  | None =>
    auth_err (UntrustedIdentity
      "SPIRE Workload API returned no X.509 SVID records for the workload")
  | Some svid => auth_ok (der_to_pem (sv_x509_svid svid) "CERTIFICATE")
  end.

Definition fetch_trust_bundle (socket_path : string) : auth (list byte) :=
  let^ svids := fetch_x509_svid_response socket_path in
  match first_named svids with
  | None =>
    auth_err (UntrustedIdentity "SPIRE Workload API returned no trust bundle for the workload")
  | Some svid =>
    match sv_bundle svid with
    | [] =>
      auth_err (UntrustedIdentity
        "SPIRE Workload API returned an empty trust bundle; fail closed")
    | bundle => auth_ok (der_to_pem bundle "CERTIFICATE")
    end
  end.

End client.

(** ** SpiffeX509IdentityProvider *)

Definition slash : ascii := ascii_of_nat 47.

Definition normalize_workload_id (value : string) : string :=
  let trimmed := trim value in
  let without_scheme := default trimmed (strip_prefix "spiffe://" trimmed) in
  let normalized := trim_start_matches slash without_scheme in
  if is_empty normalized then "/" else "/" +s+ trim_end_matches slash normalized.

Definition expected_spiffe_uri (config : WorkloadIdentityConfig) : result string AuthError :=
  match wc_trust_domain config with
  | None => Err (MissingMetadata "SPIFFE trust domain is not configured")
  | Some trust_domain =>
    match wc_workload_id config with
    | None => Err (MissingMetadata "SPIFFE workload ID is not configured")
    | Some workload_id =>
      let normalized_workload := normalize_workload_id workload_id in
      if String.eqb normalized_workload "/" then Ok ("spiffe://" +s+ trust_domain)
      else Ok ("spiffe://" +s+ trust_domain +s+ normalized_workload)
    end
  end.

Section provider.
  Context `{Utf8Display} `{Base64} `{SpireAgent} `{PemLib} `{WebPki} `{Pkcs8Lib}.
  Implicit Types (config : WorkloadIdentityConfig).

Definition parse_leaf_certificate (cert_bytes : list byte) : result (list byte) AuthError :=
  let cert := default cert_bytes (cert_from_pem_slice cert_bytes) in
  if (length cert =? 0)%nat then
    Err (UntrustedIdentity "certificate payload is empty: mTLS verification must fail closed")
  else Ok cert.

Definition load_trust_anchors (trust_bundle_pem : list byte) : result (list anchor) AuthError :=
  let? certs := map_err (λ e, UntrustedIdentity ("invalid trust bundle PEM: " +s+ e))
                  (certs_from_pem trust_bundle_pem) in
  if (length certs =? 0)%nat then
    Err (UntrustedIdentity "trust bundle is empty; mTLS verification must fail closed")
  else Ok (parsable_anchors certs).

Definition extract_spiffe_uri_from_cert (cert_bytes : list byte) : result string AuthError :=
  let? cert_der := parse_leaf_certificate cert_bytes in
  let? _ := map_err (λ e, UntrustedIdentity ("invalid X.509 certificate: " +s+ e))
              (end_entity_cert cert_der) in
  match head (filter (λ uri, starts_with "spiffe://" uri = true) (valid_uri_names cert_der)) with
  | Some uri => Ok uri
  | None =>
    Err (UntrustedIdentity "SPIFFE certificate does not contain a valid spiffe:// URI SAN")
  end.

Definition validate_spiffe_identity config (cert_bytes : list byte) : result Principal AuthError :=
  if negb (wc_enabled config) then
    Err (UntrustedIdentity "SPIFFE workload identity verification is disabled")
  else
    let? uri := extract_spiffe_uri_from_cert cert_bytes in
    let? expected := expected_spiffe_uri config in
    if negb (String.eqb uri expected) then
      Err (UntrustedIdentity ("SPIFFE identity mismatch: expected '" +s+ expected
             +s+ "' but certificate identified '" +s+ uri +s+ "'"))
    else Ok (Principal_spiffe uri).

Definition validate_certificate_chain (now : Z) (cert_pem trust_bundle_pem : list byte) :
    result unit AuthError :=
  let? leaf_cert := parse_leaf_certificate cert_pem in
  let? trust_anchors := load_trust_anchors trust_bundle_pem in
  if (length trust_anchors =? 0)%nat then
    Err (UntrustedIdentity "trust bundle is empty; mTLS verification must fail closed")
  else
    let? _ := map_err (λ e, UntrustedIdentity ("invalid leaf certificate: " +s+ e))
                (end_entity_cert leaf_cert) in
    map_err (λ e, UntrustedIdentity ("certificate chain validation failed: " +s+ e))
      (verify_client_auth leaf_cert trust_anchors now).

Definition embedded_public_key (o : option (list byte)) : result (list byte) AuthError :=
  match o with
  | Some bytes => Ok bytes
  | None =>
    Err (UntrustedIdentity
      "private key is missing its embedded public key; reject identity snapshot")
  end.

Definition pkcs8_public_key_from_private_key (key_bytes : list byte) :
    result (list byte) AuthError :=
  match private_key_public key_bytes with
  | Ok key_info => embedded_public_key key_info
  | Err _ =>
    if negb (is_utf8_bytes key_bytes) then
      Err (UntrustedIdentity ("invalid private key payload: " +s+ utf8_error key_bytes))
    else
      let? document :=
        map_err (λ e, UntrustedIdentity ("invalid private key for certificate validation: "
                                         +s+ e)) (document_from_pem (str_of_bytes key_bytes)) in
      let? key_info :=
        map_err (λ e, UntrustedIdentity ("invalid PKCS#8 private key for certificate validation: "
                                         +s+ e)) (private_key_public document) in
      embedded_public_key key_info
  end.

Definition validate_private_key_matches_cert (cert_pem key_bytes : list byte) :
    result unit AuthError :=
  let? cert_der := parse_leaf_certificate cert_pem in
  let? _ :=
    map_err (λ e, UntrustedIdentity ("invalid certificate for private-key validation: " +s+ e))
      (end_entity_cert cert_der) in
  let? cert_public :=
    map_err (λ e, UntrustedIdentity ("failed to decode certificate public key info: " +s+ e))
      (spki_public_key (subject_public_key_info cert_der)) in
  match cert_public with
  | None =>
    Err (UntrustedIdentity "certificate public key is malformed; reject identity snapshot")
  | Some cert_public_bytes =>
    let? private_public := pkcs8_public_key_from_private_key key_bytes in
    if bool_decide (cert_public_bytes = private_public) then Ok ()
    else Err (UntrustedIdentity
           "certificate and private key do not match; reject identity snapshot")
  end.

Definition current_runtime_identity config : auth Principal :=
  match wc_spire_agent_socket_path config with
  | None =>
    auth_err (MissingMetadata "SPIRE agent socket path is not configured for workload identity")
  | Some socket_path =>
    let^ certs := fetch_workload_svid socket_path in
    auth_of (validate_spiffe_identity config certs)
  end.

(** Files, by path. *)
Context (read_file : string → result (list byte) string).

Definition load_pem_from_file (path : string) : result (list byte) AuthError :=
  map_err (λ e, MissingMetadata ("failed to read certificate file: " +s+ e)) (read_file path).

Definition current_principal config : result Principal AuthError :=
  match ti_certificate_path (wc_tls_identity config) with
  | None => Err (MissingMetadata "TLS certificate path is not configured")
  | Some cert_path =>
    let? pem := load_pem_from_file cert_path in validate_spiffe_identity config pem
  end.

Definition tls_identity config : result TlsIdentity AuthError := Ok (wc_tls_identity config).

(** The end of [fetch_identity], common to the platforms. *)
Definition identity_snapshot (t2 now : Z) (cert_pem trust_pem key_bytes : list byte)
    (spiffe_id : string) : result TlsIdentitySnapshot AuthError :=
  let? _ := validate_certificate_chain t2 cert_pem trust_pem in
  let? _ := validate_private_key_matches_cert cert_pem key_bytes in
  Ok (MkTlsIdentitySnapshot cert_pem key_bytes trust_pem spiffe_id (now - 60) (now + 86400) now).

(** [fetch_identity] on Unix.  The clock is read three times: by the two chain
    checks ([t1], [t2]) and for the snapshot ([now]), in seconds since 1970. *)
Definition fetch_identity (t1 t2 now : Z) config : auth TlsIdentitySnapshot :=
  let^ expected_spiffe := auth_of (expected_spiffe_uri config) in
  match wc_spire_agent_socket_path config with
  | None =>
    auth_err (MissingMetadata
      "SPIRE agent socket path is not configured for authoritative identity")
  | Some socket_path =>
    let^ svids := fetch_x509_svid_response socket_path in
    let exact_match := filter (λ svid, sv_spiffe_id svid = expected_spiffe) svids in
    match exact_match with
    | [svid] =>
      let cert_pem := der_to_pem (sv_x509_svid svid) "CERTIFICATE" in
      let trust_pem := der_to_pem (sv_bundle svid) "CERTIFICATE" in
      let key_bytes := sv_x509_svid_key svid in
      let^ _ := auth_of (validate_private_key_matches_cert cert_pem key_bytes) in
      let^ _ := auth_of (validate_certificate_chain t1 cert_pem trust_pem) in
      let^ spiffe_id := auth_of (extract_spiffe_uri_from_cert cert_pem) in
      if negb (String.eqb spiffe_id expected_spiffe) then
        auth_err (UntrustedIdentity ("authoritative SPIRE SVID mismatch: expected '"
          +s+ expected_spiffe +s+ "' but got '" +s+ spiffe_id +s+ "'"))
      else auth_of (identity_snapshot t2 now cert_pem trust_pem key_bytes spiffe_id)
    | _ =>
      auth_err (UntrustedIdentity
        ("authoritative SPIRE identity mismatch: expected exactly one SVID for '"
         +s+ expected_spiffe +s+ "' but found " +s+ pretty (length exact_match)))
    end
  end.

(** [fetch_identity] on the other platforms: the configured files. *)
Definition configured_file (path : option string) (missing : string) :
    result (list byte) AuthError :=
  match path with
  | Some path => load_pem_from_file path
  | None => Err (MissingMetadata missing)
  end.

Definition fetch_identity_files (t2 now : Z) config : result TlsIdentitySnapshot AuthError :=
  let tls := wc_tls_identity config in
  let? cert_pem := configured_file (ti_certificate_path tls)
                     "TLS certificate path is not configured" in
  let? trust_pem := configured_file (ti_trust_bundle_path tls)
                      "TLS trust bundle path is not configured" in
  let? key_bytes := configured_file (ti_key_path tls)
                      "TLS private key path is not configured" in
  let? spiffe_id := extract_spiffe_uri_from_cert cert_pem in
  identity_snapshot t2 now cert_pem trust_pem key_bytes spiffe_id.

(** ** server/http.rs *)

(** The certificates a TLS session has from its peer. *)
Definition peer_principal_from_tls config (peer_certificates : option (list (list byte))) :
    result Principal string :=
  match peer_certificates ≫= head with
  | None => Err "mTLS peer did not present a client certificate"%string
  | Some cert =>
    map_err (λ _, "mTLS client certificate is not a valid SPIFFE identity for this service"%string)
      (validate_spiffe_identity config cert)
  end.

(** The certificate chain, private key and client trust bundle of the server. *)
Definition mtls_material (t1 t2 now : Z) (spiffe : SpiffeConfig) config :
    auth (list byte * list byte * list byte) :=
  let fallback :=
    let^ snapshot := fetch_identity t1 t2 now config in
    auth_ok (ts_certificate_chain_pem snapshot, ts_private_key snapshot,
             ts_trust_bundle_pem snapshot) in
  match sc_tls_cert_path spiffe, sc_tls_key_path spiffe, sc_trust_bundle_path spiffe with
  | Some cert_path, Some key_path, Some bundle_path =>
    match read_file cert_path, read_file key_path, read_file bundle_path with
    | Ok cp, Ok kp, Ok bp => auth_ok (cp, kp, bp)
    | _, _, _ => fallback
    end
  | _, _, _ => fallback
  end.

(** [rustls]: the client verifier, refused without anchors, and the server
    configuration, refused when the key does not fit the certificate. *)
Context {verifier server_config : Type}.
Context (build_verifier : list anchor → result verifier string).
Context (with_single_cert :
  verifier → list (list byte) → list byte → result server_config string).

Definition server_config_of (material : list byte * list byte * list byte) :
    result server_config string :=
  let '(cert_pem, key_pem, bundle_pem) := material in
  let? cert_chain :=
    map_err (λ _, "invalid server certificate PEM from workload snapshot or file"%string)
      (certs_from_pem cert_pem) in
  let? private_key :=
    map_err (λ _, "invalid private key PEM from workload snapshot or file"%string)
      (private_key_from_pem key_pem) in
  let? client_anchors :=
    map_err (λ _, "invalid client trust bundle PEM from workload snapshot or file"%string)
      (certs_from_pem bundle_pem) in
  let? verifier :=
    map_err (λ _, "invalid mTLS client certificate verifier configuration"%string)
      (build_verifier (parsable_anchors client_anchors)) in
  map_err (λ _, "failed to configure rustls server certificate and mTLS verifier"%string)
    (with_single_cert verifier cert_chain private_key).

Definition build_mtls_server_config_async (t1 t2 now : Z) (spiffe : SpiffeConfig) config :
    outcome (result server_config string) :=
  match mtls_material t1 t2 now spiffe config with
  | Value (Ok material) => Value (server_config_of material)
  | Value (Err e) => Value (Err (AuthError_display e))
  | Panics w => Panics w
  | Aborts => Aborts
  end.

End provider.

(** ** Properties *)

(** What [rustls_pki_types] documents: a PEM file with one certificate section
    reads back as its DER. *)
Class PemLaws `{Base64} (P : PemLib) : Prop := {
  pem_one : ∀ der, cert_from_pem_slice (der_to_pem der "CERTIFICATE") = Some der;
  pem_all : ∀ der, certs_from_pem (der_to_pem der "CERTIFICATE") = Ok [der] }.

Section properties.
  Context `{Utf8Display} `{Base64} `{SpireAgent} {P : PemLib} `{!PemLaws P} `{WebPki} `{Pkcs8Lib}.

(** The public key embedded in a private key: DER, or else PEM. *)
Definition embedded_key (key pk : list byte) : Prop :=
  private_key_public key = Ok (Some pk) ∨
  (∃ e document, private_key_public key = Err e ∧ is_utf8_bytes key = true ∧
     document_from_pem (str_of_bytes key) = Ok document ∧
     private_key_public document = Ok (Some pk)).

(** A SVID the service may run under as [uri]. *)
Record svid_trusted (t1 t2 : Z) (uri : string) (svid : X509SVID) : Prop := {
  st_parses : sv_x509_svid svid ≠ [] ∧ end_entity_cert (sv_x509_svid svid) = Ok ();
  st_key : ∃ pk,
    spki_public_key (subject_public_key_info (sv_x509_svid svid)) = Ok (Some pk) ∧
    embedded_key (sv_x509_svid_key svid) pk;
  st_anchors : parsable_anchors [sv_bundle svid] ≠ [];
  st_chain : ∀ t, t = t1 ∨ t = t2 →
    verify_client_auth (sv_x509_svid svid) (parsable_anchors [sv_bundle svid]) t = Ok ();
  st_uri : head (filter (λ u, starts_with "spiffe://" u = true)
                   (valid_uri_names (sv_x509_svid svid))) = Some uri }.

Lemma auth_bind_of {X Y} (r : result X AuthError) (k : X → auth Y) y :
  auth_bind (auth_of r) k = auth_ok y ↔ ∃ x, r = Ok x ∧ k x = auth_ok y.
Proof. destruct r; cbn; unfold auth_ok; split; naive_solver. Qed.

Lemma parse_leaf_pem der cert :
  parse_leaf_certificate (der_to_pem der "CERTIFICATE") = Ok cert ↔ cert = der ∧ der ≠ [].
Proof.
  unfold parse_leaf_certificate. rewrite pem_one. cbn [default].
  change (default _ (Some der)) with der. destruct der; cbn; naive_solver.
Qed.

Lemma pkcs8_public_key_spec key pk :
  pkcs8_public_key_from_private_key key = Ok pk ↔ embedded_key key pk.
Proof.
  unfold pkcs8_public_key_from_private_key, embedded_key.
  destruct (private_key_public key) as [[x|]|e] eqn:E; cbn;
    [split; [intros [= ->]; by left|intros [?|(? & ? & ? & _)]; congruence]
    |split; [done|intros [?|(? & ? & ? & _)]; congruence]|].
  split.
  - destruct (is_utf8_bytes key) eqn:Eu; cbn; [|done].
    destruct (document_from_pem _) as [d|] eqn:Ed; cbn; [|done].
    destruct (private_key_public d) as [[x|]|] eqn:Ep; cbn; [|done..].
    intros [= ->]. right. by exists e, d.
  - intros [?|(e' & d & [= ->] & -> & -> & Hp)]; [congruence|]. cbn. by rewrite Hp.
Qed.

Lemma key_matches_spec der key :
  validate_private_key_matches_cert (der_to_pem der "CERTIFICATE") key = Ok () ↔
  der ≠ [] ∧ end_entity_cert der = Ok () ∧
  ∃ pk, spki_public_key (subject_public_key_info der) = Ok (Some pk) ∧ embedded_key key pk.
Proof.
  unfold validate_private_key_matches_cert. rewrite result_bind_Ok.
  setoid_rewrite parse_leaf_pem. setoid_rewrite <- pkcs8_public_key_spec.
  split.
  - intros (? & [-> Hne] & E). destruct (end_entity_cert der) as [[]|]; cbn in E; [|done].
    destruct (spki_public_key _) as [[pk|]|]; cbn in E; [|done..].
    destruct (pkcs8_public_key_from_private_key key) as [q|]; cbn in E; [|done].
    case_bool_decide; naive_solver.
  - intros (Hne & He & pk & Hpk & Hq). exists der. split; [done|].
    rewrite He. cbn. rewrite Hpk. cbn. rewrite Hq. cbn. by rewrite bool_decide_true.
Qed.

Lemma chain_spec t der bundle :
  validate_certificate_chain t (der_to_pem der "CERTIFICATE") (der_to_pem bundle "CERTIFICATE") =
    Ok () ↔
  der ≠ [] ∧ parsable_anchors [bundle] ≠ [] ∧ end_entity_cert der = Ok () ∧
  verify_client_auth der (parsable_anchors [bundle]) t = Ok ().
Proof.
  unfold validate_certificate_chain, load_trust_anchors. rewrite pem_all, result_bind_Ok.
  setoid_rewrite parse_leaf_pem. cbn.
  destruct (parsable_anchors [bundle]) as [|a l]; cbn;
    [split; [by intros (? & _ & ?)|by intros (_ & [] & _)]|].
  split.
  - intros (? & [-> ?] & E). destruct (end_entity_cert der) as [[]|]; cbn in E; [|done].
    by apply map_err_Ok in E.
  - intros (? & _ & He & ?). exists der. rewrite He. cbn. by rewrite map_err_Ok.
Qed.

Lemma extract_uri_spec cert uri :
  extract_spiffe_uri_from_cert cert = Ok uri ↔
  ∃ der, parse_leaf_certificate cert = Ok der ∧ end_entity_cert der = Ok () ∧
    head (filter (λ u, starts_with "spiffe://" u = true) (valid_uri_names der)) = Some uri.
Proof.
  unfold extract_spiffe_uri_from_cert. rewrite result_bind_Ok.
  apply exist_proper. intros der.
  destruct (end_entity_cert der) as [[]|]; cbn.
  - destruct (head _) as [u|].
    + split; [by intros (? & [= ->])|by intros (? & _ & [= ->])].
    + split; [by intros (? & [=])|by intros (? & _ & [=])].
  - split; [by intros (? & [=])|by intros (? & [=] & _)].
Qed.

(** C16: the service runs under an identity from the Workload API exactly when the
    agent answers with one SVID for its configured SPIFFE id, and that SVID's
    certificate names the id first, chains to the bundle sent with it at both
    checks, and belongs to the private key sent with it. *)
Theorem fetched_identity_trusted t1 t2 now config snapshot :
  fetch_identity t1 t2 now config = auth_ok snapshot ↔
  ∃ uri socket svids svid,
    expected_spiffe_uri config = Ok uri ∧ wc_spire_agent_socket_path config = Some socket ∧
    fetch_x509_svid_response socket = auth_ok svids ∧
    filter (λ s, sv_spiffe_id s = uri) svids = [svid] ∧ svid_trusted t1 t2 uri svid ∧
    snapshot = MkTlsIdentitySnapshot (der_to_pem (sv_x509_svid svid) "CERTIFICATE")
      (sv_x509_svid_key svid) (der_to_pem (sv_bundle svid) "CERTIFICATE") uri
      (now - 60) (now + 86400) now.
Proof.
  unfold fetch_identity. rewrite auth_bind_of. split.
  - intros (uri & Huri & E). destruct (wc_spire_agent_socket_path config) as [sock|]; [|done].
    apply auth_bind_ok in E as (svids & Hf & E).
    destruct (filter _ svids) as [|svid [|]] eqn:Hfil; [done| |done].
    apply auth_bind_of in E as ([] & (? & ? & Hk)%key_matches_spec & E).
    apply auth_bind_of in E as ([] & (_ & Ha & _ & Hc1)%chain_spec & E).
    apply auth_bind_of in E as (u & Hu & E).
    destruct (String.eqb_spec u uri) as [->|]; cbn [negb] in E; [|done].
    injection E as E. unfold identity_snapshot in E.
    apply result_bind_Ok in E as ([] & (_ & _ & _ & Hc2)%chain_spec & E).
    apply result_bind_Ok in E as ([] & _ & [= <-]).
    apply extract_uri_spec in Hu as (der & [-> _]%parse_leaf_pem & _ & Hu).
    exists uri, sock, svids, svid. split_and!; try done. split; try done.
    by intros t [-> | ->].
  - intros (uri & sock & svids & svid & Huri & -> & Hf & Hfil & [[Hne He] Hk Ha Hc Hu] & ->).
    exists uri. split; [done|]. rewrite Hf. cbn [auth_bind auth_ok]. rewrite Hfil.
    pose proof (proj2 (key_matches_spec _ _) (conj Hne (conj He Hk))) as Ek.
    assert (∀ t, t = t1 ∨ t = t2 → validate_certificate_chain t
      (der_to_pem (sv_x509_svid svid) "CERTIFICATE") (der_to_pem (sv_bundle svid) "CERTIFICATE")
      = Ok ()) as Ec by (intros; apply chain_spec; auto).
    unfold identity_snapshot.
    rewrite Ek, !Ec by auto. cbn [auth_bind auth_of result_bind].
    rewrite (proj2 (extract_uri_spec _ uri)) by
      (exists (sv_x509_svid svid); split_and!; [by apply parse_leaf_pem|done..]).
    cbn [auth_bind auth_of]. by rewrite String.eqb_refl.
Qed.

(** The mTLS listener accepts a peer exactly when its certificate's first
    SPIFFE URI is the service's own configured id: any other workload, however
    well its chain verifies, is refused after the handshake. *)
Theorem mtls_peer_is_self spiffe certs p :
  peer_principal_from_tls (spiffe_provider_from_settings spiffe) certs = Ok p ↔
  ∃ cert rest der uri,
    certs = Some (cert :: rest) ∧ parse_leaf_certificate cert = Ok der ∧
    end_entity_cert der = Ok () ∧
    head (filter (λ u, starts_with "spiffe://" u = true) (valid_uri_names der)) = Some uri ∧
    expected_spiffe_uri (spiffe_provider_from_settings spiffe) = Ok uri ∧
    p = PrincipalSpiffe uri ∅.
Proof.
  unfold peer_principal_from_tls, validate_spiffe_identity. split.
  - destruct certs as [[|cert rest]|]; cbn [mbind option_bind head]; [done| |done].
    rewrite map_err_Ok. cbn [negb wc_enabled spiffe_provider_from_settings]. intros E.
    apply result_bind_Ok in E as (uri & (der & ? & ? & ?)%extract_uri_spec & E).
    apply result_bind_Ok in E as (ex & ? & E).
    destruct (String.eqb_spec uri ex) as [->|]; cbn [negb] in E; [|done].
    injection E as <-. by exists cert, rest, der, ex.
  - intros (cert & rest & der & uri & -> & ? & ? & ? & He & ->).
    cbn [mbind option_bind head negb wc_enabled spiffe_provider_from_settings].
    rewrite map_err_Ok, (proj2 (extract_uri_spec cert uri)) by eauto.
    cbn [result_bind]. rewrite He. cbn [result_bind]. by rewrite String.eqb_refl.
Qed.

(** Once its three files can be read the listener uses them, whatever the
    identity mode and whatever the agent would answer: [Authoritative] does not
    make the Workload API the source. *)
Theorem authoritative_mode_reads_files (read_file : string → result (list byte) string)
    {verifier server_config} build_verifier with_single_cert t1 t2 now spiffe config
    cert key bundle cp kp bp :
  sc_identity_mode spiffe = Authoritative →
  sc_tls_cert_path spiffe = Some cert → sc_tls_key_path spiffe = Some key →
  sc_trust_bundle_path spiffe = Some bundle →
  read_file cert = Ok cp → read_file key = Ok kp → read_file bundle = Ok bp →
  build_mtls_server_config_async (verifier := verifier) (server_config := server_config)
    read_file build_verifier with_single_cert t1 t2 now spiffe config =
  Value (server_config_of build_verifier with_single_cert (cp, kp, bp)).
Proof.
  intros _ Hc Hk Hb Ec Ek Eb. unfold build_mtls_server_config_async, mtls_material.
  by rewrite Hc, Hk, Hb, Ec, Ek, Eb.
Qed.

End properties.

(** A workload id given as a full SPIFFE URI keeps its trust domain as the
    first path segment, so the service expects the domain twice. *)
Theorem full_uri_workload_id_doubles_domain config td path :
  wc_trust_domain config = Some td →
  wc_workload_id config = Some ("spiffe://" +s+ td +s+ path) →
  trim ("spiffe://" +s+ td +s+ path) = ("spiffe://" +s+ td +s+ path)%string →
  trim_start_matches slash (td +s+ path) = (td +s+ path)%string →
  trim_end_matches slash (td +s+ path) = (td +s+ path)%string →
  is_empty (td +s+ path) = false →
  expected_spiffe_uri config = Ok ("spiffe://" +s+ td +s+ "/" +s+ td +s+ path).
Proof.
  intros Htd Hw Ht Hs He Hn. unfold expected_spiffe_uri, normalize_workload_id.
  rewrite Htd, Hw, Ht. unfold strip_prefix. rewrite starts_with_app.
  change (default _ (Some ?x)) with x.
  change (str_drop _ ("spiffe://" +s+ td +s+ path)) with (td +s+ path)%string.
  rewrite Hs, Hn, He.
  destruct (String.eqb_spec ("/" +s+ td +s+ path) "/") as [[= E]|]; [|done].
  change ((td +s+ path)%string = EmptyString) in E. by rewrite E in Hn.
Qed.

(** ** A concrete identity *)

Section IdentityWitnesses.

Import Concrete.
#[local] Existing Instances no_utf8_text.

(** Reads one section: the text between the two marks, without line ends. *)
Definition read_section (pem : list byte) : list byte :=
  let body := take (length pem - 28 - 26) (drop 28 pem) in
  default [] (match b64_decode (str_of_bytes (filter (λ b, b ≠ byte_of_Z 10) body)) with
              | Ok der => Some der | Err _ => None end).
#[local] Instance section_pem : PemLib := {
  cert_from_pem_slice pem := Some (read_section pem);
  certs_from_pem pem := Ok [read_section pem];
  private_key_from_pem pem := Ok pem }.

Lemma hex_no_newline bs : filter (λ b, b ≠ byte_of_Z 10) (str_bytes (hex_of bs)) = str_bytes (hex_of bs).
Proof.
  assert (Forall (λ b, b ≠ byte_of_Z 10) (str_bytes (hex_of bs))) as Hall.
  { induction bs as [|b bs IH]; [constructor|].
    cbn [hex_of]. destruct b; repeat (constructor; [discriminate|]); exact IH. }
  induction Hall as [|x l Hx _ IH]; [done|]. by rewrite filter_cons_True, IH.
Qed.

Lemma filter_lines (ls : list (list byte)) :
  filter (λ b, b ≠ byte_of_Z 10) (concat ((λ chunk, chunk ++ newline) <$> ls)) =
  filter (λ b, b ≠ byte_of_Z 10) (concat ls).
Proof.
  induction ls as [|l ls IH]; [done|]. cbn [fmap list_fmap concat].
  rewrite !filter_app, IH. unfold newline. by rewrite app_nil_r.
Qed.

Lemma read_section_pem der : read_section (der_to_pem der "CERTIFICATE") = der.
Proof.
  unfold read_section, der_to_pem. cbn [b64_encode hex_base64].
  set (body := concat _).
  replace (take _ _) with body.
  - unfold body. rewrite filter_lines, list_chunks_concat by lia.
    rewrite hex_no_newline, str_of_str_bytes.
    change (hex_of der) with (b64_encode der). by rewrite b64_decode_encode.
  - rewrite app_assoc. change 28%nat with (length (str_bytes
      ("-----BEGIN " +s+ "CERTIFICATE" +s+ "-----") ++ newline)) at 2.
    rewrite drop_app_length, !length_app. cbn [length str_bytes newline].
    rewrite take_app_length'; [done|].
    change (length (str_bytes ("-----BEGIN " +s+ "CERTIFICATE" +s+ "-----"))) with 27%nat.
    change (length (str_bytes ("-----END " +s+ "CERTIFICATE" +s+ "-----"))) with 25%nat. lia.
Qed.

#[local] Instance section_pem_laws : PemLaws section_pem.
Proof.
  split; intros der; cbn [cert_from_pem_slice certs_from_pem section_pem];
    by rewrite read_section_pem.
Qed.

(** Certificates name [uri]; a key embeds itself; every chain verifies. *)
Definition demo_uri : string := "spiffe://example.org/kms".
#[local] Instance demo_webpki : WebPki := {
  anchor := list byte;
  end_entity_cert _ := Ok ();
  valid_uri_names _ := ["https://example.org"%string; demo_uri];
  subject_public_key_info _ := [byte_of_Z 3];
  parsable_anchors certs := certs;
  verify_client_auth _ _ _ := Ok () }.
#[local] Instance demo_pkcs8 : Pkcs8Lib := {
  spki_public_key spki := Ok (Some spki);
  private_key_public key := Ok (Some key);
  document_from_pem _ := Err "no document"%string }.
#[local] Instance demo_agent : SpireAgent := {
  agent_exchange _ _ := AgentResponded (MkGrpcResponse 200 "200 OK" (Some "0"%string) None
    (Ok (grpc_encode_message (encode_response [demo_svid])))) }.

Definition demo_spiffe : SpiffeConfig :=
  MkSpiffeConfig true (Some "example.org"%string) (Some "/kms"%string) (Some "/run/agent"%string)
    (Some "c"%string) (Some "k"%string) (Some "b"%string) None Authoritative.

Lemma fetched_identity_trusted_witness :
  fetch_identity 100 101 102 (spiffe_provider_from_settings demo_spiffe) =
  auth_ok (MkTlsIdentitySnapshot (der_to_pem (sv_x509_svid demo_svid) "CERTIFICATE")
             (sv_x509_svid_key demo_svid) (der_to_pem (sv_bundle demo_svid) "CERTIFICATE")
             demo_uri 42 86502 102).
Proof.
  apply fetched_identity_trusted.
  exists demo_uri, "/run/agent"%string, [demo_svid], demo_svid.
  split_and!; [vm_compute; reflexivity|reflexivity|vm_compute; reflexivity
              |vm_compute; reflexivity| |reflexivity].
  split; [split; [discriminate|reflexivity]| |discriminate|reflexivity|vm_compute; reflexivity].
  exists [byte_of_Z 3]. split; [reflexivity|left; reflexivity].
Defined.

Lemma authoritative_mode_reads_files_witness :
  build_mtls_server_config_async (λ p, Ok (str_bytes p)) Ok (λ v c k, Ok (v, c, k)) 0 0 0
    demo_spiffe (spiffe_provider_from_settings demo_spiffe) =
  Value (server_config_of Ok (λ v c k, Ok (v, c, k))
           (str_bytes "c", str_bytes "k", str_bytes "b")).
Proof. apply authoritative_mode_reads_files with "c"%string "k"%string "b"%string; reflexivity. Defined.

Lemma full_uri_workload_id_doubles_domain_witness :
  expected_spiffe_uri (MkWorkloadIdentityConfig true (Some "example.org"%string)
    (Some "spiffe://example.org/kms"%string) None TlsIdentity_default 300 Authoritative) =
  Ok "spiffe://example.org/example.org/kms"%string.
Proof.
  apply (full_uri_workload_id_doubles_domain _ "example.org" "/kms"); vm_compute; reflexivity.
Defined.

End IdentityWitnesses.
