(* ===== verification/KeyStore.v ===== *)
(** * The key repository and the key cache

    Models the key queries of [kms-db/src/repositories.rs] over the table
    [keys] of [kms-migrate/migrations/001_init.sql],
    [kms-service/src/infrastructure/postgres/keys.rs] and the [KeyCache] of
    [kms-service/src/server/state.rs].  The table is the list of its rows; a
    statement that violates a unique constraint fails and leaves it as it
    was. *)

From Stdlib Require Import Ascii.
From stdpp Require Import sorting.
From S2P Require Import Prelude.
From S2P Require Import Interfaces.
From S2P Require Import Protocol.
From S2P Require Import Domain.
From S2P Require Import Acl.
From S2P Require Import AuditLog.
From S2P Require Import AuditChain.

(** ** Rows and entities *)

Record KeyDbRow := MkKeyDbRow {
  kr_id : Z;
  kr_service_id : string;
  kr_algorithm : string;
  kr_version : Z;
  kr_encrypted_key_data : list byte;
  kr_public_key_pem : string;
  kr_purpose : string;
  kr_status : string;
  kr_is_active : bool;
  kr_created_at : Z }.

#[export] Instance KeyDbRow_eq_dec : EqDecision KeyDbRow.
Proof. solve_decision. Defined.

Record EncryptedPrivateKey := MkEncryptedPrivateKey {
  ciphertext : list byte;
  master_key_version : Z }.

Record KeyPairEntity := MkKeyPairEntity {
  ke_id : Z;
  ke_service_id : ServiceId;
  ke_algorithm : KeyAlgorithm;
  ke_purpose : KeyPurpose;
  ke_public_key_pem : string;
  ke_encrypted_private_key : EncryptedPrivateKey;
  ke_version : Z;
  ke_status : KeyStatus;
  ke_created_at : Z;
  ke_expires_at : option Z }.

(** ** The table *)

(** [UNIQUE (service_id, algorithm, version)] and the unique index on
    [(service_id, algorithm) WHERE is_active]. *)
Definition same_version (s a : string) (v : Z) (r : KeyDbRow) : bool :=
  String.eqb (kr_service_id r) s && String.eqb (kr_algorithm r) a && (kr_version r =? v).
Definition is_active_for (s a : string) (r : KeyDbRow) : bool :=
  String.eqb (kr_service_id r) s && String.eqb (kr_algorithm r) a && kr_is_active r.

Definition uniq_active : SqlError := UniqueViolation "uniq_active_key_per_service_algorithm".

(** The columns [ON CONFLICT ... DO UPDATE] overwrites. *)
Definition overwrite (old new : KeyDbRow) : KeyDbRow :=
  {| kr_id := kr_id old; kr_service_id := kr_service_id old;
     kr_algorithm := kr_algorithm old; kr_version := kr_version old;
     kr_encrypted_key_data := kr_encrypted_key_data new;
     kr_public_key_pem := kr_public_key_pem new; kr_purpose := kr_purpose new;
     kr_status := kr_status new; kr_is_active := kr_is_active new;
     kr_created_at := kr_created_at new |}.

(** [INSERT INTO keys ... ON CONFLICT (service_id, algorithm, version) DO UPDATE] *)
Definition upsert (db : list KeyDbRow) (new : KeyDbRow) : result (list KeyDbRow) SqlError :=
  let hit := same_version (kr_service_id new) (kr_algorithm new) (kr_version new) in
  let blocked r :=
    kr_is_active new && negb (hit r)
    && is_active_for (kr_service_id new) (kr_algorithm new) r in
  if existsb hit db then
    if existsb blocked db then Err uniq_active
    else Ok ((λ r, if hit r then overwrite r new else r) <$> db)
  else if existsb (λ r, kr_id r =? kr_id new) db then Err (UniqueViolation "keys_pkey")
  else if existsb blocked db then Err uniq_active
  else Ok (db ++ [new]).

(** [UPDATE keys SET status = .., is_active = .. WHERE p] *)
Definition set_status (st : string) (active : bool) (r : KeyDbRow) : KeyDbRow :=
  {| kr_id := kr_id r; kr_service_id := kr_service_id r; kr_algorithm := kr_algorithm r;
     kr_version := kr_version r; kr_encrypted_key_data := kr_encrypted_key_data r;
     kr_public_key_pem := kr_public_key_pem r; kr_purpose := kr_purpose r;
     kr_status := st; kr_is_active := active; kr_created_at := kr_created_at r |}.
Definition set_created_at (now : Z) (r : KeyDbRow) : KeyDbRow :=
  {| kr_id := kr_id r; kr_service_id := kr_service_id r; kr_algorithm := kr_algorithm r;
     kr_version := kr_version r; kr_encrypted_key_data := kr_encrypted_key_data r;
     kr_public_key_pem := kr_public_key_pem r; kr_purpose := kr_purpose r;
     kr_status := kr_status r; kr_is_active := kr_is_active r; kr_created_at := now |}.
Definition set_encrypted (data : list byte) (r : KeyDbRow) : KeyDbRow :=
  {| kr_id := kr_id r; kr_service_id := kr_service_id r; kr_algorithm := kr_algorithm r;
     kr_version := kr_version r; kr_encrypted_key_data := data;
     kr_public_key_pem := kr_public_key_pem r; kr_purpose := kr_purpose r;
     kr_status := kr_status r; kr_is_active := kr_is_active r;
     kr_created_at := kr_created_at r |}.
Definition update_where (p : KeyDbRow → bool) (f : KeyDbRow → KeyDbRow) (db : list KeyDbRow) :
    list KeyDbRow :=
  (λ r, if p r then f r else r) <$> db.

(** *** KeyQueries *)

Definition KeyQueries_save_key (db : list KeyDbRow) (now id : Z) (service_id algorithm : string)
    (version : Z) (encrypted_key_data : list byte) (public_key_pem purpose status : string)
    (is_active : bool) : result (list KeyDbRow) SqlError :=
  upsert db (MkKeyDbRow id service_id algorithm (as_i32 version) encrypted_key_data
               public_key_pem purpose status is_active now).

(** [LIMIT 1]: the first row, in an order the query leaves open; the unique
    constraints leave at most one. *)
Definition KeyQueries_get_active_key (db : list KeyDbRow) (service_id algorithm : string) :
    option KeyDbRow :=
  head (filter (λ r, is_active_for service_id algorithm r = true) db).

Definition KeyQueries_get_key_by_version (db : list KeyDbRow) (service_id algorithm : string)
    (version : Z) : option KeyDbRow :=
  head (filter (λ r, same_version service_id algorithm (as_i32 version) r = true) db).

Definition KeyQueries_deactivate_keys_for_service (db : list KeyDbRow)
    (service_id algorithm : string) : list KeyDbRow :=
  update_where (is_active_for service_id algorithm) (set_status "Revoked" false) db.

Definition KeyQueries_update_key_status (db : list KeyDbRow) (key_id : Z) (status : string)
    (is_active : bool) : result (list KeyDbRow) SqlError :=
  let hit r := kr_id r =? key_id in
  let blocked r :=
    is_active && existsb (λ q, hit q && negb (hit r) &&
      is_active_for (kr_service_id q) (kr_algorithm q) r) db in
  if existsb blocked db then Err uniq_active
  else Ok (update_where hit (set_status status is_active) db).

Definition KeyQueries_compare_and_set_active_to_deprecated (db : list KeyDbRow) (key_id : Z) :
    bool * list KeyDbRow :=
  let p r := (kr_id r =? key_id) && String.eqb (kr_status r) "Active" in
  (bool_decide (length (filter (λ r, p r = true) db) = 1%nat),
   update_where p (set_status "Deprecated" false) db).

(** The two parts of the statement run in an order Postgres leaves open, on
    one snapshot: [retire_first] tells which is first.  A row that one part has
    already changed is not changed again: the conflict clause fails on it, the
    update passes over it. *)
Definition KeyQueries_rotate_active_key (retire_first : bool) (db : list KeyDbRow) (now : Z)
    (service_id algorithm old_status : string) (new_key_id new_key_version : Z)
    (encrypted_key_data : list byte) (public_key_pem purpose : string) :
    result (bool * list KeyDbRow) SqlError :=
  let new := MkKeyDbRow new_key_id service_id algorithm (as_i32 new_key_version)
               encrypted_key_data public_key_pem purpose "Active" true now in
  let retired := is_active_for service_id algorithm in
  let hit := same_version service_id algorithm (as_i32 new_key_version) in
  let retire := update_where (λ r, retired r && negb (hit r))
                  (λ r, set_created_at now (set_status old_status false r)) in
  if retire_first then
    if existsb (λ r, retired r && hit r) db then Err CardinalityViolation
    else let? db := upsert (retire db) new in Ok (true, db)
  else
    let? db := upsert db new in Ok (true, retire db).

Definition KeyQueries_update_encrypted_key (db : list KeyDbRow) (key_id : Z)
    (encrypted_key_data : list byte) : list KeyDbRow :=
  update_where (λ r, kr_id r =? key_id) (set_encrypted encrypted_key_data) db.

Definition KeyQueries_update_encrypted_keys_batch (db : list KeyDbRow)
    (updates : list (Z * list byte)) : nat * list KeyDbRow :=
  (length updates,
   foldl (λ db '(key_id, encrypted), KeyQueries_update_encrypted_key db key_id encrypted)
     db updates).

(** [ORDER BY] clauses over text columns follow the database's collation. *)
Class KeyOrder := { by_service : list KeyDbRow → list KeyDbRow }.
Class KeyOrderLaws (O : KeyOrder) := {
  by_service_perm db : by_service db ≡ₚ db }.

Definition newest_first (r1 r2 : KeyDbRow) : Prop := kr_created_at r2 ≤ kr_created_at r1.
#[export] Instance newest_first_dec : RelDecision newest_first.
Proof. intros r1 r2. unfold newest_first. apply _. Defined.

Definition KeyQueries_get_all_keys (db : list KeyDbRow) : list KeyDbRow :=
  merge_sort newest_first db.
Definition KeyQueries_get_keys_needing_rewrap (db : list KeyDbRow) : list KeyDbRow :=
  merge_sort newest_first db.
Definition KeyQueries_get_deprecated_keys_expired (db : list KeyDbRow) : list KeyDbRow :=
  merge_sort newest_first (filter (λ r, kr_status r = "Deprecated"%string) db).

Definition KeyQueries_get_all_active_keys `{KeyOrder} (db : list KeyDbRow) : list KeyDbRow :=
  by_service (filter (λ r, kr_is_active r = true) db).
Definition KeyQueries_get_all_active_public_keys `{KeyOrder} (db : list KeyDbRow) :
    list KeyDbRow :=
  by_service (filter (λ r, kr_is_active r = true) db).
(** The query of [get_active_or_valid_deprecated_key] is the same one. *)
Definition KeyQueries_get_active_or_valid_deprecated_key `{KeyOrder} (db : list KeyDbRow) :
    list KeyDbRow :=
  by_service (filter (λ r, kr_is_active r = true) db).

(** ** PgKeyRepository *)

Definition KeyPurpose_debug (p : KeyPurpose) : string :=
  match p with
  | Signing => "Signing" | Encryption => "Encryption" | Authentication => "Authentication"
  end.

Definition minutes (m : Z) : Z := m * 60000000000.

Definition map_key_row (row : KeyDbRow) : result KeyPairEntity AppError :=
  let? algorithm :=
    (if String.eqb (kr_algorithm row) "Ed25519" then Ok Ed25519
     else if String.eqb (kr_algorithm row) "X25519" then Ok X25519
     else if String.eqb (kr_algorithm row) "AES256GCM" then Ok AES256GCM
     else if String.eqb (kr_algorithm row) "HmacSha256" then Ok HmacSha256
     else Err (InternalError ("Unknown algorithm in database: " +s+ kr_algorithm row))) in
  let? purpose :=
    (if String.eqb (kr_purpose row) "Signing" then Ok Signing
     else if String.eqb (kr_purpose row) "Encryption" then Ok Encryption
     else if String.eqb (kr_purpose row) "Authentication" then Ok Authentication
     else Err (InternalError ("Unknown purpose in database: " +s+ kr_purpose row))) in
  let? status :=
    (if String.eqb (kr_status row) "Active" then Ok Active
     else if String.eqb (kr_status row) "Revoked" then Ok Revoked
     else if String.eqb (kr_status row) "Compromised" then Ok Compromised
     else if String.eqb (kr_status row) "Deprecated" then
       Ok (Deprecated (kr_created_at row + minutes 30))
     else if String.eqb (kr_status row) "Expired" then Ok Expired
     else Err (InternalError ("Unknown key status in database: " +s+ kr_status row))) in
  Ok {| ke_id := kr_id row;
        ke_service_id := kr_service_id row;
        ke_algorithm := algorithm;
        ke_purpose := purpose;
        ke_public_key_pem := kr_public_key_pem row;
        ke_encrypted_private_key := MkEncryptedPrivateKey (kr_encrypted_key_data row) 0;
        ke_version := as_u32 (kr_version row);
        ke_status := status;
        ke_created_at := kr_created_at row;
        ke_expires_at := None |}.

(** [rows.into_iter().map(map_key_row).collect()] *)
Fixpoint map_key_rows (rows : list KeyDbRow) : result (list KeyPairEntity) AppError :=
  match rows with
  | [] => Ok []
  | row :: rows =>
    let? e := map_key_row row in
    let? es := map_key_rows rows in
    Ok (e :: es)
  end.

Definition map_opt_row (row : option KeyDbRow) : result (option KeyPairEntity) AppError :=
  match row with
  | Some r => let? e := map_key_row r in Ok (Some e)
  | None => Ok None
  end.

(** [format!("{:?}", status)]: [debug_time] is [chrono]'s debug text of an
    instant. *)
Class DebugTime := { debug_time : Z → string }.

Definition KeyStatus_debug `{DebugTime} (st : KeyStatus) : string :=
  match st with
  | Active => "Active"
  | Deprecated valid_until => "Deprecated { valid_until: " +s+ debug_time valid_until +s+ " }"
  | Revoked => "Revoked"
  | Expired => "Expired"
  | Compromised => "Compromised"
  end.

Definition is_active_status (st : KeyStatus) : bool :=
  match st with Active => true | _ => false end.

Section repository.
  Context `{SqlDisplay} `{DebugTime} `{KeyOrder}.

Definition save_key (db : list KeyDbRow) (now : Z) (key_pair : KeyPairEntity) :
    result (list KeyDbRow) AppError :=
  let status :=
    str_replace "Deprecated { valid_until: ... }" "Deprecated"
      (KeyStatus_debug (ke_status key_pair)) in
  let is_active := is_active_status (ke_status key_pair) in
  map_err db_error
    (KeyQueries_save_key db now (ke_id key_pair) (ke_service_id key_pair)
       (KeyAlgorithm_debug (ke_algorithm key_pair)) (ke_version key_pair)
       (ciphertext (ke_encrypted_private_key key_pair)) (ke_public_key_pem key_pair)
       (KeyPurpose_debug (ke_purpose key_pair)) status is_active).

Definition get_active_key (db : list KeyDbRow) (service_id : ServiceId) (algo : KeyAlgorithm) :
    result (option KeyPairEntity) AppError :=
  map_opt_row (KeyQueries_get_active_key db service_id (KeyAlgorithm_debug algo)).

Definition get_key_by_version (db : list KeyDbRow) (service_id : ServiceId)
    (algo : KeyAlgorithm) (version : Z) : result (option KeyPairEntity) AppError :=
  map_opt_row
    (KeyQueries_get_key_by_version db service_id (KeyAlgorithm_debug algo) version).

Definition get_all_active_keys (db : list KeyDbRow) : result (list KeyPairEntity) AppError :=
  map_key_rows (KeyQueries_get_all_active_keys db).

Definition get_all_active_public_keys (db : list KeyDbRow) :
    result (list KeyPairEntity) AppError :=
  map_key_rows (KeyQueries_get_all_active_public_keys db).

Definition deactivate_keys_for_service (db : list KeyDbRow) (service_id : ServiceId)
    (algo : KeyAlgorithm) : list KeyDbRow :=
  KeyQueries_deactivate_keys_for_service db service_id (KeyAlgorithm_debug algo).

Definition status_str (st : KeyStatus) : string :=
  match st with
  | Active => "Active"
  | Deprecated _ => "Deprecated"
  | Revoked => "Revoked"
  | Expired => "Expired"
  | Compromised => "Compromised"
  end.

Definition update_key_status (db : list KeyDbRow) (key_id : Z) (status : KeyStatus)
    (deprecated_until : option Z) : result (list KeyDbRow) AppError :=
  map_err db_error
    (KeyQueries_update_key_status db key_id (status_str status) (is_active_status status)).

Definition compare_and_set_active_to_deprecated (db : list KeyDbRow) (key_id : Z)
    (deprecated_until : Z) : bool * list KeyDbRow :=
  KeyQueries_compare_and_set_active_to_deprecated db key_id.

Definition rotate_active_key (retire_first : bool) (db : list KeyDbRow) (now : Z)
    (service_id : ServiceId) (algorithm : KeyAlgorithm) (new_key : KeyPairEntity)
    (deprecated_until : option Z) : result (bool * list KeyDbRow) AppError :=
  let old_status :=
    (match deprecated_until with Some _ => "Deprecated" | None => "Compromised" end)%string in
  map_err db_error
    (KeyQueries_rotate_active_key retire_first db now service_id
       (KeyAlgorithm_debug algorithm) old_status (ke_id new_key) (ke_version new_key)
       (ciphertext (ke_encrypted_private_key new_key)) (ke_public_key_pem new_key)
       (KeyPurpose_debug (ke_purpose new_key))).

Definition expired_at (now : Z) (e : KeyPairEntity) : bool :=
  match ke_status e with Deprecated valid_until => valid_until <=? now | _ => false end.

Definition get_deprecated_keys_expired (db : list KeyDbRow) (now : Z) :
    result (list KeyPairEntity) AppError :=
  let? entities := map_key_rows (KeyQueries_get_deprecated_keys_expired db) in
  Ok (filter (λ e, expired_at now e = true) entities).

(** The loop of [get_active_or_valid_deprecated_key]. *)
Fixpoint find_usable (service_id : ServiceId) (algo : KeyAlgorithm) (now : Z)
    (rows : list KeyDbRow) : result (option KeyPairEntity) AppError :=
  match rows with
  | [] => Ok None
  | row :: rows =>
    let? entity := map_key_row row in
    if bool_decide (ke_service_id entity = service_id) && bool_decide (ke_algorithm entity = algo)
       && match ke_status entity with
          | Active => true
          | Deprecated valid_until => now <? valid_until
          | _ => false
          end
    then Ok (Some entity)
    else find_usable service_id algo now rows
  end.

Definition get_active_or_valid_deprecated_key (db : list KeyDbRow) (service_id : ServiceId)
    (algo : KeyAlgorithm) (now : Z) : result (option KeyPairEntity) AppError :=
  find_usable service_id algo now (KeyQueries_get_active_or_valid_deprecated_key db).

Definition get_all_keys (db : list KeyDbRow) : result (list KeyPairEntity) AppError :=
  map_key_rows (KeyQueries_get_all_keys db).

Definition update_encrypted_key (db : list KeyDbRow) (key_id : Z)
    (encrypted : EncryptedPrivateKey) : list KeyDbRow :=
  KeyQueries_update_encrypted_key db key_id (ciphertext encrypted).

Definition get_keys_needing_rewrap (db : list KeyDbRow) (current_master_version : Z)
    (batch_size : nat) : result (list KeyPairEntity) AppError :=
  map_key_rows (take batch_size (KeyQueries_get_keys_needing_rewrap db)).

Definition update_encrypted_keys_batch (db : list KeyDbRow)
    (updates : list (Z * EncryptedPrivateKey * Z)) : nat * list KeyDbRow :=
  KeyQueries_update_encrypted_keys_batch db
    ((λ '(key_id, encrypted, _), (key_id, ciphertext encrypted)) <$> updates).

End repository.

(** ** KeyCache *)

Definition KeyCacheKey : Type := string * KeyAlgorithm.
#[export] Instance KeyCacheKey_eq_dec : EqDecision KeyCacheKey.
Proof. unfold KeyCacheKey. apply _. Defined.
#[export] Instance KeyCacheKey_countable : Countable KeyCacheKey.
Proof. unfold KeyCacheKey. apply _. Defined.

Record CachedKeyValue := MkCachedKeyValue { cv_version : Z; cv_bytes : list byte }.

(** [Arc<RwLock<HashMap<KeyCacheKey, CachedKeyValue>>>]; the lock is never
    poisoned, as no holder panics. *)
Abbreviation KeyCache := (gmap KeyCacheKey CachedKeyValue) (only parsing).

Definition KeyCache_new : KeyCache := ∅.

Definition with_key {R} (c : KeyCache) (target_service : ServiceId) (algorithm : KeyAlgorithm)
    (f : Z → list byte → R) : option R :=
  (λ v, f (cv_version v) (cv_bytes v)) <$> c !! ((target_service, algorithm) : KeyCacheKey).

Definition cache_insert (c : KeyCache) (target_service : ServiceId) (algorithm : KeyAlgorithm)
    (version : Z) (value : list byte) : KeyCache :=
  <[((target_service, algorithm) : KeyCacheKey) := MkCachedKeyValue version value]> c.

Definition cache_remove (c : KeyCache) (target_service : ServiceId) (algorithm : KeyAlgorithm) :
    KeyCache :=
  delete ((target_service, algorithm) : KeyCacheKey) c.

Definition remove_all_for_service (c : KeyCache) (target_service : ServiceId) : KeyCache :=
  filter (λ kv, kv.1.1 ≠ target_service) c.

Definition cache_clear (c : KeyCache) : KeyCache := ∅.

Definition keys_snapshot (c : KeyCache) : list KeyCacheKey := (map_to_list c).*1.

(** ** The table invariant *)

(** Two different rows respect the unique constraints. *)
Definition compat (r r' : KeyDbRow) : Prop :=
  kr_id r ≠ kr_id r' ∧
  (kr_service_id r = kr_service_id r' → kr_algorithm r = kr_algorithm r' →
   kr_version r ≠ kr_version r' ∧ (kr_is_active r && kr_is_active r') = false).

(** The flag and the status say the same. *)
Definition row_ok (r : KeyDbRow) : Prop :=
  kr_is_active r = String.eqb (kr_status r) "Active".

Record table_wf (db : list KeyDbRow) : Prop := {
  wf_rows : Forall row_ok db;
  wf_pairs i j r r' : db !! i = Some r → db !! j = Some r' → i ≠ j → compat r r' }.

Lemma same_version_true s a v r :
  same_version s a v r = true ↔ kr_service_id r = s ∧ kr_algorithm r = a ∧ kr_version r = v.
Proof.
  unfold same_version. rewrite !andb_true_iff, !String.eqb_eq, Z.eqb_eq. tauto.
Qed.

Lemma is_active_for_true s a r :
  is_active_for s a r = true ↔ kr_service_id r = s ∧ kr_algorithm r = a ∧ kr_is_active r = true.
Proof. unfold is_active_for. rewrite !andb_true_iff, !String.eqb_eq. tauto. Qed.

Lemma existsb_false {A} (p : A → bool) l : existsb p l = false ↔ ∀ x, x ∈ l → p x = false.
Proof.
  rewrite <- not_true_iff_false, existsb_exists. split.
  - intros Hn x Hx. apply not_true_iff_false. intros Hp. apply Hn. exists x.
    by rewrite <- list_elem_of_In.
  - intros Hall (x & Hx%list_elem_of_In & Hp). rewrite (Hall x Hx) in Hp. done.
Qed.

Lemma compat_sym r r' : compat r r' → compat r' r.
Proof.
  unfold compat. intros [? Hc]. split; [congruence|]. intros E1 E2.
  destruct Hc as [? ?]; [congruence..|]. split; [congruence|]. by rewrite andb_comm.
Qed.

(** A function on rows that keeps the key columns and activates nothing. *)
Record passive (f : KeyDbRow → KeyDbRow) : Prop := {
  passive_id r : kr_id (f r) = kr_id r;
  passive_service r : kr_service_id (f r) = kr_service_id r;
  passive_algorithm r : kr_algorithm (f r) = kr_algorithm r;
  passive_version r : kr_version (f r) = kr_version r;
  passive_active r : kr_is_active (f r) = true → kr_is_active r = true;
  passive_ok r : row_ok r → row_ok (f r) }.

Lemma update_where_passive p f : passive f → passive (λ r, if p r : bool then f r else r).
Proof. intros P. split; intros r; destruct (p r); try done; apply P. Qed.

Lemma passive_compat f r r' : passive f → compat r r' → compat (f r) (f r').
Proof.
  intros P [Hid Hc]. split; [by rewrite !(passive_id _ P)|].
  rewrite !(passive_service _ P), !(passive_algorithm _ P), !(passive_version _ P).
  intros E1 E2. destruct (Hc E1 E2) as [Hv Ha]. split; [done|].
  pose proof (passive_active _ P r). pose proof (passive_active _ P r').
  destruct (kr_is_active (f r)), (kr_is_active (f r')); try done.
  rewrite H, H0 in Ha by done. done.
Qed.

Lemma table_wf_fmap f db : passive f → table_wf db → table_wf (f <$> db).
Proof.
  intros P W. split.
  - apply Forall_fmap. eapply Forall_impl; [apply W|]. intros r. apply P.
  - intros i j r r'. rewrite !list_lookup_fmap.
    intros (r1 & E1 & ->)%fmap_Some (r2 & E2 & ->)%fmap_Some Hij.
    apply passive_compat; [done|]. by eapply (wf_pairs _ W).
Qed.

Lemma table_wf_update p f db : passive f → table_wf db → table_wf (update_where p f db).
Proof. intros P. apply table_wf_fmap. by apply update_where_passive. Qed.

Lemma set_status_passive st : st ≠ "Active"%string → passive (set_status st false).
Proof. intros Hst. split; try done. intros r _. unfold row_ok. cbn. by destruct (String.eqb_spec st "Active"). Qed.
Lemma set_created_at_passive now : passive (set_created_at now).
Proof. by split. Qed.
Lemma set_encrypted_passive data : passive (set_encrypted data).
Proof. by split. Qed.
Lemma passive_compose f g : passive f → passive g → passive (λ r, f (g r)).
Proof.
  intros F G. split; intros r; rewrite ?(passive_id _ F), ?(passive_service _ F),
    ?(passive_algorithm _ F), ?(passive_version _ F); try apply G.
  - intros Ha. by apply G, F.
  - intros Ho. by apply F, G.
Qed.

#[export] Hint Resolve set_status_passive set_created_at_passive set_encrypted_passive
  table_wf_update : kms.
#[export] Hint Extern 1 (_ ≠ _) => discriminate : kms.

(** A row that replaces or joins rows with which it shares no active slot. *)
Lemma overwrite_compat new r r' :
  compat r r' →
  (kr_is_active new && negb (same_version (kr_service_id new) (kr_algorithm new) (kr_version new) r')
     && is_active_for (kr_service_id new) (kr_algorithm new) r') = false →
  same_version (kr_service_id new) (kr_algorithm new) (kr_version new) r = true →
  same_version (kr_service_id new) (kr_algorithm new) (kr_version new) r' = false →
  compat (overwrite r new) r'.
Proof.
  intros [Hid Hc] Hb (Es & Ea & Ev)%same_version_true Hh. rewrite Hh in Hb. split; [done|].
  cbn. intros Es' Ea'. destruct (Hc Es' Ea') as [Hv _]. split; [done|].
  destruct (kr_is_active new); [|done]. cbn [andb negb] in *. unfold is_active_for in Hb.
  by rewrite <- Es', <- Ea', Es, Ea, !String.eqb_refl in Hb.
Qed.

Lemma upsert_update_wf db new :
  table_wf db → row_ok new →
  let hit := same_version (kr_service_id new) (kr_algorithm new) (kr_version new) in
  existsb (λ r, kr_is_active new && negb (hit r)
    && is_active_for (kr_service_id new) (kr_algorithm new) r) db = false →
  table_wf ((λ r, if hit r then overwrite r new else r) <$> db).
Proof.
  intros W Ho hit Hb. rewrite existsb_false in Hb. split.
  - apply Forall_fmap. eapply Forall_impl; [apply W|]. intros r Hr. cbn. by case_match.
  - intros i j r r'. rewrite !list_lookup_fmap.
    intros (q & Eq & ->)%fmap_Some (q' & Eq' & ->)%fmap_Some Hij.
    pose proof (wf_pairs _ W _ _ _ _ Eq Eq' Hij) as Hc.
    pose proof (Hb q (list_elem_of_lookup_2 _ _ _ Eq)) as B.
    pose proof (Hb q' (list_elem_of_lookup_2 _ _ _ Eq')) as B'.
    destruct (hit q) eqn:Hq, (hit q') eqn:Hq'; cbn; try done.
    + apply same_version_true in Hq as (? & ? & ?), Hq' as (? & ? & ?).
      exfalso. destruct Hc as [_ Hc]. destruct Hc; congruence.
    + apply overwrite_compat; [done| |done..]. unfold hit in Hq'. by rewrite Hq'.
    + apply compat_sym, overwrite_compat; [by apply compat_sym| |done..].
      unfold hit in Hq. by rewrite Hq.
Qed.

Lemma upsert_insert_wf db new :
  table_wf db → row_ok new →
  let hit := same_version (kr_service_id new) (kr_algorithm new) (kr_version new) in
  existsb hit db = false → existsb (λ r, kr_id r =? kr_id new) db = false →
  existsb (λ r, kr_is_active new && negb (hit r)
    && is_active_for (kr_service_id new) (kr_algorithm new) r) db = false →
  table_wf (db ++ [new]).
Proof.
  intros W Ho hit Hh Hi Hb. rewrite existsb_false in Hh, Hi, Hb.
  assert (∀ r, r ∈ db → compat r new) as C.
  { intros r Hr. specialize (Hh r Hr). specialize (Hi r Hr). specialize (Hb r Hr).
    split; [by apply Z.eqb_neq in Hi|]. intros Es Ea.
    assert (kr_version r ≠ kr_version new) as Hv.
    { intros Ev. assert (hit r = true) by by apply same_version_true. congruence. }
    split; [done|]. rewrite Hh in Hb. destruct (kr_is_active new); [|by rewrite andb_false_r].
    cbn in Hb. rewrite andb_true_r. unfold is_active_for in Hb.
    by rewrite Es, Ea, !String.eqb_refl in Hb. }
  split.
  - apply Forall_app. split; [apply W|]. by repeat constructor.
  - intros i j r r' Er Er' Hij. rewrite lookup_snoc_Some in Er, Er'.
    destruct Er as [[? Er]|[? <-]], Er' as [[? Er']|[? <-]].
    + by eapply (wf_pairs _ W).
    + apply C. by eapply list_elem_of_lookup_2.
    + apply compat_sym, C. by eapply list_elem_of_lookup_2.
    + lia.
Qed.

Lemma upsert_wf db new db' : table_wf db → row_ok new → upsert db new = Ok db' → table_wf db'.
Proof.
  intros W Ho E. unfold upsert in E.
  destruct (existsb (same_version _ _ _) db) eqn:Hh.
  - case_match eqn:Hb; [done|]. injection E as <-. by apply upsert_update_wf.
  - case_match eqn:Hi; [done|]. case_match eqn:Hb; [done|]. injection E as <-.
    by apply upsert_insert_wf.
Qed.

Lemma rotate_wf first db now s a old id v data pem purpose b db' :
  old ≠ "Active"%string → table_wf db →
  KeyQueries_rotate_active_key first db now s a old id v data pem purpose = Ok (b, db') →
  table_wf db'.
Proof.
  intros Ho W E.
  assert (passive (λ r, set_created_at now (set_status old false r))) as P.
  { apply passive_compose; auto with kms. }
  unfold KeyQueries_rotate_active_key in E. destruct first.
  - case_match; [done|]. apply result_bind_Ok in E as (db1 & E & [= _ <-]).
    eapply upsert_wf; [| |exact E]; [by apply table_wf_update|done].
  - apply result_bind_Ok in E as (db1 & E & [= _ <-]).
    apply table_wf_update; [done|]. eapply upsert_wf; [exact W| |exact E]. done.
Qed.

Lemma update_key_status_wf db key_id st active db' :
  active = String.eqb st "Active" → table_wf db →
  KeyQueries_update_key_status db key_id st active = Ok db' → table_wf db'.
Proof.
  intros Ha W E. unfold KeyQueries_update_key_status in E. case_match eqn:Hb; [done|].
  injection E as <-. rewrite existsb_false in Hb. split.
  - apply Forall_fmap. eapply Forall_impl; [apply W|]. intros r Hr. cbn. by case_match.
  - intros i j r r'. unfold update_where. rewrite !list_lookup_fmap.
    intros (q & Eq & ->)%fmap_Some (q' & Eq' & ->)%fmap_Some Hij.
    pose proof (wf_pairs _ W _ _ _ _ Eq Eq' Hij) as Hc.
    assert (∀ q q', q ∈ db → q' ∈ db → compat q q' → (kr_id q =? key_id) = true →
      compat (set_status st active q) q') as Hset.
    { clear -Hb. intros q q' Hq Hq' Hc Hhit. destruct Hc as [Hid Hc]. split; [done|]. cbn.
      intros Es Ea. destruct (Hc Es Ea) as [Hv _]. split; [done|].
      destruct active; [|done]. specialize (Hb q' Hq'). cbn [andb] in Hb.
      rewrite existsb_false in Hb. specialize (Hb q Hq). rewrite Hhit in Hb.
      assert ((kr_id q' =? key_id) = false) as Hn
        by (apply Z.eqb_neq; apply Z.eqb_eq in Hhit; congruence).
      rewrite Hn in Hb. cbn [andb negb] in *. unfold is_active_for in Hb.
      by rewrite Es, Ea, !String.eqb_refl in Hb. }
    apply list_elem_of_lookup_2 in Eq, Eq'. cbn.
    destruct (kr_id q =? key_id) eqn:Hq, (kr_id q' =? key_id) eqn:Hq'; try done.
    + apply Z.eqb_eq in Hq, Hq'. destruct Hc. congruence.
    + by apply Hset.
    + apply compat_sym, Hset; try done. by apply compat_sym.
Qed.

(** ** Lookups *)

Lemma head_filter_unique {A} (P : A → Prop) `{∀ x, Decision (P x)} (l : list A) x :
  (∀ y z, y ∈ l → z ∈ l → P y → P z → y = z) →
  head (filter P l) = Some x ↔ x ∈ l ∧ P x.
Proof.
  intros U. split.
  - intros E. apply head_Some_elem_of in E. apply list_elem_of_filter in E. tauto.
  - intros [Hx Px]. destruct (filter P l) as [|y l'] eqn:E.
    + exfalso. apply (not_elem_of_nil x). rewrite <- E. by apply list_elem_of_filter.
    + cbn. f_equal. assert (y ∈ filter P l) as Hy by (rewrite E; left).
      apply list_elem_of_filter in Hy as [Py Hy]. by apply U.
Qed.

Lemma table_wf_unique db r r' :
  table_wf db → r ∈ db → r' ∈ db → r = r' ∨ compat r r'.
Proof.
  intros W [i Hi]%list_elem_of_lookup_1 [j Hj]%list_elem_of_lookup_1.
  destruct (decide (i = j)) as [->|Hij]; [left; congruence|right]. by eapply (wf_pairs _ W).
Qed.

Lemma get_active_key_Some db s a r :
  table_wf db →
  KeyQueries_get_active_key db s a = Some r ↔ r ∈ db ∧ is_active_for s a r = true.
Proof.
  intros W. apply (head_filter_unique (λ r, is_active_for s a r = true)). intros y z Hy Hz
    (? & ? & Ay)%is_active_for_true (? & ? & Az)%is_active_for_true.
  destruct (table_wf_unique db y z W Hy Hz) as [|[_ Hc]]; [done|].
  destruct Hc as [_ Hc]; [congruence..|]. by rewrite Ay, Az in Hc.
Qed.

Lemma get_key_by_version_Some db s a v r :
  table_wf db →
  KeyQueries_get_key_by_version db s a v = Some r ↔ r ∈ db ∧ same_version s a (as_i32 v) r = true.
Proof.
  intros W. apply (head_filter_unique (λ r, same_version s a (as_i32 v) r = true)).
  intros y z Hy Hz (? & ? & ?)%same_version_true (? & ? & ?)%same_version_true.
  destruct (table_wf_unique db y z W Hy Hz) as [|[_ Hc]]; [done|].
  destruct Hc; congruence.
Qed.

Lemma elem_of_update_where p f db r :
  r ∈ update_where p f db ↔ ∃ q, q ∈ db ∧ r = (if p q then f q else q).
Proof. unfold update_where. rewrite list_elem_of_fmap. naive_solver. Qed.

(** A row survives an update that does not concern it. *)
Lemma elem_of_update_where_other p f db r : r ∈ db → p r = false → r ∈ update_where p f db.
Proof. intros Hr Hp. apply elem_of_update_where. exists r. by rewrite Hp. Qed.

(** ** Histories of the repository *)

Section histories.
  Context `{SqlDisplay} `{DebugTime}.

(** The writes of [PgKeyRepository]. *)
Inductive repo_step : list KeyDbRow → list KeyDbRow → Prop :=
| step_save db now k db' : save_key db now k = Ok db' → repo_step db db'
| step_deactivate db s a : repo_step db (deactivate_keys_for_service db s a)
| step_status db id st until db' :
    update_key_status db id st until = Ok db' → repo_step db db'
| step_compare_and_set db id until :
    repo_step db (compare_and_set_active_to_deprecated db id until).2
| step_rotate first db now s a k until b db' :
    rotate_active_key first db now s a k until = Ok (b, db') → repo_step db db'
| step_encrypted db id e : repo_step db (update_encrypted_key db id e)
| step_encrypted_batch db updates :
    repo_step db (update_encrypted_keys_batch db updates).2.

(** What [save_key] writes into [status] is [Active] for active keys only. *)
Lemma str_replace_head c from to s :
  String.length to ≠ 0%nat →
  (∃ s', str_replace from to (String c s) = String c s') ∨
  (∃ s', str_replace from to (String c s) = to +s+ s').
Proof.
  intros Hto. unfold str_replace. cbn [str_replace_fuel String.length].
  destruct (find_sub from (String c s)) as [[|i]|]; [right|left|left]; [by eexists| |by eexists].
  cbn [str_take]. rewrite str_app_cons. by eexists.
Qed.

Lemma save_status_ok st :
  is_active_status st =
  String.eqb (str_replace "Deprecated { valid_until: ... }" "Deprecated" (KeyStatus_debug st))
    "Active".
Proof.
  destruct st as [|t| | |]; try (vm_compute; reflexivity).
  change (KeyStatus_debug (Deprecated t)) with
    (String "D"%char ("eprecated { valid_until: " +s+ debug_time t +s+ " }")).
  by destruct (str_replace_head "D"%char "Deprecated { valid_until: ... }" "Deprecated"
    ("eprecated { valid_until: " +s+ debug_time t +s+ " }")) as [[s' ->]|[s' ->]].
Qed.

Lemma save_key_wf db now k db' : table_wf db → save_key db now k = Ok db' → table_wf db'.
Proof.
  intros W E. apply map_err_Ok in E. eapply upsert_wf; [exact W| |exact E].
  unfold row_ok. cbn [kr_is_active kr_status]. apply save_status_ok.
Qed.

Lemma update_encrypted_batch_wf updates : ∀ db,
  table_wf db → table_wf (KeyQueries_update_encrypted_keys_batch db updates).2.
Proof.
  induction updates as [|[id e] updates IH]; intros db W; [done|].
  apply IH. unfold KeyQueries_update_encrypted_key. auto with kms.
Qed.

Lemma repo_step_wf db db' : repo_step db db' → table_wf db → table_wf db'.
Proof.
  intros S W. destruct S as [db now k db' E|db s a|db id st until db' E|db id until
    |first db now s a k until b db' E|db id e|db updates].
  - by eapply save_key_wf.
  - apply table_wf_update; auto with kms.
  - apply map_err_Ok in E. eapply update_key_status_wf; [|exact W|exact E]. by destruct st.
  - apply table_wf_update; auto with kms.
  - apply map_err_Ok in E. eapply rotate_wf; [|exact W|exact E]. by destruct until.
  - apply table_wf_update; auto with kms.
  - by apply update_encrypted_batch_wf.
Qed.

(** Along every history of the repository's writes, rotations in either
    order included, the key table keeps its invariant: the active flag and the
    status agree in every row, and a service never has two active keys for one
    algorithm nor two keys of one version. *)
Theorem key_table_invariant db :
  rtc repo_step [] db →
  Forall row_ok db ∧
  ∀ s a v r r', r ∈ db → r' ∈ db →
    (is_active_for s a r = true → is_active_for s a r' = true → r = r') ∧
    (same_version s a v r = true → same_version s a v r' = true → r = r').
Proof.
  intros R. assert (table_wf db) as W.
  { apply (rtc_ind_r (λ d, table_wf d) []) in R; [done|by split|].
    intros d d' _ S W. by eapply repo_step_wf. }
  split; [apply W|]. intros s a v r r' Hr Hr'.
  destruct (table_wf_unique db r r' W Hr Hr') as [->|[_ Hc]]; [done|]. split.
  - intros (? & ? & A)%is_active_for_true (? & ? & A')%is_active_for_true.
    destruct Hc as [_ Hc]; [congruence..|]. by rewrite A, A' in Hc.
  - intros (? & ? & ?)%same_version_true (? & ? & ?)%same_version_true.
    destruct Hc; congruence.
Qed.

End histories.

(** ** Rotation *)

Section rotation.
  Context `{SqlDisplay}.

(** The row a rotation leaves of the key it retires, and the one it adds. *)
Definition retired_row (now : Z) (until : option Z) (r : KeyDbRow) : KeyDbRow :=
  set_created_at now (set_status (match until with Some _ => "Deprecated"
    | None => "Compromised" end) false r).
Definition rotated_row (now : Z) (s : ServiceId) (a : KeyAlgorithm) (k : KeyPairEntity) : KeyDbRow :=
  MkKeyDbRow (ke_id k) s (KeyAlgorithm_debug a) (as_i32 (ke_version k))
    (ciphertext (ke_encrypted_private_key k)) (ke_public_key_pem k)
    (KeyPurpose_debug (ke_purpose k)) "Active" true now.

(** The key's version and id are new. *)
Definition fresh_version (db : list KeyDbRow) (s : ServiceId) (a : KeyAlgorithm) (v id : Z) : Prop :=
  ∀ q, q ∈ db → same_version s (KeyAlgorithm_debug a) (as_i32 v) q = false ∧ kr_id q ≠ id.

Lemma retire_elem db now s a until hit r q :
  table_wf db → (∀ x, x ∈ db → hit x = false) →
  KeyQueries_get_active_key db s (KeyAlgorithm_debug a) = Some r →
  q ∈ update_where (λ x, is_active_for s (KeyAlgorithm_debug a) x && negb (hit x))
        (retired_row now until) db ↔
  q = retired_row now until r ∨ (q ∈ db ∧ q ≠ r).
Proof.
  intros W Hh Hr. pose proof Hr as [Hin Ha]%get_active_key_Some; [|done].
  assert (∀ x, x ∈ db → is_active_for s (KeyAlgorithm_debug a) x = bool_decide (x = r)) as Hact.
  { intros x Hx. case_bool_decide as Hxr; [by subst|]. apply not_true_iff_false. intros Hax.
    apply Hxr. assert (KeyQueries_get_active_key db s (KeyAlgorithm_debug a) = Some x) as E
      by by apply get_active_key_Some. congruence. }
  rewrite elem_of_update_where. split.
  - intros (x & Hx & ->). rewrite Hh, andb_true_r, Hact by done.
    case_bool_decide; [subst; by left|by right].
  - intros [->|[Hq Hqr]]; [exists r|exists q]; (split; [done|]);
      rewrite Hh, andb_true_r, Hact by done; by case_bool_decide.
Qed.

(** The insertion of the new row into a table without its version, id and an
    active key. *)
Lemma upsert_fresh db new :
  (∀ q, q ∈ db → same_version (kr_service_id new) (kr_algorithm new) (kr_version new) q = false ∧
     kr_id q ≠ kr_id new ∧ is_active_for (kr_service_id new) (kr_algorithm new) q = false) →
  upsert db new = Ok (db ++ [new]).
Proof.
  intros Hq. unfold upsert.
  rewrite (proj2 (existsb_false _ db)) by (intros q Hin; by apply Hq).
  rewrite (proj2 (existsb_false (λ r, kr_id r =? kr_id new) db))
    by (intros q Hin; apply Z.eqb_neq; by apply Hq).
  rewrite (proj2 (existsb_false _ db)); [done|].
  intros q Hin. destruct (Hq q Hin) as (_ & _ & ->). by rewrite andb_false_r.
Qed.

(** With the retiring part first, the rotation replaces the active row. *)
Lemma rotate_retire_first db now s a k until r :
  table_wf db → KeyQueries_get_active_key db s (KeyAlgorithm_debug a) = Some r →
  fresh_version db s a (ke_version k) (ke_id k) →
  ∃ db', rotate_active_key true db now s a k until = Ok (true, db') ∧ table_wf db' ∧
    ∀ q, q ∈ db' ↔
      q = rotated_row now s a k ∨ q = retired_row now until r ∨ (q ∈ db ∧ q ≠ r).
Proof.
  intros W Hr Hf. unfold rotate_active_key.
  set (hit := same_version s (KeyAlgorithm_debug a) (as_i32 (ke_version k))).
  assert (∀ x, x ∈ db → hit x = false) as Hh by (intros x Hx; by apply Hf).
  pose proof (λ q, retire_elem db now s a until hit r q W Hh Hr) as Hret.
  pose proof Hr as [Hin Ha]%get_active_key_Some; [|done].
  set (db1 := update_where (λ x, is_active_for s (KeyAlgorithm_debug a) x && negb (hit x))
        (retired_row now until) db) in *.
  assert (upsert db1 (rotated_row now s a k) = Ok (db1 ++ [rotated_row now s a k])) as U.
  { apply upsert_fresh. intros q [->|[Hq Hqr]]%Hret; cbn.
    - split_and!; [by apply (Hf r)|by apply (Hf r)|]. unfold is_active_for. by rewrite andb_false_r.
    - split_and!; [by apply Hf|by apply Hf|]. apply not_true_iff_false. intros Hact. apply Hqr.
      assert (KeyQueries_get_active_key db s (KeyAlgorithm_debug a) = Some q)
        by by apply get_active_key_Some. congruence. }
  assert (KeyQueries_rotate_active_key true db now s (KeyAlgorithm_debug a)
    (match until with Some _ => "Deprecated" | None => "Compromised" end)%string
    (ke_id k) (ke_version k) (ciphertext (ke_encrypted_private_key k)) (ke_public_key_pem k)
    (KeyPurpose_debug (ke_purpose k)) = Ok (true, db1 ++ [rotated_row now s a k])) as E.
  { unfold KeyQueries_rotate_active_key. fold hit.
    rewrite (proj2 (existsb_false _ db)) by (intros x Hx; by rewrite Hh, andb_false_r).
    change (upsert _ _) with (upsert db1 (rotated_row now s a k)). by rewrite U. }
  rewrite E. eexists. split; [done|]. split.
  - eapply rotate_wf; [|exact W|exact E]. by destruct until.
  - intros q. rewrite elem_of_app, list_elem_of_singleton, Hret. tauto.
Qed.

(** With the inserting part first, the active row is in the way. *)
Lemma rotate_insert_first db now s a k until r :
  table_wf db → KeyQueries_get_active_key db s (KeyAlgorithm_debug a) = Some r →
  fresh_version db s a (ke_version k) (ke_id k) →
  rotate_active_key false db now s a k until = Err (db_error uniq_active).
Proof.
  intros W [Hin Ha]%get_active_key_Some Hf; [|done]. unfold rotate_active_key,
    KeyQueries_rotate_active_key, upsert. cbn [kr_service_id kr_algorithm kr_version kr_id kr_is_active].
  rewrite (proj2 (existsb_false _ db)) by (intros x Hx; by apply Hf).
  rewrite (proj2 (existsb_false (λ r, kr_id r =? ke_id k) db))
    by (intros x Hx; apply Z.eqb_neq; by apply Hf).
  match goal with |- context [existsb ?p db] => assert (existsb p db = true) as -> end; [|done].
  apply existsb_exists. exists r. split; [by apply list_elem_of_In|].
  rewrite (proj1 (Hf r Hin)). cbn. exact Ha.
Qed.

(** A rotation's effect depends on an order the statement leaves open.
    With an active key and a new version and id, the parts of the statement in
    the intended order replace the active key: it is retired as [Deprecated]
    or [Compromised] with its key data intact, the new key becomes the only
    active one, and every other row is as before.  In the other order the
    unique index on active keys makes the statement fail. *)
Theorem rotation_depends_on_order db now s a k until r :
  table_wf db → KeyQueries_get_active_key db s (KeyAlgorithm_debug a) = Some r →
  fresh_version db s a (ke_version k) (ke_id k) →
  (∃ db', rotate_active_key true db now s a k until = Ok (true, db') ∧ table_wf db' ∧
     KeyQueries_get_active_key db' s (KeyAlgorithm_debug a) = Some (rotated_row now s a k) ∧
     ∀ q, q ∈ db' ↔
       q = rotated_row now s a k ∨ q = retired_row now until r ∨ (q ∈ db ∧ q ≠ r)) ∧
  rotate_active_key false db now s a k until = Err (db_error uniq_active).
Proof.
  intros W Hr Hf. split; [|by eapply rotate_insert_first].
  destruct (rotate_retire_first db now s a k until r W Hr Hf) as (db' & E & W' & Hq).
  exists db'. split_and!; try done. apply get_active_key_Some; [done|].
  split; [apply Hq; by left|]. apply is_active_for_true. done.
Qed.

End rotation.

(** ** Concrete instances *)

Module ConcreteKeys.

#[export] Instance debug_epoch : DebugTime := { debug_time t := pretty t }.
#[export] Instance stored_order : KeyOrder := { by_service db := db }.
#[export] Instance stored_order_laws : KeyOrderLaws stored_order.
Proof. by split. Qed.

End ConcreteKeys.

Section KeyStoreWitnesses.
  Import Concrete ConcreteKeys.

Definition demo_entity (id version : Z) : KeyPairEntity :=
  MkKeyPairEntity id "svc" Ed25519 Signing "pem"
    (MkEncryptedPrivateKey [byte_of_Z id] 1) version Active 0 None.
Definition demo_table (r : result (list KeyDbRow) AppError) : list KeyDbRow :=
  match r with Ok db => db | Err _ => [] end.
Definition demo_keys : list KeyDbRow := demo_table (save_key [] 5 (demo_entity 1 1)).
Definition demo_row : KeyDbRow :=
  MkKeyDbRow 1 "svc" "Ed25519" 1 [byte_of_Z 1] "pem" "Signing" "Active" true 5.

Lemma demo_keys_wf : table_wf demo_keys.
Proof.
  apply (repo_step_wf []); [|by split]. apply (step_save [] 5 (demo_entity 1 1)).
  vm_compute. reflexivity.
Qed.

Lemma key_table_invariant_witness : Forall row_ok demo_keys.
Proof.
  destruct (key_table_invariant demo_keys) as [F _]; [|exact F].
  apply rtc_once. apply (step_save [] 5 (demo_entity 1 1)). vm_compute. reflexivity.
Defined.

Lemma rotation_depends_on_order_witness :
  rotate_active_key false demo_keys 9 "svc" Ed25519 (demo_entity 2 2) (Some 0) =
    Err (db_error uniq_active) ∧
  ∃ db', rotate_active_key true demo_keys 9 "svc" Ed25519 (demo_entity 2 2) (Some 0) =
    Ok (true, db').
Proof.
  destruct (rotation_depends_on_order demo_keys 9 "svc" Ed25519 (demo_entity 2 2) (Some 0) demo_row)
    as [(db' & E & _) Hfail].
  - exact demo_keys_wf.
  - vm_compute. reflexivity.
  - intros q Hq. assert (q = demo_row) as -> by by apply list_elem_of_singleton in Hq.
    split; vm_compute; [reflexivity|discriminate].
  - split; [exact Hfail|]. exists db'. exact E.
Defined.

End KeyStoreWitnesses.
