(* ===== verification/KeyUseCases.v ===== *)
(** * Key use cases

    Models the use cases of [kms-service/src/application/use_cases] that
    generate, rotate, read, use and rewrap keys, the workers
    [workers/expiration.rs] and [workers/cache_cleanup.rs], and the crypto
    service [infrastructure/crypto/kms_service.rs] over
    [infrastructure/crypto/vhsm_client.rs].  A use case runs over the key
    table, the key cache and the audit repository; like the code it goes on
    from one call to the next and stops at the first error, keeping what the
    earlier calls have done. *)

From stdpp Require Import sorting.
From S2P Require Import Prelude.
From S2P Require Import Interfaces.
From S2P Require Import Protocol.
From S2P Require Import Vhsm.
From S2P Require Import Domain.
From S2P Require Import Acl.
From S2P Require Import AuditLog.
From S2P Require Import AuditChain.
From S2P Require Import KeyStore.

(** ** The state of a use case *)

(** [trait AuditRepository] *)
Class AuditRepository (A : Type) := {
  audit_record : A → AuditLog → result unit AppError * A }.

Record World (A : Type) := MkWorld {
  w_keys : list KeyDbRow;
  w_cache : KeyCache;
  w_audit : A }.
Arguments MkWorld {A}.
Arguments w_keys {A}.
Arguments w_cache {A}.
Arguments w_audit {A}.

(** A step that may fail, on the state. *)
Definition svc (A X : Type) : Type := World A → result X AppError * World A.

Definition svc_ret {A X} (x : X) : svc A X := λ w, (Ok x, w).
Definition svc_err {A X} (e : AppError) : svc A X := λ w, (Err e, w).
Definition svc_bind {A X Y} (m : svc A X) (k : X → svc A Y) : svc A Y := λ w,
  match m w with (Ok x, w) => k x w | (Err e, w) => (Err e, w) end.
Definition svc_of {A X} (r : result X AppError) : svc A X := λ w, (r, w).

Notation "'let*' x ':=' m 'in' k" := (svc_bind m (λ x, k))
  (at level 10, x pattern, m at level 100, k at level 200,
   format "'[hv' 'let*'  x  ':='  m  'in'  '/' k ']'") : kms_scope.
Notation "m ';;*' k" := (svc_bind m (λ _, k))
  (at level 100, right associativity, format "'[hv' m  ';;*' '/' k ']'") : kms_scope.

Definition with_keys {A X} (f : list KeyDbRow → result X AppError) : svc A X := λ w,
  (f (w_keys w), w).
Definition update_keys {A X} (f : list KeyDbRow → result (X * list KeyDbRow) AppError) :
    svc A X := λ w,
  match f (w_keys w) with
  | Ok (x, db) => (Ok x, MkWorld db (w_cache w) (w_audit w))
  | Err e => (Err e, w)
  end.
Definition with_cache {A X} (f : KeyCache → X) : svc A X := λ w, (Ok (f (w_cache w)), w).
Definition update_cache {A} (f : KeyCache → KeyCache) : svc A unit := λ w,
  (Ok (), MkWorld (w_keys w) (f (w_cache w)) (w_audit w)).
Definition audit {A} `{AuditRepository A} (log : AuditLog) : svc A unit := λ w,
  let (r, a) := audit_record (w_audit w) log in (r, MkWorld (w_keys w) (w_cache w) a).

(** ** The crypto service *)

Record RawKeyPair := MkRawKeyPair {
  rk_public_key_pem : string;
  rk_private_key_bytes : list byte }.

(** [trait KmsCryptoService]; the random source of each call is an argument. *)
Class KmsCryptoService := {
  generate_ed25519_keypair : Entropy → result RawKeyPair AppError;
  generate_x25519_keypair : Entropy → result RawKeyPair AppError;
  generate_symmetric_key : Entropy → result RawKeyPair AppError;
  encrypt_private_key : Entropy → list byte → result EncryptedPrivateKey AppError;
  decrypt_private_key : EncryptedPrivateKey → result (list byte) AppError;
  current_master_key_version : result Z AppError }.

(** Keys, credentials and connection strings are short.  Up to this size every
    message about one fits the frames of the daemon, whatever its bytes
    ([framed_transport_laws]); beyond it a ciphertext may be too long to be sent
    back. *)
Definition SECRET_MAX : Z := 4096.

(** What the use cases rely on: a short secret that was encrypted is decrypted,
    from its ciphertext alone, and the keys that are generated are short. *)
Class KmsCryptoLaws (C : KmsCryptoService) := {
  decrypt_encrypted ent p e v :
    blen p ≤ SECRET_MAX → encrypt_private_key ent p = Ok e →
    decrypt_private_key (MkEncryptedPrivateKey (ciphertext e) v) = Ok p;
  ed25519_fits ent raw :
    generate_ed25519_keypair ent = Ok raw → blen (rk_private_key_bytes raw) ≤ SECRET_MAX;
  x25519_fits ent raw :
    generate_x25519_keypair ent = Ok raw → blen (rk_private_key_bytes raw) ≤ SECRET_MAX;
  symmetric_fits ent raw :
    generate_symmetric_key ent = Ok raw → blen (rk_private_key_bytes raw) ≤ SECRET_MAX }.

(** *** VhsmClient and VhsmCryptoService *)

Section VhsmService.
  (** [send_request]: the framed exchange with the daemon. *)
  Context (send_request : Entropy → HsmRequest → result HsmResponse AppError).
  (** Key generation of [ed25519-dalek] and [x25519-dalek] with the PEM
      encoders. *)
  Context (ed25519_generate x25519_generate : Entropy → result RawKeyPair AppError).

Definition VhsmClient_status (ent : Entropy) : result Z AppError :=
  let? response := send_request ent Status in
  match response with
  | StatusInfo _ active_key_version => Ok active_key_version
  | Error _ message => Err (CryptoError ("vHSM status error: " +s+ message) None)
  | _ => Err (CryptoError "Nieoczekiwana odpowiedź vHSM dla status" None)
  end.

Definition VhsmClient_encrypt (ent : Entropy) (plaintext : list byte) :
    result (list byte) AppError :=
  let? response := send_request ent (Encrypt "master_key" None plaintext) in
  match response with
  | Encrypted ciphertext _ => Ok ciphertext
  | Error _ message => Err (CryptoError ("vHSM błąd: " +s+ message) None)
  | _ => Err (CryptoError "Nieoczekiwana odpowiedź vHSM" None)
  end.

Definition VhsmClient_decrypt (ent : Entropy) (ciphertext : list byte) :
    result (list byte) AppError :=
  let? response := send_request ent (Decrypt "master_key" None ciphertext) in
  match response with
  | Decrypted plaintext _ => Ok plaintext
  | Error _ message => Err (CryptoError ("vHSM błąd: " +s+ message) None)
  | _ => Err (CryptoError "Nieoczekiwana odpowiedź vHSM" None)
  end.

Definition VhsmCryptoService_generate_symmetric_key (ent : Entropy) :
    result RawKeyPair AppError :=
  match ent 0 32%nat with
  | Ok key_bytes => Ok (MkRawKeyPair EmptyString key_bytes)
  | Err e => Err (CryptoError ("RNG error: " +s+ e) (Some e))
  end.

Definition VhsmCryptoService_current_master_key_version (ent : Entropy) : result Z AppError :=
  let? version := VhsmClient_status ent in Ok (as_i32 version).

Definition VhsmCryptoService_encrypt_private_key (ent : Entropy) (private_key : list byte) :
    result EncryptedPrivateKey AppError :=
  let? ciphertext := VhsmClient_encrypt ent private_key in
  let? version := VhsmCryptoService_current_master_key_version ent in
  Ok (MkEncryptedPrivateKey ciphertext version).

(** Neither decryption nor the status draws random bytes: [ent0] stands for
    the unused source. *)
Definition VhsmCryptoService (ent0 : Entropy) : KmsCryptoService := {|
  generate_ed25519_keypair := ed25519_generate;
  generate_x25519_keypair := x25519_generate;
  generate_symmetric_key := VhsmCryptoService_generate_symmetric_key;
  encrypt_private_key := VhsmCryptoService_encrypt_private_key;
  decrypt_private_key e := VhsmClient_decrypt ent0 (ciphertext e);
  current_master_key_version := VhsmCryptoService_current_master_key_version ent0 |}.

End VhsmService.

(** The exchange without its frames: the handler of a daemon in a fixed state.  A
    task that dies leaves the client with a closed connection.  The exchange
    over the socket, with the limits of the frames and the daemon's codec, is
    [framed_transport] of [VhsmClient]; they agree on messages that fit
    ([service_client_transparent]). *)
Definition daemon_transport `{SsssLib} `{Aead} `{Sha256} `{Hex} `{P256} `{X509}
    (s : VhsmState) (now : Z) (ent : Entropy) (req : HsmRequest) : result HsmResponse AppError :=
  match (run (handle_request ent now req) s).1 with
  | Replied r => Ok r
  | _ => Err (RuntimeError "Błąd odczytu nagłówka odpowiedzi z vHSM: early eof")
  end.

(** ** Use cases *)

(** [ed25519-dalek]'s signature under a 32-byte private key. *)
Class Ed25519Sign := { ed25519_sign : list byte → list byte → list byte }.

(** The clock, the identifiers and the random sources a call takes. *)
Record Env := MkEnv {
  env_now : Z;
  env_key_id : Z;
  env_audit_id : Z;
  env_generate : Entropy;
  env_encrypt : Entropy }.

(** [json!({...})] *)
Definition json (entries : list (string * Value)) : option Value :=
  Some (VObject (btree_of_list entries)).

Record GenerateKeyPairInput := MkGenerateKeyPairInput {
  gi_caller_service : ServiceId;
  gi_service_id : ServiceId;
  gi_algorithm : KeyAlgorithm;
  gi_purpose : KeyPurpose }.

Record RotateKeyInput := MkRotateKeyInput {
  ri_service_id : ServiceId;
  ri_algorithm : KeyAlgorithm;
  ri_caller_service : ServiceId;
  ri_reason : RotationReason;
  ri_actor_id : string }.

Record GetKeyInput := MkGetKeyInput {
  ki_caller_service : ServiceId;
  ki_target_service : ServiceId;
  ki_algorithm : KeyAlgorithm }.

Record GetKeyOutput := MkGetKeyOutput {
  ko_service_id : ServiceId;
  ko_algorithm : KeyAlgorithm;
  ko_version : Z;
  ko_key_bytes : list byte }.

Record SignDataInput := MkSignDataInput {
  si_caller_service : ServiceId;
  si_target_service : ServiceId;
  si_algorithm : KeyAlgorithm;
  si_payload : list byte;
  si_key_version : option Z }.

Record SignDataOutput := MkSignDataOutput {
  so_service_id : ServiceId;
  so_algorithm : KeyAlgorithm;
  so_key_version : Z;
  so_signature_bytes : list byte }.

Definition RotationReason_debug (r : RotationReason) : string :=
  match r with
  | Scheduled => "Scheduled" | RotationCompromised => "Compromised" | Manual => "Manual"
  end.

Section UseCases.
  Context `{Json} `{UuidFmt} `{KmsCryptoService} `{SqlDisplay} `{DebugTime} `{KeyOrder}
    `{Ed25519Sign}.
  Context {A : Type} `{AuditRepository A}.
  Implicit Types (env : Env) (ctx : RequestContext) (acl : CompiledAcl).

(** [AuditService], with the repository of the state. *)
Definition success env ctx (action : AuditAction) (details : option Value) : svc A unit :=
  record_success audit (env_audit_id env) (env_now env) ctx action details.
Definition failure env ctx (action : AuditAction) (reason : string) : svc A unit :=
  record_failure audit (env_audit_id env) (env_now env) ctx action reason.
Definition access_denied env ctx (action : AuditAction) (reason : string) : svc A unit :=
  record_access_denied audit (env_audit_id env) (env_now env) ctx action reason.
Definition validation_failure env ctx (action : AuditAction) (reason : string) : svc A unit :=
  record_validation_failure audit (env_audit_id env) (env_now env) ctx action reason.

(** [match input.algorithm { ... }] of generation and rotation. *)
Definition generate_for (unsupported : string) env (a : KeyAlgorithm) :
    result RawKeyPair AppError :=
  match a with
  | Ed25519 => generate_ed25519_keypair (env_generate env)
  | X25519 => generate_x25519_keypair (env_generate env)
  | AES256GCM | HmacSha256 => generate_symmetric_key (env_generate env)
  | EcdsaP256 => Err (ValidationError unsupported)
  end.

(** *** generate_key_pair.rs *)

Definition generate_key_pair acl env ctx (input : GenerateKeyPairInput) : svc A KeyPairEntity :=
  let may := authorize_control_action acl (gi_caller_service input) in
  if negb (may GenerateKeys || may RotateOwnKeys || may RotateAllKeys) then
    access_denied env ctx GenerateKey "ACL Policy Violation for GenerateKey" ;;*
    svc_err Unauthorized
  else
    let* current_key :=
      with_keys (λ db, get_active_key db (gi_service_id input) (gi_algorithm input)) in
    let* version :=
      match current_key with
      | Some key =>
        update_keys (λ db, Ok ((),
          deactivate_keys_for_service db (gi_service_id input) (gi_algorithm input))) ;;*
        svc_ret (as_u32 (ke_version key + 1))
      | None => svc_ret 1
      end in
    let* generated_pair :=
      svc_of (generate_for "ECDSA_P256 is not supported for in-process key generation" env
                (gi_algorithm input)) in
    let* encrypted :=
      svc_of (encrypt_private_key (env_encrypt env) (rk_private_key_bytes generated_pair)) in
    let entity := {|
      ke_id := env_key_id env; ke_service_id := gi_service_id input;
      ke_algorithm := gi_algorithm input; ke_purpose := gi_purpose input;
      ke_public_key_pem := rk_public_key_pem generated_pair;
      ke_encrypted_private_key := encrypted; ke_version := version;
      ke_status := Active; ke_created_at := env_now env; ke_expires_at := None |} in
    update_keys (λ db, let? db := save_key db (env_now env) entity in Ok ((), db)) ;;*
    success env ctx GenerateKey (json [
      ("target_service", VString (gi_service_id input));
      ("algorithm", VString (KeyAlgorithm_debug (gi_algorithm input)));
      ("key_id", VString (uuid_to_string (ke_id entity)));
      ("version", VNumber (pretty (ke_version entity)));
      ("purpose", VString (KeyPurpose_debug (gi_purpose input)))]%string) ;;*
    svc_ret entity.

(** *** rotate_key.rs *)

(** [retire_first] is the order Postgres takes in the rotation statement. *)
Definition rotate_key (retire_first : bool) (grace_period_minutes : Z) acl env ctx
    (input : RotateKeyInput) : svc A KeyPairEntity :=
  let required_action :=
    if bool_decide (ri_service_id input = ri_caller_service input)
    then RotateOwnKeys else RotateAllKeys in
  if negb (authorize_control_action acl (ri_caller_service input) required_action) then
    access_denied env ctx KeyRotated "ACL Policy Violation" ;;* svc_err Unauthorized
  else
    let* active :=
      with_keys (λ db, get_active_key db (ri_service_id input) (ri_algorithm input)) in
    let* active_key :=
      match active with
      | Some k => svc_ret k
      | None => svc_err (NotFound ("Cannot rotate key: No active key exists for service '"
          +s+ ri_service_id input +s+ "' with algorithm '"
          +s+ KeyAlgorithm_debug (ri_algorithm input) +s+ "'"))
      end in
    let* generated_pair :=
      svc_of (generate_for "ECDSA_P256 rotation is not supported by this service" env
                (ri_algorithm input)) in
    let* encrypted :=
      svc_of (encrypt_private_key (env_encrypt env) (rk_private_key_bytes generated_pair)) in
    let new_entity := {|
      ke_id := env_key_id env; ke_service_id := ri_service_id input;
      ke_algorithm := ri_algorithm input; ke_purpose := ke_purpose active_key;
      ke_public_key_pem := rk_public_key_pem generated_pair;
      ke_encrypted_private_key := encrypted;
      ke_version := as_u32 (ke_version active_key + 1);
      ke_status := Active; ke_created_at := env_now env; ke_expires_at := None |} in
    let deprecated_until :=
      match ri_reason input with
      | Scheduled | Manual => Some (env_now env + minutes grace_period_minutes)
      | RotationCompromised => None
      end in
    let* rotated :=
      update_keys (λ db, rotate_active_key retire_first db (env_now env) (ri_service_id input)
                           (ri_algorithm input) new_entity deprecated_until) in
    if negb rotated then
      svc_err (Conflict "Failed to rotate key atomically: concurrent modification or active-key race")
    else
      update_cache (λ c,
        match ri_reason input with
        | RotationCompromised => remove_all_for_service c (ri_service_id input)
        | _ => cache_remove c (ri_service_id input) (ri_algorithm input)
        end) ;;*
      success env ctx KeyRotated (json [
        ("service_id", VString (ri_service_id input));
        ("algorithm", VString (KeyAlgorithm_debug (ri_algorithm input)));
        ("reason", VString (RotationReason_debug (ri_reason input)));
        ("actor_id", VString (ri_actor_id input));
        ("new_version", VNumber (pretty (ke_version new_entity)))]%string) ;;*
      svc_ret new_entity.

(** *** get_private_key.rs and get_symmetric_key.rs

    The two differ in the access level, the audit action and the texts. *)

Definition get_key (level : KeyAccessLevel) (action : AuditAction)
    (denied missing : string) (not_found : AppError) acl env ctx (input : GetKeyInput) :
    svc A GetKeyOutput :=
  let target := ki_target_service input in
  let algo := ki_algorithm input in
  if negb (authorize_key_access acl (ki_caller_service input) target algo level) then
    access_denied env ctx action denied ;;* svc_err Unauthorized
  else
    let* cached := with_cache (λ c, with_key c target algo (λ v bs, (v, bs))) in
    match cached with
    | Some (cached_version, cached_bytes) =>
      success env ctx action (json [
        ("cache_hit", VBool true);
        ("target_service", VString target);
        ("algorithm", VString (KeyAlgorithm_debug algo))]%string) ;;*
      svc_ret (MkGetKeyOutput target algo cached_version cached_bytes)
    | None =>
      let* key := with_keys (λ db, get_active_key db target algo) in
      match key with
      | None => validation_failure env ctx action missing ;;* svc_err not_found
      | Some active_key =>
        let* decrypted := svc_of (decrypt_private_key (ke_encrypted_private_key active_key)) in
        (if CompiledAcl_should_preload_for acl target algo then
           update_cache (λ c, cache_insert c target algo (ke_version active_key) decrypted)
         else svc_ret ()) ;;*
        success env ctx action (json [
          ("target_service", VString target);
          ("algorithm", VString (KeyAlgorithm_debug algo));
          ("version", VNumber (pretty (ke_version active_key)))]%string) ;;*
        svc_ret (MkGetKeyOutput (ke_service_id active_key) (ke_algorithm active_key)
                   (ke_version active_key) decrypted)
      end
    end.

Definition get_private_key acl env ctx (input : GetKeyInput) : svc A GetKeyOutput :=
  get_key PrivateKey GetPrivateKey "ACL Policy Violation" "Key does not exist"
    (NotFound "Key not found") acl env ctx input.

Definition get_symmetric_key acl env ctx (input : GetKeyInput) : svc A GetKeyOutput :=
  get_key SymmetricKey GetSymmetricKey "ACL Policy Violation for Symmetric Key"
    "Symmetric Key does not exist"
    (NotFound ("Brak aktywnego klucza symetrycznego dla " +s+ ki_target_service input))
    acl env ctx input.

(** *** get_public_key.rs *)

Definition get_public_key env ctx (service_id : ServiceId) (algorithm : KeyAlgorithm) :
    svc A KeyPairEntity :=
  let* key :=
    with_keys (λ db, get_active_or_valid_deprecated_key db service_id algorithm (env_now env)) in
  match key with
  | Some k =>
    success env ctx GetPublicKey (json [
      ("service_id", VString service_id);
      ("algorithm", VString (KeyAlgorithm_debug algorithm));
      ("key_version", VNumber (pretty (ke_version k)))]%string) ;;*
    svc_ret k
  | None =>
    validation_failure env ctx GetPublicKey "No active or valid deprecated public key found" ;;*
    svc_err (NotFound ("No active or valid deprecated public key found for service '"
      +s+ service_id +s+ "' with algorithm '" +s+ KeyAlgorithm_debug algorithm +s+ "'"))
  end.

(** *** sign_data.rs *)

(** The key on a cache miss: by version, or the active one. *)
Definition signing_key_for (input : SignDataInput) : svc A (option KeyPairEntity) :=
  match si_key_version input with
  | Some version =>
    with_keys (λ db,
      get_key_by_version db (si_target_service input) (si_algorithm input) version)
  | None => with_keys (λ db, get_active_key db (si_target_service input) (si_algorithm input))
  end.

Definition signing_bytes acl env ctx (input : SignDataInput) : svc A (list byte) :=
  let target := si_target_service input in
  let algo := si_algorithm input in
  let* cached := with_cache (λ c, with_key c target algo (λ _ bytes, bytes)) in
  match cached with
  | Some bytes => svc_ret bytes
  | None =>
    let* key := signing_key_for input in
    match key with
    | None =>
      validation_failure env ctx SignData "Signing key not found" ;;*
      svc_err (NotFound "Signing key not found")
    | Some key =>
      match decrypt_private_key (ke_encrypted_private_key key) with
      | Err e => failure env ctx SignData (AppError_display e) ;;* svc_err e
      | Ok bytes =>
        (if CompiledAcl_should_preload_for acl target algo then
           update_cache (λ c, cache_insert c target algo (ke_version key) bytes)
         else svc_ret ()) ;;*
        svc_ret bytes
      end
    end
  end.

Definition sign_data acl env ctx (input : SignDataInput) : svc A SignDataOutput :=
  let target := si_target_service input in
  let algo := si_algorithm input in
  if negb (bool_decide (algo = Ed25519)) then
    validation_failure env ctx SignData "Only Ed25519 signing is supported" ;;*
    svc_err (ValidationError "Signing endpoint supports only Ed25519 keys")
  else if negb (authorize_key_access acl (si_caller_service input) target algo PrivateKey) then
    access_denied env ctx SignData "ACL Policy Violation" ;;* svc_err Unauthorized
  else
    let* private_key_bytes := signing_bytes acl env ctx input in
    if (length private_key_bytes <? 32)%nat then
      failure env ctx SignData "Invalid Ed25519 private key length" ;;*
      svc_err (CryptoError "Invalid Ed25519 private key length" None)
    else
      let signature := ed25519_sign (take 32 private_key_bytes) (si_payload input) in
      let* output_version :=
        match si_key_version input with
        | Some version => svc_ret version
        | None =>
          let* key := with_keys (λ db, get_active_key db target algo) in
          svc_ret (from_option ke_version 0 key)
        end in
      success env ctx SignData (json [
        ("target_service", VString target);
        ("algorithm", VString (KeyAlgorithm_debug algo));
        ("key_version", VNumber (pretty output_version));
        ("payload_len", VNumber (pretty (length (si_payload input))))]%string) ;;*
      svc_ret (MkSignDataOutput target algo output_version signature).

(** *** rewrap_keys.rs *)

(** The inner loop: the new ciphertexts of a batch.  Each encryption draws
    from its own source. *)
Fixpoint rewrap_batch (ents : nat → Entropy) (current_version : Z) (keys : list KeyPairEntity) :
    result (list (Z * EncryptedPrivateKey * Z)) AppError :=
  match keys with
  | [] => Ok []
  | key :: keys =>
    let? decrypted := decrypt_private_key (ke_encrypted_private_key key) in
    let? reencrypted := encrypt_private_key (ents (length keys)) decrypted in
    let? rest := rewrap_batch ents current_version keys in
    Ok ((ke_id key, reencrypted, current_version) :: rest)
  end.

(** One round of the loop: [None] when nothing is pending. *)
Definition rewrap_round (ents : nat → Entropy) (current_version : Z) (batch_size : nat) :
    svc A (option nat) :=
  let* pending := with_keys (λ db, get_keys_needing_rewrap db current_version batch_size) in
  match pending with
  | [] => svc_ret None
  | _ =>
    let* updated := svc_of (rewrap_batch ents current_version pending) in
    let count := length updated in
    update_keys (λ db, Ok (update_encrypted_keys_batch db updated)) ;;*
    svc_ret (Some count)
  end.

(** [loop { ... }] for [fuel] rounds: its result, [None] while it is still
    running, and the state it has reached. *)
Fixpoint rewrap_loop (fuel : nat) (ents : nat → nat → Entropy) (current_version : Z)
    (batch_size total : nat) (w : World A) : option (result nat AppError) * World A :=
  match fuel with
  | O => (None, w)
  | S fuel =>
    match rewrap_round (ents fuel) current_version batch_size w with
    | (Err e, w) => (Some (Err e), w)
    | (Ok None, w) => (Some (Ok total), w)
    | (Ok (Some count), w) =>
      rewrap_loop fuel ents current_version batch_size (total + count) w
    end
  end.

Definition rewrap_keys (fuel : nat) (ents : nat → nat → Entropy) (target_master_version : Z)
    (batch_size : nat) (w : World A) : option (result nat AppError) * World A :=
  match current_master_key_version with
  | Err e => (Some (Err e), w)
  | Ok current_version =>
    if negb (current_version =? target_master_version) then
      (Some (Err (ValidationError ("Target master key version "
        +s+ pretty target_master_version +s+ " does not match KMS active version "
        +s+ pretty current_version))), w)
    else rewrap_loop fuel ents current_version batch_size 0 w
  end.

(** *** workers/expiration.rs *)

(** The loop over the expired keys; [ids] are the audit records' ids. *)
Fixpoint expire_keys (ids : nat → Z) (now : Z) (expired : list KeyPairEntity) : svc A unit :=
  match expired with
  | [] => svc_ret ()
  | key :: expired =>
    update_keys (λ db, let? db := update_key_status db (ke_id key) Expired None in Ok ((), db)) ;;*
    audit (AuditLog_new (ids (length expired)) (ke_service_id key) (ke_service_id key) KeyExpired
      (ke_algorithm key) Success
      (sanitize_reason (Some "Deprecated period expired; key expired automatically"%string))
      None None (Some (uuid_to_string (ke_id key))) (Some "key_expired"%string) now) ;;*
    expire_keys ids now expired
  end.

Definition process_expirations (ids : nat → Z) (now : Z) : svc A unit :=
  let* expired := with_keys (λ db, get_deprecated_keys_expired db now) in
  expire_keys ids now expired.

(** *** workers/cache_cleanup.rs *)

(** One pass over the snapshot; a database error leaves the entry. *)
Fixpoint cleanup_entries (now : Z) (entries : list KeyCacheKey) : svc A unit :=
  match entries with
  | [] => svc_ret ()
  | (service, algo) :: entries =>
    (λ w, match get_active_or_valid_deprecated_key (w_keys w) service algo now with
          | Ok None => update_cache (λ c, remove_all_for_service c service) w
          | _ => svc_ret () w
          end) ;;*
    cleanup_entries now entries
  end.

Definition cache_cleanup (now : Z) : svc A unit :=
  let* entries := with_cache keys_snapshot in
  cleanup_entries now entries.

End UseCases.

(** ** Steps *)

Section StepLemmas.
  Context {A : Type}.

Lemma svc_bind_Ok {X Y} (m : svc A X) (k : X → svc A Y) w y w' :
  svc_bind m k w = (Ok y, w') ↔ ∃ x w1, m w = (Ok x, w1) ∧ k x w1 = (Ok y, w').
Proof.
  unfold svc_bind. destruct (m w) as [[x|e] w1].
  - split; [eauto|]. by intros (? & ? & [= <- <-] & ?).
  - split; [done|]. by intros (? & ? & ? & _).
Qed.

Lemma svc_bind_step {X Y} (m : svc A X) (k : X → svc A Y) w x w1 :
  m w = (Ok x, w1) → svc_bind m k w = k x w1.
Proof. unfold svc_bind. by intros ->. Qed.

Lemma svc_bind_fail {X Y} (m : svc A X) (k : X → svc A Y) w e w1 :
  m w = (Err e, w1) → svc_bind m k w = (Err e, w1).
Proof. unfold svc_bind. by intros ->. Qed.

Context `{AuditRepository A}.

(** The repository accepts every record. *)
Definition audit_total : Prop := ∀ (a : A) log, ∃ a', audit_record a log = (Ok (), a').

(** The same keys and cache, whatever was audited. *)
Definition same_store (w w' : World A) : Prop :=
  w_keys w' = w_keys w ∧ w_cache w' = w_cache w.

Lemma audit_same_store log w : same_store w (audit log w).2.
Proof. unfold audit. by destruct (audit_record (w_audit w) log). Qed.

Lemma audit_ok log w :
  audit_total → ∃ a, audit log w = (Ok (), MkWorld (w_keys w) (w_cache w) a).
Proof. intros T. unfold audit. destruct (T (w_audit w) log) as [a ->]. by exists a. Qed.

(** An answer of denial: the audit record, then the error. *)
Lemma audit_then_err {X} log (e : AppError) w :
  same_store w (svc_bind (X := unit) (Y := X) (audit log) (λ _, svc_err e) w).2 ∧
  ∃ e', (svc_bind (X := unit) (Y := X) (audit log) (λ _, svc_err e) w).1 = Err e' ∧
        (audit_total → e' = e).
Proof.
  unfold svc_bind, svc_err. pose proof (audit_same_store log w) as S.
  pose proof (audit_ok log w) as T.
  destruct (audit log w) as [[[]|e'] w']; split; try done; eexists; split; try done.
  intros ?. by destruct T.
Qed.

End StepLemmas.

(** ** Denied callers *)

Section Denied.
  Context `{Json} `{UuidFmt} `{KmsCryptoService} `{SqlDisplay} `{DebugTime} `{KeyOrder}
    `{Ed25519Sign}.
  Context {A : Type} `{AuditRepository A}.

Lemma success_ok env ctx action d (w : World A) :
  audit_total (A := A) →
  ∃ a, success env ctx action d w = (Ok (), MkWorld (w_keys w) (w_cache w) a).
Proof. intros T. by apply audit_ok. Qed.

(** Refused: an error, [e] itself when the audit succeeds, and no change of
    keys or cache. *)
Definition refused {X} (e : AppError) (w : World A) (out : result X AppError * World A) : Prop :=
  same_store w out.2 ∧ ∃ e', out.1 = Err e' ∧ (audit_total (A := A) → e' = e).

(** A caller the access list does not allow gets [Unauthorized] from every
    key use case (or the error of a failing audit write), and neither the key
    table nor the key cache changes: generation without any of the three
    control actions, rotation without the action for its own or foreign keys,
    reading a private or symmetric key and signing without the access rule. *)
Theorem denied_changes_nothing acl env ctx w :
  (∀ input,
     authorize_control_action acl (gi_caller_service input) GenerateKeys = false →
     authorize_control_action acl (gi_caller_service input) RotateOwnKeys = false →
     authorize_control_action acl (gi_caller_service input) RotateAllKeys = false →
     refused Unauthorized w (generate_key_pair acl env ctx input w)) ∧
  (∀ first grace input,
     authorize_control_action acl (ri_caller_service input)
       (if bool_decide (ri_service_id input = ri_caller_service input)
        then RotateOwnKeys else RotateAllKeys) = false →
     refused Unauthorized w (rotate_key first grace acl env ctx input w)) ∧
  (∀ input,
     authorize_key_access acl (ki_caller_service input) (ki_target_service input)
       (ki_algorithm input) PrivateKey = false →
     refused Unauthorized w (get_private_key acl env ctx input w)) ∧
  (∀ input,
     authorize_key_access acl (ki_caller_service input) (ki_target_service input)
       (ki_algorithm input) SymmetricKey = false →
     refused Unauthorized w (get_symmetric_key acl env ctx input w)) ∧
  (∀ input,
     si_algorithm input = Ed25519 →
     authorize_key_access acl (si_caller_service input) (si_target_service input)
       (si_algorithm input) PrivateKey = false →
     refused Unauthorized w (sign_data acl env ctx input w)).
Proof.
  split_and!.
  - intros input D1 D2 D3. unfold generate_key_pair. rewrite D1, D2, D3. apply audit_then_err.
  - intros first grace input D1. unfold rotate_key. rewrite D1. apply audit_then_err.
  - intros input D1. unfold get_private_key, get_key. rewrite D1. apply audit_then_err.
  - intros input D1. unfold get_symmetric_key, get_key. rewrite D1. apply audit_then_err.
  - intros input Ha D1. unfold sign_data. rewrite D1, bool_decide_eq_true_2 by done.
    apply audit_then_err.
Qed.

(** The configured grace period has no effect: whatever its value, a
    rotation does the same and returns the same. *)
Theorem grace_period_ignored first g1 g2 acl env ctx input (w : World A) :
  rotate_key first g1 acl env ctx input w = rotate_key first g2 acl env ctx input w.
Proof.
  unfold rotate_key, rotate_active_key, minutes. by destruct (ri_reason input).
Qed.

End Denied.

(** ** Rewrapping *)

Section Rewrap.
  Context `{KmsCryptoLaws} {A : Type}.
  Implicit Types (w : World A).

(** What a row's key data decrypts to. *)
Definition row_plain (r : KeyDbRow) : result (list byte) AppError :=
  decrypt_private_key (MkEncryptedPrivateKey (kr_encrypted_key_data r) 0).

(** The rows with their key data replaced by what it decrypts to. *)
Definition plain_view (r : KeyDbRow) : KeyDbRow * result (list byte) AppError :=
  (set_encrypted [] r, row_plain r).

(** The keys of the table are short. *)
Definition keys_fit (db : list KeyDbRow) : Prop :=
  ∀ r p, r ∈ db → row_plain r = Ok p → blen p ≤ SECRET_MAX.

Lemma keys_fit_view db db' :
  plain_view <$> db' = plain_view <$> db → keys_fit db → keys_fit db'.
Proof.
  intros E F r' p Hr' Hp. apply (list_elem_of_fmap_2 plain_view) in Hr'.
  rewrite E in Hr'. apply list_elem_of_fmap in Hr' as (r & Hv & Hr).
  apply (F r p Hr). pose proof (f_equal snd Hv) as Hpl. cbn in Hpl. congruence.
Qed.

(** An update of row [id] to a ciphertext of the plaintext it has. *)
Definition good_update (db : list KeyDbRow) (u : Z * list byte) : Prop :=
  ∀ r, r ∈ db → kr_id r = u.1 →
    decrypt_private_key (MkEncryptedPrivateKey u.2 0) = row_plain r.

Lemma good_update_view db db' u :
  plain_view <$> db' = plain_view <$> db → good_update db u → good_update db' u.
Proof.
  intros E G r' Hr' Hid. apply (list_elem_of_fmap_2 plain_view) in Hr'.
  rewrite E in Hr'. apply list_elem_of_fmap in Hr' as (r & Hv & Hr).
  assert (kr_id r' = kr_id r ∧ row_plain r' = row_plain r) as [Hi ->].
  { unfold plain_view in Hv. split; [|congruence].
    exact (f_equal (λ v, kr_id v.1) Hv). }
  apply G; [done|congruence].
Qed.

Lemma update_encrypted_view db id data :
  good_update db (id, data) →
  plain_view <$> KeyQueries_update_encrypted_key db id data = plain_view <$> db.
Proof.
  intros G. unfold KeyQueries_update_encrypted_key, update_where. rewrite <- list_fmap_compose.
  apply list_fmap_ext. intros i r Hr. cbn. destruct (kr_id r =? id) eqn:E; [|done].
  apply Z.eqb_eq in E. unfold plain_view. f_equal.
  rewrite <- (G r); [done| |done]. by eapply list_elem_of_lookup_2.
Qed.

Lemma update_batch_view updates : ∀ db,
  Forall (good_update db) updates →
  plain_view <$> (KeyQueries_update_encrypted_keys_batch db updates).2 = plain_view <$> db.
Proof.
  induction updates as [|[id data] updates IH]; intros db F; [done|].
  apply Forall_cons in F as [G F]. unfold KeyQueries_update_encrypted_keys_batch in *.
  cbn [foldl snd] in *. rewrite IH; [by apply update_encrypted_view|].
  eapply Forall_impl; [exact F|]. intros u. apply good_update_view.
  by apply update_encrypted_view.
Qed.

Lemma map_key_row_fields r e :
  map_key_row r = Ok e →
  ke_id e = kr_id r ∧ ke_encrypted_private_key e = MkEncryptedPrivateKey (kr_encrypted_key_data r) 0
  ∧ ke_version e = as_u32 (kr_version r) ∧ ke_service_id e = kr_service_id r.
Proof.
  unfold map_key_row. intros E. apply result_bind_Ok in E as (al & _ & E).
  apply result_bind_Ok in E as (pu & _ & E). apply result_bind_Ok in E as (st & _ & E).
  injection E as <-. done.
Qed.

Lemma map_key_rows_Forall2 rows es :
  map_key_rows rows = Ok es → Forall2 (λ r e, map_key_row r = Ok e) rows es.
Proof.
  revert es. induction rows as [|r rows IH]; intros es E; cbn [map_key_rows] in E.
  - injection E as <-. constructor.
  - apply result_bind_Ok in E as (e & He & E). apply result_bind_Ok in E as (es' & Hes & E).
    injection E as <-. constructor; auto.
Qed.

Lemma rewrap_batch_good ents v db keys ups :
  table_wf db → keys_fit db →
  (∀ k, k ∈ keys → ∃ r, r ∈ db ∧ map_key_row r = Ok k) →
  rewrap_batch ents v keys = Ok ups →
  Forall (good_update db) ((λ '(id, e, _), (id, ciphertext e)) <$> ups) ∧
  length ups = length keys.
Proof.
  intros W Hfit. revert ups.
  induction keys as [|k keys IH]; intros ups Hk E; cbn [rewrap_batch] in E.
  - injection E as <-. by split.
  - apply result_bind_Ok in E as (p & Hp & E). apply result_bind_Ok in E as (e & He & E).
    apply result_bind_Ok in E as (rest & Hr & E). injection E as <-.
    destruct (IH rest) as [F L]; [intros; apply Hk; by right|done|].
    cbn [length fmap list_fmap]. split; [|lia]. constructor; [|done].
    destruct (Hk k) as (r & Hin & Hm); [left|].
    apply map_key_row_fields in Hm as (Hid & Henc & _).
    intros r' Hr' Eid. cbn [fst snd] in *.
    assert (r' = r) as -> by (destruct (table_wf_unique db r' r W Hr' Hin) as [|[? _]]; congruence).
    rewrite Henc in Hp. rewrite (decrypt_encrypted _ _ _ 0 (Hfit r p Hin Hp) He). done.
Qed.

Lemma pending_rows db v n es k :
  get_keys_needing_rewrap db v n = Ok es → k ∈ es → ∃ r, r ∈ db ∧ map_key_row r = Ok k.
Proof.
  intros F%map_key_rows_Forall2 Hk.
  apply list_elem_of_lookup_1 in Hk as [i Hi].
  destruct (Forall2_lookup_r _ _ _ _ _ F Hi) as (r & Hr & Hm).
  exists r. split; [|done]. apply list_elem_of_lookup_2 in Hr.
  apply elem_of_take in Hr as (j & Hj & _). apply list_elem_of_lookup_2 in Hj.
  unfold KeyQueries_get_keys_needing_rewrap in Hj. by rewrite merge_sort_Permutation in Hj.
Qed.

Lemma rewrap_round_view ents v n w out w' :
  table_wf (w_keys w) → keys_fit (w_keys w) → rewrap_round ents v n w = (out, w') →
  plain_view <$> w_keys w' = plain_view <$> w_keys w ∧ table_wf (w_keys w') ∧
  w_cache w' = w_cache w.
Proof.
  intros W Hfit E. unfold rewrap_round in E.
  unfold svc_bind, with_keys, svc_of, svc_ret, update_keys in E.
  destruct (get_keys_needing_rewrap (w_keys w) v n) as [es|e] eqn:G; [|by injection E as <- <-].
  destruct es as [|k es]; [by injection E as <- <-|].
  destruct (rewrap_batch ents v (k :: es)) as [ups|e] eqn:B; [|by injection E as <- <-].
  destruct (rewrap_batch_good ents v (w_keys w) (k :: es) ups W Hfit) as [F _];
    [by intros; eapply pending_rows|done|].
  cbn in E. injection E as <- <-. cbn [w_keys].
  split_and!; [by apply update_batch_view|by apply update_encrypted_batch_wf|done].
Qed.

Lemma rewrap_loop_view fuel ents v n : ∀ total w,
  table_wf (w_keys w) → keys_fit (w_keys w) →
  let w' := (rewrap_loop fuel ents v n total w).2 in
  plain_view <$> w_keys w' = plain_view <$> w_keys w ∧ table_wf (w_keys w') ∧
  w_cache w' = w_cache w.
Proof.
  induction fuel as [|fuel IH]; intros total w W Hfit; [done|]. cbn [rewrap_loop].
  destruct (rewrap_round (ents fuel) v n w) as [r w1] eqn:R.
  destruct (rewrap_round_view _ _ _ _ _ _ W Hfit R) as (V1 & W1 & C1).
  destruct r as [[count|]|e]; [|done..].
  destruct (IH (total + count)%nat w1 W1) as (V2 & W2 & C2); [by eapply keys_fit_view|].
  cbv zeta in *. by rewrite V2, C2.
Qed.

Lemma rewrap_keys_cases fuel ents target batch w :
  (∃ e, rewrap_keys fuel ents target batch w = (Some (Err e), w)) ∨
  ∃ v, rewrap_keys fuel ents target batch w = rewrap_loop fuel ents v batch 0 w.
Proof.
  unfold rewrap_keys. destruct current_master_key_version as [v|e]; [|eauto].
  case_match; eauto.
Qed.

(** C30: rewrapping loses no key: after any number of rounds, whether the loop
    has returned a count, has failed or is still running, every row of the table
    is there, decrypts to what it decrypted to before, and differs in its key
    data only; and the table stays well-formed.  The keys are at most
    [SECRET_MAX] bytes long. *)
Theorem rewrap_keeps_keys fuel ents target batch (w : World A) :
  table_wf (w_keys w) → keys_fit (w_keys w) →
  let w' := (rewrap_keys fuel ents target batch w).2 in
  plain_view <$> w_keys w' = plain_view <$> w_keys w ∧ table_wf (w_keys w') ∧
  w_cache w' = w_cache w.
Proof.
  intros W Hfit. destruct (rewrap_keys_cases fuel ents target batch w) as [[e ->]|[v ->]]; [done|].
  by apply rewrap_loop_view.
Qed.

(** *** The loop does not end *)

(** A row that can be rewrapped: it maps to an entity, its key data decrypts,
    and the plaintext can be encrypted again. *)
Definition readable (ents : nat → nat → Entropy) (r : KeyDbRow) : Prop :=
  (∃ e, map_key_row r = Ok e) ∧
  ∃ p, row_plain r = Ok p ∧ ∀ i j, ∃ e, encrypt_private_key (ents i j) p = Ok e.

Lemma map_key_row_view r r' :
  set_encrypted [] r = set_encrypted [] r' → (∃ e, map_key_row r = Ok e) →
  ∃ e, map_key_row r' = Ok e.
Proof.
  intros E [e He]. unfold map_key_row in *.
  apply result_bind_Ok in He as (al & Ha & He). apply result_bind_Ok in He as (pu & Hp & He).
  apply result_bind_Ok in He as (st & Hs & He).
  pose proof (f_equal kr_algorithm E) as Ea. pose proof (f_equal kr_purpose E) as Ep.
  pose proof (f_equal kr_status E) as Es. pose proof (f_equal kr_created_at E) as Ec.
  cbn in Ea, Ep, Es, Ec. rewrite <- Ea, <- Ep, <- Es, <- Ec, Ha. cbn [result_bind].
  rewrite Hp. cbn [result_bind]. rewrite Hs. by eexists.
Qed.

Lemma readable_view ents db db' :
  plain_view <$> db' = plain_view <$> db → Forall (readable ents) db →
  Forall (readable ents) db'.
Proof.
  rewrite !Forall_forall. intros E F r' Hr'. apply (list_elem_of_fmap_2 plain_view) in Hr'.
  rewrite E in Hr'. apply list_elem_of_fmap in Hr' as (r & Hv & Hr).
  destruct (F r Hr) as [Hm [p Hp]]. pose proof (f_equal snd Hv) as Hpl.
  split; [|exists p; cbn in Hpl; by rewrite Hpl].
  eapply map_key_row_view; [|exact Hm]. exact (eq_sym (f_equal fst Hv)).
Qed.

Lemma map_key_rows_ok ents rows :
  Forall (readable ents) rows → ∃ es, map_key_rows rows = Ok es.
Proof.
  induction 1 as [|r rows [[e He] _] _ [es Hes]]; [by eexists|].
  cbn [map_key_rows]. rewrite He. cbn [result_bind]. rewrite Hes. by eexists.
Qed.

Lemma rewrap_batch_total (ents : nat → nat → Entropy) i v keys :
  (∀ k, k ∈ keys → ∃ p, decrypt_private_key (ke_encrypted_private_key k) = Ok p ∧
     ∀ i j, ∃ e, encrypt_private_key (ents i j) p = Ok e) →
  ∃ ups, rewrap_batch (ents i) v keys = Ok ups.
Proof.
  induction keys as [|k keys IH]; intros D; [by eexists|]. cbn [rewrap_batch].
  destruct (D k) as (p & -> & T); [left|]. cbn [result_bind].
  destruct (T i (length keys)) as [e ->]. cbn [result_bind].
  destruct IH as [ups ->]; [intros; apply D; by right|]. by eexists.
Qed.

(** A table with rows always has a batch. *)
Lemma pending_nonempty db v n es :
  db ≠ [] → n ≠ 0%nat → get_keys_needing_rewrap db v n = Ok es → es ≠ [].
Proof.
  intros Hd Hn F%map_key_rows_Forall2%Forall2_length ->.
  rewrite length_take in F. unfold KeyQueries_get_keys_needing_rewrap in F.
  rewrite (Permutation_length (merge_sort_Permutation newest_first db)) in F.
  destruct db; [done|]. cbn [length] in F. lia.
Qed.

Lemma rewrap_round_not_done ents v n w w' :
  w_keys w ≠ [] → n ≠ 0%nat → rewrap_round ents v n w ≠ (Ok None, w').
Proof.
  intros Hd Hn E. unfold rewrap_round, svc_bind, with_keys, svc_of, svc_ret, update_keys in E.
  destruct (get_keys_needing_rewrap (w_keys w) v n) as [es|e] eqn:G; [|done].
  pose proof (pending_nonempty _ _ _ _ Hd Hn G). destruct es as [|k es]; [done|].
  by destruct (rewrap_batch ents v (k :: es)).
Qed.

Lemma rewrap_round_total (ents : nat → nat → Entropy) i v n w :
  Forall (readable ents) (w_keys w) → ∃ out w', rewrap_round (ents i) v n w = (Ok out, w').
Proof.
  intros F. unfold rewrap_round, svc_bind, with_keys, svc_of, svc_ret, update_keys.
  destruct (map_key_rows_ok ents (take n (KeyQueries_get_keys_needing_rewrap (w_keys w))))
    as [es Hes].
  { rewrite Forall_forall in *. intros r (j & Hi & _)%elem_of_take.
    apply list_elem_of_lookup_2 in Hi. unfold KeyQueries_get_keys_needing_rewrap in Hi.
    rewrite merge_sort_Permutation in Hi. auto. }
  assert (get_keys_needing_rewrap (w_keys w) v n = Ok es) as G by exact Hes. rewrite G.
  destruct es as [|k es]; [by eauto|].
  destruct (rewrap_batch_total ents i v (k :: es)) as [ups ->]; [|by eauto].
  intros k' Hk'. destruct (pending_rows _ _ _ _ _ G Hk') as (r & Hr & Hm).
  apply map_key_row_fields in Hm as (_ & -> & _). rewrite Forall_forall in F.
  destruct (F r Hr) as [_ Hp]. exact Hp.
Qed.

(** Rewrapping a table that holds keys never reports success: the query
    for pending keys returns the rewrapped ones again, so that no round is the
    last.  With readable rows and a working crypto service it does not return
    at all, however many rounds it is given. *)
Theorem rewrap_never_completes ents target batch (w : World A) :
  table_wf (w_keys w) → keys_fit (w_keys w) → w_keys w ≠ [] → batch ≠ 0%nat →
  (∀ fuel n, (rewrap_keys fuel ents target batch w).1 ≠ Some (Ok n)) ∧
  (current_master_key_version = Ok target → Forall (readable ents) (w_keys w) →
   ∀ fuel, (rewrap_keys fuel ents target batch w).1 = None).
Proof.
  intros W Hfit Hd Hb.
  assert (∀ db db', plain_view <$> db' = plain_view <$> db → db ≠ [] → db' ≠ []) as Hne.
  { intros db db' V Hdb ->. by destruct db. }
  split.
  - intros fuel n. destruct (rewrap_keys_cases fuel ents target batch w) as [[e ->]|[v ->]]; [done|].
    revert w W Hfit Hd. generalize 0%nat. induction fuel as [|fuel IH]; intros total w W Hfit Hd; [done|].
    cbn [rewrap_loop]. destruct (rewrap_round (ents fuel) v batch w) as [r w1] eqn:R.
    destruct (rewrap_round_view _ _ _ _ _ _ W Hfit R) as (V & W1 & _).
    destruct r as [[count|]|e]; [|by apply rewrap_round_not_done in R|done].
    apply IH; [done|by eapply keys_fit_view|by eapply Hne].
  - intros Hv F fuel. unfold rewrap_keys. rewrite Hv, Z.eqb_refl. cbn [negb].
    revert w W Hfit Hd F. generalize 0%nat.
    induction fuel as [|fuel IH]; intros total w W Hfit Hd F; [done|].
    cbn [rewrap_loop]. destruct (rewrap_round_total ents fuel target batch w F) as (out & w1 & R).
    rewrite R. destruct (rewrap_round_view _ _ _ _ _ _ W Hfit R) as (V & W1 & _).
    destruct out as [count|]; [|by apply rewrap_round_not_done in R].
    apply IH; [done|by eapply keys_fit_view|by eapply Hne|by eapply readable_view].
Qed.

End Rewrap.

(** ** The crypto service over the daemon *)

(** What the use cases rely on: decryption draws no random bytes and opens what
    was encrypted, up to the size of a secret, and a generated password is the
    base64 text of as many bytes as were asked for. *)
Class VhsmTransportLaws (send_request : Entropy → HsmRequest → result HsmResponse AppError) := {
  transport_decrypt_entropy ent ent' c :
    VhsmClient_decrypt send_request ent c = VhsmClient_decrypt send_request ent' c;
  transport_decrypt_encrypt ent ent' p c :
    blen p ≤ SECRET_MAX → VhsmClient_encrypt send_request ent p = Ok c →
    VhsmClient_decrypt send_request ent' c = Ok p;
  transport_password ent n id password wrapped v :
    0 ≤ n ≤ 1024 → send_request ent (GenerateCredential n) = Ok (CredentialGenerated id password wrapped v) →
    Z.of_nat (String.length password) ≤ 4 * n }.

Section VhsmServiceLaws.
  Context `{SsssLib} `{Haead : Aead} `{!AeadLaws Haead} `{Sha256} `{Hex} `{P256}
    `{Hx509 : X509} `{!X509Laws Hx509}.

Lemma credential_password ent now s n id password wrapped v :
  0 ≤ n →
  (run (handle_request ent now (GenerateCredential n)) s).1 =
    Replied (CredentialGenerated id password wrapped v) →
  Z.of_nat (String.length password) ≤ 4 * n.
Proof.
  intros Hn. cbn [handle_request]. unfold handle_generate_credential, locked, err, fill_bytes.
  cbn [run]. destruct (master_key s) as [k|]; [|done]. case_match; [done|].
  destruct (ent 0 16%nat) as [i|]; [|done]. cbn [or_panic with_outcome].
  destruct (ent 1 (Z.to_nat n)) as [pw|] eqn:Hd; [|done]. cbn [or_panic with_outcome].
  destruct (encrypt_bytes k pw (ent 2)) as [[c|e]| |]; cbn; try done.
  intros [= _ <- _ _]. apply draw_length in Hd. pose proof (base64_encode_length pw). lia.
Qed.

(** The daemon's handlers, in any state: what [Encrypt] answers, [Decrypt]
    opens. *)
#[export] Instance daemon_transport_laws s now :
  VhsmTransportLaws (daemon_transport s now).
Proof.
  split; [done| |].
  2: { intros ent n id password wrapped v Hn E. unfold daemon_transport in E.
       apply (credential_password ent now s n id password wrapped v); [lia|]. by case_match; simplify_eq. }
  intros ent ent' p c _ He.
  unfold VhsmClient_encrypt, VhsmClient_decrypt, daemon_transport in *.
  apply result_bind_Ok in He as (r & Hr & He).
  destruct (run (handle_request ent now (Encrypt "master_key" None p)) s).1 eqn:Hrun; try done.
  injection Hr as ->. destruct r; try done. injection He as ->.
  cbn [handle_request] in *. unfold handle_encrypt, handle_decrypt in *.
  cbn -[encrypt_bytes decrypt_bytes] in *.
  destruct (master_key s) as [k|]; [|done]. cbn -[encrypt_bytes decrypt_bytes] in *.
  destruct (encrypt_bytes k p (ent 0)) as [[c'|e]| |] eqn:He; cbn in Hrun; try done.
  injection Hrun as ->. apply decrypt_encrypt_bytes in He.
  destruct (decrypt_bytes k c) as [p'|]; [|done]. by injection He as ->.
Qed.

(** The contract of the crypto service is discharged by the transport. *)
Lemma VhsmCryptoService_laws send `{!VhsmTransportLaws send} ed x ent0 :
  (∀ ent raw, ed ent = Ok raw → blen (rk_private_key_bytes raw) ≤ SECRET_MAX) →
  (∀ ent raw, x ent = Ok raw → blen (rk_private_key_bytes raw) ≤ SECRET_MAX) →
  KmsCryptoLaws (VhsmCryptoService send ed x ent0).
Proof.
  intros Hed Hx. split; [|done|done|].
  2: { intros ent raw E. cbn in E. unfold VhsmCryptoService_generate_symmetric_key in E.
       destruct (ent 0 32%nat) as [bs|] eqn:Hd; [|done]. injection E as <-. cbn.
       apply draw_length in Hd. unfold blen, SECRET_MAX. lia. }
  intros ent p e v Hp E. cbn [encrypt_private_key decrypt_private_key VhsmCryptoService] in *.
  unfold VhsmCryptoService_encrypt_private_key in E. apply result_bind_Ok in E as (ct & Hct & E).
  apply result_bind_Ok in E as (ver & _ & E). injection E as <-.
  by eapply transport_decrypt_encrypt.
Qed.

End VhsmServiceLaws.

(** Runs the audit record of a success, given a total audit repository. *)
Ltac run_success T :=
  match goal with |- context [success ?env ?ctx ?act ?d ?w1] =>
    let a := fresh "a" in destruct (success_ok env ctx act d w1 T) as [a ->] end.

(** ** Rotation takes effect *)

Lemma as_u32_as_i32 z : as_u32 (as_i32 z) = as_u32 z.
Proof.
  unfold as_i32, as_u32. case_match; [by rewrite Z.mod_mod by lia|].
  rewrite <- (Z.mod_add (z mod _ - _) 1) by lia. rewrite Z.mul_1_l, Z.sub_add.
  by rewrite Z.mod_mod by lia.
Qed.

(** The entity read back from the row of a rotation. *)
Lemma map_rotated_row now s a k :
  a ≠ EcdsaP256 →
  map_key_row (rotated_row now s a k) = Ok {|
    ke_id := ke_id k; ke_service_id := s; ke_algorithm := a; ke_purpose := ke_purpose k;
    ke_public_key_pem := ke_public_key_pem k;
    ke_encrypted_private_key :=
      MkEncryptedPrivateKey (ciphertext (ke_encrypted_private_key k)) 0;
    ke_version := as_u32 (ke_version k); ke_status := Active;
    ke_created_at := now; ke_expires_at := None |}.
Proof.
  intros Ha. unfold map_key_row, rotated_row. cbn -[as_u32 as_i32]. rewrite as_u32_as_i32.
  by destruct a, (ke_purpose k).
Qed.

Section Rotation.
  Context `{Json} `{UuidFmt} `{KmsCryptoLaws} `{SqlDisplay} `{DebugTime} `{KeyOrder}
    `{Ed25519Sign}.
  Context {A : Type} `{AuditRepository A}.

Lemma generate_for_fits m env a raw :
  generate_for m env a = Ok raw → blen (rk_private_key_bytes raw) ≤ SECRET_MAX.
Proof.
  destruct a; cbn [generate_for]; eauto using ed25519_fits, x25519_fits, symmetric_fits. done.
Qed.

Lemma generate_for_supported m env a raw : generate_for m env a = Ok raw → a ≠ EcdsaP256.
Proof. by intros E ->. Qed.

(** Reading an active key that is not cached. *)
Lemma get_key_uncached level action denied missing nf acl env ctx caller s a (w : World A) e p :
  audit_total (A := A) → authorize_key_access acl caller s a level = true →
  with_key (w_cache w) s a (λ v bs, (v, bs)) = None →
  get_active_key (w_keys w) s a = Ok (Some e) →
  decrypt_private_key (ke_encrypted_private_key e) = Ok p →
  ∃ w', get_key level action denied missing nf acl env ctx (MkGetKeyInput caller s a) w =
    (Ok (MkGetKeyOutput (ke_service_id e) (ke_algorithm e) (ke_version e) p), w').
Proof.
  intros T Ha Hc Hk Hp. unfold get_key. cbn [ki_caller_service ki_target_service ki_algorithm].
  rewrite Ha. cbn [negb]. unfold svc_bind at 1, with_cache. rewrite Hc.
  unfold svc_bind at 1, with_keys. rewrite Hk. unfold svc_bind at 1, svc_of. rewrite Hp.
  destruct (CompiledAcl_should_preload_for acl s a); unfold svc_bind at 1;
    cbn [update_cache svc_ret]; unfold svc_bind;
    run_success T; by eexists.
Qed.

(** The state after a rotation: the cache entry is gone and the new row is
    the active one. *)
Lemma rotate_key_run grace acl env ctx input (w : World A) r k raw enc :
  audit_total (A := A) → table_wf (w_keys w) →
  authorize_control_action acl (ri_caller_service input)
    (if bool_decide (ri_service_id input = ri_caller_service input)
     then RotateOwnKeys else RotateAllKeys) = true →
  KeyQueries_get_active_key (w_keys w) (ri_service_id input)
    (KeyAlgorithm_debug (ri_algorithm input)) = Some r →
  map_key_row r = Ok k →
  generate_for "ECDSA_P256 rotation is not supported by this service" env (ri_algorithm input)
    = Ok raw →
  encrypt_private_key (env_encrypt env) (rk_private_key_bytes raw) = Ok enc →
  fresh_version (w_keys w) (ri_service_id input) (ri_algorithm input)
    (as_u32 (ke_version k + 1)) (env_key_id env) →
  ∃ e w', rotate_key true grace acl env ctx input w = (Ok e, w') ∧
    ke_version e = as_u32 (ke_version k + 1) ∧ table_wf (w_keys w') ∧
    with_key (w_cache w') (ri_service_id input) (ri_algorithm input) (λ v bs, (v, bs)) = None ∧
    KeyQueries_get_active_key (w_keys w') (ri_service_id input)
      (KeyAlgorithm_debug (ri_algorithm input)) =
      Some (rotated_row (env_now env) (ri_service_id input) (ri_algorithm input) e) ∧
    ke_encrypted_private_key e = enc.
Proof.
  intros T W Hauth Hr Hk Hgen Henc Hf.
  unfold rotate_key. rewrite Hauth. cbn [negb]. unfold svc_bind at 1, with_keys.
  unfold get_active_key at 1. rewrite Hr. cbn [map_opt_row]. rewrite Hk. cbn [result_bind].
  unfold svc_bind at 1, svc_ret at 1. unfold svc_bind at 1, svc_of at 1. rewrite Hgen.
  unfold svc_bind at 1, svc_of at 1. rewrite Henc.
  match goal with |- context [rotate_active_key true _ _ _ _ ?e ?u] =>
    set (ent := e); set (until := u) end.
  destruct (rotate_retire_first (w_keys w) (env_now env) (ri_service_id input)
    (ri_algorithm input) ent until r W Hr Hf) as (db' & E & W' & Hq).
  unfold svc_bind at 1, update_keys. rewrite E. cbn [negb].
  unfold svc_bind at 1, update_cache. cbn [w_keys w_cache w_audit]. unfold svc_bind at 1.
  run_success T.
  eexists _, _. split; [reflexivity|]. cbn [w_keys w_cache]. split_and!; try done.
  - unfold with_key. destruct (ri_reason input);
      unfold cache_remove, remove_all_for_service; by rewrite ?lookup_delete_eq,
        ?map_lookup_filter_None_2 by (right; naive_solver).
  - apply get_active_key_Some; [done|]. split; [apply Hq; by left|].
    by apply is_active_for_true.
Qed.

(** C29: a rotation takes effect at once.  For an authorized caller, with an
    active key, a version and id that are new, key generation and encryption
    that succeed and the rotation statement run in the intended order, the
    rotation returns the new key under the next version; and from then on
    every authorized reader gets exactly the generated private key under that
    version, also when the retired key was in the cache. *)
Theorem rotation_takes_effect grace acl env ctx input (w : World A) r k raw enc :
  audit_total (A := A) → table_wf (w_keys w) →
  authorize_control_action acl (ri_caller_service input)
    (if bool_decide (ri_service_id input = ri_caller_service input)
     then RotateOwnKeys else RotateAllKeys) = true →
  KeyQueries_get_active_key (w_keys w) (ri_service_id input)
    (KeyAlgorithm_debug (ri_algorithm input)) = Some r →
  map_key_row r = Ok k →
  generate_for "ECDSA_P256 rotation is not supported by this service" env (ri_algorithm input)
    = Ok raw →
  encrypt_private_key (env_encrypt env) (rk_private_key_bytes raw) = Ok enc →
  fresh_version (w_keys w) (ri_service_id input) (ri_algorithm input)
    (as_u32 (ke_version k + 1)) (env_key_id env) →
  ∃ e w', rotate_key true grace acl env ctx input w = (Ok e, w') ∧
    ke_version e = as_u32 (ke_version k + 1) ∧ table_wf (w_keys w') ∧
    ∀ caller env' ctx',
      authorize_key_access acl caller (ri_service_id input) (ri_algorithm input) PrivateKey = true →
      ∃ w'', get_private_key acl env' ctx'
        (MkGetKeyInput caller (ri_service_id input) (ri_algorithm input)) w' =
        (Ok (MkGetKeyOutput (ri_service_id input) (ri_algorithm input)
               (as_u32 (ke_version k + 1)) (rk_private_key_bytes raw)), w'').
Proof.
  intros T W Hauth Hr Hk Hgen Henc Hf. pose proof (generate_for_supported _ _ _ _ Hgen) as Ha.
  destruct (rotate_key_run grace acl env ctx input w r k raw enc T W Hauth Hr Hk Hgen Henc Hf)
    as (e & w' & E & Hv & W' & Hc & Hact & He).
  exists e, w'. split_and!; try done. intros caller env' ctx' Hacc.
  pose proof (map_rotated_row (env_now env) (ri_service_id input) (ri_algorithm input) e Ha) as Hm.
  match type of Hm with _ = Ok ?e' => assert (get_active_key (w_keys w') (ri_service_id input)
    (ri_algorithm input) = Ok (Some e')) as Hget end.
  { unfold get_active_key. rewrite Hact. cbn [map_opt_row]. by rewrite Hm. }
  destruct (get_key_uncached PrivateKey GetPrivateKey "ACL Policy Violation" "Key does not exist"
    (NotFound "Key not found") acl env' ctx' caller _ _ w' _ (rk_private_key_bytes raw)
    T Hacc Hc Hget) as [w'' G].
  - cbn [ke_encrypted_private_key]. rewrite He. eapply decrypt_encrypted; [by eapply generate_for_fits|done].
  - exists w''. unfold get_private_key. cbn [ke_service_id ke_algorithm ke_version] in G.
    rewrite G, Hv. do 3 f_equal. unfold as_u32. by rewrite Z.mod_mod by lia.
Qed.

End Rotation.

(** ** Generation *)

Section Generation.
  Context `{Json} `{UuidFmt} `{KmsCryptoService} `{SqlDisplay} `{DebugTime} `{KeyOrder}
    `{Ed25519Sign}.
  Context {A : Type} `{AuditRepository A}.

Lemma deactivate_none db s a :
  KeyQueries_get_active_key (deactivate_keys_for_service db s a) s (KeyAlgorithm_debug a) = None.
Proof.
  unfold KeyQueries_get_active_key.
  destruct (filter _ _) as [|q l] eqn:E; [done|].
  assert (q ∈ q :: l) as Hq by left. rewrite <- E in Hq.
  apply list_elem_of_filter in Hq as [Ha (q0 & _ & ->)%elem_of_update_where].
  case_match eqn:H0'; [|congruence]. unfold is_active_for in Ha. cbn in Ha.
  by rewrite andb_false_r in Ha.
Qed.

(** Saving over a row of the same version while no key is active. *)
Lemma save_key_over db now k r :
  table_wf db → ke_status k = Active →
  KeyQueries_get_active_key db (ke_service_id k) (KeyAlgorithm_debug (ke_algorithm k)) = None →
  r ∈ db →
  same_version (ke_service_id k) (KeyAlgorithm_debug (ke_algorithm k)) (as_i32 (ke_version k)) r
    = true →
  ∃ db' r', save_key db now k = Ok db' ∧ table_wf db' ∧ r' ∈ db' ∧ kr_id r' = kr_id r ∧
    same_version (ke_service_id k) (KeyAlgorithm_debug (ke_algorithm k)) (as_i32 (ke_version k)) r'
      = true ∧
    kr_encrypted_key_data r' = ciphertext (ke_encrypted_private_key k) ∧
    kr_public_key_pem r' = ke_public_key_pem k ∧ kr_is_active r' = true.
Proof.
  intros W Hst Hn Hr Hv.
  assert (∀ q, q ∈ db →
    is_active_for (ke_service_id k) (KeyAlgorithm_debug (ke_algorithm k)) q = false) as Hna.
  { intros q Hq. apply not_true_iff_false. intros Ha.
    assert (KeyQueries_get_active_key db (ke_service_id k)
      (KeyAlgorithm_debug (ke_algorithm k)) = Some q) by by apply get_active_key_Some.
    congruence. }
  match eval unfold save_key, KeyQueries_save_key in (save_key db now k) with
  | map_err _ (upsert _ ?row) => set (new := row) end.
  assert (upsert db new = Ok ((λ q, if same_version (kr_service_id new) (kr_algorithm new)
    (kr_version new) q then overwrite q new else q) <$> db)) as U.
  { unfold upsert. rewrite (proj2 (existsb_exists _ db))
      by (exists r; split; [by apply list_elem_of_In|exact Hv]).
    match goal with |- context [existsb ?p db] =>
      rewrite (proj2 (existsb_false p db)) by (intros q Hq; cbn; by rewrite Hna, andb_false_r) end.
    done. }
  assert (save_key db now k = Ok ((λ q, if same_version (kr_service_id new) (kr_algorithm new)
    (kr_version new) q then overwrite q new else q) <$> db)) as E.
  { unfold save_key, KeyQueries_save_key. fold new. by rewrite U. }
  eexists _, (overwrite r new). split; [exact E|]. split_and!; try done.
  - by eapply save_key_wf.
  - apply list_elem_of_fmap. exists r. split; [|done]. cbn. by rewrite Hv.
  - cbn. by rewrite Hst.
Qed.

(** A caller that may generate keys. *)
Definition may_generate (acl : CompiledAcl) (caller : ServiceId) : bool :=
  authorize_control_action acl caller GenerateKeys
  || authorize_control_action acl caller RotateOwnKeys
  || authorize_control_action acl caller RotateAllKeys.

Definition unsupported : string := "ECDSA_P256 is not supported for in-process key generation".

(** The active key is revoked before its successor exists. *)
Lemma generate_fails acl env ctx input (w : World A) r k raw err :
  may_generate acl (gi_caller_service input) = true →
  KeyQueries_get_active_key (w_keys w) (gi_service_id input)
    (KeyAlgorithm_debug (gi_algorithm input)) = Some r → map_key_row r = Ok k →
  generate_for unsupported env (gi_algorithm input) = Ok raw →
  encrypt_private_key (env_encrypt env) (rk_private_key_bytes raw) = Err err →
  generate_key_pair acl env ctx input w =
    (Err err, MkWorld (deactivate_keys_for_service (w_keys w) (gi_service_id input)
                         (gi_algorithm input)) (w_cache w) (w_audit w)).
Proof.
  intros M Hr Hk Hg He. unfold generate_key_pair. unfold may_generate in M. rewrite M. cbn [negb].
  unfold svc_bind at 1, with_keys. unfold get_active_key. rewrite Hr. cbn [map_opt_row].
  rewrite Hk. cbn [result_bind]. unfold svc_bind at 1, svc_bind at 1, update_keys, svc_ret.
  unfold svc_bind at 1, svc_of at 1. unfold unsupported in Hg. rewrite Hg.
  unfold svc_bind at 1, svc_of at 1. by rewrite He.
Qed.

(** Without an active key the next version is 1. *)
Lemma generate_first acl env ctx input (w : World A) raw enc r :
  audit_total (A := A) → table_wf (w_keys w) →
  may_generate acl (gi_caller_service input) = true →
  KeyQueries_get_active_key (w_keys w) (gi_service_id input)
    (KeyAlgorithm_debug (gi_algorithm input)) = None →
  generate_for unsupported env (gi_algorithm input) = Ok raw →
  encrypt_private_key (env_encrypt env) (rk_private_key_bytes raw) = Ok enc →
  r ∈ w_keys w →
  same_version (gi_service_id input) (KeyAlgorithm_debug (gi_algorithm input)) 1 r = true →
  ∃ e w' r', generate_key_pair acl env ctx input w = (Ok e, w') ∧ ke_version e = 1 ∧
    table_wf (w_keys w') ∧ r' ∈ w_keys w' ∧ kr_id r' = kr_id r ∧
    same_version (gi_service_id input) (KeyAlgorithm_debug (gi_algorithm input)) 1 r' = true ∧
    kr_encrypted_key_data r' = ciphertext enc ∧ kr_public_key_pem r' = rk_public_key_pem raw ∧
    kr_is_active r' = true.
Proof.
  intros T W M Hn Hg He Hr Hv. unfold generate_key_pair. unfold may_generate in M.
  rewrite M. cbn [negb]. unfold svc_bind at 1, with_keys. unfold get_active_key. rewrite Hn.
  cbn [map_opt_row]. unfold svc_bind at 1, svc_ret at 1. unfold svc_bind at 1, svc_of at 1.
  unfold unsupported in Hg. rewrite Hg. unfold svc_bind at 1, svc_of at 1. rewrite He.
  match goal with |- context [save_key _ _ ?e] => set (ent := e) end.
  destruct (save_key_over (w_keys w) (env_now env) ent r W eq_refl Hn Hr Hv)
    as (db' & r' & E & W' & Hr' & Hid & Hv' & Hd & Hpem & Hact).
  unfold svc_bind at 1, update_keys. rewrite E. cbn [result_bind]. unfold svc_bind at 1.
  run_success T.
  eexists _, _, _. split; [reflexivity|]. by split_and!.
Qed.

(** A failed generation costs the service its active key, and the next one
    overwrites the first.  Generation revokes the active key before the new
    key is encrypted; when that fails (a sealed vHSM) the service is left
    without an active key, and a later generation starts again at version 1:
    the stored key of version 1 is replaced in place and its key data are
    gone. *)
Theorem failed_generation_loses_key acl env1 env2 ctx input (w : World A) r k raw1 err raw2 enc r1 :
  audit_total (A := A) → table_wf (w_keys w) →
  may_generate acl (gi_caller_service input) = true →
  KeyQueries_get_active_key (w_keys w) (gi_service_id input)
    (KeyAlgorithm_debug (gi_algorithm input)) = Some r → map_key_row r = Ok k →
  generate_for unsupported env1 (gi_algorithm input) = Ok raw1 →
  encrypt_private_key (env_encrypt env1) (rk_private_key_bytes raw1) = Err err →
  generate_for unsupported env2 (gi_algorithm input) = Ok raw2 →
  encrypt_private_key (env_encrypt env2) (rk_private_key_bytes raw2) = Ok enc →
  r1 ∈ w_keys w →
  same_version (gi_service_id input) (KeyAlgorithm_debug (gi_algorithm input)) 1 r1 = true →
  ∃ w1 e w2 r', generate_key_pair acl env1 ctx input w = (Err err, w1) ∧
    get_active_key (w_keys w1) (gi_service_id input) (gi_algorithm input) = Ok None ∧
    generate_key_pair acl env2 ctx input w1 = (Ok e, w2) ∧ ke_version e = 1 ∧
    KeyQueries_get_key_by_version (w_keys w2) (gi_service_id input)
      (KeyAlgorithm_debug (gi_algorithm input)) 1 = Some r' ∧
    kr_id r' = kr_id r1 ∧ kr_encrypted_key_data r' = ciphertext enc.
Proof.
  intros T W M Hr Hk Hg1 He1 Hg2 He2 Hr1 Hv.
  pose proof (generate_fails acl env1 ctx input w r k raw1 err M Hr Hk Hg1 He1) as F.
  pose proof (deactivate_none (w_keys w) (gi_service_id input) (gi_algorithm input)) as Hn.
  match type of F with _ = (_, ?w1) => set (w1' := w1) in F; assert (table_wf (w_keys w1')) as W1 end.
  { apply table_wf_update; auto with kms. }
  assert (∃ q, q ∈ w_keys w1' ∧ kr_id q = kr_id r1 ∧
    same_version (gi_service_id input) (KeyAlgorithm_debug (gi_algorithm input)) 1 q = true)
    as (q & Hq & Hqid & Hqv).
  { eexists. split; [apply elem_of_update_where; by exists r1|]. by case_match. }
  destruct (generate_first acl env2 ctx input w1' raw2 enc q T W1 M Hn Hg2 He2 Hq Hqv)
    as (e & w2 & r' & E & Hv1 & W2 & Hr' & Hid & Hv' & Hd & _).
  exists w1', e, w2, r'. split_and!; try done.
  - unfold get_active_key. cbn [w_keys w1']. by rewrite Hn.
  - apply get_key_by_version_Some; done.
  - congruence.
Qed.

End Generation.

(** ** Signing and the cache *)

Section Signing.
  Context `{Json} `{UuidFmt} `{KmsCryptoService} `{SqlDisplay} `{DebugTime} `{KeyOrder}
    `{Ed25519Sign}.
  Context {A : Type} `{AuditRepository A}.

(** What a signature request for a given version does once it has the key. *)
Lemma sign_with_bytes acl env ctx caller s payload v (w w1 : World A) p :
  audit_total (A := A) → authorize_key_access acl caller s Ed25519 PrivateKey = true →
  signing_bytes acl env ctx (MkSignDataInput caller s Ed25519 payload (Some v)) w = (Ok p, w1) →
  (32 ≤ length p)%nat →
  ∃ a, sign_data acl env ctx (MkSignDataInput caller s Ed25519 payload (Some v)) w =
    (Ok (MkSignDataOutput s Ed25519 v (ed25519_sign (take 32 p) payload)),
     MkWorld (w_keys w1) (w_cache w1) a).
Proof.
  intros T Ha Hb Hl. unfold sign_data.
  cbn [si_algorithm si_target_service si_caller_service si_key_version si_payload].
  rewrite bool_decide_eq_true_2 by done. rewrite Ha. cbn [negb].
  unfold svc_bind at 1. rewrite Hb.
  rewrite (proj2 (Nat.ltb_ge _ _)) by done. unfold svc_bind at 1, svc_ret at 1. unfold svc_bind at 1.
  run_success T.
  by eexists.
Qed.

(** A cached key is used and returned, whatever the table says. *)
Lemma sign_cached acl env ctx caller s payload v v0 p (w : World A) :
  audit_total (A := A) → authorize_key_access acl caller s Ed25519 PrivateKey = true →
  (32 ≤ length p)%nat →
  ∃ w', sign_data acl env ctx (MkSignDataInput caller s Ed25519 payload (Some v))
      (MkWorld (w_keys w) (cache_insert (w_cache w) s Ed25519 v0 p) (w_audit w)) =
    (Ok (MkSignDataOutput s Ed25519 v (ed25519_sign (take 32 p) payload)), w').
Proof.
  intros T Ha Hl.
  match goal with |- context [sign_data _ _ _ _ ?w0] =>
    destruct (sign_with_bytes acl env ctx caller s payload v w0 w0 p T Ha) as [a E] end;
    [|done|by eexists].
  unfold signing_bytes, svc_bind, with_cache, with_key, cache_insert.
  cbn [si_target_service si_algorithm w_cache]. by rewrite lookup_insert_eq.
Qed.

Lemma get_private_key_cached acl env ctx caller s a v0 p (w : World A) :
  audit_total (A := A) → authorize_key_access acl caller s a PrivateKey = true →
  ∃ w', get_private_key acl env ctx (MkGetKeyInput caller s a)
      (MkWorld (w_keys w) (cache_insert (w_cache w) s a v0 p) (w_audit w)) =
    (Ok (MkGetKeyOutput s a v0 p), w').
Proof.
  intros T Ha. unfold get_private_key, get_key.
  cbn [ki_caller_service ki_target_service ki_algorithm]. rewrite Ha. cbn [negb].
  unfold svc_bind at 1, with_cache, with_key, cache_insert. cbn [w_cache].
  rewrite lookup_insert_eq. cbn [fmap option_fmap option_map cv_version cv_bytes].
  unfold svc_bind. run_success T. by eexists.
Qed.

(** Signing with a named old version takes over the key cache.  When the
    service's keys are preloaded and none is cached, a request to sign with
    version [v] caches that version as the service's key: from then on readers
    of the private key get version [v], whatever key is active, and a request
    to sign with any other version is signed with version [v]'s key and
    labelled with the version asked for. *)
Theorem sign_old_version_poisons_cache acl env ctx caller s payload v k p (w : World A) :
  audit_total (A := A) → authorize_key_access acl caller s Ed25519 PrivateKey = true →
  CompiledAcl_should_preload_for acl s Ed25519 = true →
  with_key (w_cache w) s Ed25519 (λ _ bs, bs) = None →
  get_key_by_version (w_keys w) s Ed25519 v = Ok (Some k) →
  decrypt_private_key (ke_encrypted_private_key k) = Ok p → (32 ≤ length p)%nat →
  ∃ w1, sign_data acl env ctx (MkSignDataInput caller s Ed25519 payload (Some v)) w =
      (Ok (MkSignDataOutput s Ed25519 v (ed25519_sign (take 32 p) payload)), w1) ∧
    (∀ env' ctx', ∃ w2, get_private_key acl env' ctx' (MkGetKeyInput caller s Ed25519) w1 =
       (Ok (MkGetKeyOutput s Ed25519 (ke_version k) p), w2)) ∧
    (∀ env' ctx' payload' v', ∃ w2,
       sign_data acl env' ctx' (MkSignDataInput caller s Ed25519 payload' (Some v')) w1 =
       (Ok (MkSignDataOutput s Ed25519 v' (ed25519_sign (take 32 p) payload')), w2)).
Proof.
  intros T Ha Hpre Hc Hk Hp Hl.
  set (w0 := MkWorld (w_keys w) (cache_insert (w_cache w) s Ed25519 (ke_version k) p) (w_audit w)).
  destruct (sign_with_bytes acl env ctx caller s payload v w w0 p T Ha) as [a E]; [|done|].
  { unfold signing_bytes. cbn [si_target_service si_algorithm].
    unfold svc_bind at 1, with_cache. rewrite Hc. unfold svc_bind at 1, signing_key_for.
    cbn [si_key_version si_target_service si_algorithm]. unfold with_keys. rewrite Hk, Hp, Hpre.
    reflexivity. }
  eexists. split; [exact E|]. cbn [w_keys w_cache w0]. split.
  - intros env' ctx'. by apply (get_private_key_cached acl env' ctx' caller s Ed25519
      (ke_version k) p (MkWorld (w_keys w) (w_cache w) a)).
  - intros env' ctx' payload' v'. by apply (sign_cached acl env' ctx' caller s payload' v'
      (ke_version k) p (MkWorld (w_keys w) (w_cache w) a)).
Qed.

End Signing.

(** ** Deprecated and expired keys *)

Section Deprecation.
  Context `{KeyOrderLaws}.

Lemma map_key_row_active r e :
  row_ok r → kr_is_active r = true → map_key_row r = Ok e → ke_status e = Active.
Proof.
  unfold row_ok. intros Ho Ha. rewrite Ha in Ho. symmetry in Ho. unfold map_key_row. rewrite Ho.
  intros E. apply result_bind_Ok in E as (al & _ & E). apply result_bind_Ok in E as (pu & _ & E).
  cbn [result_bind] in E. by injection E as <-.
Qed.

(** A deprecated key is never served, although the repository is asked for
    an active or still valid deprecated one: the query selects active rows
    only, so that its answer is always an active key. *)
Theorem deprecated_never_served db s a now e :
  Forall row_ok db → get_active_or_valid_deprecated_key db s a now = Ok (Some e) →
  ke_status e = Active ∧ ∃ r, r ∈ db ∧ kr_is_active r = true ∧ map_key_row r = Ok e.
Proof.
  intros F. unfold get_active_or_valid_deprecated_key, KeyQueries_get_active_or_valid_deprecated_key.
  assert (∀ r, r ∈ by_service (filter (λ r, kr_is_active r = true) db) →
    r ∈ db ∧ kr_is_active r = true) as Hin.
  { intros r. rewrite by_service_perm, list_elem_of_filter. tauto. }
  revert Hin. generalize (by_service (filter (λ r, kr_is_active r = true) db)) as rows.
  induction rows as [|r rows IH]; intros Hin E; [done|]. cbn [find_usable] in E.
  apply result_bind_Ok in E as (e' & He & E).
  destruct (Hin r) as [Hr Ha]; [left|]. case_match.
  - injection E as <-. rewrite Forall_forall in F. split; [|by eauto].
    by eapply map_key_row_active; [apply F| |].
  - apply IH; [|done]. intros r' Hr'. apply Hin. by right.
Qed.

End Deprecation.

Section Expiration.
  Context `{UuidFmt} `{SqlDisplay} {A : Type} `{AuditRepository A}.

Lemma update_where_twice p1 p2 f db :
  (∀ r, f (f r) = f r) → (∀ r, p2 (f r) = p2 r) →
  update_where p2 f (update_where p1 f db) = update_where (λ r, p1 r || p2 r) f db.
Proof.
  intros Hf Hp. unfold update_where. rewrite <- list_fmap_compose. apply list_fmap_ext.
  intros _ r _. cbn. destruct (p1 r) eqn:E1; cbn [orb]; [|done].
  rewrite Hp. by destruct (p2 r).
Qed.

Lemma update_where_ext p1 p2 f db :
  (∀ r, r ∈ db → p1 r = p2 r) → update_where p1 f db = update_where p2 f db.
Proof.
  intros E. apply list_fmap_ext. intros i r Hr. cbn.
  by rewrite (E r) by by eapply list_elem_of_lookup_2.
Qed.

Lemma update_key_status_inactive db id st :
  is_active_status st = false →
  update_key_status db id st None =
  Ok (update_where (λ r, kr_id r =? id) (set_status (status_str st) false) db).
Proof.
  intros Hst. unfold update_key_status, KeyQueries_update_key_status. rewrite Hst.
  cbn [andb]. rewrite (proj2 (existsb_false _ db)) by done. done.
Qed.

Lemma expire_keys_run ids now es : ∀ w : World A,
  audit_total (A := A) →
  ∃ w', expire_keys ids now es w = (Ok (), w') ∧ w_cache w' = w_cache w ∧
    w_keys w' = update_where (λ r, existsb (λ e, kr_id r =? ke_id e) es)
                  (set_status "Expired" false) (w_keys w).
Proof.
  induction es as [|e es IH]; intros w T.
  - exists w. split_and!; [done..|]. unfold update_where. by rewrite list_fmap_id.
  - cbn [expire_keys]. unfold svc_bind at 1, update_keys.
    rewrite update_key_status_inactive by done. cbn [result_bind status_str].
    unfold svc_bind at 1. match goal with |- context [audit ?l ?w1] =>
      destruct (audit_ok l w1 T) as [a ->] end.
    match goal with |- context [expire_keys ids now es ?w1] =>
      destruct (IH w1 T) as (w' & E & C & K) end.
    exists w'. rewrite E, C, K. split_and!; [done..|]. cbn [w_keys].
    by rewrite update_where_twice.
Qed.

(** A deprecated row whose thirty minutes are over. *)
Definition expires (now : Z) (r : KeyDbRow) : bool :=
  String.eqb (kr_status r) "Deprecated" && (kr_created_at r + minutes 30 <=? now).

Lemma map_key_row_expired now r e :
  map_key_row r = Ok e → kr_status r = "Deprecated"%string →
  expired_at now e = expires now r.
Proof.
  unfold map_key_row, expired_at, expires. intros E Hs. rewrite Hs in *.
  apply result_bind_Ok in E as (al & _ & E). apply result_bind_Ok in E as (pu & _ & E).
  apply result_bind_Ok in E as (st & Hst & E). cbn in Hst. injection Hst as <-.
  by injection E as <-.
Qed.

Lemma map_key_rows_total rows :
  (∀ r, r ∈ rows → ∃ e, map_key_row r = Ok e) → ∃ es, map_key_rows rows = Ok es.
Proof.
  induction rows as [|r rows IH]; intros Hr; [by eexists|]. cbn [map_key_rows].
  destruct (Hr r) as [e ->]; [left|]. cbn [result_bind].
  destruct IH as [es ->]; [intros; apply Hr; by right|]. by eexists.
Qed.

(** The expired entities are those of the expiring rows. *)
Lemma expired_ids db now es r :
  table_wf db → map_key_rows (KeyQueries_get_deprecated_keys_expired db) = Ok es → r ∈ db →
  existsb (λ e, kr_id r =? ke_id e) (filter (λ e, expired_at now e = true) es) = expires now r.
Proof.
  intros W F%map_key_rows_Forall2 Hr. apply eq_bool_prop_intro.
  rewrite !Is_true_true. unfold KeyQueries_get_deprecated_keys_expired in F.
  assert (∀ q, q ∈ merge_sort newest_first (filter (λ r, kr_status r = "Deprecated"%string) db) ↔
    kr_status q = "Deprecated"%string ∧ q ∈ db) as Hq.
  { intros q. by rewrite merge_sort_Permutation, list_elem_of_filter. }
  split.
  - intros (e & [Hx He]%list_elem_of_In%list_elem_of_filter & Hid%Z.eqb_eq)%existsb_exists.
    apply list_elem_of_lookup_1 in He as [i Hi].
    destruct (Forall2_lookup_r _ _ _ _ _ F Hi) as (q & Hqi & Hm).
    apply list_elem_of_lookup_2, Hq in Hqi as [Hs Hqdb].
    pose proof (map_key_row_fields _ _ Hm) as (Hide & _).
    assert (q = r) as -> by (destruct (table_wf_unique db q r W Hqdb Hr) as [|[? _]]; congruence).
    by rewrite <- (map_key_row_expired _ _ _ Hm Hs).
  - intros Hx. pose proof Hx as [Hs%String.eqb_eq _]%andb_true_iff.
    assert (r ∈ merge_sort newest_first (filter (λ r, kr_status r = "Deprecated"%string) db))
      as [i Hi]%list_elem_of_lookup_1 by by apply Hq.
    destruct (Forall2_lookup_l _ _ _ _ _ F Hi) as (e & He & Hm).
    apply existsb_exists. exists e. split.
    + apply list_elem_of_In, list_elem_of_filter.
      rewrite (map_key_row_expired _ _ _ Hm Hs). split; [done|]. by eapply list_elem_of_lookup_2.
    + apply Z.eqb_eq. by apply map_key_row_fields in Hm as (-> & _).
Qed.

(** A pass of the expiration worker marks exactly the deprecated keys
    whose thirty minutes are over as [Expired], and changes nothing else in
    the table, nor the cache. *)
Theorem expirations_exact ids now (w : World A) :
  audit_total (A := A) → table_wf (w_keys w) →
  (∀ r, r ∈ w_keys w → kr_status r = "Deprecated"%string → ∃ e, map_key_row r = Ok e) →
  ∃ w', process_expirations ids now w = (Ok (), w') ∧ w_cache w' = w_cache w ∧
    w_keys w' = update_where (expires now) (set_status "Expired" false) (w_keys w).
Proof.
  intros T W Hm. unfold process_expirations, get_deprecated_keys_expired.
  destruct (map_key_rows_total (KeyQueries_get_deprecated_keys_expired (w_keys w))) as [es E].
  { unfold KeyQueries_get_deprecated_keys_expired. intros r.
    rewrite merge_sort_Permutation, list_elem_of_filter. naive_solver. }
  unfold svc_bind, with_keys. rewrite E. cbn [result_bind].
  destruct (expire_keys_run ids now (filter (λ e, expired_at now e = true) es) w T)
    as (w' & R & C & K).
  exists w'. split_and!; [done..|]. rewrite K. apply update_where_ext.
  intros r Hr. by apply (expired_ids (w_keys w)).
Qed.

End Expiration.

(** ** A concrete service *)

Section KeyUseCaseWitnesses.
  Import Concrete ConcreteAudit ConcreteKeys.

#[local] Instance list_audit : AuditRepository (list AuditLog) := {
  audit_record a log := (Ok (), a ++ [log]) }.
#[local] Instance concat_sign : Ed25519Sign := { ed25519_sign k m := k ++ m }.

Definition draw_keypair (ent : Entropy) : result RawKeyPair AppError :=
  match ent 0 32%nat with
  | Ok bs => Ok (MkRawKeyPair "pem" bs)
  | Err e => Err (CryptoError e None)
  end.

#[local] Instance demo_crypto : KmsCryptoService :=
  VhsmCryptoService (daemon_transport open_state 0) draw_keypair draw_keypair ent0.
Lemma draw_keypair_fits ent raw :
  draw_keypair ent = Ok raw → blen (rk_private_key_bytes raw) ≤ SECRET_MAX.
Proof.
  unfold draw_keypair. destruct (ent 0 32%nat) as [bs|] eqn:Hd; [|done]. intros [= <-].
  apply draw_length in Hd. cbn. unfold blen, SECRET_MAX. lia.
Qed.
#[local] Instance demo_crypto_laws : KmsCryptoLaws demo_crypto.
Proof. apply VhsmCryptoService_laws; [apply _|exact draw_keypair_fits..]. Qed.

Lemma list_audit_total : audit_total (A := list AuditLog).
Proof. intros a log. by eexists. Qed.

Definition demo_compiled : CompiledAcl := {|
  access := {[("svc"%string, "svc"%string, Ed25519, PrivateKey)]};
  preload := {[("svc"%string, Ed25519)]};
  actions := {["svc"%string := {[RotateOwnKeys]}]} |}.

(** A random source whose draws are all the byte [b], and one that fails. *)
Definition demo_env (id : Z) (enc : Entropy) : Env :=
  MkEnv (id * 1000) id (100 + id) (entropy_const (byte_of_Z id)) enc.
Definition good_env (id : Z) : Env := demo_env id (entropy_const (byte_of_Z id)).
Definition bad_env (id : Z) : Env := demo_env id (λ _, draw_fail "no entropy").

Definition demo_generate : GenerateKeyPairInput := MkGenerateKeyPairInput "svc" "svc" Ed25519 Signing.
Definition demo_rotate : RotateKeyInput :=
  MkRotateKeyInput "svc" Ed25519 "svc" Scheduled "operator".

Definition demo_empty : World (list AuditLog) := MkWorld [] ∅ [].
Definition demo_world : World (list AuditLog) :=
  (generate_key_pair demo_compiled (good_env 1) demo_ctx demo_generate demo_empty).2.
Definition demo_row1 : KeyDbRow := hd demo_row (w_keys demo_world).

Lemma demo_world_keys : w_keys demo_world = [demo_row1] ∧ kr_id demo_row1 = 1.
Proof. vm_compute. by split. Qed.

Lemma demo_world_wf : table_wf (w_keys demo_world).
Proof.
  rewrite (proj1 demo_world_keys). split.
  - constructor; [vm_compute; reflexivity|constructor].
  - intros i j r r' Hi Hj Hij. apply list_lookup_singleton_Some in Hi as [-> _], Hj as [-> _]. done.
Qed.

(** The parts of the concrete service the witnesses need, computed once. *)
Definition demo_active : KeyPairEntity :=
  match map_key_row demo_row1 with Ok e => e | Err _ => demo_entity 0 0 end.
Definition demo_secret (id : Z) : list byte := replicate 32 (byte_of_Z id).
Definition demo_cipher (id : Z) : EncryptedPrivateKey :=
  match encrypt_private_key (entropy_const (byte_of_Z id)) (demo_secret id) with
  | Ok e => e | Err _ => MkEncryptedPrivateKey [] 0
  end.

Lemma demo_fresh v id :
  v = 2 → id = 2 → fresh_version (w_keys demo_world) "svc" Ed25519 v id.
Proof.
  intros -> -> q Hq. rewrite (proj1 demo_world_keys) in Hq.
  apply list_elem_of_singleton in Hq as ->. split; vm_compute; [reflexivity|discriminate].
Qed.

Lemma rotation_takes_effect_witness :
  ∃ w', (rotate_key true 60 demo_compiled (good_env 2) demo_ctx demo_rotate demo_world).2 = w' ∧
    ∃ w'', get_private_key demo_compiled (good_env 3) demo_ctx (MkGetKeyInput "svc" "svc" Ed25519) w'
      = (Ok (MkGetKeyOutput "svc" Ed25519 2 (demo_secret 2)), w'').
Proof.
  destruct (rotation_takes_effect 60 demo_compiled (good_env 2) demo_ctx demo_rotate demo_world
    demo_row1 demo_active (MkRawKeyPair "pem" (demo_secret 2)) (demo_cipher 2))
    as (e & w' & E & _ & _ & G).
  - exact list_audit_total.
  - exact demo_world_wf.
  - vm_compute. reflexivity.
  - vm_compute. reflexivity.
  - vm_compute. reflexivity.
  - vm_compute. reflexivity.
  - vm_compute. reflexivity.
  - apply demo_fresh; vm_compute; reflexivity.
  - exists w'. split; [by rewrite E|].
    destruct (G "svc"%string (good_env 3) demo_ctx) as [w'' G']; [vm_compute; reflexivity|].
    exists w''. exact G'.
Defined.

Lemma demo_readable : Forall (readable (λ _ _, entropy_count)) (w_keys demo_world).
Proof.
  rewrite (proj1 demo_world_keys). constructor; [|constructor].
  split; [exists demo_active; vm_compute; reflexivity|].
  exists (demo_secret 1). split; [vm_compute; reflexivity|]. intros _ _.
  eexists. vm_compute. reflexivity.
Qed.

Lemma demo_keys_fit : keys_fit (w_keys demo_world).
Proof.
  rewrite (proj1 demo_world_keys). intros r p ->%list_elem_of_singleton Hp.
  assert (row_plain demo_row1 = Ok (demo_secret 1)) as E by (vm_compute; reflexivity).
  rewrite E in Hp. injection Hp as <-. vm_compute. discriminate.
Qed.

(** A rewrap that fails in its third round has kept the key, and so has one that
    is still running after its fifth. *)
Lemma rewrap_keeps_keys_witness :
  let failing (i _ : nat) : Entropy :=
    if decide (i = 0%nat) then λ _, draw_fail "no entropy" else entropy_count in
  (∃ e, (rewrap_keys 3 failing 1 10 demo_world).1 = Some (Err e)) ∧
  plain_view <$> w_keys (rewrap_keys 3 failing 1 10 demo_world).2 =
    plain_view <$> w_keys demo_world ∧
  (rewrap_keys 5 (λ _ _, entropy_count) 1 10 demo_world).1 = None ∧
  plain_view <$> w_keys (rewrap_keys 5 (λ _ _, entropy_count) 1 10 demo_world).2 =
    plain_view <$> w_keys demo_world.
Proof.
  split_and!; [eexists; vm_compute; reflexivity| |vm_compute; reflexivity|].
  - apply rewrap_keeps_keys; [exact demo_world_wf|exact demo_keys_fit].
  - apply rewrap_keeps_keys; [exact demo_world_wf|exact demo_keys_fit].
Defined.

Lemma rewrap_never_completes_witness :
  (rewrap_keys 1000 (λ _ _, entropy_count) 1 10 demo_world).1 = None.
Proof.
  apply (rewrap_never_completes (λ _ _, entropy_count) 1 10 demo_world).
  - exact demo_world_wf.
  - exact demo_keys_fit.
  - rewrite (proj1 demo_world_keys). discriminate.
  - discriminate.
  - vm_compute. reflexivity.
  - exact demo_readable.
Defined.

Lemma failed_generation_loses_key_witness :
  ∃ w1 e w2 r' err,
    generate_key_pair demo_compiled (bad_env 2) demo_ctx demo_generate demo_world = (Err err, w1) ∧
    generate_key_pair demo_compiled (good_env 3) demo_ctx demo_generate w1 = (Ok e, w2) ∧
    KeyQueries_get_key_by_version (w_keys w2) "svc" "Ed25519" 1 = Some r' ∧
    kr_encrypted_key_data r' = ciphertext (demo_cipher 3).
Proof.
  destruct (failed_generation_loses_key demo_compiled (bad_env 2) (good_env 3) demo_ctx
    demo_generate demo_world demo_row1 demo_active (MkRawKeyPair "pem" (demo_secret 2))
    (RuntimeError "Błąd odczytu nagłówka odpowiedzi z vHSM: early eof")
    (MkRawKeyPair "pem" (demo_secret 3)) (demo_cipher 3) demo_row1)
    as (w1 & e & w2 & r' & E1 & _ & E2 & _ & E3 & _ & E4).
  - exact list_audit_total.
  - exact demo_world_wf.
  - vm_compute. reflexivity.
  - vm_compute. reflexivity.
  - vm_compute. reflexivity.
  - vm_compute. reflexivity.
  - vm_compute. reflexivity.
  - vm_compute. reflexivity.
  - vm_compute. reflexivity.
  - rewrite (proj1 demo_world_keys). left.
  - vm_compute. reflexivity.
  - exists w1, e, w2, r', (RuntimeError "Błąd odczytu nagłówka odpowiedzi z vHSM: early eof").
    split_and!; assumption.
Defined.

(** The service after a rotation: version 1 deprecated, version 2 active. *)
Definition demo_rotated : World (list AuditLog) :=
  (rotate_key true 60 demo_compiled (good_env 2) demo_ctx demo_rotate demo_world).2.
Definition demo_old : KeyPairEntity :=
  match get_key_by_version (w_keys demo_rotated) "svc" Ed25519 1 with
  | Ok (Some e) => e | _ => demo_entity 0 0
  end.

Lemma sign_old_version_poisons_cache_witness :
  ∃ w1 w2,
    sign_data demo_compiled (good_env 3) demo_ctx
      (MkSignDataInput "svc" "svc" Ed25519 [] (Some 1)) demo_rotated =
      (Ok (MkSignDataOutput "svc" Ed25519 1 (demo_secret 1)), w1) ∧
    sign_data demo_compiled (good_env 4) demo_ctx
      (MkSignDataInput "svc" "svc" Ed25519 [] (Some 2)) w1 =
      (Ok (MkSignDataOutput "svc" Ed25519 2 (demo_secret 1)), w2).
Proof.
  destruct (sign_old_version_poisons_cache demo_compiled (good_env 3) demo_ctx "svc" "svc" [] 1
    demo_old (demo_secret 1) demo_rotated) as (w1 & E1 & _ & E2).
  - exact list_audit_total.
  - vm_compute. reflexivity.
  - vm_compute. reflexivity.
  - vm_compute. reflexivity.
  - vm_compute. reflexivity.
  - vm_compute. reflexivity.
  - vm_compute. lia.
  - destruct (E2 (good_env 4) demo_ctx [] 2) as [w2 E2']. exists w1, w2.
    split; [exact E1|exact E2'].
Defined.

Lemma deprecated_never_served_witness :
  ke_status demo_active = Active.
Proof.
  apply (deprecated_never_served (w_keys demo_world) "svc" Ed25519 0 demo_active).
  - apply demo_world_wf.
  - vm_compute. reflexivity.
Defined.

Lemma demo_rotated_wf : table_wf (w_keys demo_rotated).
Proof.
  apply (rotate_wf true (w_keys demo_world) 2000 "svc" "Ed25519" "Deprecated" 2 2
    (ciphertext (demo_cipher 2)) "pem" "Signing" true); [done|exact demo_world_wf|].
  vm_compute. reflexivity.
Qed.

Lemma demo_rotated_maps :
  forallb (λ r, match map_key_row r with Ok _ => true | Err _ => false end)
    (w_keys demo_rotated) = true.
Proof. vm_compute. reflexivity. Qed.

Lemma expirations_exact_witness :
  ∃ w', process_expirations (λ _, 7) (2000 + minutes 30) demo_rotated = (Ok (), w') ∧
    kr_status <$> w_keys w' = ["Expired"; "Active"]%string.
Proof.
  destruct (expirations_exact (λ _, 7) (2000 + minutes 30) demo_rotated) as (w' & E & _ & K).
  - exact list_audit_total.
  - exact demo_rotated_wf.
  - intros r Hr _. pose proof demo_rotated_maps as M. rewrite forallb_forall in M.
    apply list_elem_of_In in Hr. specialize (M r Hr).
    destruct (map_key_row r) as [e|]; [by exists e|discriminate].
  - exists w'. split; [exact E|]. rewrite K. vm_compute. reflexivity.
Defined.

End KeyUseCaseWitnesses.
