(* ===== verification/Database.v ===== *)
(** * The database of the service

    Models the tables [target_resources], [provisioned_credentials],
    [db_credentials] and [root_cas] of [kms-migrate/migrations] with the
    queries of [CredentialQueries], [BootstrapQueries] and [RootCaQueries] in
    [kms-db/src/repositories.rs].  A query that changes a table is a function
    on the whole database, so that a transaction is a run on a copy of it:
    committed by keeping the copy, rolled back by dropping it. *)

From stdpp Require Import sorting.
From S2P Require Import Prelude.
From S2P Require Import Interfaces.
From S2P Require Import Protocol.
From S2P Require Import Domain.
From S2P Require Import Acl.
From S2P Require Import AuditLog.
From S2P Require Import AuditChain.
From S2P Require Import KeyStore.

(** ** Tables *)

Record TargetResource := MkTargetResource {
  tr_id : Z;
  tr_target_name : string;
  tr_target_type : string;
  tr_connection_url_encrypted : list byte;
  tr_default_role : option string;
  tr_active : bool;
  tr_created_at : Z }.

Record ProvisionedCredential := MkProvisionedCredential {
  pc_id : Z;
  pc_service_id : string;
  pc_target_id : Z;
  pc_encrypted_credentials : list byte;
  pc_granted_role : string;
  pc_kek_id : Z;
  pc_kek_version : Z;
  pc_expires_at : Z;
  pc_revoked : bool;
  pc_status : string;
  pc_created_at : Z }.

Record DbCredential := MkDbCredential {
  dc_id : Z;
  dc_service_id : string;
  dc_target_type : string;
  dc_target_db : string;
  dc_resource : string;
  dc_encrypted_credentials : list byte;
  dc_kek_id : Z;
  dc_kek_version : Z;
  dc_status : string;
  dc_created_at : Z }.

Record RootCaRow := MkRootCaRow {
  rc_id : Z;
  rc_ca_tag : string;
  rc_algorithm : string;
  rc_public_key : list byte;
  rc_encrypted_private_key : list byte;
  rc_kek_id : Z;
  rc_kek_version : Z;
  rc_certificate_pem : string;
  rc_serial_number : string;
  rc_status : string;
  rc_created_at : Z;
  rc_expires_at : option Z }.

Record KmsDb := MkKmsDb {
  db_keys : list KeyDbRow;
  db_audit : list AuditRow;
  db_targets : list TargetResource;
  db_provisioned : list ProvisionedCredential;
  db_credentials : list DbCredential;
  db_root_cas : list RootCaRow }.

Definition set_audit (db : KmsDb) (l : list AuditRow) : KmsDb :=
  MkKmsDb (db_keys db) l (db_targets db) (db_provisioned db) (db_credentials db) (db_root_cas db).
Definition set_targets (db : KmsDb) (l : list TargetResource) : KmsDb :=
  MkKmsDb (db_keys db) (db_audit db) l (db_provisioned db) (db_credentials db) (db_root_cas db).
Definition set_provisioned (db : KmsDb) (l : list ProvisionedCredential) : KmsDb :=
  MkKmsDb (db_keys db) (db_audit db) (db_targets db) l (db_credentials db) (db_root_cas db).
Definition set_credentials (db : KmsDb) (l : list DbCredential) : KmsDb :=
  MkKmsDb (db_keys db) (db_audit db) (db_targets db) (db_provisioned db) l (db_root_cas db).
Definition set_root_cas (db : KmsDb) (l : list RootCaRow) : KmsDb :=
  MkKmsDb (db_keys db) (db_audit db) (db_targets db) (db_provisioned db) (db_credentials db) l.

(** A text stored in a [VARCHAR(n)] column: too long is an error, unless only
    spaces exceed the length; those are cut off. *)
Definition starts_char (b : byte) : bool := negb (is_cont 128 191 b).
Fixpoint split_chars (n : nat) (l : list byte) : list byte * list byte :=
  match l with
  | [] => ([], [])
  | b :: l' =>
    match (if starts_char b then n else S n) with
    | O => ([], l)
    | S n => let (kept, rest) := split_chars n l' in (b :: kept, rest)
    end
  end.
Definition varchar (n : nat) (column s : string) : result string SqlError :=
  let (kept, rest) := split_chars n (str_bytes s) in
  if forallb (λ b, Z_of_byte b =? 32) rest then Ok (str_of_bytes kept)
  else Err (ValueTooLong column).

Definition guard_sql (ok : bool) (e : SqlError) : result unit SqlError :=
  if ok then Ok () else Err e.
Definition opt_varchar (n : nat) (column : string) (o : option string) :
    result (option string) SqlError :=
  match o with Some s => let? s := varchar n column s in Ok (Some s) | None => Ok None end.

(** [REFERENCES keys(id)] *)
Definition key_exists (db : KmsDb) (id : Z) : bool := existsb (λ r, kr_id r =? id) (db_keys db).

(** ** AuditQueries inside a transaction *)

Definition latest_hash_tx (db : KmsDb) : option string := latest_hash (db_audit db).
Definition audit_insert_tx `{PgTime} (db : KmsDb) (row : AuditRow) : result KmsDb SqlError :=
  let? l := audit_insert (db_audit db) row in Ok (set_audit db l).

(** ** CredentialQueries *)

(** [target_name] is unique: [LIMIT 1] chooses nothing. *)
Definition fetch_target_resource (db : KmsDb) (target_name : string) :
    option (Z * list byte * option string) :=
  r ← head (filter (λ r, String.eqb (tr_target_name r) target_name && tr_active r = true)
              (db_targets db));
  Some (tr_id r, tr_connection_url_encrypted r, tr_default_role r).

Definition live_for (service_id : string) (target_id : Z) (r : ProvisionedCredential) : bool :=
  String.eqb (pc_service_id r) service_id && (pc_target_id r =? target_id)
  && negb (pc_revoked r).

Definition set_revoked (r : ProvisionedCredential) : ProvisionedCredential :=
  MkProvisionedCredential (pc_id r) (pc_service_id r) (pc_target_id r)
    (pc_encrypted_credentials r) (pc_granted_role r) (pc_kek_id r) (pc_kek_version r)
    (pc_expires_at r) true (pc_status r) (pc_created_at r).
Definition set_pc_status (st : string) (r : ProvisionedCredential) : ProvisionedCredential :=
  MkProvisionedCredential (pc_id r) (pc_service_id r) (pc_target_id r)
    (pc_encrypted_credentials r) (pc_granted_role r) (pc_kek_id r) (pc_kek_version r)
    (pc_expires_at r) (pc_revoked r) st (pc_created_at r).

Definition revoke_active_credentials_for_target (db : KmsDb) (service_id : string)
    (target_id : Z) : KmsDb :=
  set_provisioned db
    ((λ r, if live_for service_id target_id r then set_revoked r else r) <$> db_provisioned db).

(** [ORDER BY version DESC LIMIT 1] *)
Definition newer_version (r1 r2 : KeyDbRow) : Prop := kr_version r2 ≤ kr_version r1.
#[export] Instance newer_version_dec : RelDecision newer_version.
Proof. intros r1 r2. unfold newer_version. apply _. Defined.
Definition latest_version (l : list KeyDbRow) : option (Z * Z) :=
  r ← head (merge_sort newer_version l); Some (kr_id r, kr_version r).

Definition fetch_latest_kek_id (db : KmsDb) (target_service_id : string) : option (Z * Z) :=
  latest_version (filter (λ r, is_active_for target_service_id "AES256GCM" r = true) (db_keys db)).

Definition PROVISIONING_STATUSES : list string :=
  ["PENDING"; "PROVISIONING"; "ACTIVE"; "FAILED"; "REVOKING"]%string.
Definition status_allowed (st : string) : bool := bool_decide (st ∈ PROVISIONING_STATUSES).

Definition insert_provisioned_credential `{PgTime} (db : KmsDb) (now id : Z) (service_id : string)
    (target_id : Z) (encrypted_credentials : list byte) (granted_role : string)
    (kek_id kek_version expires_at : Z) (status : string) : result KmsDb SqlError :=
  let? service_id := varchar 64 "service_id" service_id in
  let? granted_role := varchar 64 "granted_role" granted_role in
  let? status := varchar 32 "status" status in
  let? _ := guard_sql (status_allowed status)
              (CheckViolation "chk_provisioned_credentials_status") in
  let? _ := guard_sql (negb (existsb (λ r, pc_id r =? id) (db_provisioned db)))
              (UniqueViolation "provisioned_credentials_pkey") in
  let? _ := guard_sql (existsb (λ r, tr_id r =? target_id) (db_targets db))
              (ForeignKeyViolation "provisioned_credentials_target_id_fkey") in
  let? _ := guard_sql (key_exists db kek_id)
              (ForeignKeyViolation "provisioned_credentials_kek_id_fkey") in
  Ok (set_provisioned db (db_provisioned db ++
        [MkProvisionedCredential id service_id target_id encrypted_credentials granted_role
           kek_id kek_version (pg_timestamptz expires_at) false status (pg_timestamptz now)])).

(** [ORDER BY created_at DESC, id DESC LIMIT 1] *)
Definition newer_credential (r1 r2 : ProvisionedCredential) : Prop :=
  pc_created_at r2 < pc_created_at r1 ∨
  (pc_created_at r2 = pc_created_at r1 ∧ pc_id r2 ≤ pc_id r1).
#[export] Instance newer_credential_dec : RelDecision newer_credential.
Proof. intros r1 r2. unfold newer_credential. apply _. Defined.

Definition usable (service_id : string) (target_id now : Z) (r : ProvisionedCredential) : bool :=
  live_for service_id target_id r && String.eqb (pc_status r) "ACTIVE"
  && (now <? pc_expires_at r).

Definition fetch_latest_active_provisioned_credential_for_service_target (db : KmsDb) (now : Z)
    (service_id : string) (target_id : Z) : option (Z * list byte * Z) :=
  r ← head (merge_sort newer_credential
              (filter (λ r, usable service_id target_id now r = true) (db_provisioned db)));
  Some (pc_id r, pc_encrypted_credentials r, pc_expires_at r).

(** The same without an order: [LIMIT 1] leaves the choice open. *)
Definition fetch_active_provisioned_credential (db : KmsDb) (now : Z) (service_id : string)
    (target_id : Z) : option (Z * list byte * Z) :=
  r ← head (filter (λ r, usable service_id target_id now r = true) (db_provisioned db));
  Some (pc_id r, pc_encrypted_credentials r, pc_expires_at r).

Definition update_provisioned_credential_status (db : KmsDb) (id : Z) (status : string) :
    result KmsDb SqlError :=
  let hit r := pc_id r =? id in
  if existsb hit (db_provisioned db) then
    let? status := varchar 32 "status" status in
    let? _ := guard_sql (status_allowed status)
                (CheckViolation "chk_provisioned_credentials_status") in
    Ok (set_provisioned db
          ((λ r, if hit r then set_pc_status status r else r) <$> db_provisioned db))
  else Ok db.

(** ** BootstrapQueries *)

Definition target_resource_exists_by_id (db : KmsDb) (id : Z) : bool :=
  existsb (λ r, tr_id r =? id) (db_targets db).

Definition credential_exists_by_id (db : KmsDb) (id : Z) : bool :=
  existsb (λ r, pc_id r =? id) (db_provisioned db).

Definition insert_target_resource `{PgTime} (db : KmsDb) (id : Z) (target_name target_type : string)
    (connection_url_encrypted : list byte) (default_role : option string) (created_at : Z) :
    result (bool * KmsDb) SqlError :=
  let? target_name := varchar 64 "target_name" target_name in
  let? target_type := varchar 32 "target_type" target_type in
  let? default_role := opt_varchar 64 "default_role" default_role in
  if target_resource_exists_by_id db id then Ok (false, db)
  else
    let? _ := guard_sql
        (negb (existsb (λ r, String.eqb (tr_target_name r) target_name) (db_targets db)))
        (UniqueViolation "target_resources_target_name_key") in
    Ok (true, set_targets db (db_targets db ++
          [MkTargetResource id target_name target_type connection_url_encrypted default_role
             true (pg_timestamptz created_at)])).

(** Whatever the algorithm; rows of equal version come in no defined order. *)
Definition active_credential_exists (db : KmsDb) (service_id target_type target_db : string) :
    option Z :=
  dc_id <$> head (filter (λ r, String.eqb (dc_service_id r) service_id
    && String.eqb (dc_target_type r) target_type && String.eqb (dc_target_db r) target_db
    && String.eqb (dc_status r) "ACTIVE" = true) (db_credentials db)).

Definition latest_kek_id (db : KmsDb) (service_id : string) : option (Z * Z) :=
  latest_version
    (filter (λ r, String.eqb (kr_service_id r) service_id && kr_is_active r = true) (db_keys db)).

Definition insert_db_credential `{PgTime} (db : KmsDb) (id : Z)
    (service_id target_type target_db resource : string) (encrypted_credentials : list byte)
    (kek_id kek_version created_at : Z) : result (bool * KmsDb) SqlError :=
  if existsb (λ r, dc_id r =? id) (db_credentials db) then Ok (false, db)
  else
    let? _ := guard_sql (key_exists db kek_id)
                (ForeignKeyViolation "db_credentials_kek_id_fkey") in
    Ok (true, set_credentials db (db_credentials db ++
          [MkDbCredential id service_id target_type target_db resource encrypted_credentials
             kek_id kek_version "ACTIVE" (pg_timestamptz created_at)])).

(** ** RootCaQueries *)

Definition has_tag (ca_tag : string) (r : RootCaRow) : bool := String.eqb (rc_ca_tag r) ca_tag.

Definition fetch_active_by_tag (db : KmsDb) (ca_tag : string) : option RootCaRow :=
  head (filter (λ r, has_tag ca_tag r = true) (db_root_cas db)).

Definition exists_by_tag (db : KmsDb) (ca_tag : string) : bool :=
  existsb (has_tag ca_tag) (db_root_cas db).

Definition exists_by_tag_tx (db : KmsDb) (ca_tag : string) : bool :=
  existsb (has_tag ca_tag) (db_root_cas db).

Definition insert_root_ca `{PgTime} (db : KmsDb) (id : Z) (ca_tag algorithm : string)
    (public_key encrypted_private_key : list byte) (kek_id kek_version : Z)
    (certificate_pem serial_number status : string) (created_at : Z) (expires_at : option Z) :
    result (bool * KmsDb) SqlError :=
  if exists_by_tag_tx db ca_tag then Ok (false, db)
  else
    let? _ := guard_sql (negb (existsb (λ r, rc_id r =? id) (db_root_cas db)))
                (UniqueViolation "root_cas_pkey") in
    let? _ := guard_sql (key_exists db kek_id) (ForeignKeyViolation "root_cas_kek_id_fkey") in
    Ok (true, set_root_cas db (db_root_cas db ++
          [MkRootCaRow id ca_tag algorithm public_key encrypted_private_key kek_id kek_version
             certificate_pem serial_number status (pg_timestamptz created_at)
             (pg_timestamptz <$> expires_at)])).

Definition update_encrypted_private_key (db : KmsDb) (id : Z) (encrypted_private_key : list byte)
    (kek_version : Z) : KmsDb :=
  set_root_cas db
    ((λ r, if rc_id r =? id then
        MkRootCaRow (rc_id r) (rc_ca_tag r) (rc_algorithm r) (rc_public_key r)
          encrypted_private_key (rc_kek_id r) kek_version (rc_certificate_pem r)
          (rc_serial_number r) (rc_status r) (rc_created_at r) (rc_expires_at r)
      else r) <$> db_root_cas db).

(** The statement does not select [public_key], which the row type requires:
    a row that is found cannot be decoded. *)
Definition fetch_by_id (db : KmsDb) (id : Z) : result (option RootCaRow) SqlError :=
  if existsb (λ r, rc_id r =? id) (db_root_cas db) then Err (ColumnNotFound "public_key")
  else Ok None.
