(* ===== verification/Transactions.v ===== *)
(** * Transactions

    Models how the use cases run queries in a transaction
    ([pool.begin], the queries of [kms-db/src/repositories.rs] on [&mut tx],
    [tx.commit]) and the advisory lock of [lock_audit_chain_tx]: the writers
    that take it read the latest hash and append their row in one step.  [P]
    is the state outside the database (the target systems). *)

From S2P Require Import Prelude.
From S2P Require Import Interfaces.
From S2P Require Import Protocol.
From S2P Require Import Domain.
From S2P Require Import Effects.
From S2P Require Import Acl.
From S2P Require Import AuditLog.
From S2P Require Import AuditChain.
From S2P Require Import KeyStore.
From S2P Require Import Database.

(** ** Steps on the database and the targets *)

Section steps.
  Context {P : Type} `{SqlDisplay}.

Definition on_targets {X} (m : act P X) : act (KmsDb * P) X := λ '(db, p),
  let (r, p) := m p in (r, (db, p)).
(** A query of the transaction. *)
Definition tx_query {X} (f : KmsDb → result (X * KmsDb) SqlError) : act (KmsDb * P) X :=
  λ '(db, p),
  match f db with
  | Ok (x, db) => (Done (Ok x), (db, p))
  | Err e => (Done (Err (db_error e)), (db, p))
  end.
Definition tx_exec (f : KmsDb → result KmsDb SqlError) : act (KmsDb * P) unit :=
  tx_query (λ db, let? db := f db in Ok ((), db)).
(** A read, inside the transaction or on the pool. *)
Definition read_db {X} (f : KmsDb → X) : act (KmsDb * P) X := λ s, (Done (Ok (f s.1)), s).

(** [match m.await { Err(e) => { h(e); .. } .. }] *)
Definition act_on_err {S X} (m : act S X) (h : AppError → act S X) : act S X := λ s,
  match m s with
  | (Done (Err e), s) => h e s
  | other => other
  end.

(** [begin], the body on the transaction's view, and [commit]: when the body
    does not return [Ok] the transaction is dropped, and [on_commit_err] runs
    when the commit fails. *)
Definition transaction {X} (commit : result unit string) (body : act (KmsDb * P) X)
    (on_commit_err : string → X → act P AppError) : act (KmsDb * P) X := λ '(db, p),
  match body (db, p) with
  | (Done (Ok x), (db', p')) =>
    match commit with
    | Ok _ => (Done (Ok x), (db', p'))
    | Err e =>
      match on_commit_err e x p' with
      | (Done (Ok err), p'') => (Done (Err err), (db, p''))
      | (Done (Err err), p'') => (Done (Err err), (db, p''))
      | (Panics w, p'') => (Panics w, (db, p''))
      | (Aborts, p'') => (Aborts, (db, p''))
      end
    end
  | (r, (_, p')) => (r, (db, p'))
  end.

End steps.

Arguments tx_query : simpl never.
Arguments tx_exec : simpl never.
Arguments read_db : simpl never.
Arguments on_targets : simpl never.

(** ** Atomicity *)

Section atomicity.
  Context {P : Type} `{SqlDisplay}.

(** Returns [Ok], or leaves the database as it was. *)
Definition atomic {X} (m : act (KmsDb * P) X) : Prop :=
  ∀ s, (∃ x, (m s).1 = Done (Ok x)) ∨ (m s).2.1 = s.1.

(** Never changes the database, or the targets. *)
Definition reads_only {X} (m : act (KmsDb * P) X) : Prop := ∀ s, (m s).2 = s.

Lemma reads_of {X} (r : result X AppError) : reads_only (act_of r).
Proof. by intros s. Qed.
Lemma reads_err {X} e : reads_only (X := X) (act_err e).
Proof. by intros s. Qed.
Lemma reads_or_panic {X} w (o : option X) : reads_only (act_or_panic w o).
Proof. by intros s; destruct o. Qed.
Lemma reads_db {X} (f : KmsDb → X) : reads_only (read_db f).
Proof. by intros s. Qed.

Lemma reads_atomic {X} (m : act (KmsDb * P) X) : reads_only m → atomic m.
Proof. intros R s. right. by rewrite R. Qed.

Lemma atomic_bind {X Y} (m : act (KmsDb * P) X) (k : X → act (KmsDb * P) Y) :
  reads_only m → (∀ x, atomic (k x)) → atomic (act_bind m k).
Proof.
  intros R A s. unfold act_bind. specialize (R s).
  destruct (m s) as [[[x|e]| |] s']; cbn in R; subst s'; try (by right). apply A.
Qed.

Lemma atomic_then_ret {X Y} (m : act (KmsDb * P) X) (k : X → act (KmsDb * P) Y) :
  atomic m → (∀ x s, ∃ y, k x s = (Done (Ok y), s)) → atomic (act_bind m k).
Proof.
  intros A K s. unfold act_bind. specialize (A s).
  destruct (m s) as [[[x|e]| |] s']; cbn in *;
    [destruct (K x s') as [y ->]; eauto|destruct A as [[y A]|A]; eauto; discriminate..].
Qed.

Lemma atomic_transaction {X} commit (body : act (KmsDb * P) X) on_err :
  atomic (transaction commit body on_err).
Proof.
  intros [db p]. unfold transaction. destruct (body (db, p)) as [[[x|e]| |] [db' p']]; try (by right).
  destruct commit; [left; by exists x|right].
  by destruct (on_err _ x p') as [[[?|?]| |] ?].
Qed.

End atomicity.

#[export] Hint Resolve reads_of reads_err reads_or_panic reads_db reads_atomic atomic_bind
  atomic_then_ret atomic_transaction : kms.

(** ** Steps that succeed *)

Lemma guard_sql_Ok b e u : guard_sql b e = Ok u ↔ b = true.
Proof. destruct b, u; simpl; split; congruence. Qed.

Lemma existsb_eq_true {A} (f : A → Z) id l :
  existsb (λ r, f r =? id) l = true ↔ id ∈ f <$> l.
Proof.
  rewrite existsb_exists, list_elem_of_fmap. setoid_rewrite <- list_elem_of_In.
  setoid_rewrite Z.eqb_eq. naive_solver.
Qed.

Lemma existsb_eq_false {A} (f : A → Z) id l :
  existsb (λ r, f r =? id) l = false ↔ id ∉ f <$> l.
Proof. rewrite <- not_true_iff_false, existsb_eq_true. done. Qed.

Section successful_steps.
  Context {P : Type} `{SqlDisplay}.

Lemma tx_exec_Ok (f : KmsDb → result KmsDb SqlError) s u s' :
  tx_exec (P := P) f s = (Done (Ok u), s') ↔ ∃ db', f s.1 = Ok db' ∧ s' = (db', s.2).
Proof.
  destruct s as [db p], u. unfold tx_exec, tx_query. cbn.
  destruct (f db); simpl; naive_solver.
Qed.

Lemma on_targets_Ok {X} (m : act P X) s x s' :
  on_targets m s = (Done (Ok x), s') ↔ ∃ p', m s.2 = (Done (Ok x), p') ∧ s' = (s.1, p').
Proof. destruct s as [db p]. unfold on_targets. cbn. destruct (m p). naive_solver. Qed.

Lemma on_err_ignored_Ok {S X Y} (m : act S X) (n : act S Y) s x s' :
  act_on_err m (λ e, act_ignore n ;;@ act_err e) s = (Done (Ok x), s') → m s = (Done (Ok x), s').
Proof.
  unfold act_on_err. destruct (m s) as [[[y|e]| |] s1]; try done.
  intros E. inv_act.
Qed.

Lemma tx_query_Ok {X} (f : KmsDb → result (X * KmsDb) SqlError) s x s' :
  tx_query (P := P) f s = (Done (Ok x), s') ↔ ∃ db', f s.1 = Ok (x, db') ∧ s' = (db', s.2).
Proof.
  destruct s as [db p]. unfold tx_query. cbn. destruct (f db) as [[y db']|]; naive_solver.
Qed.

Lemma transaction_Ok {X} commit (body : act (KmsDb * P) X) on_err db p x s' :
  transaction commit body on_err (db, p) = (Done (Ok x), s') →
  body (db, p) = (Done (Ok x), s') ∧ commit = Ok ().
Proof.
  unfold transaction. destruct (body (db, p)) as [[[y|e]| |] [db' p']]; try done.
  destruct commit as [[]|e]; [by intros [= -> <-]|].
  by destruct (on_err e y p') as [[[?|?]| |] ?].
Qed.

End successful_steps.

(** ** Appending to the audit chain *)

Section chain.
  Context `{Hsha : Sha256} `{Hhex : Hex} `{Hjson : Json} `{Hchrono : Chrono} `{Huuid : UuidFmt}
    `{Hpg : PgTime}.

(** A chain in order and linked from the genesis hash, with no signature a key
    could be checked against. *)
Record chain_wf (l : list AuditRow) : Prop := {
  cw_ascending : ascending l;
  cw_linked : linked GENESIS_HASH l;
  cw_unsigned r : r ∈ l → unsigned r }.

Lemma chain_wf_nil : chain_wf [].
Proof. split; [constructor|done|by intros r ?%elem_of_nil]. Qed.

Lemma latest_hash_Some l : ascending l → l ≠ [] → latest_hash l = Some (tip GENESIS_HASH l).
Proof.
  intros A N. unfold latest_hash, tip. rewrite sorted_rows_ascending by done.
  destruct (last l) eqn:E; [done|]. by apply last_None in E.
Qed.

(** A row that carries the latest hash and the hash of its own fields, after
    all the others, extends the chain. *)
Lemma chain_wf_snoc `{!PgTimeLaws Hpg} l row :
  chain_wf l → ar_prev_hash row = tip GENESIS_HASH l → row_hash_ok row → unsigned row →
  ar_created_at row mod 1000 = 0 → (∀ r, r ∈ l → row_lt r row) → chain_wf (l ++ [stored row]).
Proof.
  intros [A L U] Hp Hh Hu Ht Hlt.
  assert (stored row = row) as ->.
  { unfold stored. rewrite pg_timestamptz_exact by done. by destruct row. }
  split; [by apply ascending_snoc|by apply linked_snoc|].
  intros r [Hr|Hr]%elem_of_app; [auto|]. by apply list_elem_of_singleton in Hr as ->.
Qed.

Lemma chain_wf_verifies `{SqlDisplay} `{Ed25519Lib} acl caller keys l :
  AclSettings_has_control_action acl caller AuditVerify = true → chain_wf l →
  verify_audit_handler acl caller l keys None (Some true) =
  Some (Ok (MkVerifyReport true (blen l) (blen l) [])).
Proof.
  intros Hacl [A L U]. destruct (decide (l = [])) as [->|Hne].
  - unfold verify_audit_handler. by rewrite Hacl.
  - rewrite verify_full_report by done.
    rewrite sorted_rows_ascending by done. rewrite linked_verify_loop by done.
    unfold blen. simpl. do 3 f_equal; lia.
Qed.

(** The first row of a table has to carry the genesis hash. *)
Lemma first_row_verifies `{SqlDisplay} `{Ed25519Lib} acl caller keys row rep :
  ar_prev_hash row ≠ GENESIS_HASH →
  verify_audit_handler acl caller [row] keys None (Some true) = Some (Ok rep) → vr_ok rep = false.
Proof.
  intros Hp Hv. destruct (vr_ok rep) eqn:Hok; [|done]. exfalso.
  apply verify_full_ok in Hv; [|done]. destruct Hv as [Hv _]. by apply Hp.
Qed.

End chain.
