(* ===== verification/VhsmClient.v ===== *)
(** * The service's vHSM client

    Models [kms-service/src/infrastructure/crypto/vhsm_client.rs], a second
    implementation of the framed exchange of [kms-core/src/hsm/client.rs], and
    the operations of [kms_service.rs] that the key use cases do not need:
    credentials and data keys. *)

From S2P Require Import Prelude.
From S2P Require Import Interfaces.
From S2P Require Import Protocol.
From S2P Require Import Vhsm.
From S2P Require Import Daemon.
From S2P Require Import Domain.
From S2P Require Import AuditLog.
From S2P Require Import KeyStore.
From S2P Require Import KeyUseCases.

(** ** The transport *)

Record VhsmClient := MkVhsmClient { vc_socket_path : string; vc_timeout_secs : Z }.

(** The text of an I/O error. *)
Class IoDisplay := { io_display : IoError → string }.

(** [timeout(..).await.map_err(..)?.map_err(..)?] *)
Definition timed_app {A} `{IoDisplay} (on_timeout on_error : string) (t : timed A) :
    result A AppError :=
  match t with
  | Elapsed => Err (RuntimeError on_timeout)
  | Completed r => map_err (λ e, RuntimeError (on_error +s+ io_display e)) r
  end.

Section transport.
  Context `{Hcodec : HsmCodec} `{Hnet : Network} `{Hio : IoDisplay}.

Definition VhsmClient_send_request (self : VhsmClient) (request : HsmRequest) :
    result HsmResponse AppError :=
  let? payload := map_err SerializationError (request_to_vec request) in
  let len_header := u32_to_be_bytes (as_u32 (blen payload)) in
  let path := vc_socket_path self in
  let timeout := vc_timeout_secs self * 1000000000 in
  let? _ := timed_app ("Timeout connecting to vHSM at " +s+ path)
              ("Nie udało się połączyć z vhsm-daemon pod ścieżką " +s+ path +s+ ": ")
              (net_connect path timeout) in
  let? _ := timed_app "Timeout writing header to vHSM" "Błąd zapisu nagłówka do vHSM: "
              (net_write path len_header timeout) in
  let? _ := timed_app "Timeout writing payload to vHSM" "Błąd zapisu ładunku do vHSM: "
              (net_write path payload timeout) in
  let '(o1, header_buf, st) := read_exact 4 (net_reply path (len_header ++ payload) timeout) in
  let? _ := timed_app "Timeout reading header from vHSM"
              "Błąd odczytu nagłówka odpowiedzi z vHSM: " o1 in
  let response_len := u32_from_be_bytes header_buf in
  let '(o2, response_buf, _) := read_exact (Z.to_nat response_len) st in
  let? _ := timed_app "Timeout reading body from vHSM"
              "Błąd odczytu treści odpowiedzi z vHSM: " o2 in
  map_err SerializationError (response_from_slice response_buf).

End transport.

(** ** Operations *)

Section operations.
  Context (send_request : Entropy → HsmRequest → result HsmResponse AppError).

Definition VhsmClient_is_ready (ent : Entropy) : bool :=
  match send_request ent Status with
  | Ok (StatusInfo initialized _) => initialized
  | _ => false
  end.

Definition VhsmClient_generate_credential (ent : Entropy) (password_length : Z) :
    result (string * string * list byte * Z) AppError :=
  let? response := send_request ent (GenerateCredential password_length) in
  match response with
  | CredentialGenerated credential_id password wrapped_password key_version =>
    Ok (credential_id, password, wrapped_password, key_version)
  | Error _ message => Err (CryptoError ("vHSM błąd: " +s+ message) None)
  | _ => Err (CryptoError "Nieoczekiwana odpowiedź vHSM" None)
  end.

Definition VhsmCryptoService_generate_credential (ent : Entropy) (password_length : Z) :
    result (string * string * list byte * Z) AppError :=
  let? (credential_id, password_b64, wrapped, key_version) :=
    VhsmClient_generate_credential ent password_length in
  Ok (credential_id, password_b64, wrapped, as_i32 key_version).

Definition VhsmCryptoService_decrypt_bytes (ent : Entropy) (ciphertext : list byte) :
    result (list byte) AppError :=
  VhsmClient_decrypt send_request ent ciphertext.

(** *** Data keys *)

Record GeneratedDataKey := MkGeneratedDataKey {
  gd_algorithm : KeyAlgorithm;
  gd_plaintext : list byte;
  gd_wrapped : list byte;
  gd_master_key_version : Z }.

(** [rng] is the service's own generator, [ent] the daemon's. *)
Definition VhsmCryptoService_generate_data_key (rng ent : Entropy) (algorithm : KeyAlgorithm) :
    result GeneratedDataKey AppError :=
  if negb (bool_decide (algorithm = AES256GCM)) then
    Err (ValidationError "Only AES256GCM is supported for GenerateDataKey")
  else
    let? key_bytes := map_err (λ e, CryptoError ("RNG error: " +s+ e) (Some e)) (rng 0 32%nat) in
    let? wrapped := VhsmClient_encrypt send_request ent key_bytes in
    let? version := VhsmCryptoService_current_master_key_version send_request ent in
    Ok (MkGeneratedDataKey algorithm key_bytes wrapped version).

End operations.

(** ** The two clients agree *)

(** Writing a message in pieces succeeds when writing it whole does. *)
Class NetworkLaws (N : Network) := {
  net_write_split path a b t :
    net_write path (a ++ b) t = Completed (Ok tt) ↔
    net_write path a t = Completed (Ok tt) ∧ net_write path b t = Completed (Ok tt) }.

Section agreement.
  Context `{Hcodec : HsmCodec} `{Hnet : Network} `{Hio : IoDisplay}.

Lemma timed_app_ok {A} a b (t : timed A) x : timed_app a b t = Ok x ↔ t = Completed (Ok x).
Proof. destruct t as [[y|e]|]; simpl; split; congruence. Qed.
Lemma timed_result_ok {A} (t : timed A) x : timed_result t = Ok x ↔ t = Completed (Ok x).
Proof. destruct t as [[y|e]|]; simpl; split; congruence. Qed.

#[local] Opaque u32_to_be_bytes.

Lemma u32_from_be_max l : length l = 4%nat → u32_from_be_bytes l ≤ u32_max.
Proof.
  destruct l as [|a [|b [|c [|d [|]]]]]; try discriminate. intros _.
  unfold u32_from_be_bytes, from_be_bytes, u32_max; cbn [fold_left].
  rewrite !lor_shiftl8 by apply Z_of_byte_range. change (Z.shiftl 0 8) with 0.
  pose proof (Z_of_byte_range a); pose proof (Z_of_byte_range b);
    pose proof (Z_of_byte_range c); pose proof (Z_of_byte_range d). lia.
Qed.

(** When the service's client has an answer. *)
Lemma VhsmClient_send_request_ok self req r :
  VhsmClient_send_request self req = Ok r ↔
  ∃ payload body rest,
    let path := vc_socket_path self in
    let t := vc_timeout_secs self * 1000000000 in
    let header := u32_to_be_bytes (as_u32 (blen payload)) in
    request_to_vec req = Ok payload ∧
    net_connect path t = Completed (Ok tt) ∧ net_write path header t = Completed (Ok tt) ∧
    net_write path payload t = Completed (Ok tt) ∧
    pending (net_reply path (header ++ payload) t) = u32_to_be_bytes (blen body) ++ body ++ rest ∧
    blen body ≤ u32_max ∧ response_from_slice body = Ok r.
Proof.
  unfold VhsmClient_send_request. split.
  - intros E. inv_ok. rename x into payload.
    destruct (read_exact 4 _) as [[o1 hb] st] eqn:E1. inv_ok.
    destruct (read_exact _ st) as [[o2 body] st2] eqn:E2. inv_ok.
    repeat match goal with H : timed_app _ _ _ = Ok ?u |- _ =>
      destruct u; apply timed_app_ok in H; try subst end.
    apply read_exact_ok in E1 as [Hp1 Hl1]. apply read_exact_ok in E2 as [Hp2 Hl2].
    pose proof (u32_from_be_nonneg hb).
    assert (blen body = u32_from_be_bytes hb) as Hb by (unfold blen; lia).
    exists payload, body, (pending st2). split_and!; try done.
    + by rewrite Hb, u32_be_inverse, Hp1, Hp2.
    + rewrite Hb. by apply u32_from_be_max.
  - intros (payload & body & rest & Hp & Hc & Hw1 & Hw2 & Hrep & Hmax & Hr).
    rewrite Hp. cbn [map_err result_bind]. rewrite Hc, Hw1, Hw2.
    cbn [map_err result_bind timed_app].
    destruct (net_reply _ _ _) as [pd b]. cbn [pending] in Hrep. subst pd.
    rewrite (read_exact_app 4) by apply length_u32_to_be_bytes. cbn [timed_app map_err result_bind].
    rewrite u32_be_roundtrip by (unfold blen in *; lia).
    rewrite read_exact_app by (unfold blen; lia). cbn [timed_app map_err result_bind].
    by rewrite Hr.
Qed.

(** The answer of [send_hsm_request] for a response. *)
Definition as_core_answer (r : HsmResponse) : result HsmResponse HsmClientError :=
  match r with
  | Error code message => Err (Remote ("HSM returned error " +s+ pretty code +s+ ": " +s+ message))
  | _ => Ok r
  end.

(** The two implementations of the client agree: for a request of at most one
    mebibyte, whatever [send_hsm_request] answers the service's client answers
    too, and an answer of the service's client is that of [send_hsm_request]
    (an [Error] response as a remote error), unless the reply exceeds the one
    mebibyte that only [send_hsm_request] checks. *)
Theorem clients_agree `{!NetworkLaws Hnet} path secs req payload :
  trim path = path → is_empty path = false →
  request_to_vec req = Ok payload → blen payload ≤ MAX_HSM_FRAME_SIZE →
  (∀ r, send_hsm_request path req (Some (secs * 1000000000)) = Ok r →
     VhsmClient_send_request (MkVhsmClient path secs) req = Ok r) ∧
  (∀ r, VhsmClient_send_request (MkVhsmClient path secs) req = Ok r →
     send_hsm_request path req (Some (secs * 1000000000)) = Err InvalidFrame ∨
     send_hsm_request path req (Some (secs * 1000000000)) = as_core_answer r).
Proof.
  intros Ht He Hp Hmax. unfold send_hsm_request. rewrite Ht, He, Hp. 
  change (default _ (Some ?x)) with x. cbn [map_err result_bind].
  rewrite (proj2 (framed_message_ok payload _) (conj eq_refl Hmax)).
  assert (as_u32 (blen payload) = blen payload) as Hu.
  { unfold as_u32, MAX_HSM_FRAME_SIZE, blen in *. apply Z.mod_small. lia. }
  setoid_rewrite VhsmClient_send_request_ok. cbn [vc_socket_path vc_timeout_secs]. split.
  - intros r E. inv_ok. repeat match goal with H : timed_result _ = Ok ?u |- _ =>
      destruct u; apply timed_result_ok in H end.
    match goal with H : read_frame_with_timeout _ = Ok ?b |- _ =>
      rename b into body; apply read_frame_iff in H as (f & rest & [-> Hb]%framed_message_ok & Hpd)
    end.
    match goal with H : net_write _ _ _ = _ |- _ => apply net_write_split in H as [Hw1 Hw2] end.
    rewrite <- app_assoc in Hpd.
    exists payload, body, rest. rewrite Hu. split_and!; try done.
    + unfold MAX_HSM_FRAME_SIZE, u32_max in *. lia.
    + by case_match; simplify_eq.
  - intros r (payload' & body & rest & Hp' & Hc & Hw1 & Hw2 & Hpd & Hb & Hr).
    rewrite Hp in Hp'. injection Hp' as <-. rewrite Hu in *. rewrite Hc. cbn [timed_result map_err result_bind].
    rewrite (proj2 (net_write_split _ _ _ _) (conj Hw1 Hw2)). cbn [timed_result map_err result_bind].
    destruct (net_reply _ _ _) as [pd b]. cbn [pending] in Hpd. subst pd.
    unfold read_frame_with_timeout. rewrite (read_exact_app 4) by apply length_u32_to_be_bytes.
    cbn [timed_result map_err result_bind].
    rewrite u32_be_roundtrip by (unfold blen in *; lia).
    destruct (Z.ltb_spec MAX_HSM_FRAME_SIZE (blen body)); [by left|right].
    rewrite read_exact_app by (unfold blen; lia). cbn [timed_result map_err result_bind].
    rewrite Hr. by destruct r.
Qed.

End agreement.

(** ** The client over the daemon *)

(** The length of a list of bytes as [serde_json] writes it: decimal numbers
    separated by commas, in brackets. *)
Definition json_byte_len (b : byte) : Z :=
  if Z_of_byte b <? 10 then 1 else if Z_of_byte b <? 100 then 2 else 3.
Fixpoint json_items_len (l : list byte) : Z :=
  match l with [] => 0 | b :: l => json_byte_len b + 1 + json_items_len l end.
Definition json_bytes_len (l : list byte) : Z :=
  match l with [] => 2 | _ => 1 + json_items_len l end.

(** The lengths [serde_json] gives the messages of an encryption and of a
    decryption under the master key, whose other fields are constant but for
    the digits of a version; that an encoding cut short is no JSON text; and
    that a message is decoded with the name of the variant it was encoded
    with. *)
Class HsmCodecSizes (C : HsmCodec) := {
  encrypt_request_size p bs :
    request_to_vec (Encrypt "master_key" None p) = Ok bs → blen bs = json_bytes_len p + 67;
  decrypt_request_size c :
    ∃ bs, request_to_vec (Decrypt "master_key" None c) = Ok bs ∧ blen bs = json_bytes_len c + 68;
  decrypted_response_size p v :
    is_u32 v = true →
    ∃ bs, response_to_vec (Decrypted p v) = Ok bs ∧ blen bs ≤ json_bytes_len p + 53;
  request_prefix r bs n :
    request_to_vec r = Ok bs → (n < length bs)%nat →
    ∃ e, request_from_slice (take n bs) = Err e;
  error_decoded code m bs r :
    response_to_vec (Error code m) = Ok bs → response_from_slice bs = Ok r →
    ∃ code' m', r = Error code' m' }.

Lemma json_bytes_len_bound l : 2 ≤ json_bytes_len l ≤ 2 + 4 * blen l.
Proof.
  assert (∀ b, 1 ≤ json_byte_len b ≤ 3) as Hb.
  { intros b. unfold json_byte_len. repeat case_match; lia. }
  assert (∀ k, 0 ≤ json_items_len k ≤ 4 * blen k) as Hi.
  { intros k. unfold blen. induction k as [|b k IH]; cbn [json_items_len length]; [lia|].
    specialize (Hb b). lia. }
  destruct l as [|b l]; unfold json_bytes_len; [unfold blen; cbn; lia|].
  pose proof (Hi (b :: l)). pose proof (Hi l). specialize (Hb b).
  cbn [json_items_len] in *. lia.
Qed.

Section over_daemon.
  Context `{SsssLib} `{Haead : Aead} `{Sha256} `{Hhex : Hex} `{P256} `{Hx509 : X509}
    `{Hcodec : HsmCodec} `{Hio : IoDisplay}.

(** The client's exchange with a daemon in state [s]: the frames and their
    limits included. *)
Definition framed_transport (self : VhsmClient) (s : VhsmState) (now : Z)
    (ent : Entropy) (request : HsmRequest) : result HsmResponse AppError :=
  VhsmClient_send_request (Hnet := vhsm_socket ent now s) self request.

#[local] Opaque u32_to_be_bytes.

Lemma vhsm_socket_laws ent now s : NetworkLaws (vhsm_socket ent now s).
Proof. by split. Qed.

(** The framed exchange implements the transport the key use cases assume:
    when the daemon's handler answers, the service's client has exactly that
    answer, an [Error] included, whatever the path and the timeout. *)
Theorem service_client_transparent `{Hlaws : !HsmCodecLaws Hcodec}
    ent now s self req bs r s' bs' :
  request_wf req = true → request_to_vec req = Ok bs → blen bs ≤ MAX_PAYLOAD_SIZE →
  run (handle_request ent now req) s = (Replied r, s') →
  response_wf r = true → response_to_vec r = Ok bs' → blen bs' ≤ MAX_PAYLOAD_SIZE →
  VhsmClient_send_request (Hnet := vhsm_socket ent now s) self req = Ok r ∧
  daemon_transport s now ent req = Ok r.
Proof.
  intros Hwf Hbs Hlen Hrun Hwfr Hbs' Hlen'. split.
  - apply VhsmClient_send_request_ok. exists bs, bs', []. cbn [net_connect net_write vhsm_socket].
    assert (as_u32 (blen bs) = blen bs) as ->.
    { unfold as_u32, MAX_PAYLOAD_SIZE, blen in *. apply Z.mod_small. lia. }
    split_and!; try done.
    + rewrite (vhsm_socket_reply ent now s _ req _ bs r s' bs') by done.
      by rewrite app_nil_r.
    + unfold MAX_PAYLOAD_SIZE, u32_max in *. lia.
    + by apply response_roundtrip.
  - unfold daemon_transport. by rewrite Hrun.
Qed.

(** A data key the service hands out is 32 bytes, and unwraps to the same key
    as long as the daemon's state is the same. *)
Theorem data_key_unwraps `{!AeadLaws Haead} `{!X509Laws Hx509} s now rng ent a dk :
  VhsmCryptoService_generate_data_key (daemon_transport s now) rng ent a = Ok dk →
  a = AES256GCM ∧ length (gd_plaintext dk) = 32%nat ∧
  ∀ ent', VhsmCryptoService_decrypt_bytes (daemon_transport s now) ent' (gd_wrapped dk)
          = Ok (gd_plaintext dk).
Proof.
  unfold VhsmCryptoService_generate_data_key. case_bool_decide as Ha; [|done]. cbn [negb].
  intros E. inv_ok. split; [done|].
  match goal with Hd : draw _ _ = Ok ?k |- _ => split; [by apply draw_length in Hd|] end.
  intros ent'. eapply transport_decrypt_encrypt; [|done].
  match goal with Hd : draw _ _ = Ok _ |- _ => apply draw_length in Hd end.
  unfold blen, SECRET_MAX. lia.
Qed.

(** *** The frames and their limits *)

(** The bytes the daemon sends for the outcome of a handler. *)
Definition answer_stream (a : answer) : Stream :=
  match a with
  | Replied r =>
    match reply_frame r with Some f => MkStream f false | None => MkStream [] false end
  | TaskPanicked _ | ProcessAborted => MkStream [] false
  end.

Lemma read_request_sent payload :
  let len := as_u32 (blen payload) in
  read_request (MkStream (u32_to_be_bytes len ++ payload) true) =
  if MAX_PAYLOAD_SIZE <? len then None else Some (take (Z.to_nat len) payload).
Proof.
  intros len. assert (0 ≤ len ≤ u32_max ∧ len ≤ blen payload) as [Hr Hl].
  { subst len. unfold as_u32, u32_max, blen. split; [|apply Z.mod_le; lia].
    pose proof (Z.mod_pos_bound (Z.of_nat (length payload)) 4294967296). lia. }
  unfold read_request. rewrite (read_exact_app 4) by done.
  rewrite u32_be_roundtrip by done. case_match; [done|].
  unfold read_exact. cbn [pending]. unfold blen in Hl.
  by rewrite (proj2 (Nat.leb_le _ _)) by lia.
Qed.

Context `{Hlaws : !HsmCodecLaws Hcodec} `{Hsizes : !HsmCodecSizes Hcodec}.

(** What the daemon answers to a request of the client: nothing, its handler's
    answer, or, when the length of four gibibytes or more wraps around in the
    header, the answer to a request that cannot be parsed. *)
Lemma sent_request_cases req payload :
  request_wf req = true → request_to_vec req = Ok payload →
  (MAX_PAYLOAD_SIZE < blen payload ∧ ∀ ent now s path t,
     net_reply (Network := vhsm_socket ent now s) path
       (u32_to_be_bytes (as_u32 (blen payload)) ++ payload) t = MkStream [] false) ∨
  (blen payload ≤ MAX_PAYLOAD_SIZE ∧ ∀ ent now s path t,
     net_reply (Network := vhsm_socket ent now s) path
       (u32_to_be_bytes (as_u32 (blen payload)) ++ payload) t =
     answer_stream (run (handle_request ent now req) s).1) ∨
  (MAX_PAYLOAD_SIZE < blen payload ∧ ∃ e, ∀ ent now s path t,
     net_reply (Network := vhsm_socket ent now s) path
       (u32_to_be_bytes (as_u32 (blen payload)) ++ payload) t = answer_stream (Replied (Error 400 e))).
Proof.
  intros Hwf Hp. cbn [net_reply vhsm_socket]. rewrite read_request_sent.
  destruct (Z.le_gt_cases (blen payload) MAX_PAYLOAD_SIZE) as [Hle|Hgt].
  - right; left. split; [done|]. intros ent now s _ _.
    assert (as_u32 (blen payload) = blen payload) as ->.
    { unfold as_u32, MAX_PAYLOAD_SIZE, blen in *. apply Z.mod_small. lia. }
    rewrite (proj2 (Z.ltb_ge _ _) Hle). unfold blen. rewrite Nat2Z.id, firstn_all.
    unfold serve. by rewrite (request_roundtrip _ _ Hwf Hp).
  - destruct (Z.ltb_spec MAX_PAYLOAD_SIZE (as_u32 (blen payload))) as [|Hm]; [by left|].
    right; right. split; [done|].
    destruct (request_prefix req payload (Z.to_nat (as_u32 (blen payload)))) as [e He];
      [done|unfold MAX_PAYLOAD_SIZE, blen in *; lia|].
    exists ("Failed to deserialize HSM request: " +s+ e). intros ent now s _ _. unfold serve. by rewrite He.
Qed.

(** A response whose encoding is decoded as it was, or as an error. *)
Definition decoded_or_error (r : HsmResponse) : Prop :=
  response_wf r = true ∨ ∃ code m, r = Error code m.

Lemma no_header n (l : list byte) : [] ≠ u32_to_be_bytes n ++ l.
Proof.
  intros E. apply (f_equal length) in E. by rewrite length_app, length_u32_to_be_bytes in E.
Qed.

Lemma answer_stream_inv a body rest r :
  (∀ r0, a = Replied r0 → decoded_or_error r0) →
  pending (answer_stream a) = u32_to_be_bytes (blen body) ++ body ++ rest →
  blen body ≤ u32_max → response_from_slice body = Ok r →
  a = Replied r ∨ ∃ code m, r = Error code m.
Proof.
  intros Ha Hp Hb Hr. destruct a as [r0| |]; cbn [answer_stream] in Hp;
    [|by apply no_header in Hp..].
  unfold reply_frame in Hp. destruct (response_to_vec r0) as [bs|] eqn:E;
    [|by apply no_header in Hp].
  destruct (Z.ltb_spec MAX_PAYLOAD_SIZE (blen bs)) as [_|Hm]; [by apply no_header in Hp|]. cbn [pending] in Hp.
  apply app_inj_1 in Hp as [Hh Hp]; [|done].
  assert (as_u32 (blen bs) = blen bs) as Hu.
  { unfold as_u32, MAX_PAYLOAD_SIZE, blen in *. apply Z.mod_small. lia. }
  apply (f_equal u32_from_be_bytes) in Hh.
  rewrite Hu, !u32_be_roundtrip in Hh
    by (unfold MAX_PAYLOAD_SIZE, u32_max, blen in *; lia).
  assert (body = bs) as ->.
  { rewrite <- (app_nil_r bs) in Hp. apply app_inj_1 in Hp as [-> _]; [done|].
    unfold blen in Hh. lia. }
  destruct (Ha r0 eq_refl) as [Hwf|(code & m & ->)].
  - left. rewrite (response_roundtrip _ _ Hwf E) in Hr. by injection Hr as ->.
  - right. by eapply error_decoded.
Qed.

(** An answer the client gets is the answer of the handler, to a request of at
    most 64 KiB, or an error. *)
Lemma framed_transport_inv self s now ent req payload r :
  request_wf req = true → request_to_vec req = Ok payload →
  (∀ r0, (run (handle_request ent now req) s).1 = Replied r0 → decoded_or_error r0) →
  framed_transport self s now ent req = Ok r →
  (blen payload ≤ MAX_PAYLOAD_SIZE ∧ (run (handle_request ent now req) s).1 = Replied r) ∨
  ∃ code m, r = Error code m.
Proof.
  intros Hwf Hp Ha (p' & body & rest & Hp' & _ & _ & _ & Hs & Hb & Hr)%VhsmClient_send_request_ok.
  rewrite Hp in Hp'. injection Hp' as <-.
  destruct (sent_request_cases req payload Hwf Hp) as [[_ Hn]|[[Hle Hn]|(_ & e & Hn)]];
    rewrite Hn in Hs.
  - by apply no_header in Hs.
  - apply (answer_stream_inv _ body rest r) in Ha as [Ha|Ha]; [by left|by right|done..].
  - apply (answer_stream_inv _ body rest r) in Hs as [[= <-]|Hs]; eauto.
    intros r0 [= <-]. right. eauto.
Qed.

Lemma state_wf_version s : state_wf s → is_u32 (active_key_version s) = true.
Proof. intros [_ Hs]. case_match; destruct Hs as (_ & -> & _); done. Qed.

(** *** Encryption and decryption over the frames *)

Lemma framed_encrypt_inv self s now ent p c :
  state_wf s → VhsmClient_encrypt (framed_transport self s now) ent p = Ok c →
  json_bytes_len p + 67 ≤ MAX_PAYLOAD_SIZE ∧
  ∃ k, master_key s = Some k ∧ encrypt_bytes k p (ent 0) = Interfaces.Value (Ok c).
Proof.
  intros Hs E. unfold VhsmClient_encrypt in E. apply result_bind_Ok in E as (r & Hr & E).
  destruct r; try discriminate E. injection E as ->.
  destruct (request_to_vec (Encrypt "master_key" None p)) as [bs|e] eqn:Hbs.
  2: { exfalso. unfold framed_transport, VhsmClient_send_request in Hr.
       by rewrite Hbs in Hr. }
  eapply framed_transport_inv in Hr; [|done|exact Hbs|];
    [destruct Hr as [[Hle Hrun]|(? & ? & ?)]; [split|done]|].
  3: {
    intros r0 Hrun. cbn [handle_request] in Hrun. unfold handle_encrypt in Hrun.
    cbn -[encrypt_bytes] in Hrun. pose proof (state_wf_version s Hs) as Hv.
    destruct (master_key s) as [k|]; [|cbn in Hrun; injection Hrun as <-; right; eauto].
    cbn -[encrypt_bytes] in Hrun.
    destruct (encrypt_bytes k p (ent 0)) as [[c'|e]| |]; cbn in Hrun; try discriminate Hrun;
      injection Hrun as <-; [by left|right; eauto]. }
  - by rewrite <- (encrypt_request_size p bs Hbs).
  - destruct (run _ s) as [a s'] eqn:Ha. cbn in Hrun. subst a.
    apply run_encrypt_inv in Ha as (_ & _ & _ & ?). done.
Qed.

Lemma framed_decrypt_opens self s now ent k p c :
  state_wf s → master_key s = Some k → decrypt_bytes k c = Ok p →
  json_bytes_len c + 68 ≤ MAX_PAYLOAD_SIZE → json_bytes_len p + 53 ≤ MAX_PAYLOAD_SIZE →
  VhsmClient_decrypt (framed_transport self s now) ent c = Ok p.
Proof.
  intros Hs Hk Hd Hc Hp. pose proof (state_wf_version s Hs) as Hv.
  destruct (decrypt_request_size c) as (bs & Hbs & Hl).
  destruct (decrypted_response_size p _ Hv) as (bs' & Hbs' & Hl').
  unfold VhsmClient_decrypt.
  assert (framed_transport self s now ent (Decrypt "master_key" None c) =
          Ok (Decrypted p (active_key_version s))) as ->; [|done].
  refine (proj1 (service_client_transparent ent now s self (Decrypt "master_key" None c) bs
    (Decrypted p (active_key_version s)) s bs' eq_refl Hbs _ _ Hv Hbs' _));
    [lia| |lia].
  cbn [handle_request]. unfold handle_decrypt. cbn -[decrypt_bytes]. rewrite Hk.
  cbn -[decrypt_bytes]. by rewrite Hd.
Qed.

(** A ciphertext whose request is longer than 64 KiB cannot be decrypted. *)
Lemma framed_decrypt_refused self s now ent c :
  MAX_PAYLOAD_SIZE < json_bytes_len c + 68 →
  ∃ e, VhsmClient_decrypt (framed_transport self s now) ent c = Err e.
Proof.
  intros Hc. destruct (decrypt_request_size c) as (bs & Hbs & Hl). unfold VhsmClient_decrypt.
  destruct (framed_transport self s now ent (Decrypt "master_key" None c)) as [r|e] eqn:E;
    [|by eexists]. cbn [result_bind].
  apply VhsmClient_send_request_ok in E as (p' & body & rest & Hp' & _ & _ & _ & Hst & Hb & Hr).
  rewrite Hbs in Hp'. injection Hp' as <-.
  destruct (sent_request_cases (Decrypt "master_key" None c) bs eq_refl Hbs) as [[_ Hn]|[[Hle _]|(_ & e & Hn)]];
    [rewrite Hn in Hst; by apply no_header in Hst|lia|].
  rewrite Hn in Hst. apply (answer_stream_inv _ body rest r) in Hst as [[= <-]|(?&?&->)];
    [by eexists|by eexists| |done..]. intros r0 [= <-]. right. eauto.
Qed.

Lemma framed_decrypt_entropy self s now ent ent' c :
  VhsmClient_decrypt (framed_transport self s now) ent c =
  VhsmClient_decrypt (framed_transport self s now) ent' c.
Proof.
  destruct (decrypt_request_size c) as (bs & Hbs & _).
  unfold VhsmClient_decrypt, framed_transport, VhsmClient_send_request. rewrite Hbs.
  cbn [map_err result_bind net_connect net_write timed_app vhsm_socket].
  destruct (sent_request_cases (Decrypt "master_key" None c) bs eq_refl Hbs) as [[_ Hn]|[[_ Hn]|(_ & e & Hn)]];
    by rewrite !Hn.
Qed.

(** *** The exchange keeps the contract of the transport *)

Context `{!AeadLaws Haead} `{!AeadSizes Haead} `{!HexLaws Hhex} `{!X509Laws Hx509}.

Lemma encrypt_bytes_length k p d c :
  encrypt_bytes k p d = Interfaces.Value (Ok c) → blen c ≤ blen p + 76.
Proof.
  intros (ci & nonce & body & Hc & Hn & Hb & ->)%encrypt_bytes_inv.
  pose proof (aead_encrypt_length _ _ _ _ _ Hc Hn Hb). unfold blen. rewrite length_app. lia.
Qed.

Lemma framed_password self s now ent n id password wrapped v :
  state_wf s → 0 ≤ n ≤ 1024 →
  framed_transport self s now ent (GenerateCredential n) =
    Ok (CredentialGenerated id password wrapped v) →
  Z.of_nat (String.length password) ≤ 4 * n.
Proof.
  intros Hs Hn E. destruct (request_to_vec (GenerateCredential n)) as [bs|e] eqn:Hbs.
  2: { exfalso. unfold framed_transport, VhsmClient_send_request in E. by rewrite Hbs in E. }
  eapply framed_transport_inv in E; [| |exact Hbs|];
    [destruct E as [[_ Hrun]|(? & ? & ?)]; [|done]| |].
  - by eapply credential_password; [lia|].
  - cbn. unfold is_usize. lia.
  - intros r0. cbn [handle_request]. unfold handle_generate_credential, locked, err, fill_bytes.
    cbn [run]. pose proof (state_wf_version s Hs) as Hv.
    destruct (master_key s) as [k|]; [|intros [= <-]; right; eauto].
    case_match; [intros [= <-]; right; eauto|].
    destruct (ent 0 16%nat) as [i|]; [|done]. cbn [or_panic with_outcome].
    destruct (ent 1 (Z.to_nat n)) as [pw|]; [|done]. cbn [or_panic with_outcome].
    destruct (encrypt_bytes k pw (ent 2)) as [[c|e]| |]; cbn; try done;
      intros [= <-]; [left|right; eauto]. cbn [response_wf].
    by rewrite !visible_utf8, Hv by auto using hex_encode_visible, base64_encode_visible.
Qed.

(** The framed exchange with a daemon keeps the contract the use cases rely on:
    the messages of a short secret fit the 64 KiB frames. *)
Lemma framed_transport_laws self s now :
  state_wf s → VhsmTransportLaws (framed_transport self s now).
Proof.
  intros Hs. split.
  - apply framed_decrypt_entropy.
  - intros ent ent' p c Hp (_ & k & Hk & He)%framed_encrypt_inv; [|done].
    pose proof (encrypt_bytes_length _ _ _ _ He).
    pose proof (json_bytes_len_bound p). pose proof (json_bytes_len_bound c).
    unfold SECRET_MAX in Hp.
    eapply framed_decrypt_opens; eauto using decrypt_encrypt_bytes;
      unfold MAX_PAYLOAD_SIZE; lia.
  - intros ent n id password wrapped v Hn E. by eapply framed_password.
Qed.

End over_daemon.

(** ** A codec with the lengths of [serde_json]

    It covers the status, encryption and decryption: a tag, padding for the
    constant part of a message, and the bytes with padding for their digits. *)
Module SizedCodec.

Fixpoint put_items (l : list byte) : list byte :=
  match l with
  | [] => [tag 2]
  | b :: l => tag 1 :: b :: replicate (Z.to_nat (json_byte_len b - 1)) (tag 0) ++ put_items l
  end.
Definition put_bytes (l : list byte) : list byte :=
  match l with [] => tag 3 :: put_items [] | _ => put_items l end.

Fixpoint get_items (fuel : nat) (bs : list byte) : option (list byte) :=
  match fuel, bs with
  | S fuel, t :: r =>
    if Z_of_byte t =? 2 then match r with [] => Some [] | _ => None end
    else match r with
    | [] => None
    | b :: r =>
      let k := Z.to_nat (json_byte_len b - 1) in
      if (length (take k r) <? k)%nat then None else cons b <$> get_items fuel (drop k r)
    end
  | _, _ => None
  end.
Definition get_bytes (bs : list byte) : option (list byte) :=
  match bs with
  | t :: r => if Z_of_byte t =? 3 then get_items (length r) r else get_items (length bs) bs
  | [] => None
  end.
Definition get_padded (k : nat) (bs : list byte) : option (list byte) :=
  if (length bs <? k)%nat then None else get_bytes (drop k bs).

Definition sized_request_to_vec (r : HsmRequest) : result (list byte) string :=
  match r with
  | Status => Ok [tag 1]
  | Encrypt k None p =>
    if String.eqb k "master_key" then Ok (tag 2 :: replicate 66 (tag 0) ++ put_bytes p)
    else Err "unsupported"
  | Decrypt k None c =>
    if String.eqb k "master_key" then Ok (tag 4 :: replicate 67 (tag 0) ++ put_bytes c)
    else Err "unsupported"
  | _ => Err "unsupported"
  end.
Definition sized_request_from_slice (bs : list byte) : result HsmRequest string :=
  match bs with
  | [] => Err "empty"
  | t :: r =>
    if Z_of_byte t =? 1 then Ok Status
    else if Z_of_byte t =? 2 then
      match get_padded 66 r with Some p => Ok (Encrypt "master_key" None p) | None => Err "bytes" end
    else if Z_of_byte t =? 4 then
      match get_padded 67 r with Some c => Ok (Decrypt "master_key" None c) | None => Err "bytes" end
    else Err "tag"
  end.

Definition sized_response_to_vec (r : HsmResponse) : result (list byte) string :=
  match r with
  | StatusInfo b v => Ok (tag 1 :: tag (if b then 1 else 0) :: u32_to_be_bytes v)
  | Encrypted c v => Ok (tag 2 :: u32_to_be_bytes v ++ put_bytes c)
  | Decrypted p v => Ok (tag 4 :: u32_to_be_bytes v ++ put_bytes p)
  | Error code m => Ok (tag 5 :: u32_to_be_bytes code ++ str_bytes m)
  | _ => Err "unsupported"
  end.
Definition sized_response_from_slice (bs : list byte) : result HsmResponse string :=
  match bs with
  | t :: a :: b :: c :: d :: r =>
    let v := u32_from_be_bytes [a; b; c; d] in
    if Z_of_byte t =? 1 then
      match r with
      | [e] => Ok (StatusInfo (Z_of_byte a =? 1) (u32_from_be_bytes [b; c; d; e]))
      | _ => Err "length"
      end
    else if Z_of_byte t =? 2 then
      match get_bytes r with Some x => Ok (Encrypted x v) | None => Err "bytes" end
    else if Z_of_byte t =? 4 then
      match get_bytes r with Some x => Ok (Decrypted x v) | None => Err "bytes" end
    else if Z_of_byte t =? 5 then Ok (Error v (str_of_bytes r))
    else Err "tag"
  | _ => Err "length"
  end.

#[export] Instance sized_codec : HsmCodec := {
  request_to_vec := sized_request_to_vec;
  request_from_slice := sized_request_from_slice;
  response_to_vec := sized_response_to_vec;
  response_from_slice := sized_response_from_slice }.

Lemma digits_range b : (Z.to_nat (json_byte_len b - 1) ≤ 2)%nat ∧ 1 ≤ json_byte_len b.
Proof. unfold json_byte_len. repeat case_match; lia. Qed.

Lemma put_items_length l : Z.of_nat (length (put_items l)) = 1 + json_items_len l.
Proof.
  induction l as [|b l IH]; [done|]. cbn [put_items json_items_len length].
  rewrite length_app, length_replicate. destruct (digits_range b). lia.
Qed.

Lemma put_bytes_length l : blen (put_bytes l) = json_bytes_len l.
Proof. destruct l as [|b l]; [done|]. apply (put_items_length (b :: l)). Qed.

Lemma get_put_items l fuel :
  (length (put_items l) ≤ fuel)%nat → get_items fuel (put_items l) = Some l.
Proof.
  revert fuel. induction l as [|b l IH]; intros [|fuel]; cbn [put_items length]; try lia; [done|].
  cbn [get_items]. change (Z_of_byte (tag 1) =? 2) with false. cbn iota.
  rewrite length_app, length_replicate. intros Hf.
  rewrite length_take, length_app, length_replicate, (proj2 (Nat.ltb_ge _ _)) by lia.
  rewrite drop_app_length' by (by rewrite length_replicate). by rewrite IH by lia.
Qed.

Lemma get_items_prefix l n fuel :
  (n < length (put_items l))%nat → get_items fuel (take n (put_items l)) = None.
Proof.
  revert n fuel. induction l as [|b l IH]; intros [|[|n]] [|fuel];
    cbn [put_items length take get_items]; try done; try lia.
  rewrite length_app, length_replicate. intros Hn.
  change (Z_of_byte (tag 1) =? 2) with false. cbn iota.
  set (k := Z.to_nat (json_byte_len b - 1)) in *.
  destruct (Nat.ltb_spec (length (take k (take n (replicate k (tag 0) ++ put_items l)))) k)
    as [|Hk]; [done|].
  rewrite !length_take, length_app, length_replicate in Hk.
  rewrite skipn_firstn_comm, drop_app_length' by (by rewrite length_replicate).
  by rewrite IH by lia.
Qed.

Lemma put_items_head l : ∃ t r, put_items l = t :: r ∧ Z_of_byte t ≠ 3.
Proof. destruct l; by repeat eexists. Qed.

Lemma get_put_bytes l : get_bytes (put_bytes l) = Some l.
Proof.
  destruct l as [|b l]; [done|]. unfold put_bytes, get_bytes.
  destruct (put_items_head (b :: l)) as (t & r & E & Ht). rewrite E.
  rewrite (proj2 (Z.eqb_neq _ _) Ht), <- E. by apply get_put_items.
Qed.

Lemma get_bytes_prefix l n : (n < length (put_bytes l))%nat → get_bytes (take n (put_bytes l)) = None.
Proof.
  destruct l as [|b l]; [destruct n as [|[|]]; [done..|cbn; lia]|].
  unfold put_bytes, get_bytes. intros Hn. destruct n as [|n]; [by destruct (put_items (b :: l))|].
  pose proof (get_items_prefix (b :: l) (S n) (length (take (S n) (put_items (b :: l)))) Hn) as Hg.
  destruct (put_items_head (b :: l)) as (t & r & E & Ht). rewrite E in *. cbn [take] in *.
  by rewrite (proj2 (Z.eqb_neq _ _) Ht).
Qed.

Lemma get_padded_put k l : get_padded k (replicate k (tag 0) ++ put_bytes l) = Some l.
Proof.
  unfold get_padded. rewrite length_app, length_replicate, (proj2 (Nat.ltb_ge _ _)) by lia.
  rewrite drop_app_length' by (by rewrite length_replicate). apply get_put_bytes.
Qed.

Lemma get_padded_prefix k l n :
  (n < length (replicate k (tag 0) ++ put_bytes l))%nat →
  get_padded k (take n (replicate k (tag 0) ++ put_bytes l)) = None.
Proof.
  unfold get_padded. rewrite length_app, length_replicate. intros Hn.
  destruct (Nat.ltb_spec (length (take n (replicate k (tag 0) ++ put_bytes l))) k) as [|Hk]; [done|].
  rewrite length_take, length_app, length_replicate in Hk.
  rewrite skipn_firstn_comm, drop_app_length' by (by rewrite length_replicate).
  apply get_bytes_prefix. lia.
Qed.

#[local] Opaque get_padded get_bytes put_bytes replicate u32_from_be_bytes.

Lemma be_bytes_from n :
  is_u32 n = true → ∃ a b c d, u32_to_be_bytes n = [a; b; c; d] ∧ u32_from_be_bytes [a; b; c; d] = n.
Proof.
  unfold is_u32, u32_max. intros Hn. do 4 eexists. split; [reflexivity|].
  apply (u32_be_roundtrip n). unfold u32_max. lia.
Qed.

#[local] Opaque u32_to_be_bytes.

Lemma is_u16_u32 n : is_u16 n = true → is_u32 n = true.
Proof. unfold is_u16, is_u32, u32_max. lia. Qed.

#[export] Instance sized_codec_laws : HsmCodecLaws sized_codec.
Proof.
  split; intros r bs Hwf Hr; destruct r; cbn in Hr; try done; try (by injection Hr as <-).
  - destruct key_version; [done|].
    destruct (String.eqb_spec key_id "master_key") as [->|]; [|done]. injection Hr as <-.
    cbn. by rewrite get_padded_put.
  - destruct key_version; [done|].
    destruct (String.eqb_spec key_id "master_key") as [->|]; [|done]. injection Hr as <-.
    cbn. by rewrite get_padded_put.
  - injection Hr as <-. destruct (be_bytes_from _ Hwf) as (?&?&?&?&->&Hv).
    cbn. rewrite Hv. by destruct initialized.
  - injection Hr as <-. destruct (be_bytes_from _ Hwf) as (?&?&?&?&->&Hv).
    cbn. by rewrite Hv, get_put_bytes.
  - injection Hr as <-. destruct (be_bytes_from _ Hwf) as (?&?&?&?&->&Hv).
    cbn. by rewrite Hv, get_put_bytes.
  - injection Hr as <-. apply andb_true_iff in Hwf as [Hwf _].
    destruct (be_bytes_from _ (is_u16_u32 _ Hwf)) as (?&?&?&?&->&Hv).
    cbn -[str_of_bytes str_bytes]. by rewrite Hv, str_of_str_bytes.
Qed.

Lemma padded_length k l t :
  blen (t :: replicate k (tag 0) ++ put_bytes l) = json_bytes_len l + Z.of_nat k + 1.
Proof.
  rewrite <- put_bytes_length. unfold blen. cbn [length].
  rewrite length_app, length_replicate. lia.
Qed.

#[export] Instance sized_codec_sizes : HsmCodecSizes sized_codec.
Proof.
  split.
  - intros p bs [= <-]. rewrite padded_length. lia.
  - intros c. eexists. split; [reflexivity|]. rewrite padded_length. lia.
  - intros p v Hv. destruct (be_bytes_from _ Hv) as (a&b&c&d&E&_).
    eexists. split; [reflexivity|]. rewrite E, <- put_bytes_length. unfold blen. cbn. lia.
  - intros r bs n Hr Hn. destruct r; cbn in Hr; try done.
    + injection Hr as <-. destruct n; [by eexists|cbn in Hn; lia].
    + destruct key_version; [done|]. destruct (String.eqb _ _); [|done]. injection Hr as <-.
      destruct n; [by eexists|]. cbn. rewrite get_padded_prefix by (cbn in Hn; lia). by eexists.
    + destruct key_version; [done|]. destruct (String.eqb _ _); [|done]. injection Hr as <-.
      destruct n; [by eexists|]. cbn. rewrite get_padded_prefix by (cbn in Hn; lia). by eexists.
  - intros code m bs r [= <-]. cbn. intros [= <-]. eauto.
Qed.

End SizedCodec.

(** ** Concrete instances *)

Section ClientWitnesses.
  Import Concrete.

#[local] Existing Instances small_codec small_codec_laws.
#[local] Instance no_io_text : IoDisplay := { io_display _ := EmptyString }.

Lemma clients_agree_witness :
  VhsmClient_send_request (Hnet := vhsm_socket ent0 0 VhsmState_new) (MkVhsmClient "sock" 5) Ping
  = Ok Pong.
Proof.
  destruct (clients_agree (Hnet := vhsm_socket ent0 0 VhsmState_new)
              (NetworkLaws0 := vhsm_socket_laws ent0 0 VhsmState_new) "sock" 5 Ping [tag 0])
    as [Hok _]; [reflexivity|reflexivity|reflexivity|vm_compute; discriminate|].
  apply Hok. vm_compute. reflexivity.
Defined.


Lemma service_client_transparent_witness :
  ∃ ct, VhsmClient_send_request (Hnet := vhsm_socket ent0 0 open_state) (MkVhsmClient "sock" 5)
          (Encrypt "master_key" None key7) = Ok (Encrypted ct 1).
Proof.
  eexists. eapply (service_client_transparent ent0 0 open_state (MkVhsmClient "sock" 5)
    (Encrypt "master_key" None key7)); vm_compute; first [reflexivity|discriminate].
Defined.

Lemma data_key_unwraps_witness :
  ∃ dk, VhsmCryptoService_generate_data_key (daemon_transport open_state 0) ent0 ent0 AES256GCM
          = Ok dk ∧
        VhsmCryptoService_decrypt_bytes (daemon_transport open_state 0) ent0 (gd_wrapped dk)
          = Ok (gd_plaintext dk).
Proof.
  destruct (VhsmCryptoService_generate_data_key (daemon_transport open_state 0) ent0 ent0 AES256GCM)
    as [dk|e] eqn:E; [|exfalso; vm_compute in E; discriminate].
  exists dk. split; [reflexivity|].
  by apply (data_key_unwraps open_state 0 ent0 ent0 AES256GCM dk E).
Defined.

End ClientWitnesses.
