(* ===== verification/DataUseCases.v ===== *)
(** * Data encryption, data keys and the key handlers

    Models [encrypt_data.rs], [decrypt_data.rs] and [generate_data_key.rs] of
    [kms-service/src/application/use_cases], and the handlers
    [handlers/crypto.rs] and [handlers/keys.rs]: how a request becomes the
    input of a use case and its output a response. *)

From S2P Require Import Prelude.
From S2P Require Import Interfaces.
From S2P Require Import Protocol.
From S2P Require Import Vhsm.
From S2P Require Import Daemon.
From S2P Require Import Domain.
From S2P Require Import Acl.
From S2P Require Import AuditLog.
From S2P Require Import AuditChain.
From S2P Require Import KeyStore.
From S2P Require Import KeyUseCases.
From S2P Require Import VhsmClient.

(** ** The data keys of the crypto service *)

(** [generate_data_key] of [trait KmsCryptoService]; the two random sources
    are the service's and the daemon's. *)
Class KmsDataKeys := {
  generate_data_key_of : Entropy → Entropy → KeyAlgorithm → result GeneratedDataKey AppError }.

(** A wrapped data key is a ciphertext like any other. *)
Class KmsDataKeyLaws (C : KmsCryptoService) (D : KmsDataKeys) := {
  data_key_decrypts rng ent a dk v :
    generate_data_key_of rng ent a = Ok dk →
    decrypt_private_key (MkEncryptedPrivateKey (gd_wrapped dk) v) = Ok (gd_plaintext dk) }.

Definition VhsmDataKeys (send : Entropy → HsmRequest → result HsmResponse AppError) :
    KmsDataKeys := {|
  generate_data_key_of := VhsmCryptoService_generate_data_key send |}.

#[export] Instance VhsmDataKeys_laws send `{!VhsmTransportLaws send} ed x ent0 :
  KmsDataKeyLaws (VhsmCryptoService send ed x ent0) (VhsmDataKeys send).
Proof.
  split. intros rng ent a dk v E.
  cbn [generate_data_key_of VhsmDataKeys] in E. unfold VhsmCryptoService_generate_data_key in E.
  destruct (negb _); [discriminate|]. inv_ok.
  cbn [decrypt_private_key VhsmCryptoService gd_wrapped gd_plaintext ciphertext].
  eapply transport_decrypt_encrypt; [|done].
  match goal with Hd : draw _ _ = Ok _ |- _ => apply draw_length in Hd end.
  unfold blen, SECRET_MAX. lia.
Qed.

(** ** Use cases *)

Record GenerateDataKeyInput := MkGenerateDataKeyInput {
  di_caller_service : ServiceId;
  di_algorithm : KeyAlgorithm }.

Record GenerateDataKeyOutput := MkGenerateDataKeyOutput {
  do_caller_service : ServiceId;
  do_algorithm : KeyAlgorithm;
  do_plaintext_dek : list byte;
  do_wrapped_dek : list byte;
  do_master_key_version : Z }.

Section UseCases.
  Context `{Json} `{UuidFmt} `{Hcrypto : KmsCryptoService} `{KmsDataKeys}.
  Context {A : Type} `{AuditRepository A}.
  Implicit Types (env : Env) (ctx : RequestContext) (acl : CompiledAcl).

Definition encrypt_data env ctx (plaintext : list byte) : svc A EncryptedPrivateKey :=
  match encrypt_private_key (env_encrypt env) plaintext with
  | Ok data =>
    success env ctx EncryptData (json [
      ("plaintext_length", VNumber (pretty (blen plaintext)));
      ("result", VString "ok");
      ("master_key_version", VNumber (pretty (master_key_version data)))]%string) ;;*
    svc_ret data
  | Err err =>
    failure env ctx EncryptData (AppError_display err) ;;*
    svc_err (CryptoError (AppError_display err) None)
  end.

Definition decrypt_data env ctx (encrypted : EncryptedPrivateKey) : svc A (list byte) :=
  match decrypt_private_key encrypted with
  | Ok data =>
    success env ctx DecryptData (json [
      ("ciphertext_length", VNumber (pretty (blen (ciphertext encrypted))));
      ("master_key_version", VNumber (pretty (master_key_version encrypted)));
      ("result", VString "ok")]%string) ;;*
    svc_ret data
  | Err err =>
    failure env ctx DecryptData (AppError_display err) ;;*
    svc_err (CryptoError (AppError_display err) None)
  end.

Definition generate_data_key acl env ctx (input : GenerateDataKeyInput) :
    svc A GenerateDataKeyOutput :=
  let target_service := di_caller_service input in
  if negb (authorize_key_access acl (di_caller_service input) target_service
             (di_algorithm input) GenerateDataKeyAccess) then
    access_denied env ctx AuditGenerateDataKey "ACL Policy Violation for GenerateDataKey" ;;*
    svc_err Unauthorized
  else if negb (bool_decide (di_algorithm input = AES256GCM)) then
    validation_failure env ctx AuditGenerateDataKey "Only AES256GCM is supported" ;;*
    svc_err (ValidationError "Only AES256GCM is supported for GenerateDataKey")
  else
    let* generated :=
      svc_of (generate_data_key_of (env_generate env) (env_encrypt env) (di_algorithm input)) in
    success env ctx AuditGenerateDataKey (json [
      ("target_service", VString target_service);
      ("algorithm", VString (KeyAlgorithm_debug (di_algorithm input)));
      ("master_key_version", VNumber (pretty (gd_master_key_version generated)));
      ("wrapped_len", VNumber (pretty (blen (gd_wrapped generated))))]%string) ;;*
    svc_ret (MkGenerateDataKeyOutput (di_caller_service input) (gd_algorithm generated)
               (gd_plaintext generated) (gd_wrapped generated)
               (gd_master_key_version generated)).

End UseCases.

(** ** handlers/crypto.rs *)

Record EncryptRequest := MkEncryptRequest { eq_plaintext_b64 : string }.
Record EncryptResponse := MkEncryptResponse {
  ep_ciphertext_b64 : string; ep_master_key_version : Z }.
Record DecryptRequest := MkDecryptRequest {
  dq_ciphertext_b64 : string; dq_master_key_version : Z }.
Record DecryptResponse := MkDecryptResponse { dp_plaintext_b64 : string }.

Record SignDataRequest := MkSignDataRequest {
  sq_target_service : string;
  sq_algorithm : KeyAlgorithm;
  sq_payload_b64 : string;
  sq_key_version : option Z }.
Record SignDataResponse := MkSignDataResponse {
  sp_signature_b64 : string;
  sp_key_version : Z;
  sp_algorithm : KeyAlgorithm }.

(** ** handlers/keys.rs *)

Record GenerateKeyRequest := MkGenerateKeyRequest {
  gq_service_id : string; gq_algorithm : KeyAlgorithm; gq_purpose : KeyPurpose }.
Record GenerateDataKeyRequest := MkGenerateDataKeyRequest { kq_algorithm : KeyAlgorithm }.
Record GenerateDataKeyResponse := MkGenerateDataKeyResponse {
  kp_algorithm : KeyAlgorithm;
  kp_key_version : Z;
  kp_wrapped_dek_b64 : string;
  kp_dek_b64 : string }.
Record KeyPairResponse := MkKeyPairResponse {
  pr_id : string;
  pr_service_id : string;
  pr_algorithm : KeyAlgorithm;
  pr_purpose : KeyPurpose;
  pr_public_key_pem : string;
  pr_version : Z;
  pr_status : KeyStatus;
  pr_created_at : string }.
Record RotateKeyRequest := MkRotateKeyRequest {
  rq_service_id : string;
  rq_algorithm : KeyAlgorithm;
  rq_reason : RotationReason;
  rq_actor_id : string }.
Record GetKeyRequest := MkGetKeyRequest {
  yq_service_id : string; yq_algorithm : KeyAlgorithm }.
(** [PrivateKeyResponse] and [SymmetricKeyResponse] *)
Record KeyResponse := MkKeyResponse {
  yp_service_id : string;
  yp_algorithm : KeyAlgorithm;
  yp_version : Z;
  yp_key_b64 : string }.

Section Handlers.
  Context `{Json} `{UuidFmt} `{Chrono} `{Hcrypto : KmsCryptoService} `{KmsDataKeys} `{SqlDisplay}
    `{DebugTime} `{KeyOrder} `{Ed25519Sign} `{Base64}.
  Context {A : Type} `{AuditRepository A}.
  Implicit Types (env : Env) (acl : CompiledAcl) (op_id : Z).

(** [FromRequestParts for AuthenticatedService]: the identity the security
    middleware has put into the request's extensions. *)
Definition AuthenticatedService (extension : option ServiceId) : result ServiceId AppError :=
  match extension with
  | Some s => Ok s
  | None => Err Unauthorized
  end.

(** The context a handler makes of its caller. *)
Definition request_ctx op_id (actor_id : ServiceId) : RequestContext :=
  MkRequestContext (uuid_to_string op_id) None actor_id None None.

Definition decode_base64_payload (value field_name : string) : result (list byte) AppError :=
  map_err (λ e, ValidationError ("INVALID_BASE64_PAYLOAD: " +s+ field_name +s+ ": " +s+ e))
    (b64_decode value).

Definition encrypt_handler env op_id (payload : EncryptRequest) : svc A EncryptResponse :=
  let* plaintext := svc_of (decode_base64_payload (eq_plaintext_b64 payload) "plaintext") in
  let* encrypted := encrypt_data env (request_ctx op_id "kms-service") plaintext in
  svc_ret (MkEncryptResponse (b64_encode (ciphertext encrypted)) (master_key_version encrypted)).

Definition decrypt_handler env op_id (payload : DecryptRequest) : svc A DecryptResponse :=
  let* ciphertext := svc_of (decode_base64_payload (dq_ciphertext_b64 payload) "ciphertext") in
  let payload_struct := MkEncryptedPrivateKey ciphertext (dq_master_key_version payload) in
  let* decrypted := decrypt_data env (request_ctx op_id "kms-service") payload_struct in
  svc_ret (MkDecryptResponse (b64_encode decrypted)).

Definition sign_data_handler acl env op_id (caller_service : ServiceId)
    (payload : SignDataRequest) : svc A SignDataResponse :=
  let* payload_bytes :=
    svc_of (map_err (λ e, ValidationError ("Invalid payload_b64: " +s+ e))
              (b64_decode (sq_payload_b64 payload))) in
  let* output := sign_data acl env (request_ctx op_id caller_service)
    (MkSignDataInput caller_service (sq_target_service payload) (sq_algorithm payload)
       payload_bytes (sq_key_version payload)) in
  svc_ret (MkSignDataResponse (b64_encode (so_signature_bytes output)) (so_key_version output)
             (so_algorithm output)).

Definition key_pair_response (entity : KeyPairEntity) : KeyPairResponse :=
  MkKeyPairResponse (uuid_to_string (ke_id entity)) (ke_service_id entity) (ke_algorithm entity)
    (ke_purpose entity) (ke_public_key_pem entity) (ke_version entity) (ke_status entity)
    (to_rfc3339 (ke_created_at entity)).

Definition generate_key_handler acl env op_id (caller : ServiceId) (payload : GenerateKeyRequest) :
    svc A KeyPairResponse :=
  let* entity := generate_key_pair acl env (request_ctx op_id caller)
    (MkGenerateKeyPairInput caller (gq_service_id payload) (gq_algorithm payload)
       (gq_purpose payload)) in
  svc_ret (key_pair_response entity).

Definition generate_data_key_handler acl env op_id (caller_service : ServiceId)
    (payload : GenerateDataKeyRequest) : svc A GenerateDataKeyResponse :=
  let* output := generate_data_key acl env (request_ctx op_id caller_service)
    (MkGenerateDataKeyInput caller_service (kq_algorithm payload)) in
  svc_ret (MkGenerateDataKeyResponse (do_algorithm output) (as_u32 (do_master_key_version output))
             (b64_encode (do_wrapped_dek output)) (b64_encode (do_plaintext_dek output))).

Definition get_public_key_handler env op_id (caller service_id : ServiceId)
    (algorithm : KeyAlgorithm) : svc A KeyPairResponse :=
  let* entity := get_public_key env (request_ctx op_id caller) service_id algorithm in
  svc_ret (key_pair_response entity).

Definition rotate_key_handler (retire_first : bool) (grace_period_minutes : Z) acl env op_id
    (caller_service : ServiceId) (payload : RotateKeyRequest) : svc A KeyPairResponse :=
  let* entity := rotate_key retire_first grace_period_minutes acl env
    (request_ctx op_id caller_service)
    (MkRotateKeyInput (rq_service_id payload) (rq_algorithm payload) caller_service
       (rq_reason payload) (rq_actor_id payload)) in
  svc_ret (key_pair_response entity).

Definition private_key_export_disabled : AppError :=
  ValidationError "Private key export is disabled for HTTP clients. Use public key, encryption, or signing endpoints instead.".

Definition get_private_key_handler (caller_service : ServiceId) (payload : GetKeyRequest) :
    svc A KeyResponse :=
  svc_err private_key_export_disabled.

Definition get_symmetric_key_handler acl env op_id (caller_service : ServiceId)
    (payload : GetKeyRequest) : svc A KeyResponse :=
  let* output := get_symmetric_key acl env (request_ctx op_id caller_service)
    (MkGetKeyInput caller_service (yq_service_id payload) (yq_algorithm payload)) in
  svc_ret (MkKeyResponse (ko_service_id output) (ko_algorithm output) (ko_version output)
             (b64_encode (ko_key_bytes output))).

End Handlers.

(** ** What the handlers do *)

(** Takes a successful run apart, step by step. *)
Ltac inv_svc :=
  repeat match goal with
  | E : svc_bind _ _ _ = (Ok _, _) |- _ => apply svc_bind_Ok in E as (? & ? & ? & E)
  | E : svc_of ?r _ = (Ok _, _) |- _ => unfold svc_of in E; injection E as ? ?
  | E : svc_ret _ _ = (Ok _, _) |- _ => unfold svc_ret in E; injection E as ? ?
  | E : svc_err _ _ = (Ok _, _) |- _ => discriminate E
  end; subst.

Section HandlerLemmas.
  Context `{Json} `{UuidFmt} `{Chrono} `{Hcrypto : KmsCryptoService} `{Hdata : KmsDataKeys}
    `{SqlDisplay} `{DebugTime} `{KeyOrder} `{Ed25519Sign} `{Hb64 : Base64} `{!Base64Laws Hb64}.
  Context {A : Type} `{AuditRepository A}.

(** A ciphertext decrypts whoever sends it, and whatever version it is said to
    have. *)
Lemma decrypt_handler_run env op c v p (w : World A) :
  audit_total (A := A) → decrypt_private_key (MkEncryptedPrivateKey c v) = Ok p →
  ∃ a, decrypt_handler env op (MkDecryptRequest (b64_encode c) v) w =
       (Ok (MkDecryptResponse (b64_encode p)), MkWorld (w_keys w) (w_cache w) a).
Proof.
  intros T D. unfold decrypt_handler, decode_base64_payload. cbn [dq_ciphertext_b64].
  rewrite b64_decode_encode. erewrite svc_bind_step by reflexivity.
  cbn [dq_master_key_version]. unfold decrypt_data. rewrite D.
  edestruct success_ok as [a Ha]; [done|]. exists a.
  erewrite svc_bind_step; [reflexivity|]. erewrite svc_bind_step; [reflexivity|exact Ha].
Qed.

(** A decryption makes one audit record, and answers once it is written. *)
Lemma decrypt_handler_audited env op c v (w : World A) :
  ∃ log, decrypt_handler env op (MkDecryptRequest (b64_encode c) v) w =
    let (r, a) := audit_record (w_audit w) log in
    (let? _ := r in
     match decrypt_private_key (MkEncryptedPrivateKey c v) with
     | Ok p => Ok (MkDecryptResponse (b64_encode p))
     | Err err => Err (CryptoError (AppError_display err) None)
     end, MkWorld (w_keys w) (w_cache w) a).
Proof.
  unfold decrypt_handler, decode_base64_payload. cbn [dq_ciphertext_b64 dq_master_key_version].
  rewrite b64_decode_encode, (svc_bind_step _ _ w c w eq_refl). unfold decrypt_data.
  destruct (decrypt_private_key (MkEncryptedPrivateKey c v)) as [p|err].
  all: unfold success, failure, record_success, record_failure, record_internal, svc_bind, audit.
  all: match goal with |- context [audit_record _ ?log] => exists log end.
  all: by destruct (audit_record _ _) as [[]].
Qed.

(** One audit record, then an answer. *)
Lemma audited_step {X Y} (log : AuditLog) (r : result X AppError) (k : X → svc A Y) (w : World A) :
  (∀ x w, (k x w).2 = w) →
  (svc_bind (audit log ;;* svc_of r) k w).2 =
  MkWorld (w_keys w) (w_cache w) (audit_record (w_audit w) log).2.
Proof.
  intros K. unfold svc_bind, audit. destruct (audit_record (w_audit w) log) as [[[]|e] a]; [|done].
  unfold svc_of. destruct r; [apply K|done].
Qed.

Lemma success_same_store env ctx action d (w w' : World A) r :
  success env ctx action d w = (r, w') → same_store w w'.
Proof. intros E. change w' with (r, w').2. rewrite <- E. apply audit_same_store. Qed.

Lemma encrypt_handler_store env op req (w w' : World A) resp :
  encrypt_handler env op req w = (Ok resp, w') → same_store w w'.
Proof.
  unfold encrypt_handler, encrypt_data. intros E. inv_svc.
  destruct (encrypt_private_key _ _) as [enc|]; inv_svc.
  by eapply success_same_store.
Qed.

Lemma encrypt_handler_ok env op b64 (w w' : World A) resp :
  encrypt_handler env op (MkEncryptRequest b64) w = (Ok resp, w') →
  ∃ bs enc, b64_decode b64 = Ok bs ∧ encrypt_private_key (env_encrypt env) bs = Ok enc ∧
    resp = MkEncryptResponse (b64_encode (ciphertext enc)) (master_key_version enc).
Proof.
  unfold encrypt_handler, encrypt_data, decode_base64_payload. cbn [eq_plaintext_b64].
  intros E. inv_svc. destruct (b64_decode b64) as [bs|]; [|discriminate]. simplify_eq/=.
  destruct (encrypt_private_key _ _) as [enc|] eqn:He; inv_svc. eauto.
Qed.

(** The key material of a generated pair is what its ciphertext holds. *)
Lemma generate_key_pair_encrypts acl env ctx input (w w' : World A) e :
  generate_key_pair acl env ctx input w = (Ok e, w') →
  ∃ raw, generate_for "ECDSA_P256 is not supported for in-process key generation" env
           (gi_algorithm input) = Ok raw ∧
         encrypt_private_key (env_encrypt env) (rk_private_key_bytes raw) =
           Ok (ke_encrypted_private_key e).
Proof.
  unfold generate_key_pair. destruct (negb _); intros E; inv_svc. eauto.
Qed.

Lemma generate_data_key_ok acl env ctx input (w w' : World A) out :
  generate_data_key acl env ctx input w = (Ok out, w') →
  authorize_key_access acl (di_caller_service input) (di_caller_service input)
    (di_algorithm input) GenerateDataKeyAccess = true ∧ di_algorithm input = AES256GCM ∧
  ∃ dk, generate_data_key_of (env_generate env) (env_encrypt env) AES256GCM = Ok dk ∧
    out = MkGenerateDataKeyOutput (di_caller_service input) (gd_algorithm dk) (gd_plaintext dk)
            (gd_wrapped dk) (gd_master_key_version dk).
Proof.
  unfold generate_data_key. destruct (authorize_key_access _ _ _ _ _); cbn [negb];
    [|intros E; inv_svc]. case_bool_decide as Ha; cbn [negb]; intros E; inv_svc.
  rewrite Ha in *. eauto 10.
Qed.

(** The handler that exports private keys always refuses, but the decryption
    handler does not: it has no access check, and answers the stored
    ciphertext of a key of any service with the private key, whatever the
    access list says. *)
Theorem private_key_export_bypassed `{!KmsCryptoLaws Hcrypto} acl env ctx input (w w' : World A) e :
  audit_total (A := A) → generate_key_pair acl env ctx input w = (Ok e, w') →
  (∀ caller payload (w2 : World A),
     get_private_key_handler caller payload w2 = (Err private_key_export_disabled, w2)) ∧
  ∃ raw, generate_for "ECDSA_P256 is not supported for in-process key generation" env
           (gi_algorithm input) = Ok raw ∧
  ∀ env2 op v w2, ∃ a,
    decrypt_handler env2 op
      (MkDecryptRequest (b64_encode (ciphertext (ke_encrypted_private_key e))) v) w2 =
    (Ok (MkDecryptResponse (b64_encode (rk_private_key_bytes raw))),
     MkWorld (w_keys w2) (w_cache w2) a).
Proof.
  intros T E. split; [done|].
  apply generate_key_pair_encrypts in E as (raw & Hg & He). exists raw. split; [done|].
  intros env2 op v w2. apply decrypt_handler_run; [done|].
  eapply decrypt_encrypted; [by eapply generate_for_fits|done].
Qed.

(** A data key is handed out only to a service the access list allows, only
    for AES-256-GCM, and its wrapped form decrypts to it. *)
Theorem data_key_handler_unwraps `{!KmsDataKeyLaws Hcrypto Hdata} acl env op caller payload
    (w w' : World A) resp :
  audit_total (A := A) →
  generate_data_key_handler acl env op caller payload w = (Ok resp, w') →
  authorize_key_access acl caller caller AES256GCM GenerateDataKeyAccess = true ∧
  kq_algorithm payload = AES256GCM ∧
  ∀ env2 op2 v w2, ∃ a,
    decrypt_handler env2 op2 (MkDecryptRequest (kp_wrapped_dek_b64 resp) v) w2 =
    (Ok (MkDecryptResponse (kp_dek_b64 resp)), MkWorld (w_keys w2) (w_cache w2) a).
Proof.
  intros T E. unfold generate_data_key_handler in E. inv_svc.
  match goal with G : generate_data_key _ _ _ _ _ = _ |- _ =>
    apply generate_data_key_ok in G as (Ha & Hal & dk & Hd & ->) end.
  cbn [di_caller_service di_algorithm] in *. rewrite Hal in *. split_and!; [done..|].
  intros env2 op2 v w2. apply decrypt_handler_run; [done|]. by eapply data_key_decrypts.
Qed.

(** Which service asked is not recorded: every encryption or decryption
    request with a well-formed body makes exactly one audit record, and that
    record names [kms-service] as the caller. *)
Theorem data_requests_anonymous env op bs v (w : World A) :
  ∃ log_e log_d,
    al_caller_service log_e = "kms-service"%string ∧
    al_caller_service log_d = "kms-service"%string ∧
    (encrypt_handler env op (MkEncryptRequest (b64_encode bs)) w).2 =
      MkWorld (w_keys w) (w_cache w) (audit_record (w_audit w) log_e).2 ∧
    (decrypt_handler env op (MkDecryptRequest (b64_encode bs) v) w).2 =
      MkWorld (w_keys w) (w_cache w) (audit_record (w_audit w) log_d).2.
Proof.
  unfold encrypt_handler, decrypt_handler, decode_base64_payload.
  cbn [eq_plaintext_b64 dq_ciphertext_b64 dq_master_key_version]. rewrite b64_decode_encode.
  unfold encrypt_data, decrypt_data.
  rewrite !(svc_bind_step (svc_of (map_err _ (Ok bs))) _ w bs w eq_refl).
  destruct (encrypt_private_key (env_encrypt env) bs),
    (decrypt_private_key (MkEncryptedPrivateKey bs v));
    eexists _, _; (split_and!; cycle 2;
      [by first [apply (audited_step _ (Ok _))|apply (audited_step _ (Err _))]
      |by first [apply (audited_step _ (Ok _))|apply (audited_step _ (Err _))]|done|done]).
Qed.

End HandlerLemmas.

(** ** The handlers over the daemon's frames *)

Section FramedHandlers.
  Context `{SsssLib} `{Haead : Aead} `{!AeadLaws Haead} `{Sha256} `{Hex} `{P256} `{X509}
    `{Hcodec : HsmCodec} `{!HsmCodecLaws Hcodec} `{!HsmCodecSizes Hcodec} `{IoDisplay}.
  Context `{Json} `{UuidFmt} `{Hb64 : Base64} `{!Base64Laws Hb64}.
  Context {A : Type} `{AuditRepository A}.
  Context (ed25519_generate x25519_generate : Entropy → result RawKeyPair AppError).

(** The crypto service whose client talks to a daemon in state [s]. *)
Definition framed_service (self : VhsmClient) (s : VhsmState) (now : Z) : KmsCryptoService :=
  VhsmCryptoService (framed_transport self s now) ed25519_generate x25519_generate
    (λ _, draw_fail EmptyString).

(** C33: what a client encrypts, over the socket of a daemon, any client decrypts,
    now or later, as long as the daemon holds the same master key: when an
    encryption request was answered, the ciphertext sent back, by any caller
    and with any version number, makes one audit record and, once that is
    written, is answered with the text that was encrypted; unless the request
    that would decrypt it exceeds the 64 KiB of a frame, in which case every
    decryption fails.  Neither request changes the key table or the cache. *)
Theorem encrypt_decrypt_handlers self s now env op bs (w w' : World A) resp :
  state_wf s →
  encrypt_handler (Hcrypto := framed_service self s now) env op
    (MkEncryptRequest (b64_encode bs)) w = (Ok resp, w') →
  same_store w w' ∧
  ∃ c, ep_ciphertext_b64 resp = b64_encode c ∧
  ∀ self2 s2 now2 env2 op2 v w2,
    state_wf s2 → master_key s2 = master_key s →
    ∃ log, let (written, a) := audit_record (w_audit w2) log in
    let (answer, w3) :=
      decrypt_handler (Hcrypto := framed_service self2 s2 now2) env2 op2
        (MkDecryptRequest (ep_ciphertext_b64 resp) v) w2 in
    w3 = MkWorld (w_keys w2) (w_cache w2) a ∧
    if json_bytes_len c + 68 <=? MAX_PAYLOAD_SIZE
    then answer = let? _ := written in Ok (MkDecryptResponse (b64_encode bs))
    else ∃ e, answer = Err e.
Proof.
  intros Hs E. split; [by eapply encrypt_handler_store|].
  apply encrypt_handler_ok in E as (bs' & enc & Hb & He & ->).
  rewrite b64_decode_encode in Hb. injection Hb as <-.
  cbn [encrypt_private_key framed_service VhsmCryptoService] in He.
  unfold VhsmCryptoService_encrypt_private_key in He.
  apply result_bind_Ok in He as (c & He & Hv). apply result_bind_Ok in Hv as (v0 & _ & [= <-]).
  apply framed_encrypt_inv in He as (Hl & k & Hk & He); [|done].
  exists c. split; [done|]. intros self2 s2 now2 env2 op2 v w2 Hs2 Hk2.
  cbn [ep_ciphertext_b64 ciphertext].
  destruct (decrypt_handler_audited (Hcrypto := framed_service self2 s2 now2) env2 op2 c v w2)
    as [log ->]. exists log. destruct (audit_record _ _) as [written a]. split; [done|].
  cbn [decrypt_private_key framed_service VhsmCryptoService ciphertext].
  destruct (Z.leb_spec (json_bytes_len c + 68) MAX_PAYLOAD_SIZE) as [Hc|Hc].
  - erewrite (framed_decrypt_opens self2 s2 now2 _ k bs c); eauto; [congruence|
      by eapply decrypt_encrypt_bytes|lia].
  - destruct (framed_decrypt_refused self2 s2 now2 (λ _, draw_fail EmptyString) c Hc) as [e ->].
    destruct written; by eexists.
Qed.

End FramedHandlers.

(** ** A concrete service *)

Section DataWitnesses.
  Import Concrete ConcreteAudit ConcreteKeys SizedCodec.

#[local] Existing Instances list_audit concat_sign demo_crypto demo_crypto_laws.
#[local] Instance demo_data_keys : KmsDataKeys := VhsmDataKeys (daemon_transport open_state 0).
#[local] Instance demo_data_key_laws : KmsDataKeyLaws demo_crypto demo_data_keys.
Proof. apply VhsmDataKeys_laws, _. Qed.


Definition data_acl : CompiledAcl := {|
  access := {[("svc"%string, "svc"%string, AES256GCM, GenerateDataKeyAccess)]};
  preload := ∅;
  actions := {["svc"%string := {[GenerateKeys]}]} |}.

Definition demo_encrypt := encrypt_handler (good_env 1) 7
  (MkEncryptRequest (b64_encode (str_bytes "hello"))) demo_empty.

#[local] Instance plain_io_text : IoDisplay := { io_display _ := EmptyString }.
Definition framed_demo_client : VhsmClient := MkVhsmClient "sock" 5.
Definition framed_demo_service : KmsCryptoService :=
  framed_service draw_keypair draw_keypair
    framed_demo_client open_state 0.
Definition demo_framed_encrypt (bs : list byte) :=
  encrypt_handler (Hcrypto := framed_demo_service) (good_env 1) 7 (MkEncryptRequest (b64_encode bs)) demo_empty.
Definition demo_framed_decrypt (b64 : string) (w : World (list AuditLog)) :=
  decrypt_handler (Hcrypto := framed_demo_service) (good_env 2) 8 (MkDecryptRequest b64 42) w.

Lemma open_state_wf : state_wf open_state.
Proof. done. Qed.

Lemma encrypt_decrypt_handlers_witness :
  ∃ resp w', demo_framed_encrypt (str_bytes "hello") = (Ok resp, w') ∧
  ∃ a, demo_framed_decrypt (ep_ciphertext_b64 resp) w' =
       (Ok (MkDecryptResponse (b64_encode (str_bytes "hello"))), MkWorld [] ∅ a).
Proof.
  destruct (demo_framed_encrypt (str_bytes "hello")) as [[resp|e] w'] eqn:E;
    [|exfalso; vm_compute in E; discriminate].
  exists resp, w'. split; [done|].
  destruct (encrypt_decrypt_handlers draw_keypair draw_keypair framed_demo_client open_state 0
              (good_env 1) 7 (str_bytes "hello") demo_empty w' resp open_state_wf E)
    as ([Hk Hc] & c & Hb & Hd).
  specialize (Hd framed_demo_client open_state 0 (good_env 2) 8 42 w' open_state_wf eq_refl).
  destruct Hd as [log Hd]. unfold demo_framed_decrypt, framed_demo_service.
  destruct (list_audit_total (w_audit w') log) as [a Ha]. rewrite Ha in Hd.
  destruct (decrypt_handler _ _ _ w') as [r w3]. destruct Hd as [-> Hd]. exists a.
  rewrite Hk, Hc. f_equal. cbn [result_bind] in Hd.
  assert (b64_decode (ep_ciphertext_b64 resp) = Ok c) as Hdec by (rewrite Hb; apply b64_decode_encode).
  assert ((json_bytes_len c + 68 <=? MAX_PAYLOAD_SIZE) = true) as Hfits; [|by rewrite Hfits in Hd].
  clear Hd. vm_compute in E. injection E as <- _. vm_compute in Hdec. injection Hdec as <-.
  reflexivity.
Defined.

(** A text of zeros whose ciphertext can be made but never read: the answer of
    the encryption fits a frame, the request of the decryption does not. *)
Lemma encrypted_never_decrypted :
  let (r, w) := demo_framed_encrypt (replicate 32684 Byte.x00) in
  match r with
  | Ok resp =>
    match (demo_framed_decrypt (ep_ciphertext_b64 resp) w).1 with Ok _ => False | Err _ => True end
  | Err _ => False
  end.
Proof. vm_compute. exact I. Qed.

Lemma private_key_export_bypassed_witness :
  ∃ e w', generate_key_pair data_acl (good_env 1) (request_ctx 7 "svc") demo_generate demo_empty =
          (Ok e, w') ∧
  ∃ raw a, generate_for "-" (good_env 1) Ed25519 = Ok raw ∧
    decrypt_handler (good_env 2) 8
      (MkDecryptRequest (b64_encode (ciphertext (ke_encrypted_private_key e))) 0) w' =
    (Ok (MkDecryptResponse (b64_encode (rk_private_key_bytes raw))),
     MkWorld (w_keys w') (w_cache w') a).
Proof.
  destruct (generate_key_pair data_acl (good_env 1) (request_ctx 7 "svc") demo_generate demo_empty)
    as [[e|err] w'] eqn:E; [|exfalso; vm_compute in E; discriminate].
  exists e, w'. split; [done|].
  destruct (private_key_export_bypassed data_acl (good_env 1) (request_ctx 7 "svc") demo_generate
              demo_empty w' e list_audit_total E) as (_ & raw & Hg & Hd).
  destruct (Hd (good_env 2) 8 0 w') as [a Ha]. exists raw, a. split; [exact Hg|exact Ha].
Defined.

Lemma data_key_handler_unwraps_witness :
  ∃ resp w', generate_data_key_handler data_acl (good_env 1) 7 "svc"
               (MkGenerateDataKeyRequest AES256GCM) demo_empty = (Ok resp, w') ∧
  ∃ a, decrypt_handler (good_env 2) 8 (MkDecryptRequest (kp_wrapped_dek_b64 resp) 1) w' =
       (Ok (MkDecryptResponse (kp_dek_b64 resp)), MkWorld (w_keys w') (w_cache w') a).
Proof.
  destruct (generate_data_key_handler data_acl (good_env 1) 7 "svc"
              (MkGenerateDataKeyRequest AES256GCM) demo_empty) as [[resp|err] w'] eqn:E;
    [|exfalso; vm_compute in E; discriminate].
  exists resp, w'. split; [done|].
  destruct (data_key_handler_unwraps data_acl (good_env 1) 7 "svc"
              (MkGenerateDataKeyRequest AES256GCM) demo_empty w' resp list_audit_total E)
    as (_ & _ & Hd). apply Hd.
Defined.

Lemma data_requests_anonymous_witness :
  ∃ log, al_caller_service log = "kms-service"%string ∧
    w_audit demo_encrypt.2 = [log].
Proof.
  destruct (data_requests_anonymous (A := list AuditLog) (good_env 1) 7 (str_bytes "hello") 0 demo_empty)
    as (log & _ & Hl & _ & He & _).
  exists log. split; [exact Hl|]. unfold demo_encrypt. rewrite He. reflexivity.
Defined.

End DataWitnesses.
