(* ===== verification/RootCa.v ===== *)
(** * Root certificate authorities and ceremonies

    Models [init_root_ca.rs] and [sign_intermediate_ca.rs] of
    [kms-service/src/application/use_cases], the handlers [handlers/ca.rs] and
    [handlers/ceremonies.rs], and [kms-service/src/hsm/client.rs]. *)

From S2P Require Import Prelude.
From S2P Require Import Interfaces.
From S2P Require Import Protocol.
From S2P Require Import Vhsm.
From S2P Require Import Daemon.
From S2P Require Import Domain.
From S2P Require Import Effects.
From S2P Require Import Acl.
From S2P Require Import AuditLog.
From S2P Require Import AuditChain.
From S2P Require Import KeyStore.
From S2P Require Import KeyUseCases.
From S2P Require Import Database.
From S2P Require Import Transactions.
From S2P Require Import DataUseCases.

(** ** hsm/client.rs *)

Section hsm_client.
  Context `{Hcodec : HsmCodec} `{Hnet : Network}.

Definition app_send_hsm_request (socket_path : string) (req : HsmRequest) (timeout : option Z) :
    result HsmResponse AppError :=
  map_err HsmError (send_hsm_request socket_path req timeout).

Definition app_encrypt_via_hsm (socket_path key_id : string) (key_version : option Z)
    (plaintext : list byte) (timeout : option Z) : result (list byte) AppError :=
  map_err HsmError (encrypt_via_hsm socket_path key_id key_version plaintext timeout).

Definition app_decrypt_via_hsm (socket_path key_id : string) (key_version : option Z)
    (ciphertext : list byte) (timeout : option Z) : result (list byte) AppError :=
  map_err HsmError (decrypt_via_hsm socket_path key_id key_version ciphertext timeout).

Definition app_load_root_ca (socket_path ca_tag : string) (encrypted_private_key : list byte)
    (timeout : option Z) : result unit AppError :=
  map_err HsmError (load_root_ca_via_hsm socket_path ca_tag encrypted_private_key timeout).

End hsm_client.

(** ** init_root_ca.rs *)

Record InitRootCaInput := MkInitRootCaInput {
  ri_ca_tag : string;
  ri_algorithm_name : string;
  ri_public_key : list byte;
  ri_encrypted_private_key : list byte;
  ri_certificate_pem : string;
  ri_serial : string;
  ri_status : string;
  ri_expires_at : option Z;
  ri_metadata : option Value }.

Record InitRootCaOutput := MkInitRootCaOutput {
  ro_root_ca_id : Z;
  ro_ceremony_id : Z }.

(** The identifiers and clocks of one run, and how the commit ends. *)
Record CaEnv := MkCaEnv {
  ca_root_ca_id : Z;
  ca_created_at : Z;
  ca_ceremony_id : Z;
  ca_audit_id : Z;
  ca_now : Z;
  ca_commit : result unit string }.

(** The text of a manifest, as the audit row keeps it. *)
Definition manifest_text `{Base64} (manifest : list byte) : string :=
  if is_utf8_bytes manifest then str_of_bytes manifest else b64_encode manifest.

Definition commit_error (e : string) : AppError :=
  DatabaseError ("Database operation failed: " +s+ e) (Some e).

(** A row of a ceremony, and the input of its hash. *)
Section ceremony_row.
  Context `{UuidFmt}.

Definition ceremony_hash_input (audit_id : Z) (caller target action algorithm prev_hash : string)
    (now ceremony_id : Z) (target_id : option string) (metadata : string) : AuditHashInput := {|
  hi_id := uuid_to_string audit_id;
  hi_caller_service := caller;
  hi_target_service := target;
  hi_action := action;
  hi_algorithm := algorithm;
  hi_status := "RECORDED";
  hi_reason := None;
  hi_prev_hash := prev_hash;
  hi_timestamp := now;
  hi_request_id := None;
  hi_operation_id := Some (uuid_to_string ceremony_id);
  hi_target_id := target_id;
  hi_metadata := Some metadata;
  hi_hash_version := CURRENT |}.

Definition ceremony_row (audit_id : Z) (caller target action algorithm prev_hash hash : string)
    (signature : option (list byte)) (now ceremony_id : Z) (target_id : option string)
    (metadata : string) : AuditRow := {|
  ar_id := audit_id;
  ar_caller_service := caller;
  ar_target_service := target;
  ar_action := action;
  ar_algorithm := algorithm;
  ar_status := "RECORDED";
  ar_reason := None;
  ar_prev_hash := prev_hash;
  ar_hash := hash;
  ar_signature := signature;
  ar_request_id := None;
  ar_operation_id := Some (uuid_to_string ceremony_id);
  ar_target_id := target_id;
  ar_metadata := Some metadata;
  ar_created_at := now |}.

End ceremony_row.

Section init.
  Context {P : Type}.
  Context `{Sha256} `{Hex} `{Json} `{Chrono} `{UuidFmt} `{PgTime} `{SqlDisplay} `{Base64}.

Definition init_manifest (input : InitRootCaInput) : result (list byte) string :=
  let? s := json_to_string (VObject (btree_of_list [
    ("operation", VString "ca_init");
    ("ca_tag", VString (ri_ca_tag input));
    ("algorithm", VString (ri_algorithm_name input))]%string)) in
  Ok (str_bytes s).

Definition init_root_ca_tx (env : CaEnv) (input : InitRootCaInput) : act (KmsDb * P) unit :=
  let@ exists_ := read_db (λ db, exists_by_tag_tx db (ri_ca_tag input)) in
  if (exists_ : bool) then
    act_err (ValidationError ("Root CA '" +s+ ri_ca_tag input +s+ "' already exists"))
  else
    let@ kek_row := read_db (λ db, fetch_latest_kek_id db "kms-system") in
    match kek_row with
    | None => act_err (ValidationError "No active KEK found for kms-system")
    | Some (kek_id, kek_version) =>
      let@ inserted := tx_query (λ db, insert_root_ca db (ca_root_ca_id env) (ri_ca_tag input)
        (ri_algorithm_name input) (ri_public_key input) (ri_encrypted_private_key input) kek_id
        kek_version (ri_certificate_pem input) (ri_serial input) (ri_status input)
        (ca_created_at env) (ri_expires_at input)) in
      if negb inserted then act_err (ValidationError "Root CA insert conflict")
      else
        let@ manifest :=
          act_of (map_err (λ e, ValidationError ("invalid payload: " +s+ e))
                    (init_manifest input)) in
        let@ latest := read_db latest_hash_tx in
        let prev_hash := default GENESIS_HASH latest in
        let metadata := manifest_text manifest in
        let algorithm_name :=
          if is_empty (trim (ri_algorithm_name input)) then "ECDSA_P256"%string
          else ri_algorithm_name input in
        let target_id := Some (uuid_to_string (ca_root_ca_id env)) in
        let@ audit_hash := act_or_panic UnwrapNone (compute_audit_hash
          (ceremony_hash_input (ca_audit_id env) "kms-ceremony-cli" "kms-service" "ca_init"
             algorithm_name prev_hash (ca_now env) (ca_ceremony_id env) target_id metadata)) in
        tx_exec (λ db, audit_insert_tx db
          (ceremony_row (ca_audit_id env) "kms-ceremony-cli" "kms-service" "ca_init"
             algorithm_name prev_hash audit_hash None (ca_now env) (ca_ceremony_id env) target_id
             metadata))
    end.

Definition init_root_ca (env : CaEnv) (input : InitRootCaInput) :
    act (KmsDb * P) InitRootCaOutput :=
  transaction (ca_commit env) (init_root_ca_tx env input)
    (λ e _, act_ret (commit_error e)) ;;@
  act_ret (MkInitRootCaOutput (ca_root_ca_id env) (ca_ceremony_id env)).

End init.

(** ** handlers/ca.rs: a response, or a status and a text *)

Abbreviation http X := (result X (Z * string)).

Record LoadCaRequest := MkLoadCaRequest {
  lq_ca_tag : string;
  lq_encrypted_private_key_b64 : option string }.

Record SignIntermediateRequest := MkSignIntermediateRequest {
  iq_ca_tag : string;
  iq_csr_pem : string;
  iq_validity_days : Z }.

Record CaInitRequest := MkCaInitRequest {
  cq_ca_tag : string;
  cq_algorithm : option string;
  cq_public_key_b64 : string;
  cq_encrypted_private_key_b64 : string;
  cq_certificate_pem : option string;
  cq_expires_at : option Z;
  cq_metadata : option Value }.

(** [format!("{other:?}")] *)
Class HsmDebug := { response_debug : HsmResponse → string }.

Section ca_handlers.
  Context {P : Type}.
  Context `{Sha256} `{Hex} `{Json} `{Chrono} `{UuidFmt} `{PgTime} `{SqlDisplay} `{Base64}
    `{HsmDebug}.
  Context `{Hcodec : HsmCodec} `{Hnet : Network}.

Definition post_ca_load (socket : string) (db : KmsDb) (payload : LoadCaRequest) : http unit :=
  let? encrypted :=
    match lq_encrypted_private_key_b64 payload with
    | Some b64 => map_err (λ e, (400, "invalid base64: " +s+ e)) (b64_decode b64)
    | None =>
      match fetch_active_by_tag db (lq_ca_tag payload) with
      | Some row => Ok (rc_encrypted_private_key row)
      | None => Err (404, "root CA not found for tag '" +s+ lq_ca_tag payload +s+ "'")
      end
    end in
  map_err (λ e, (500, "hsm error: " +s+ AppError_display e))
    (app_load_root_ca socket (lq_ca_tag payload) encrypted None).

(** What the handler makes of the outcome of the use case. *)
Definition ca_init_answer (r : outcome (result InitRootCaOutput AppError)) :
    outcome (http InitRootCaOutput) :=
  match r with
  | Done (Ok output) => Done (Ok output)
  | Done (Err (ValidationError msg)) => Done (Err (409, msg))
  | Done (Err e) => Done (Err (500, "server error: " +s+ AppError_display e))
  | Panics w => Panics w
  | Aborts => Aborts
  end.

Definition post_ca_init (env : CaEnv) (serial : Z) (payload : CaInitRequest) (s : KmsDb * P) :
    outcome (http InitRootCaOutput) * (KmsDb * P) :=
  let decoded : http (list byte * list byte) :=
    let? public_key :=
      map_err (λ e, (400, "invalid base64 public key: " +s+ e))
        (b64_decode (cq_public_key_b64 payload)) in
    let? encrypted_private_key :=
      map_err (λ e, (400, "invalid base64 encrypted key: " +s+ e))
        (b64_decode (cq_encrypted_private_key_b64 payload)) in
    Ok (public_key, encrypted_private_key) in
  match decoded with
  | Err e => (Done (Err e), s)
  | Ok (public_key, encrypted_private_key) =>
    let input := {|
      ri_ca_tag := cq_ca_tag payload;
      ri_algorithm_name := default "ECDSA_P256"%string (cq_algorithm payload);
      ri_public_key := public_key;
      ri_encrypted_private_key := encrypted_private_key;
      ri_certificate_pem := default EmptyString (cq_certificate_pem payload);
      ri_serial := uuid_to_string serial;
      ri_status := "INITIALIZING";
      ri_expires_at := cq_expires_at payload;
      ri_metadata := cq_metadata payload |} in
    let (r, s) := init_root_ca env input s in (ca_init_answer r, s)
  end.

Definition post_sign_intermediate (socket : string) (payload : SignIntermediateRequest) :
    http string :=
  let req := SignIntermediateCa (iq_ca_tag payload) (iq_csr_pem payload)
               (iq_validity_days payload) in
  let? resp := map_err (λ e, (500, "hsm client error: " +s+ AppError_display e))
                 (app_send_hsm_request socket req None) in
  match resp with
  | SignedIntermediate certificate_pem => Ok certificate_pem
  | Error code message => Err (500, "hsm error " +s+ pretty code +s+ ": " +s+ message)
  | other => Err (500, "unexpected hsm response: " +s+ response_debug other)
  end.

End ca_handlers.

(** ** sign_intermediate_ca.rs *)

Record SignIntermediateCaInput := MkSignIntermediateCaInput {
  ni_caller_service : ServiceId;
  ni_ca_tag : string;
  ni_csr_pem : string;
  ni_validity_days : Z }.

Section sign_intermediate.
  Context `{Json} `{UuidFmt} `{HsmDebug} {A : Type} `{AuditRepository A}.
  Context `{Hcodec : HsmCodec} `{Hnet : Network}.

Definition sign_intermediate_ca (socket : string) (acl : CompiledAcl) (env : Env) (op_id : Z)
    (input : SignIntermediateCaInput) : svc A string :=
  let caller := ni_caller_service input in
  let ctx := request_ctx op_id caller in
  if negb (authorize_control_action acl caller CaSignIntermediate) then
    access_denied env ctx AuditCaSignIntermediate
      "ACL policy violation for CA_SIGN_INTERMEDIATE" ;;*
    svc_err Forbidden
  else
    let req := SignIntermediateCa (ni_ca_tag input) (ni_csr_pem input) (ni_validity_days input) in
    let* response := svc_of (app_send_hsm_request socket req None) in
    match response with
    | SignedIntermediate certificate_pem =>
      success env ctx AuditCaSignIntermediate (json [
        ("ca_tag", VString (ni_ca_tag input));
        ("validity_days", VNumber (pretty (ni_validity_days input)));
        ("csr_pem_len", VNumber (pretty (String.length (ni_csr_pem input))));
        ("certificate_pem_len", VNumber (pretty (String.length certificate_pem)))]%string) ;;*
      svc_ret certificate_pem
    | Error code message =>
      let detail := "HSM error " +s+ pretty code +s+ ": " +s+ message in
      failure env ctx AuditCaSignIntermediate detail ;;* svc_err (CryptoError detail None)
    | other =>
      let detail := "Unexpected HSM response: " +s+ response_debug other in
      failure env ctx AuditCaSignIntermediate detail ;;* svc_err (ValidationError detail)
    end.

End sign_intermediate.

(** ** handlers/ceremonies.rs *)

Record CeremonyRequest := MkCeremonyRequest {
  mq_operation : string;
  mq_ca_tag : option string;
  mq_algorithm : option string;
  mq_public_key_b64 : option string;
  mq_encrypted_private_key_b64 : option string;
  mq_kek_id : option Z;
  mq_kek_version : option Z;
  mq_certificate_pem : option string;
  mq_serial : option string;
  mq_status : option string;
  mq_expires_at : option Z;
  mq_metadata : option Value }.

(** [serde_json::to_vec(&payload)] *)
Class CeremonyCodec := { ceremony_to_vec : CeremonyRequest → result (list byte) string }.

Section ceremonies.
  Context `{Sha256} `{Hex} `{Json} `{Chrono} `{UuidFmt} `{PgTime} `{SqlDisplay} `{Base64}
    `{CeremonyCodec}.

Definition register_ceremony_handler (env : CaEnv) (payload : CeremonyRequest) (db : KmsDb) :
    outcome (http Z) * KmsDb :=
  match ceremony_to_vec payload with
  | Err e => (Done (Err (400, "invalid payload: " +s+ e)), db)
  | Ok manifest =>
    let prev_hash := default EmptyString (latest_hash_tx db) in
    let metadata_str := manifest_text manifest in
    let algorithm_name :=
      match mq_algorithm payload with
      | Some value => if is_empty (trim value) then "ECDSA_P256"%string else value
      | None => "ECDSA_P256"%string
      end in
    match compute_audit_hash
      (ceremony_hash_input (ca_audit_id env) "kms-service" "ceremony" (mq_operation payload)
         algorithm_name prev_hash (ca_now env) (ca_ceremony_id env) None metadata_str)
    with
    | None => (Panics UnwrapNone, db)
    | Some hash =>
      match audit_insert_tx db
        (ceremony_row (ca_audit_id env) "kms-service" "ceremony" (mq_operation payload)
           algorithm_name prev_hash hash (Some []) (ca_now env) (ca_ceremony_id env) None
           metadata_str)
      with
      | Err e => (Done (Err (500, "insert audit: " +s+ sql_display e)), db)
      | Ok db' =>
        match ca_commit env with
        | Ok _ => (Done (Ok (ca_ceremony_id env)), db')
        | Err e => (Done (Err (500, "tx commit: " +s+ e)), db)
        end
      end
    end
  end.

End ceremonies.

(** ** What a successful initialization does *)

Section init_properties.
  Context {P : Type}.
  Context `{Sha256} `{Hex} `{Json} `{Chrono} `{UuidFmt} `{Hpg : PgTime} `{SqlDisplay} `{Base64}.

Definition root_ca_row (env : CaEnv) (input : InitRootCaInput) (kek_id kek_version : Z) :
    RootCaRow :=
  MkRootCaRow (ca_root_ca_id env) (ri_ca_tag input) (ri_algorithm_name input)
    (ri_public_key input) (ri_encrypted_private_key input) kek_id kek_version
    (ri_certificate_pem input) (ri_serial input) (ri_status input)
    (pg_timestamptz (ca_created_at env)) (pg_timestamptz <$> ri_expires_at input).

Lemma insert_root_ca_ok db id tag al pk enc kek kv cert serial st ct exp b db' :
  insert_root_ca db id tag al pk enc kek kv cert serial st ct exp = Ok (b, db') →
  (b = false ∧ db' = db) ∨
  (b = true ∧ db' = set_root_cas db (db_root_cas db ++
     [MkRootCaRow id tag al pk enc kek kv cert serial st (pg_timestamptz ct)
        (pg_timestamptz <$> exp)])).
Proof.
  unfold insert_root_ca. destruct (exists_by_tag_tx db tag).
  - intros [= <- <-]. by left.
  - intros E. inv_ok. by right.
Qed.

Lemma audit_insert_tx_ok db row db' :
  audit_insert_tx db row = Ok db' →
  db' = set_audit db (db_audit db ++ [stored row]) ∧ ar_id row ∉ (ar_id <$> db_audit db).
Proof.
  unfold audit_insert_tx, audit_insert. case_decide; [done|]. by intros [= <-].
Qed.

Lemma init_root_ca_ok env input db (p : P) out s' :
  init_root_ca env input (db, p) = (Done (Ok out), s') →
  out = MkInitRootCaOutput (ca_root_ca_id env) (ca_ceremony_id env) ∧ s'.2 = p ∧
  exists_by_tag_tx db (ri_ca_tag input) = false ∧
  ∃ kek_id kek_version audit_row,
    s'.1 = set_audit (set_root_cas db (db_root_cas db ++ [root_ca_row env input kek_id kek_version]))
             (db_audit db ++ [stored audit_row]) ∧
    fetch_latest_kek_id db "kms-system" = Some (kek_id, kek_version) ∧
    ar_prev_hash audit_row = default GENESIS_HASH (latest_hash (db_audit db)) ∧
    row_hash_ok audit_row ∧ ar_signature audit_row = None ∧
    ar_created_at audit_row = ca_now env ∧ ar_id audit_row = ca_audit_id env ∧
    ar_id audit_row ∉ (ar_id <$> db_audit db).
Proof.
  unfold init_root_ca. intros E. apply act_bind_Ok in E as (u & s0 & E & [= <- <-]).
  apply transaction_Ok in E as [E _]. unfold init_root_ca_tx in E.
  apply act_bind_Ok in E as (b & s1 & [= <- <-] & E).
  destruct (exists_by_tag_tx db (ri_ca_tag input)) eqn:Ht; [discriminate|].
  apply act_bind_Ok in E as (kek & s1 & [= <- <-] & E). cbn [fst] in E.
  destruct (fetch_latest_kek_id db "kms-system") as [[kek_id kv]|] eqn:Hk; [|discriminate].
  apply act_bind_Ok in E as (ins & s1 & Hins & E). apply tx_query_Ok in Hins as (db1 & Hins & ->).
  apply insert_root_ca_ok in Hins as [[-> ->]|[-> ->]]; [discriminate|]. cbn [negb fst snd] in E.
  apply act_bind_Ok in E as (man & s1 & Hm & E). injection Hm as Hm <-.
  apply act_bind_Ok in E as (prev & s1 & [= <- <-] & E).
  apply act_bind_Ok in E as (hash & s1 & Hh & E). unfold act_or_panic in Hh.
  destruct (compute_audit_hash _) as [hash'|] eqn:Hc in Hh; [|discriminate]. injection Hh as <- <-.
  apply tx_exec_Ok in E as (db2 & Hi & ->). apply audit_insert_tx_ok in Hi as [-> Hf].
  split_and!; try done. eexists kek_id, kv, _. split; [reflexivity|].
  split_and!; done.
Qed.

(** The tests for a tag, on the pool and in a transaction, tell whether there
    is an authority to load. *)
Lemma exists_by_tag_loads db ca_tag :
  exists_by_tag db ca_tag = exists_by_tag_tx db ca_tag ∧
  (exists_by_tag db ca_tag = true ↔ is_Some (fetch_active_by_tag db ca_tag)).
Proof.
  split; [done|]. unfold exists_by_tag, fetch_active_by_tag. rewrite existsb_exists. split.
  - intros (r & Hr%list_elem_of_In & Ht). destruct (filter _ _) as [|q l] eqn:E; [|by eexists].
    exfalso. apply (not_elem_of_nil r). rewrite <- E. by apply list_elem_of_filter.
  - intros [r Hr]. apply head_Some_elem_of, list_elem_of_filter in Hr as [Ht Hr].
    exists r. split; [by apply list_elem_of_In|done].
Qed.

Lemma init_root_ca_atomic env input : atomic (P := P) (init_root_ca env input).
Proof. apply atomic_then_ret; [auto with kms|]. intros x s. by eexists. Qed.

Lemma init_root_ca_exists env input db (p : P) :
  exists_by_tag_tx db (ri_ca_tag input) = true →
  init_root_ca env input (db, p) =
  (Done (Err (ValidationError ("Root CA '" +s+ ri_ca_tag input +s+ "' already exists"))), (db, p)).
Proof.
  intros E. unfold init_root_ca, act_bind at 1, transaction, init_root_ca_tx.
  unfold read_db, act_bind at 1. cbn [fst]. by rewrite E.
Qed.

Lemma filter_tag_none l tag :
  existsb (has_tag tag) l = false → filter (λ r, has_tag tag r = true) l = [].
Proof.
  induction l as [|r l IH]; [done|]. cbn [existsb]. intros [Hr Hl]%orb_false_iff.
  rewrite filter_cons_False by (by rewrite Hr). auto.
Qed.

(** C26: a tag is initialized once: after a successful initialization the stored
    authority is the one of that call, loading it by its tag finds exactly
    the encrypted key that was given, and any further initialization of the
    tag is refused with the database unchanged. *)
Theorem root_ca_initialized_once env1 env2 input1 input2 db (p : P) out s' :
  init_root_ca env1 input1 (db, p) = (Done (Ok out), s') →
  ri_ca_tag input2 = ri_ca_tag input1 →
  (∃ row, fetch_active_by_tag s'.1 (ri_ca_tag input1) = Some row ∧
     rc_id row = ro_root_ca_id out ∧
     rc_encrypted_private_key row = ri_encrypted_private_key input1) ∧
  init_root_ca env2 input2 s' =
    (Done (Err (ValidationError ("Root CA '" +s+ ri_ca_tag input2 +s+ "' already exists"))), s').
Proof.
  intros E Ht. apply init_root_ca_ok in E as (-> & Hp & Hex & kek & kv & row & Hs & _).
  destruct s' as [db' p']. cbn [fst snd] in *. subst p' db'. split.
  - exists (root_ca_row env1 input1 kek kv). split; [|split; reflexivity].
    unfold fetch_active_by_tag. cbn [db_root_cas set_audit set_root_cas].
    rewrite filter_app, filter_tag_none by done. cbn [app].
    rewrite filter_cons_True by (unfold has_tag; apply String.eqb_refl). reflexivity.
  - apply init_root_ca_exists. unfold exists_by_tag_tx. cbn [db_root_cas set_audit set_root_cas].
    rewrite existsb_app, Ht. apply orb_true_iff. right. cbn. unfold has_tag; cbn.
    by rewrite String.eqb_refl.
Qed.

End init_properties.

(** ** Signing *)

Section sign_properties.
  Context `{Json} `{UuidFmt} `{HsmDebug} {A : Type} `{AuditRepository A}.
  Context `{Hcodec : HsmCodec} `{Hnet : Network}.

(** The client has already turned an [Error] answer into an error. *)
Lemma send_hsm_request_not_error path req t code m :
  send_hsm_request path req t ≠ Ok (Error code m).
Proof. unfold send_hsm_request. intros E. inv_ok. by case_match; simplify_eq. Qed.

(** Refusals of the vHSM are not audited: an authorized request that the vHSM
    refuses, or that does not reach it, fails with no audit record, and the
    use case's branch for the vHSM's errors is never taken. *)
Theorem sign_refusals_unaudited socket acl env op_id input (w : World A) :
  authorize_control_action acl (ni_caller_service input) CaSignIntermediate = true →
  let req := SignIntermediateCa (ni_ca_tag input) (ni_csr_pem input) (ni_validity_days input) in
  (∀ code message, app_send_hsm_request socket req None ≠ Ok (Error code message)) ∧
  (∀ e, app_send_hsm_request socket req None = Err e →
     sign_intermediate_ca socket acl env op_id input w = (Err e, w)).
Proof.
  intros Ha req. split.
  - intros code m E%map_err_Ok. by apply send_hsm_request_not_error in E.
  - intros e E. unfold sign_intermediate_ca. rewrite Ha. cbn [negb]. fold req.
    rewrite E. reflexivity.
Qed.

(** The HTTP handler for the same operation does not ask the access list:
    whenever the vHSM signs, it answers with the certificate, whoever the
    caller is, while the use case refuses a caller without
    [CaSignIntermediate] and records the refusal. *)
Theorem sign_handler_ignores_acl socket acl env op_id input (w : World A) certificate_pem :
  authorize_control_action acl (ni_caller_service input) CaSignIntermediate = false →
  app_send_hsm_request socket
    (SignIntermediateCa (ni_ca_tag input) (ni_csr_pem input) (ni_validity_days input)) None =
    Ok (SignedIntermediate certificate_pem) →
  refused Forbidden w (sign_intermediate_ca socket acl env op_id input w) ∧
  post_sign_intermediate socket
    (MkSignIntermediateRequest (ni_ca_tag input) (ni_csr_pem input) (ni_validity_days input)) =
    Ok certificate_pem.
Proof.
  intros Ha Hs. split.
  - unfold sign_intermediate_ca. rewrite Ha. apply audit_then_err.
  - unfold post_sign_intermediate. cbn [iq_ca_tag iq_csr_pem iq_validity_days]. by rewrite Hs.
Qed.

End sign_properties.

(** ** Ceremony records *)

Section ceremony_properties.
  Context `{Sha256} `{Hex} `{Json} `{Chrono} `{UuidFmt} `{Hpg : PgTime} `{SqlDisplay} `{Base64}
    `{CeremonyCodec}.

Lemma register_ceremony_ok env payload db r db' :
  register_ceremony_handler env payload db = (Done (Ok r), db') →
  ∃ audit_row, db' = set_audit db (db_audit db ++ [stored audit_row]) ∧
    ar_prev_hash audit_row = default EmptyString (latest_hash (db_audit db)) ∧
    row_hash_ok audit_row ∧ ar_signature audit_row = Some [] ∧
    ar_created_at audit_row = ca_now env ∧ ar_id audit_row = ca_audit_id env ∧
    ar_id audit_row ∉ (ar_id <$> db_audit db).
Proof.
  unfold register_ceremony_handler. destruct (ceremony_to_vec payload) as [man|]; [|done].
  destruct (compute_audit_hash _) as [hash|] eqn:Hc; [|done].
  destruct (audit_insert_tx _ _) as [db1|] eqn:Hi; [|done]. destruct (ca_commit env); [|done].
  intros [= <- <-]. apply audit_insert_tx_ok in Hi as [-> Hf]. eexists. split; [reflexivity|].
  split_and!; done.
Qed.

(** A ceremony recorded in an empty table can never be verified: its row
    carries the empty string as previous hash, where the verification expects
    the genesis hash. *)
Theorem first_ceremony_unverifiable `{Ed25519Lib} acl caller keys env payload db r db' :
  db_audit db = [] →
  register_ceremony_handler env payload db = (Done (Ok r), db') →
  ∀ rep, verify_audit_handler acl caller (db_audit db') keys None (Some true) = Some (Ok rep) →
    vr_ok rep = false.
Proof.
  intros Hdb Hr rep. apply register_ceremony_ok in Hr as (row & -> & Hp & _).
  cbn [db_audit set_audit]. rewrite Hdb in *. apply first_row_verifies.
  cbn [ar_prev_hash stored]. rewrite Hp. discriminate.
Qed.

End ceremony_properties.

(** ** Concrete instances *)

Section RootCaWitnesses.
  Import Concrete ConcreteAudit ConcretePg ConcreteKeys.

#[local] Existing Instances list_audit.
#[local] Instance text_ceremony : CeremonyCodec := {
  ceremony_to_vec q := Ok (str_bytes (mq_operation q)) }.
#[local] Instance no_hsm_debug : HsmDebug := { response_debug _ := "..." }.

(** A vHSM that signs when [signs], and answers with an error otherwise. *)
#[local] Instance sign_codec : HsmCodec := {
  request_to_vec _ := Ok [];
  request_from_slice _ := Err "unused"%string;
  response_to_vec _ := Ok [];
  response_from_slice bs :=
    match bs with
    | [] => Ok (Error 423 "locked")
    | _ => Ok (SignedIntermediate "cert")
    end }.
Definition sign_socket (signs : bool) : Network := {|
  net_connect _ _ := Completed (Ok ());
  net_write _ _ _ := Completed (Ok ());
  net_reply _ _ _ :=
    let body := if signs then [tag 1] else [] in
    MkStream (u32_to_be_bytes (blen body) ++ body) false |}.

Definition ca_db : KmsDb :=
  MkKmsDb [MkKeyDbRow 9 "kms-system" "AES256GCM" 1 [] "pem" "Encryption" "Active" true 0]
    [] [] [] [] [].
Definition ca_env (id now : Z) : CaEnv := MkCaEnv id now (100 + id) (200 + id) now (Ok ()).
Definition ca_input : InitRootCaInput :=
  MkInitRootCaInput "root" "ECDSA_P256" [tag 4] (str_bytes "wrapped") "pem" "serial"
    "INITIALIZING" None None.
Definition ca_demo : outcome (result InitRootCaOutput AppError) * (KmsDb * unit) :=
  init_root_ca (ca_env 1 1000) ca_input (ca_db, ()).

Lemma ca_demo_ok :
  init_root_ca (ca_env 1 1000) ca_input (ca_db, ()) =
  (Done (Ok (MkInitRootCaOutput 1 101)), ca_demo.2).
Proof. vm_compute. reflexivity. Qed.

Lemma root_ca_initialized_once_witness :
  ∃ row, fetch_active_by_tag ca_demo.2.1 "root" = Some row ∧ rc_id row = 1 ∧
    rc_encrypted_private_key row = str_bytes "wrapped".
Proof.
  destruct (root_ca_initialized_once (ca_env 1 1000) (ca_env 2 2000) ca_input ca_input ca_db ()
              _ _ ca_demo_ok eq_refl) as [Hrow _]. exact Hrow.
Defined.

Definition sign_input : SignIntermediateCaInput :=
  MkSignIntermediateCaInput "spire" "root" "csr" 30.
Definition sign_acl (callers : list string) : CompiledAcl := {|
  access := ∅; preload := ∅;
  actions := list_to_map ((λ c, (c, {[CaSignIntermediate]})) <$> callers) |}.

Lemma sign_refusals_unaudited_witness :
  ∃ e, sign_intermediate_ca (Hnet := sign_socket false) "sock" (sign_acl ["spire"%string])
         (good_env 1) 7 sign_input demo_empty = (Err e, demo_empty).
Proof.
  destruct (sign_refusals_unaudited (Hnet := sign_socket false) "sock" (sign_acl ["spire"%string])
              (good_env 1) 7 sign_input demo_empty eq_refl) as [_ He].
  eexists. apply He. reflexivity.
Defined.

Lemma sign_handler_ignores_acl_witness :
  post_sign_intermediate (Hnet := sign_socket true) "sock"
    (MkSignIntermediateRequest "root" "csr" 30) = Ok "cert"%string.
Proof.
  destruct (sign_handler_ignores_acl (Hnet := sign_socket true) "sock" (sign_acl []) (good_env 1) 7
              sign_input demo_empty "cert") as [_ Hs]; [reflexivity|vm_compute; reflexivity|].
  exact Hs.
Defined.

Definition unseal_ceremony : CeremonyRequest :=
  MkCeremonyRequest "unseal" None None None None None None None None None None None.
Definition ceremony_demo (db : KmsDb) (id now : Z) : outcome (http Z) * KmsDb :=
  register_ceremony_handler (ca_env id now) unseal_ceremony db.

Lemma first_ceremony_unverifiable_witness :
  ∃ rep, verify_audit_handler cli_acl "kms-cli" (db_audit (ceremony_demo ca_db 1 1000).2) [] None
           (Some true) = Some (Ok rep) ∧ vr_ok rep = false.
Proof.
  destruct (verify_audit_handler cli_acl "kms-cli" (db_audit (ceremony_demo ca_db 1 1000).2) [] None
              (Some true)) as [[rep|e]|] eqn:Hv; [|vm_compute in Hv; discriminate..].
  exists rep. split; [reflexivity|]. revert rep Hv.
  apply (first_ceremony_unverifiable cli_acl "kms-cli" [] (ca_env 1 1000) unseal_ceremony ca_db 101);
    vm_compute; reflexivity.
Defined.

End RootCaWitnesses.
