(* ===== verification/Credentials.v ===== *)
(** * Issuing credentials

    Models [kms-service/src/application/use_cases/issue_agent_credential.rs],
    the handlers [handlers/agent.rs] and the worker
    [workers/reconciliation.rs].  The state is the database and the target
    systems: a transaction runs on a copy of the database, while what a
    provider does at a target stays done. *)

From Stdlib Require Import Ascii.
From stdpp Require Import sorting.
From S2P Require Import Prelude.
From S2P Require Import Interfaces.
From S2P Require Import Protocol.
From S2P Require Import Vhsm.
From S2P Require Import Domain.
From S2P Require Import Effects.
From S2P Require Import Acl.
From S2P Require Import Providers.
From S2P Require Import AuditLog.
From S2P Require Import AuditChain.
From S2P Require Import KeyStore.
From S2P Require Import KeyUseCases.
From S2P Require Import Database.
From S2P Require Import Transactions.
From S2P Require Import VhsmClient.

(** ** Data *)

Definition DEFAULT_PASSWORD_LEN : Z := 32.

Record GeneratedCredentialBlob := MkGeneratedCredentialBlob {
  gb_credential_id : Z;
  gb_username : string;
  gb_plaintext_password : string;
  gb_encrypted_password : list byte;
  gb_nonce : list byte }.

Record IssueAgentCredentialInput := MkIssueAgentCredentialInput {
  ii_caller_service : string;
  ii_target_service : string;
  ii_target_type : string;
  ii_resource : string;
  ii_ttl_seconds : Z }.

Record IssueAgentCredentialOutput := MkIssueAgentCredentialOutput {
  io_credential_id : Z;
  io_username : string;
  io_password : string;
  io_expires_at : Z }.

Inductive ProvisioningStatus := PsPending | PsProvisioning | PsActive | PsFailed | PsRevoking.

Definition ProvisioningStatus_as_str (s : ProvisioningStatus) : string :=
  match s with
  | PsPending => "PENDING"
  | PsProvisioning => "PROVISIONING"
  | PsActive => "ACTIVE"
  | PsFailed => "FAILED"
  | PsRevoking => "REVOKING"
  end.

Definition can_transition_to (self next : ProvisioningStatus) : bool :=
  match self, next with
  | PsPending, PsProvisioning
  | PsProvisioning, PsActive
  | PsProvisioning, PsFailed
  | PsActive, PsRevoking
  | PsFailed, PsRevoking => true
  | _, _ => false
  end.

(** [uuid]: the 32 hexadecimal digits, and the value of 16 bytes. *)
Class UuidBytes := {
  uuid_simple : Z → string;
  uuid_from_slice : list byte → option Z }.
Class UuidBytesLaws (U : UuidBytes) := {
  uuid_simple_hex u :
    String.length (uuid_simple u) = 32%nat ∧
    forallb (λ c, let n := Z.of_N (Ascii.N_of_ascii c) in
       ((48 <=? n) && (n <=? 57)) || ((97 <=? n) && (n <=? 102))) (chars (uuid_simple u)) = true;
  uuid_from_slice_16 bs : length bs = 16%nat → is_Some (uuid_from_slice bs) }.

(** [serde_json] on [struct CredentialPayload { u, p }]: a character takes at
    most the six of an escape. *)
Class CredentialCodec := {
  payload_to_vec : string → string → result (list byte) string;
  payload_from_slice : list byte → option (string * string) }.
Class CredentialCodecLaws (C : CredentialCodec) := {
  payload_roundtrip u p bs :
    payload_to_vec u p = Ok bs → payload_from_slice bs = Some (u, p);
  payload_size u p bs :
    payload_to_vec u p = Ok bs → (length bs ≤ 6 * (String.length u + String.length p) + 64)%nat }.

(** ** User names *)

Definition is_ascii_alphanumeric (c : ascii) : bool :=
  let n := Z.of_N (Ascii.N_of_ascii c) in
  ((48 <=? n) && (n <=? 57)) || ((65 <=? n) && (n <=? 90)) || ((97 <=? n) && (n <=? 122)).

Definition safe_prefix (caller_service : string) : string :=
  String.string_of_list_ascii
    (filter (λ c, is_ascii_alphanumeric c = true)
       (chars (to_ascii_lowercase (trim caller_service)))).

Definition generate_unique_username `{UuidBytes} (uuid : Z) (caller_service : string) : string :=
  let safe := safe_prefix caller_service in
  let safe := if is_empty safe then "kms"%string else safe in
  let prefix := if (10 <? String.length safe)%nat then str_take 10 safe else safe in
  let suffix := str_take 8 (uuid_simple uuid) in
  "kms_" +s+ prefix +s+ "_" +s+ suffix.

(** ** The use case *)

(** The clocks, identifiers and random sources of one run, and how the commit
    ends. *)
Record IssueEnv := MkIssueEnv {
  ie_created_at : Z;
  ie_db_now : Z;
  ie_insert_now : Z;
  ie_username_uuid : Z;
  ie_audit_id : Z;
  ie_generate : Entropy;
  ie_encrypt : Entropy;
  ie_commit : result unit string }.

Section issue.
  Context {P : Type}.
  Context `{Sha256} `{Hex} `{Json} `{Chrono} `{UuidFmt} `{PgTime} `{SqlDisplay} `{Unicode}
    `{Base64} `{ChronoTtl} `{UuidBytes} `{CredentialCodec}.
  (** The exchange with the vHSM. *)
  Context (send_request : Entropy → HsmRequest → result HsmResponse AppError).
  Implicit Types (env : IssueEnv) (input : IssueAgentCredentialInput).

Definition IssueAgentCredential_validate_acl (policy : IamCredentialPolicy) input :
    result unit AppError :=
  validate_agent_credential_acl policy (ii_caller_service input) (ii_target_type input)
    (ii_resource input).

Fixpoint validate_batch_acl (policy : IamCredentialPolicy)
    (inputs : list IssueAgentCredentialInput) : result unit AppError :=
  match inputs with
  | [] => Ok ()
  | input :: inputs =>
    let? _ := IssueAgentCredential_validate_acl policy input in validate_batch_acl policy inputs
  end.

(** [AppError::crypto_error_with_source(format!("{text}: {e}"), e)] *)
Definition crypto_error_from (text : string) (e : AppError) : AppError :=
  CryptoError (text +s+ ": " +s+ AppError_display e) (Some (AppError_display e)).

Definition generate_secure_credential (ent : Entropy) (kek_id : option Z) (username : string)
    (length : Z) : result GeneratedCredentialBlob AppError :=
  match kek_id with
  | None => Err (InternalError "No active KEK found for encryption")
  | Some _ =>
    let? (credential_id, password_b64, wrapped_password, _) :=
      map_err (crypto_error_from "Failed to generate credential via vHSM")
        (VhsmCryptoService_generate_credential send_request ent length) in
    if blen wrapped_password <? 12 then
      Err (CryptoError "Wrapped password payload too short (missing nonce)" None)
    else
      let nonce := take 12 wrapped_password in
      let? id_bytes := map_err (λ _, CryptoError "Invalid credential id format from vHSM" None)
                         (hex_decode credential_id) in
      if negb (blen id_bytes =? 16) then
        Err (CryptoError "Credential id from vHSM has invalid length" None)
      else
        match uuid_from_slice id_bytes with
        | None => Err (CryptoError "Failed to parse credential id into UUID" None)
        | Some uuid =>
          Ok (MkGeneratedCredentialBlob uuid username password_b64 wrapped_password nonce)
        end
  end.

(** The hash input and the row of [insert_audit_log_tx]. *)
Definition issue_hash_input (caller_service target_service action : string) (credential_id : Z)
    (timestamp : Z) (prev_hash : string) : AuditHashInput := {|
  hi_id := uuid_to_string credential_id;
  hi_caller_service := caller_service;
  hi_target_service := target_service;
  hi_action := action;
  hi_algorithm := "db-credentials";
  hi_status := "Success";
  hi_reason := Some "agent credential provisioned"%string;
  hi_prev_hash := prev_hash;
  hi_timestamp := timestamp;
  hi_request_id := None;
  hi_operation_id := None;
  hi_target_id := Some (uuid_to_string credential_id);
  hi_metadata := Some "credential_provisioned"%string;
  hi_hash_version := CURRENT |}.

Definition insert_audit_log_tx (audit_id : Z) (caller_service target_service action : string)
    (credential_id timestamp : Z) : act (KmsDb * P) unit :=
  let@ prev_hash_row := read_db latest_hash_tx in
  let prev_hash := default EmptyString prev_hash_row in
  let@ hash := act_or_panic UnwrapNone (compute_audit_hash
    (issue_hash_input caller_service target_service action credential_id timestamp prev_hash)) in
  tx_exec (λ db, audit_insert_tx db {|
    ar_id := audit_id;
    ar_caller_service := caller_service;
    ar_target_service := target_service;
    ar_action := action;
    ar_algorithm := "db-credentials";
    ar_status := "Success";
    ar_reason := Some "agent credential provisioned"%string;
    ar_prev_hash := prev_hash;
    ar_hash := hash;
    ar_signature := Some [];
    ar_request_id := None;
    ar_operation_id := None;
    ar_target_id := Some (uuid_to_string credential_id);
    ar_metadata := Some "credential_provisioned"%string;
    ar_created_at := timestamp |}).

Record ProvisionedCredentialWrite := MkProvisionedCredentialWrite {
  pw_id : Z;
  pw_service_id : string;
  pw_target_id : Z;
  pw_encrypted_credentials : list byte;
  pw_granted_role : string;
  pw_kek_id : Z;
  pw_kek_version : Z;
  pw_expires_at : Z;
  pw_status : string }.

Definition insert_provisioned_credential_tx (now : Z) (params : ProvisionedCredentialWrite) :
    act (KmsDb * P) unit :=
  tx_exec (λ db, insert_provisioned_credential db now (pw_id params) (pw_service_id params)
    (pw_target_id params) (pw_encrypted_credentials params) (pw_granted_role params)
    (pw_kek_id params) (pw_kek_version params) (pw_expires_at params) (pw_status params)).

Definition update_provisioned_credential_status_tx (id : Z) (status : string) :
    act (KmsDb * P) unit :=
  tx_exec (λ db, update_provisioned_credential_status db id status).

(** Steps 4 to 8: the body of the transaction. *)
Definition issue_tx (providers : ProviderFactory P) env input (target_type_clean action
    admin_conn : string) (target_id : Z) (granted_role username : string) (kek_id kek_version : Z)
    (expires_at : Z) (generated : GeneratedCredentialBlob) :
    act (KmsDb * P) (TargetResourceProvider P * GeneratedCredential) :=
  tx_exec (λ db, Ok (revoke_active_credentials_for_target db (ii_caller_service input) target_id)) ;;@
  let@ payload_bytes :=
    act_of (map_err (λ e, InternalError ("Failed to serialize credential payload: " +s+ e))
              (payload_to_vec username (gb_plaintext_password generated))) in
  let@ encrypted_blob :=
    act_of (map_err (crypto_error_from "Failed to encrypt credential payload")
              (VhsmCryptoService_encrypt_private_key send_request (ie_encrypt env)
                 payload_bytes)) in
  insert_provisioned_credential_tx (ie_insert_now env)
    (MkProvisionedCredentialWrite (gb_credential_id generated) (ii_caller_service input) target_id
       (ciphertext encrypted_blob) granted_role kek_id kek_version expires_at
       (ProvisioningStatus_as_str PsProvisioning)) ;;@
  let@ provider := act_of (ProviderFactory_get providers target_type_clean) in
  let@ secret_bytes :=
    act_of (map_err (λ e, ValidationError ("Invalid base64 password from vHSM: " +s+ e))
              (b64_decode (gb_plaintext_password generated))) in
  let@ provider_credential :=
    act_on_err
      (on_targets (create_user provider admin_conn (ii_caller_service input) username
         (if String.eqb target_type_clean "postgres" then Some granted_role else None)
         (as_i64 (ii_ttl_seconds input)) (Some secret_bytes)))
      (λ e, act_ignore (update_provisioned_credential_status_tx (gb_credential_id generated)
              (ProvisioningStatus_as_str PsFailed)) ;;@
            act_err e) in
  update_provisioned_credential_status_tx (gb_credential_id generated)
    (ProvisioningStatus_as_str PsActive) ;;@
  insert_audit_log_tx (ie_audit_id env) (ii_caller_service input) (ii_target_service input) action
    (gb_credential_id generated) (ie_created_at env) ;;@
  act_ret (provider, provider_credential).

(** What an active credential is answered with. *)
Definition existing_output (active_id : Z) (active_encrypted_blob : list byte)
    (active_expires_at : Z) (ent : Entropy) : result IssueAgentCredentialOutput AppError :=
  let? plaintext_bytes :=
    map_err (crypto_error_from "Failed to decrypt stored credential")
      (VhsmCryptoService_decrypt_bytes send_request ent active_encrypted_blob) in
  match payload_from_slice plaintext_bytes with
  | None =>
    Ok (MkIssueAgentCredentialOutput active_id EmptyString (b64_encode plaintext_bytes)
          active_expires_at)
  | Some (u, p) => Ok (MkIssueAgentCredentialOutput active_id u p active_expires_at)
  end.

(** A new credential: its key, its secret and the transaction. *)
Definition issue_new (providers : ProviderFactory P) env input (target_type_clean action
    admin_conn : string) (target_id : Z) (db_default_role : option string) (expires_at : Z) :
    act (KmsDb * P) IssueAgentCredentialOutput :=
  let granted_role :=
    match db_default_role with
    | Some role => if is_empty role then "kms_" +s+ ii_caller_service input +s+ "_postgres_auth"
                   else role
    | None => "kms_" +s+ ii_caller_service input +s+ "_postgres_auth"
    end in
  let username := generate_unique_username (ie_username_uuid env) (ii_caller_service input) in
  let@ kek := read_db (λ db, fetch_latest_kek_id db "kms-system") in
  match kek with
  | None => act_err (KeyNotFound "No active KEK found for kms-system")
  | Some (kek_id, kek_version) =>
    let@ generated :=
      act_of (generate_secure_credential (ie_generate env) (Some kek_id) username
                DEFAULT_PASSWORD_LEN) in
    let@ (_, provider_credential) :=
      transaction (ie_commit env)
        (issue_tx providers env input target_type_clean action admin_conn target_id granted_role
           username kek_id kek_version expires_at generated)
        (λ commit_err '(provider, provider_credential),
           act_ignore (revoke_user provider admin_conn (gc_username provider_credential)) ;;@
           act_ret (InternalError ("DB commit failed: " +s+ commit_err))) in
    act_ret (MkIssueAgentCredentialOutput (gb_credential_id generated)
               (gc_username provider_credential) (gb_plaintext_password generated) expires_at)
  end.

Definition IssueAgentCredential_execute (policy : IamCredentialPolicy)
    (providers : ProviderFactory P) env input : act (KmsDb * P) IssueAgentCredentialOutput :=
  let target_type_clean := to_lowercase (ii_target_type input) in
  let action := "kms:credentials:provision:" +s+ target_type_clean in
  act_of (IssueAgentCredential_validate_acl policy input) ;;@
  let@ target_row := read_db (λ db, fetch_target_resource db (ii_target_service input)) in
  match target_row with
  | None => act_err (NotFound ("Target resource not found: " +s+ ii_target_service input))
  | Some (target_id, conn_encrypted, db_default_role) =>
    let@ admin_conn_bytes :=
      act_of (map_err (crypto_error_from "Failed to decrypt target connection string")
                (VhsmCryptoService_decrypt_bytes send_request (ie_generate env) conn_encrypted)) in
    if negb (is_utf8_bytes admin_conn_bytes) then
      act_err (CryptoError "Decrypted target connection string is not valid UTF-8" None)
    else
      let admin_conn := str_of_bytes admin_conn_bytes in
      let@ expires_at := act_or_panic TimeRange
        (datetime_add_seconds (ie_created_at env) (as_i64 (ii_ttl_seconds input))) in
      let@ active := read_db (λ db,
        fetch_latest_active_provisioned_credential_for_service_target db (ie_db_now env)
          (ii_caller_service input) target_id) in
      match active with
      | Some (active_id, blob, active_expires_at) =>
        act_of (existing_output active_id blob active_expires_at (ie_generate env))
      | None =>
        issue_new providers env input target_type_clean action admin_conn target_id
          db_default_role expires_at
      end
  end.

End issue.

(** ** Handlers *)

Record AgentIssueCredentialsRequest := MkAgentIssueCredentialsRequest {
  aq_target_service : string;
  aq_target_type : string;
  aq_resource : string;
  aq_ttl_seconds : option Z }.

Definition default_ttl : Z := 2700.

Record AgentIssueCredentialsResponse := MkAgentIssueCredentialsResponse {
  ap_credential_id : Z;
  ap_username : string;
  ap_password : string;
  ap_expires_at : string }.

Record BatchCredentialRequestItem := MkBatchCredentialRequestItem {
  bi_name : string;
  bi_target_service : option string;
  bi_type : string;
  bi_resource : string }.

Definition response_of `{Chrono} (output : IssueAgentCredentialOutput) :
    AgentIssueCredentialsResponse :=
  MkAgentIssueCredentialsResponse (io_credential_id output) (io_username output)
    (io_password output) (to_rfc3339 (io_expires_at output)).

(** The input an item of a batch stands for. *)
Definition item_input (caller_service : string) (ttl_seconds : option Z)
    (item : BatchCredentialRequestItem) : IssueAgentCredentialInput :=
  MkIssueAgentCredentialInput caller_service (default (bi_resource item) (bi_target_service item))
    (bi_type item) (bi_resource item) (default default_ttl ttl_seconds).

Section handlers.
  Context {P : Type}.
  Context `{Sha256} `{Hex} `{Json} `{Chrono} `{UuidFmt} `{PgTime} `{SqlDisplay} `{Unicode}
    `{Base64} `{ChronoTtl} `{UuidBytes} `{CredentialCodec}.
  Context (send_request : Entropy → HsmRequest → result HsmResponse AppError).
  Context (policy : IamCredentialPolicy) (providers : ProviderFactory P).

Definition issue_dynamic_credentials_handler (env : IssueEnv) (caller : ServiceId)
    (payload : AgentIssueCredentialsRequest) : act (KmsDb * P) AgentIssueCredentialsResponse :=
  let@ output := IssueAgentCredential_execute send_request policy providers env
    (MkIssueAgentCredentialInput caller (aq_target_service payload) (aq_target_type payload)
       (aq_resource payload) (default default_ttl (aq_ttl_seconds payload))) in
  act_ret (response_of output).

(** The loop over the items; each has its own clocks and random sources. *)
Fixpoint issue_items (envs : nat → IssueEnv) (caller : ServiceId) (ttl_seconds : option Z)
    (items : list BatchCredentialRequestItem)
    (credentials : gmap string AgentIssueCredentialsResponse) :
    act (KmsDb * P) (gmap string AgentIssueCredentialsResponse) :=
  match items with
  | [] => act_ret credentials
  | item :: items =>
    let@ output := IssueAgentCredential_execute send_request policy providers
      (envs (length items)) (item_input caller ttl_seconds item) in
    issue_items envs caller ttl_seconds items (<[bi_name item := response_of output]> credentials)
  end.

Definition issue_batch_credentials_handler (envs : nat → IssueEnv) (caller : ServiceId)
    (items : list BatchCredentialRequestItem) (ttl_seconds : option Z) :
    act (KmsDb * P) (gmap string AgentIssueCredentialsResponse) :=
  act_of (validate_batch_acl policy (item_input caller ttl_seconds <$> items)) ;;@
  issue_items envs caller ttl_seconds items ∅.

End handlers.

(** ** workers/reconciliation.rs *)

Definition older_credential (r1 r2 : ProvisionedCredential) : Prop :=
  pc_created_at r1 ≤ pc_created_at r2.
#[export] Instance older_credential_dec : RelDecision older_credential.
Proof. intros r1 r2. unfold older_credential. apply _. Defined.

Definition stale_status (st : string) : bool :=
  bool_decide (st ∈ ["PENDING"; "PROVISIONING"; "FAILED"; "REVOKING"]%string).

(** The identifiers a pass of the worker reports; it changes nothing. *)
Definition reconcile_stale_provisioning (now : Z) (db : KmsDb) : list Z :=
  pc_id <$> take 100 (merge_sort older_credential
    (filter (λ r, stale_status (pc_status r) && (pc_created_at r <? now - 300000000000) = true)
       (db_provisioned db))).

(** ** Atomicity *)

Section atomicity.
  Context {P : Type}.
  Context `{Sha256} `{Hex} `{Json} `{Chrono} `{UuidFmt} `{PgTime} `{SqlDisplay} `{Unicode}
    `{Base64} `{ChronoTtl} `{UuidBytes} `{CredentialCodec}.
  Context (send_request : Entropy → HsmRequest → result HsmResponse AppError).

Lemma issue_new_atomic providers env input a b c d e f :
  atomic (P := P) (issue_new send_request providers env input a b c d e f).
Proof.
  unfold issue_new. apply atomic_bind; [auto with kms|]. intros [[kek_id v]|]; [|auto with kms].
  apply atomic_bind; [auto with kms|]. intros generated.
  apply atomic_then_ret; [auto with kms|]. intros [] s. by eexists.
Qed.

Lemma execute_atomic policy providers env input :
  atomic (P := P) (IssueAgentCredential_execute send_request policy providers env input).
Proof.
  unfold IssueAgentCredential_execute. apply atomic_bind; [auto with kms|]. intros _.
  apply atomic_bind; [auto with kms|]. intros [[[tid conn] role]|]; [|auto with kms].
  apply atomic_bind; [auto with kms|]. intros bytes. case_match; [auto with kms|].
  apply atomic_bind; [auto with kms|]. intros exp. apply atomic_bind; [auto with kms|].
  intros [[[id blob] e]|]; [auto with kms|]. apply issue_new_atomic.
Qed.

End atomicity.

(** ** What a successful run does *)

Section success.
  Context {P : Type}.
  Context `{Sha256} `{Hex} `{Json} `{Chrono} `{UuidFmt} `{Hpg : PgTime} `{SqlDisplay} `{Unicode}
    `{Base64} `{ChronoTtl} `{UuidBytes} `{CredentialCodec}.
  Context (send_request : Entropy → HsmRequest → result HsmResponse AppError).

Lemma insert_provisioned_ok db now id svc tid enc role kek kv exp st db' :
  insert_provisioned_credential db now id svc tid enc role kek kv exp st = Ok db' →
  ∃ svc' role' st', varchar 64 "service_id" svc = Ok svc' ∧
    varchar 64 "granted_role" role = Ok role' ∧ varchar 32 "status" st = Ok st' ∧
    (id ∉ (pc_id <$> db_provisioned db)) ∧ tid ∈ (tr_id <$> db_targets db) ∧
    key_exists db kek = true ∧
    db' = set_provisioned db (db_provisioned db ++
      [MkProvisionedCredential id svc' tid enc role' kek kv (pg_timestamptz exp) false st'
         (pg_timestamptz now)]).
Proof.
  unfold insert_provisioned_credential. intros E.
  repeat (apply result_bind_Ok in E as (? & ? & E)). injection E as <-.
  repeat match goal with G : guard_sql _ _ = Ok _ |- _ => apply guard_sql_Ok in G end.
  eexists _, _, _. split_and!; try eassumption.
  - apply existsb_eq_false. by apply negb_true_iff.
  - by apply existsb_eq_true.
  - reflexivity.
Qed.

(** Setting the status of a fresh row at the end. *)
Lemma update_status_last db r st :
  pc_id r ∉ (pc_id <$> db_provisioned db) → varchar 32 "status" st = Ok st →
  status_allowed st = true →
  update_provisioned_credential_status (set_provisioned db (db_provisioned db ++ [r]))
    (pc_id r) st =
  Ok (set_provisioned db (db_provisioned db ++ [set_pc_status st r])).
Proof.
  intros Hid Hst Hall. unfold update_provisioned_credential_status. cbn [db_provisioned set_provisioned].
  rewrite (proj2 (existsb_eq_true pc_id _ _)) by (rewrite fmap_app; set_solver).
  rewrite Hst. cbn [result_bind]. rewrite Hall. cbn [guard_sql result_bind]. do 2 f_equal.
  rewrite fmap_app. cbn [fmap list_fmap]. rewrite Z.eqb_refl. f_equal.
  transitivity (id <$> db_provisioned db); [|apply list_fmap_id].
  apply list_fmap_ext. intros i x Hx. destruct (Z.eqb_spec (pc_id x) (pc_id r)) as [E|]; [|done].
  destruct Hid. rewrite <- E. apply list_elem_of_fmap_2. by eapply list_elem_of_lookup_2.
Qed.

(** The row a run adds. *)
Definition issued_row (env : IssueEnv) (svc : string) (target_id : Z) (enc : EncryptedPrivateKey)
    (role : string) (kek_id kek_version expires_at : Z) (generated : GeneratedCredentialBlob) :
    ProvisionedCredential :=
  MkProvisionedCredential (gb_credential_id generated) svc target_id (ciphertext enc) role kek_id
    kek_version (pg_timestamptz expires_at) false "ACTIVE" (pg_timestamptz (ie_insert_now env)).

(** The audit row of a run, and the row as the table keeps it. *)
Definition issued_audit (env : IssueEnv) (input : IssueAgentCredentialInput) (action : string)
    (generated : GeneratedCredentialBlob) (prev hash : string) : AuditRow := {|
  ar_id := ie_audit_id env; ar_caller_service := ii_caller_service input;
  ar_target_service := ii_target_service input; ar_action := action;
  ar_algorithm := "db-credentials"; ar_status := "Success";
  ar_reason := Some "agent credential provisioned"%string;
  ar_prev_hash := prev; ar_hash := hash; ar_signature := Some [];
  ar_request_id := None; ar_operation_id := None;
  ar_target_id := Some (uuid_to_string (gb_credential_id generated));
  ar_metadata := Some "credential_provisioned"%string;
  ar_created_at := pg_timestamptz (ie_created_at env) |}.

Definition revoked_for (svc : string) (tid : Z) (l : list ProvisionedCredential) :
    list ProvisionedCredential :=
  (λ r, if live_for svc tid r then set_revoked r else r) <$> l.

Lemma revoked_for_ids svc tid l : pc_id <$> revoked_for svc tid l = pc_id <$> l.
Proof.
  unfold revoked_for. rewrite <- list_fmap_compose. apply list_fmap_ext. intros i r _.
  cbn. by destruct (live_for svc tid r).
Qed.

Lemma insert_audit_log_tx_ok env input action generated s u s' :
  insert_audit_log_tx (P := P) (ie_audit_id env) (ii_caller_service input)
    (ii_target_service input) action (gb_credential_id generated) (ie_created_at env) s =
  (Done (Ok u), s') →
  ∃ hash, let prev := default EmptyString (latest_hash (db_audit s.1)) in
    compute_audit_hash (issue_hash_input (ii_caller_service input) (ii_target_service input)
      action (gb_credential_id generated) (ie_created_at env) prev) = Some hash ∧
    (ie_audit_id env ∉ (ar_id <$> db_audit s.1)) ∧
    s' = (set_audit s.1 (db_audit s.1 ++ [issued_audit env input action generated prev hash]), s.2).
Proof.
  unfold insert_audit_log_tx. intros E. apply act_bind_Ok in E as (o & s1 & Hr & E).
  injection Hr as <- <-. apply act_bind_Ok in E as (hash & s2 & Hh & E).
  unfold latest_hash_tx in *. exists hash.
  destruct (compute_audit_hash _) as [h|]; [|discriminate Hh]. injection Hh as <- <-.
  apply tx_exec_Ok in E as (db' & E & ->). unfold audit_insert_tx, audit_insert in E.
  cbn [ar_id] in E. case_decide; [discriminate E|]. cbn [result_bind] in E. by injection E as <-.
Qed.

Lemma issue_tx_ok providers env input ty action conn tid role username kek_id kek_version exp
    generated db (p : P) provider cred db' p' :
  issue_tx send_request providers env input ty action conn tid role username kek_id kek_version
    exp generated (db, p) = (Done (Ok (provider, cred)), (db', p')) →
  ∃ payload enc svc' role' secret hash,
    let prev := default EmptyString (latest_hash (db_audit db)) in
    payload_to_vec username (gb_plaintext_password generated) = Ok payload ∧
    VhsmCryptoService_encrypt_private_key send_request (ie_encrypt env) payload = Ok enc ∧
    varchar 64 "service_id" (ii_caller_service input) = Ok svc' ∧
    (gb_credential_id generated ∉ (pc_id <$> db_provisioned db)) ∧
    tid ∈ (tr_id <$> db_targets db) ∧ key_exists db kek_id = true ∧
    ProviderFactory_get providers ty = Ok provider ∧
    create_user provider conn (ii_caller_service input) username
      (if String.eqb ty "postgres" then Some role else None) (as_i64 (ii_ttl_seconds input))
      (Some secret) p = (Done (Ok cred), p') ∧
    compute_audit_hash (issue_hash_input (ii_caller_service input) (ii_target_service input)
      action (gb_credential_id generated) (ie_created_at env) prev) = Some hash ∧
    (ie_audit_id env ∉ (ar_id <$> db_audit db)) ∧
    db' = MkKmsDb (db_keys db) (db_audit db ++ [issued_audit env input action generated prev hash])
      (db_targets db)
      (revoked_for (ii_caller_service input) tid (db_provisioned db) ++
       [issued_row env svc' tid enc role' kek_id kek_version exp generated])
      (db_credentials db) (db_root_cas db).
Proof.
  unfold issue_tx, insert_provisioned_credential_tx, update_provisioned_credential_status_tx.
  intros E. inv_act.
  repeat match goal with
  | T : tx_exec _ _ = (Done (Ok _), _) |- _ =>
      apply tx_exec_Ok in T; destruct T as (? & ? & ?); simplify_eq/=
  | T : act_on_err _ _ _ = _ |- _ => apply on_err_ignored_Ok in T
  | T : on_targets _ _ = _ |- _ => apply on_targets_Ok in T; destruct T as (? & ? & ?); simplify_eq/=
  | T : map_err _ _ = Ok _ |- _ => apply map_err_Ok in T
  end.
  match goal with
  | I : insert_provisioned_credential _ _ _ _ _ _ _ _ _ _ _ = Ok _,
    U : update_provisioned_credential_status _ _ _ = Ok _,
    A : insert_audit_log_tx _ _ _ _ _ _ _ = _ |- _ =>
      apply insert_provisioned_ok in I
        as (svc' & role' & st' & Hsvc & _ & Hst & Hid & Htid & Hkek & ->);
      apply insert_audit_log_tx_ok in A as (hash & Hh & Haid & Hs); rename U into Hup
  end.
  cbn in Hst. injection Hst as <-.
  unfold revoke_active_credentials_for_target in *.
  cbn [db_provisioned db_targets set_provisioned] in *.
  fold (revoked_for (ii_caller_service input) tid (db_provisioned db)) in *.
  set (db1 := set_provisioned db (revoked_for (ii_caller_service input) tid (db_provisioned db))) in *.
  match type of Hup with update_provisioned_credential_status (set_provisioned _ (_ ++ [?r])) _ _ = _ =>
    rewrite (update_status_last db1 r) in Hup by done end.
  injection Hup as <-. cbn in Hs, Hh, Haid. injection Hs as -> ->.
  rewrite revoked_for_ids in Hid. eexists _, _, svc', role', _, hash. split_and!; eauto.
Qed.


(** A run that returned a credential: either it found a usable one, or it
    committed a transaction that issued one. *)
Lemma execute_ok policy providers env input db (p : P) out s' :
  IssueAgentCredential_execute send_request policy providers env input (db, p) =
    (Done (Ok out), s') →
  IssueAgentCredential_validate_acl policy input = Ok () ∧
  ∃ tid conn role conn_bytes exp,
    let ty := to_lowercase (ii_target_type input) in
    let action := "kms:credentials:provision:" +s+ ty in
    fetch_target_resource db (ii_target_service input) = Some (tid, conn, role) ∧
    VhsmCryptoService_decrypt_bytes send_request (ie_generate env) conn = Ok conn_bytes ∧
    is_utf8_bytes conn_bytes = true ∧
    datetime_add_seconds (ie_created_at env) (as_i64 (ii_ttl_seconds input)) = Some exp ∧
    ((∃ id blob e,
        fetch_latest_active_provisioned_credential_for_service_target db (ie_db_now env)
          (ii_caller_service input) tid = Some (id, blob, e) ∧
        existing_output send_request id blob e (ie_generate env) = Ok out ∧ s' = (db, p)) ∨
     (∃ granted kek_id kek_version generated provider cred,
        let username := generate_unique_username (ie_username_uuid env) (ii_caller_service input) in
        fetch_latest_active_provisioned_credential_for_service_target db (ie_db_now env)
          (ii_caller_service input) tid = None ∧
        generate_secure_credential send_request (ie_generate env) (Some kek_id) username
          DEFAULT_PASSWORD_LEN = Ok generated ∧
        issue_tx send_request providers env input ty action (str_of_bytes conn_bytes) tid granted
          username kek_id kek_version exp generated (db, p) = (Done (Ok (provider, cred)), s') ∧
        out = MkIssueAgentCredentialOutput (gb_credential_id generated) (gc_username cred)
                (gb_plaintext_password generated) exp)).
Proof.
  unfold IssueAgentCredential_execute. intros E. apply act_bind_Ok in E as ([] & s1 & Ha & E).
  injection Ha as Ha <-. split; [done|]. apply act_bind_Ok in E as (row & s1 & Hr & E).
  injection Hr as Hrow <-. cbn [fst] in Hrow. destruct row as [[[tid conn] role]|]; [|done].
  apply act_bind_Ok in E as (cb & s1 & Hc & E). injection Hc as Hc%map_err_Ok <-.
  destruct (is_utf8_bytes cb) eqn:Hu; cbn [negb] in E; [|done].
  apply act_bind_Ok in E as (exp & s1 & He & E).
  destruct (datetime_add_seconds _ _) as [exp'|] eqn:Hexp; [|done]. injection He as <- <-.
  exists tid, conn, role, cb, exp'. split_and!; [done..|].
  apply act_bind_Ok in E as (active & s1 & Hact & E). injection Hact as Hact <-. cbn [fst] in Hact.
  destruct active as [[[id blob] e]|].
  - left. exists id, blob, e. injection E as E <-. done.
  - right. unfold issue_new in E. apply act_bind_Ok in E as (kek & s1 & Hk & E).
    injection Hk as Hk <-. destruct kek as [[kek_id kv]|]; [|done].
    apply act_bind_Ok in E as (generated & s1 & Hg & E). injection Hg as Hg <-.
    apply act_bind_Ok in E as ([provider cred] & s1 & Ht & E).
    apply transaction_Ok in Ht as [Ht _]. injection E as <- <-.
    eexists _, kek_id, kv, generated, provider, cred. split_and!; done.
Qed.

End success.

(** ** The credential table *)

Definition fits_varchar (n : nat) (s : string) : Prop := ∀ column, varchar n column s = Ok s.

(** Identifiers are unique, at most one credential of a service at a target is
    not revoked, and every row is active and refers to existing rows. *)
Record creds_wf `{PgTime} (db : KmsDb) : Prop := {
  cw_ids : NoDup (pc_id <$> db_provisioned db);
  cw_live r1 r2 : r1 ∈ db_provisioned db → r2 ∈ db_provisioned db →
    pc_revoked r1 = false → pc_revoked r2 = false →
    pc_service_id r1 = pc_service_id r2 → pc_target_id r1 = pc_target_id r2 → r1 = r2;
  cw_row r : r ∈ db_provisioned db →
    pc_status r = "ACTIVE"%string ∧ pc_target_id r ∈ (tr_id <$> db_targets db) ∧
    key_exists db (pc_kek_id r) = true ∧ pg_timestamptz (pc_expires_at r) = pc_expires_at r }.

Section table.
  Context `{Hpg : PgTime}.

Lemma revoked_for_elem svc tid l r :
  r ∈ revoked_for svc tid l →
  ∃ r0, r0 ∈ l ∧ (r = r0 ∧ live_for svc tid r0 = false ∨ r = set_revoked r0).
Proof.
  unfold revoked_for. rewrite list_elem_of_fmap. intros (r0 & -> & Hr0). exists r0.
  split; [done|]. destruct (live_for svc tid r0); auto.
Qed.

Lemma live_for_true svc tid r :
  live_for svc tid r = true ↔
  pc_service_id r = svc ∧ pc_target_id r = tid ∧ pc_revoked r = false.
Proof.
  unfold live_for. rewrite !andb_true_iff, String.eqb_eq, Z.eqb_eq, negb_true_iff. tauto.
Qed.

Lemma filter_none {A} (f : A → bool) l :
  (∀ x, x ∈ l → f x = false) → filter (λ x, f x = true) l = [].
Proof.
  intros Hf. destruct (filter _ l) as [|x k] eqn:E; [done|]. exfalso.
  assert (x ∈ filter (λ x, f x = true) l) as [Hx Hl]%list_elem_of_filter by (rewrite E; by left).
  rewrite Hf in Hx; done.
Qed.

(** With every row active, the worker has nothing to report. *)
Lemma reconcile_nothing db now : creds_wf db → reconcile_stale_provisioning now db = [].
Proof.
  intros [_ _ Hrow]. unfold reconcile_stale_provisioning. rewrite filter_none; [done|].
  intros r Hr. destruct (Hrow r Hr) as [-> _]. done.
Qed.

Lemma creds_wf_issue `{!PgTimeLaws Hpg} db a (r : ProvisionedCredential) :
  creds_wf db → (pc_id r ∉ (pc_id <$> db_provisioned db)) → pc_revoked r = false →
  pc_status r = "ACTIVE"%string → pc_target_id r ∈ (tr_id <$> db_targets db) →
  key_exists db (pc_kek_id r) = true → pg_timestamptz (pc_expires_at r) = pc_expires_at r →
  creds_wf (MkKmsDb (db_keys db) a (db_targets db)
    (revoked_for (pc_service_id r) (pc_target_id r) (db_provisioned db) ++ [r])
    (db_credentials db) (db_root_cas db)).
Proof.
  intros [Hids Hlive Hrow] Hid Hrev Hst Ht Hk He. split; cbn [db_provisioned db_targets].
  - rewrite fmap_app, revoked_for_ids. apply NoDup_app. cbn [fmap list_fmap].
    split_and!; [done| |apply NoDup_singleton]. intros x Hx ->%list_elem_of_singleton. done.
  - intros r1 r2 [H1| ->%list_elem_of_singleton]%elem_of_app
      [H2| ->%list_elem_of_singleton]%elem_of_app R1 R2 Es Et; [|exfalso..|done].
    + apply revoked_for_elem in H1 as (q1 & Hq1 & [[-> _]| ->]); [|done].
      apply revoked_for_elem in H2 as (q2 & Hq2 & [[-> _]| ->]); [|done]. by apply Hlive.
    + apply revoked_for_elem in H1 as (q1 & Hq1 & [[-> L]| ->]); [|done].
      apply not_true_iff_false in L. apply L, live_for_true. done.
    + apply revoked_for_elem in H2 as (q2 & Hq2 & [[-> L]| ->]); [|done].
      apply not_true_iff_false in L. apply L, live_for_true. done.
  - intros q [Hq| ->%list_elem_of_singleton]%elem_of_app; [|done].
    apply revoked_for_elem in Hq as (q0 & Hq0 & [[-> _]| ->]); exact (Hrow q0 Hq0).
Qed.

(** The query without an order answers as the ordered one: there is one row at
    most to choose from. *)
Lemma fetch_active_is_latest db now svc tid :
  creds_wf db →
  fetch_active_provisioned_credential db now svc tid =
  fetch_latest_active_provisioned_credential_for_service_target db now svc tid.
Proof.
  intros [Hids Hlive _].
  unfold fetch_active_provisioned_credential.
  unfold fetch_latest_active_provisioned_credential_for_service_target.
  destruct (filter _ _) as [|r [|r' l]] eqn:E; [done|done|]. exfalso.
  assert (∀ q, q ∈ r :: r' :: l → q ∈ db_provisioned db ∧ pc_service_id q = svc ∧
    pc_target_id q = tid ∧ pc_revoked q = false) as Hq.
  { intros q. rewrite <- E, list_elem_of_filter. unfold usable.
    rewrite !andb_true_iff, live_for_true. tauto. }
  destruct (Hq r) as (Hr & Hs & Ht & Hv); [left|].
  destruct (Hq r') as (Hr' & Hs' & Ht' & Hv'); [by right; left|].
  assert (r = r') as <- by (apply Hlive; congruence).
  assert (NoDup (filter (λ r, usable svc tid now r = true) (db_provisioned db))) as Hnd
    by (by apply NoDup_filter, (NoDup_fmap_1 pc_id)).
  rewrite E in Hnd. apply NoDup_cons in Hnd as [Hn _]. apply Hn. left.
Qed.

End table.

(** ** Properties *)

Section properties.
  Context {P : Type}.
  Context `{Hsha : Sha256} `{Hhex : Hex} `{Hjson : Json} `{Hchrono : Chrono} `{Huuid : UuidFmt}
    `{Hpg : PgTime} `{Hsql : SqlDisplay} `{Hed : Ed25519Lib} `{Unicode} `{Base64} `{ChronoTtl}
    `{UuidBytes} `{Hcodec : CredentialCodec}.
  Context (send_request : Entropy → HsmRequest → result HsmResponse AppError).

Lemma pg_timestamptz_idem `{!PgTimeLaws Hpg} t :
  pg_timestamptz (pg_timestamptz t) = pg_timestamptz t.
Proof. apply pg_timestamptz_exact, pg_timestamptz_micros. Qed.

Lemma execute_keeps_creds `{!PgTimeLaws Hpg} policy providers env input db (p : P) out s' :
  fits_varchar 64 (ii_caller_service input) → creds_wf db →
  IssueAgentCredential_execute send_request policy providers env input (db, p) =
    (Done (Ok out), s') → creds_wf s'.1.
Proof.
  intros Hfit W (_ & tid & conn & role & cb & exp & _ & _ & _ & _ & Hcase)%execute_ok.
  destruct Hcase as [(id & blob & e & _ & _ & ->)|
    (granted & kek & kv & generated & provider & cred & _ & _ & Htx & _)]; [done|].
  destruct s' as [db' p'].
  apply issue_tx_ok in Htx
    as (payload & enc & svc' & role' & secret & hash & _ & _ & Hsvc & Hid & Htid & Hk & _ & _ & _ & _ & ->).
  rewrite (Hfit "service_id"%string) in Hsvc. injection Hsvc as <-. cbn [fst].
  apply (creds_wf_issue db _ (issued_row env (ii_caller_service input) tid enc role' kek kv exp
    generated)); try done. apply pg_timestamptz_idem.
Qed.

(** C14: the credential table keeps its invariant: whatever a request to issue a
    credential does, identifiers stay unique, a service has at most one
    credential that is not revoked at a target, and every row is active and
    refers to an existing target and key.  When the request fails (or
    panics) the database is as it was.  Rows in an intermediate state are
    never visible, so the reconciliation worker never finds anything. *)
Theorem credential_table_invariant `{!PgTimeLaws Hpg} policy providers env input db (p : P) :
  fits_varchar 64 (ii_caller_service input) → creds_wf db →
  let (r, s') := IssueAgentCredential_execute send_request policy providers env input (db, p) in
  creds_wf s'.1 ∧ (∀ now, reconcile_stale_provisioning now s'.1 = []) ∧
  ((∀ out, r ≠ Done (Ok out)) → s'.1 = db).
Proof.
  intros Hfit W.
  destruct (IssueAgentCredential_execute _ _ _ _ _ _) as [r s'] eqn:E.
  pose proof (execute_atomic send_request policy providers env input (db, p)) as A.
  rewrite E in A. cbn [fst snd] in A.
  assert (creds_wf s'.1) as W'.
  { destruct A as [[x ->]| ->]; [by eapply execute_keeps_creds|done]. }
  split_and!; [done| |].
  - intros now. by apply reconcile_nothing.
  - intros Hno. destruct A as [[x ->]|A]; [by destruct (Hno x)|done].
Qed.

(** The credential a service has at a target, when it is usable. *)
Lemma fetch_latest_unique db now svc tid r :
  creds_wf db → r ∈ db_provisioned db → usable svc tid now r = true →
  fetch_latest_active_provisioned_credential_for_service_target db now svc tid =
  Some (pc_id r, pc_encrypted_credentials r, pc_expires_at r).
Proof.
  intros W Hr Hu.
  unfold fetch_latest_active_provisioned_credential_for_service_target.
  set (l := merge_sort _ _).
  assert (∀ x, x ∈ l ↔ x = r) as Hl.
  { intros x. unfold l. rewrite merge_sort_Permutation, list_elem_of_filter. split; [|by intros ->].
    intros [Hx Hin]. unfold usable in *.
    apply andb_true_iff in Hx as [[Hx _]%andb_true_iff _].
    apply andb_true_iff in Hu as [[Hu _]%andb_true_iff _].
    apply live_for_true in Hx as (? & ? & ?). apply live_for_true in Hu as (? & ? & ?).
    apply (cw_live _ W); congruence. }
  clearbody l. pose proof (proj2 (Hl r) eq_refl) as Hrl.
  destruct l as [|x l]; [by apply elem_of_nil in Hrl|].
  rewrite (proj1 (Hl x)); [done|by left].
Qed.

Lemma fetch_latest_Some db now svc tid id blob e :
  fetch_latest_active_provisioned_credential_for_service_target db now svc tid = Some (id, blob, e) →
  ∃ r, r ∈ db_provisioned db ∧ usable svc tid now r = true ∧ id = pc_id r ∧
       blob = pc_encrypted_credentials r ∧ e = pc_expires_at r.
Proof.
  unfold fetch_latest_active_provisioned_credential_for_service_target. set (l := merge_sort _ _).
  destruct l as [|r l'] eqn:El; [done|]. cbn. intros [= <- <- <-].
  assert (r ∈ l) as Hr by (rewrite El; by left). unfold l in Hr.
  rewrite merge_sort_Permutation, list_elem_of_filter in Hr. naive_solver.
Qed.

Lemma usable_later svc tid now now' r :
  usable svc tid now r = true → now' < pc_expires_at r → usable svc tid now' r = true.
Proof.
  unfold usable. rewrite !andb_true_iff, !Z.ltb_lt. tauto.
Qed.

(** Both providers name the user as they are told. *)
Definition names_user (provider : TargetResourceProvider P) : Prop :=
  ∀ conn caller username role ttl pw p cred p',
    create_user provider conn caller username role ttl pw p = (Done (Ok cred), p') →
    gc_username cred = username.

Lemma factory_names_user `{PgServer P} `{RedisServer P} `{UrlLib} `{DebugStrings} now acl av ty pr :
  ProviderFactory_get (ProviderFactory_new now acl av) ty = Ok pr → names_user pr.
Proof.
  unfold ProviderFactory_get, ProviderFactory_new. intros E conn caller u role ttl pw p cred p'.
  destruct (decide (to_lowercase ty = "redis"%string)) as [Ht|Hr].
  - rewrite Ht, lookup_insert_eq in E. injection E as <-. cbn.
    unfold RedisTargetProvider_create_user. destruct pw; [|done]. intros C. inv_act.
    repeat case_match; inv_act; done.
  - rewrite lookup_insert_ne in E by done.
    destruct (decide (to_lowercase ty = "postgres"%string)) as [Ht|Hp].
    + rewrite Ht, lookup_singleton_eq in E. injection E as <-. cbn.
      unfold PostgresTargetProvider_create_user. destruct pw; [|done]. intros C. inv_act. done.
    + by rewrite lookup_singleton_ne in E.
Qed.

Lemma execute_existing policy providers env input db (p : P) tid conn role cb exp id blob e :
  IssueAgentCredential_validate_acl policy input = Ok () →
  fetch_target_resource db (ii_target_service input) = Some (tid, conn, role) →
  VhsmCryptoService_decrypt_bytes send_request (ie_generate env) conn = Ok cb →
  is_utf8_bytes cb = true →
  datetime_add_seconds (ie_created_at env) (as_i64 (ii_ttl_seconds input)) = Some exp →
  fetch_latest_active_provisioned_credential_for_service_target db (ie_db_now env)
    (ii_caller_service input) tid = Some (id, blob, e) →
  IssueAgentCredential_execute send_request policy providers env input (db, p) =
  (Done (existing_output send_request id blob e (ie_generate env)), (db, p)).
Proof.
  intros Ha Ht Hc Hu He Hf. unfold IssueAgentCredential_execute, act_bind, act_of, read_db.
  cbn [fst]. rewrite Ha, Ht, Hc. cbn [map_err]. rewrite Hu. cbn [negb]. rewrite He.
  cbn [act_or_panic act_ret fst]. by rewrite Hf.
Qed.

Lemma username_length uuid caller :
  (String.length (generate_unique_username uuid caller) ≤ 23)%nat.
Proof.
  unfold generate_unique_username. set (safe := if is_empty _ then _ else _).
  set (prefix := if (10 <? String.length safe)%nat then _ else _).
  assert (String.length prefix ≤ 10)%nat.
  { unfold prefix. destruct (Nat.ltb_spec 10 (String.length safe)); [|lia].
    rewrite <- chars_length, chars_take, length_take. lia. }
  rewrite <- !chars_length in *. rewrite !chars_app, !length_app, chars_take, length_take.
  cbn [chars String.list_ascii_of_string length]. lia.
Qed.

Lemma generated_password `{!VhsmTransportLaws send_request} ent kek u g :
  generate_secure_credential send_request ent kek u DEFAULT_PASSWORD_LEN = Ok g →
  (String.length (gb_plaintext_password g) ≤ 128)%nat.
Proof.
  unfold generate_secure_credential. destruct kek; [|done]. intros E.
  apply result_bind_Ok in E as ([[[cid pw] wp] v] & E & E2). apply map_err_Ok in E.
  assert (String.length pw ≤ 128)%nat; [|by repeat case_match; inv_ok; repeat case_match; simplify_eq].
  unfold VhsmCryptoService_generate_credential, VhsmClient_generate_credential in E. inv_ok.
  match goal with Hs : send_request _ _ = Ok ?r |- _ => destruct r; try done; simplify_eq;
    apply transport_password in Hs; [|unfold DEFAULT_PASSWORD_LEN; lia] end.
  unfold DEFAULT_PASSWORD_LEN in *. lia.
Qed.

(** What is encrypted for an issued credential is short. *)
Lemma issued_payload_fits `{!CredentialCodecLaws Hcodec} `{!VhsmTransportLaws send_request}
    ent kek uuid caller g payload :
  let u := generate_unique_username uuid caller in
  generate_secure_credential send_request ent kek u DEFAULT_PASSWORD_LEN = Ok g →
  payload_to_vec u (gb_plaintext_password g) = Ok payload → blen payload ≤ SECRET_MAX.
Proof.
  intros u Hg%generated_password Hp%payload_size. pose proof (username_length uuid caller).
  unfold blen, SECRET_MAX. subst u. lia.
Qed.

(** C24: issuing is idempotent: a service that asks again before its credential
    expires gets the same identifier, user name and password (the expiry as
    the database keeps it), and neither the database nor a target changes. *)
Theorem issue_idempotent `{!PgTimeLaws Hpg} `{!CredentialCodecLaws Hcodec}
    `{!VhsmTransportLaws send_request} `{PgServer P} `{RedisServer P} `{UrlLib} `{DebugStrings}
    provider_now acl available policy env1 env2 input db (p : P) out db' p' :
  let providers := ProviderFactory_new provider_now acl available in
  fits_varchar 64 (ii_caller_service input) → creds_wf db →
  IssueAgentCredential_execute send_request policy providers env1 input (db, p) =
    (Done (Ok out), (db', p')) →
  ie_db_now env2 < pg_timestamptz (io_expires_at out) →
  is_Some (datetime_add_seconds (ie_created_at env2) (as_i64 (ii_ttl_seconds input))) →
  IssueAgentCredential_execute send_request policy providers env2 input (db', p') =
    (Done (Ok (MkIssueAgentCredentialOutput (io_credential_id out) (io_username out)
       (io_password out) (pg_timestamptz (io_expires_at out)))), (db', p')).
Proof.
  intros providers Hfit W E Hnow [exp2 Hexp2].
  pose proof (execute_keeps_creds _ _ _ _ _ _ _ _ Hfit W E) as W'. cbn [fst] in W'.
  apply execute_ok in E as (Ha & tid & conn & role & cb & exp & Ht & Hc & Hu & _ & Hcase).
  unfold VhsmCryptoService_decrypt_bytes in Hc.
  rewrite (transport_decrypt_entropy _ (ie_generate env2)) in Hc.
  destruct Hcase as [(id & blob & e & Hf & Hx & [= -> ->])|
    (granted & kek & kv & generated & provider & cred & _ & Hgen & Htx & ->)].
  - apply fetch_latest_Some in Hf as (r & Hr & Hus & -> & -> & ->).
    assert (pg_timestamptz (pc_expires_at r) = pc_expires_at r) as Hpe by (by apply (cw_row _ W)).
    unfold existing_output, VhsmCryptoService_decrypt_bytes in Hx.
    rewrite (transport_decrypt_entropy _ (ie_generate env2)) in Hx.
    assert (io_expires_at out = pc_expires_at r) as Hio by (inv_ok; by repeat case_match; simplify_eq/=).
    rewrite Hio in *. rewrite Hpe in *.
    erewrite execute_existing; [|eassumption..|eapply fetch_latest_unique; eauto using usable_later].
    unfold existing_output, VhsmCryptoService_decrypt_bytes. rewrite Hx. do 3 f_equal.
    destruct out; simpl in *. congruence.
  - apply issue_tx_ok in Htx as (payload & enc & svc' & role' & secret & hash & Hpl & Henc & Hsvc
      & _ & _ & _ & Hprov & Hcreate & _ & _ & Hdb).
    rewrite (Hfit "service_id"%string) in Hsvc. injection Hsvc as <-.
    pose proof (factory_names_user _ _ _ _ _ Hprov _ _ _ _ _ _ _ _ _ Hcreate) as Hname.
    cbn [io_credential_id io_username io_password io_expires_at] in *.
    set (row := issued_row env1 (ii_caller_service input) tid enc role' kek kv exp generated) in *.
    erewrite (execute_existing _ _ env2 _ _ _ tid conn role cb exp2 (pc_id row)); [|done|by rewrite Hdb|done..|].
    2: { apply (fetch_latest_unique _ _ _ _ row W'); [rewrite Hdb; cbn; set_solver|].
         unfold usable. rewrite !andb_true_iff, Z.ltb_lt, live_for_true. done. }
    unfold VhsmCryptoService_encrypt_private_key in Henc.
    apply result_bind_Ok in Henc as (ct & Hct & Henc). apply result_bind_Ok in Henc as (v & _ & Henc).
    injection Henc as <-.
    unfold existing_output, VhsmCryptoService_decrypt_bytes. subst row. cbn [pc_encrypted_credentials issued_row ciphertext].
    rewrite (transport_decrypt_encrypt _ _ _ _ (issued_payload_fits _ _ _ _ _ _ Hgen Hpl) Hct). cbn [map_err result_bind].
    rewrite (payload_roundtrip _ _ _ Hpl), Hname. done.
Qed.

(** C40: every issued credential breaks the audit chain: its audit record is
    hashed under the identifier of the credential but stored under another
    one, so a full verification no longer succeeds, or the two hash inputs are
    an explicit collision of the digest. *)
Theorem provisioning_breaks_chain `{!HexLaws Hhex} `{!JsonLaws Hjson} `{!ChronoLaws Hchrono}
    `{!UuidLaws Huuid} acl caller keys policy providers env input db (p : P) out db' p' :
  IssueAgentCredential_execute send_request policy providers env input (db, p) =
    (Done (Ok out), (db', p')) →
  db_audit db' ≠ db_audit db → ie_audit_id env ≠ io_credential_id out →
  let prev := default EmptyString (latest_hash (db_audit db)) in
  let recorded := issue_hash_input (ii_caller_service input) (ii_target_service input)
    ("kms:credentials:provision:" +s+ to_lowercase (ii_target_type input))
    (io_credential_id out) (ie_created_at env) prev in
  input_wf recorded → valid_time (pg_timestamptz (ie_created_at env)) →
  (∀ rep, verify_audit_handler acl caller (db_audit db') keys None (Some true) = Some (Ok rep) →
     vr_ok rep = false) ∨
  ∃ row, row ∈ db_audit db' ∧ payload_collision recorded (row_hash_input row).
Proof.
  intros E Hne Hid prev recorded Hwf Hval.
  apply execute_ok in E as (_ & tid & conn & role & cb & exp & _ & _ & _ & _ & Hcase).
  destruct Hcase as [(id & blob & e & _ & _ & [= -> ->])|
    (granted & kek & kv & generated & provider & cred & _ & _ & Htx & ->)]; [done|].
  apply issue_tx_ok in Htx as (pl & enc & svc' & role' & sec & hash & _ & _ & _ & _ & _ & _ & _ & _ & Hh & _ & ->).
  cbn [db_audit io_credential_id] in *. fold prev in Hh |- *.
  match goal with |- context [issued_audit ?a ?b ?c ?d ?e ?f] =>
    set (row := issued_audit a b c d e f) end.
  assert (input_wf (row_hash_input row)) as Hwf'.
  { unfold input_wf in *. cbn in *. destruct Hwf as (_ & Hwf). split; [apply uuid_to_string_utf8|].
    repeat (destruct Hwf as [? Hwf]; split; [assumption|]). done. }
  destruct (compute_audit_hash_total _ Hwf') as [h' Hh'].
  destruct (decide (h' = hash)) as [->|Hdiff].
  - right. exists row. split; [set_solver|].
    destruct (compute_audit_hash_inj _ _ _ Hwf Hwf' Hh Hh') as [Heq|]; [exfalso|done].
    apply Hid. apply (f_equal hi_id) in Heq. cbn in Heq. symmetry. by apply uuid_to_string_inj.
  - left. intros rep. apply (verify_bad_hash _ _ _ _ _ row); [set_solver|].
    unfold row_hash_ok. rewrite Hh'. cbn. congruence.
Qed.

Lemma validate_acl_cases policy input :
  IssueAgentCredential_validate_acl policy input = Ok () ∨
  IssueAgentCredential_validate_acl policy input = Err Forbidden.
Proof.
  unfold IssueAgentCredential_validate_acl, validate_agent_credential_acl. case_match; auto.
Qed.

Lemma validate_batch_denied policy inputs :
  (∃ i, i ∈ inputs ∧ IssueAgentCredential_validate_acl policy i ≠ Ok ()) →
  validate_batch_acl policy inputs = Err Forbidden.
Proof.
  induction inputs as [|i inputs IH]; intros (x & Hx & Hd); [by apply elem_of_nil in Hx|].
  cbn [validate_batch_acl]. destruct (validate_acl_cases policy i) as [Hi|Hi]; rewrite Hi; [|done].
  cbn [result_bind]. apply IH. exists x. split; [|done].
  apply elem_of_cons in Hx as [->|Hx]; [by rewrite Hi in Hd|done].
Qed.

Lemma issue_items_names policy (providers : ProviderFactory P) envs caller ttl items : ∀ acc s creds s',
  issue_items send_request policy providers envs caller ttl items acc s = (Done (Ok creds), s') →
  dom creds = dom acc ∪ list_to_set (bi_name <$> items).
Proof.
  induction items as [|item items IH]; intros acc s creds s' E; cbn [issue_items] in E.
  - injection E as <- <-. set_solver.
  - apply act_bind_Ok in E as (out & s1 & _ & E). rewrite (IH _ _ _ _ E), dom_insert_L.
    cbn. set_solver.
Qed.

(** A batch is authorized before any of it is issued: when the policy denies
    one item, the answer is [Forbidden] and nothing changes, in the database or
    at a target; a batch that succeeds answers exactly the names it was asked
    for. *)
Theorem batch_authorized_first policy (providers : ProviderFactory P) envs caller items ttl s :
  ((∃ item, item ∈ items ∧
      IssueAgentCredential_validate_acl policy (item_input caller ttl item) ≠ Ok ()) →
   issue_batch_credentials_handler send_request policy providers envs caller items ttl s =
     (Done (Err Forbidden), s)) ∧
  (∀ creds s',
   issue_batch_credentials_handler send_request policy providers envs caller items ttl s =
     (Done (Ok creds), s') → dom creds = list_to_set (bi_name <$> items)).
Proof.
  unfold issue_batch_credentials_handler. split.
  - intros (item & Hi & Hd). unfold act_bind, act_of.
    rewrite validate_batch_denied; [done|]. exists (item_input caller ttl item).
    split; [by apply list_elem_of_fmap_2|done].
  - intros creds s' E. apply act_bind_Ok in E as ([] & s1 & _ & E).
    rewrite (issue_items_names _ _ _ _ _ _ _ _ _ _ E). set_solver.
Qed.

End properties.

(** ** Bounds of a user name *)

Definition username_char (c : ascii) : bool :=
  let n := Z.of_N (Ascii.N_of_ascii c) in
  ((48 <=? n) && (n <=? 57)) || ((97 <=? n) && (n <=? 122)) || (n =? 95).

Lemma lower_alphanumeric c : is_ascii_alphanumeric (ascii_lower c) = true →
  username_char (ascii_lower c) = true.
Proof. destruct c as [[] [] [] [] [] [] [] []]; vm_compute; auto. Qed.

Lemma hex_username_char c :
  (let n := Z.of_N (Ascii.N_of_ascii c) in
   ((48 <=? n) && (n <=? 57)) || ((97 <=? n) && (n <=? 102))) = true → username_char c = true.
Proof. destruct c as [[] [] [] [] [] [] [] []]; vm_compute; auto. Qed.

Lemma safe_prefix_chars s : Forall (λ c, username_char c = true) (chars (safe_prefix s)).
Proof.
  unfold safe_prefix. change (chars (String.string_of_list_ascii ?l)) with
    (String.list_ascii_of_string (String.string_of_list_ascii l)).
  rewrite String.list_ascii_of_string_of_list_ascii, chars_lower.
  apply Forall_forall. intros c [Hc Hin]%list_elem_of_filter.
  apply list_elem_of_fmap in Hin as (d & -> & _). by apply lower_alphanumeric.
Qed.

(** A generated user name has between 14 and 23 characters, all of them lower
    case letters, digits or underscores, whatever the name of the service: it
    fits the 63 bytes of a Postgres identifier. *)
Theorem username_bounds `{UuidBytesLaws} uuid caller :
  let u := generate_unique_username uuid caller in
  (14 ≤ String.length u ≤ 23)%nat ∧ Forall (λ c, username_char c = true) (chars u) ∧
  starts_with "kms_" u = true.
Proof.
  unfold generate_unique_username. destruct (uuid_simple_hex uuid) as [Hl Hx].
  set (safe := if is_empty (safe_prefix caller) then _ else _).
  assert (Forall (λ c, username_char c = true) (chars safe) ∧ (1 ≤ length (chars safe))%nat) as [Hs Hn].
  { unfold safe. destruct (safe_prefix caller) as [|c r] eqn:E; cbn [is_empty].
    - by split; [repeat constructor|simpl; lia].
    - rewrite <- E. split; [apply safe_prefix_chars|]. rewrite E. cbn. lia. }
  set (prefix := if (10 <? String.length safe)%nat then _ else _).
  assert (Forall (λ c, username_char c = true) (chars prefix) ∧
    (1 ≤ length (chars prefix) ≤ 10)%nat) as [Hp Hpl].
  { unfold prefix. rewrite <- chars_length. destruct (Nat.ltb_spec 10 (length (chars safe))).
    - rewrite chars_take, length_take. split; [by apply Forall_take|lia].
    - split; [done|lia]. }
  clearbody prefix. split_and!.
  1,2: rewrite <- !chars_length in *; rewrite !chars_app, !length_app, chars_take, length_take;
    cbn [chars String.list_ascii_of_string length]; lia.
  - rewrite !chars_app, chars_take. repeat (apply Forall_app; split); try done.
    + repeat constructor.
    + repeat constructor.
    + apply Forall_take, Forall_forall. intros c Hc. apply hex_username_char.
      rewrite forallb_forall in Hx. by apply Hx, list_elem_of_In.
  - apply starts_with_app.
Qed.

(** ** A concrete service *)

Section CredentialWitnesses.
  Import Concrete ConcreteAudit ConcretePg ConcreteTargets AsciiUnicode.

(** The hexadecimal digits of a number modulo [2 ^ 128], and back. *)
Definition bytes_of_uuid (u : Z) : list byte :=
  (λ i, byte_of_Z (Z.shiftr u (8 * (15 - Z.of_nat i)))) <$> seq 0 16.
#[local] Instance hex_uuid : UuidBytes := {
  uuid_simple u := hex_of (bytes_of_uuid u);
  uuid_from_slice bs := if (length bs =? 16)%nat then Some (from_be_bytes bs) else None }.

Lemma hex_of_digits bs :
  String.length (hex_of bs) = (2 * length bs)%nat ∧
  forallb (λ c, let n := Z.of_N (Ascii.N_of_ascii c) in
       ((48 <=? n) && (n <=? 57)) || ((97 <=? n) && (n <=? 102))) (chars (hex_of bs)) = true.
Proof.
  induction bs as [|b bs [IHl IHf]]; [done|]. split.
  - cbn [hex_of String.length length] in *. lia.
  - unfold chars in *. cbn [hex_of String.list_ascii_of_string forallb]. rewrite IHf. by destruct b.
Qed.

#[local] Instance hex_uuid_laws : UuidBytesLaws hex_uuid.
Proof.
  split; cbn [uuid_simple uuid_from_slice hex_uuid].
  - intros u. destruct (hex_of_digits (bytes_of_uuid u)) as [-> Hd]. split; [|exact Hd].
    unfold bytes_of_uuid. by rewrite length_fmap, length_seq.
  - intros bs ->. by eexists.
Qed.

#[local] Instance unary_codec : CredentialCodec := {
  payload_to_vec u p := Ok (unary_payload u p);
  payload_from_slice := split_unary 0 }.

Lemma length_str_bytes s : length (str_bytes s) = String.length s.
Proof. unfold str_bytes, String.list_byte_of_string. rewrite length_map. apply chars_length. Qed.

Lemma unary_payload_size u p :
  (length (unary_payload u p) ≤ 6 * (String.length u + String.length p) + 64)%nat.
Proof.
  unfold unary_payload. rewrite !length_app, length_replicate, !length_str_bytes. simpl. lia.
Qed.

#[local] Instance unary_codec_laws : CredentialCodecLaws unary_codec.
Proof.
  split; cbn [payload_to_vec payload_from_slice unary_codec]; intros u p bs [= <-].
  - apply split_unary_payload.
  - apply unary_payload_size.
Qed.

(** One database whose connection string is wrapped by the daemon, and a key
    of the system. *)
Definition wrapped_conn : list byte :=
  match VhsmClient_encrypt (daemon_transport open_state 0) ent0 (str_bytes "db.internal") with
  | Ok c => c
  | Err _ => []
  end.
Definition demo_db : KmsDb := {|
  db_keys := [MkKeyDbRow 9 "kms-system" "AES256GCM" 1 [] "pem" "Encryption" "Active" true 0];
  db_audit := [];
  db_targets := [MkTargetResource 5 "postgres_auth" "postgres" wrapped_conn None true 0];
  db_provisioned := []; db_credentials := []; db_root_cas := [] |}.
Definition demo_input : IssueAgentCredentialInput :=
  MkIssueAgentCredentialInput "auth-service" "postgres_auth" "postgres" "postgres_auth" 2700.
Definition demo_issue_env (now : Z) : IssueEnv :=
  MkIssueEnv now now now 77 33 ent0 ent0 (Ok ()).
Definition demo_providers : ProviderFactory Targets :=
  ProviderFactory_new 0 (MkProvidersAclSettings ∅) [].
Definition no_targets : Targets := MkTargets [] [].
Definition demo_issue (env : IssueEnv) := IssueAgentCredential_execute
  (daemon_transport open_state 0) narrow_policy demo_providers env demo_input.

Lemma demo_db_wf : creds_wf demo_db.
Proof. split; [apply NoDup_nil_2|..]; intros r; intros; by destruct (not_elem_of_nil r). Qed.

Lemma demo_input_fits : fits_varchar 64 (ii_caller_service demo_input).
Proof. by intros column; vm_compute. Qed.

Definition demo_run : outcome (result IssueAgentCredentialOutput AppError) * (KmsDb * Targets) :=
  demo_issue (demo_issue_env 1000) (demo_db, no_targets).
Definition demo_out : IssueAgentCredentialOutput :=
  match demo_run.1 with
  | Done (Ok out) => out
  | _ => MkIssueAgentCredentialOutput 0 EmptyString EmptyString 0
  end.

Lemma demo_run_ok :
  demo_issue (demo_issue_env 1000) (demo_db, no_targets) =
  (Done (Ok demo_out), (demo_run.2.1, demo_run.2.2)).
Proof. vm_compute. reflexivity. Qed.

Lemma credential_table_invariant_witness :
  creds_wf (demo_issue (demo_issue_env 1000) (demo_db, no_targets)).2.1.
Proof.
  pose proof (credential_table_invariant (daemon_transport open_state 0) narrow_policy
    demo_providers (demo_issue_env 1000) demo_input demo_db no_targets demo_input_fits
    demo_db_wf) as Hinv. unfold demo_issue.
  destruct (IssueAgentCredential_execute _ _ _ _ _ _) as [r s'].
  destruct Hinv as [Hwf _]. exact Hwf.
Defined.

Lemma issue_idempotent_witness :
  length (pg_users demo_run.2.2) = 1%nat ∧
  demo_issue (demo_issue_env 5000) demo_run.2 =
    (Done (Ok (MkIssueAgentCredentialOutput (io_credential_id demo_out) (io_username demo_out)
       (io_password demo_out) (pg_timestamptz (io_expires_at demo_out)))), demo_run.2).
Proof.
  split; [vm_compute; reflexivity|].
  pose proof (issue_idempotent (daemon_transport open_state 0) 0 (MkProvidersAclSettings ∅) []
      narrow_policy (demo_issue_env 1000) (demo_issue_env 5000) demo_input demo_db no_targets
      demo_out _ _ demo_input_fits demo_db_wf demo_run_ok) as Hidem.
  unfold demo_issue, demo_providers. rewrite (surjective_pairing demo_run.2).
  apply Hidem; [vm_compute; reflexivity|by eexists].
Defined.

Lemma provisioning_breaks_chain_witness :
  (∀ rep, verify_audit_handler cli_acl "kms-cli" (db_audit demo_run.2.1) [] None (Some true)
            = Some (Ok rep) → vr_ok rep = false) ∨
  ∃ row recorded, row ∈ db_audit demo_run.2.1 ∧ payload_collision recorded (row_hash_input row).
Proof.
  destruct (provisioning_breaks_chain (daemon_transport open_state 0) cli_acl "kms-cli" []
    narrow_policy demo_providers (demo_issue_env 1000) demo_input demo_db no_targets demo_out
    _ _ demo_run_ok) as [Hv|(row & Hr & Hc)].
  - vm_compute. discriminate.
  - vm_compute. discriminate.
  - apply input_wfb_spec. vm_compute. reflexivity.
  - vm_compute. split; [discriminate|reflexivity].
  - left. exact Hv.
  - right. eexists row, _. exact (conj Hr Hc).
Defined.

Lemma username_bounds_witness :
  generate_unique_username 77 "Auth-Service'; DROP" = "kms_authservic_00000000"%string ∧
  (14 ≤ String.length (generate_unique_username 77 "Auth-Service'; DROP") ≤ 23)%nat.
Proof. split; [vm_compute; reflexivity|]. apply username_bounds. Defined.

End CredentialWitnesses.
