(* ===== verification/Bootstrap.v ===== *)
(** * Importing the bootstrap file

    Models [kms-service/src/application/use_cases/import_bootstrap.rs] and its
    handler in [handlers/admin.rs]: the target systems and the static
    credentials of a deployment are imported in one transaction, with one
    audit row. *)

From Stdlib Require Import Ascii.
From S2P Require Import Prelude.
From S2P Require Import Interfaces.
From S2P Require Import Protocol.
From S2P Require Import Vhsm.
From S2P Require Import Domain.
From S2P Require Import Effects.
From S2P Require Import Acl.
From S2P Require Import AuditLog.
From S2P Require Import AuditChain.
From S2P Require Import KeyStore.
From S2P Require Import KeyUseCases.
From S2P Require Import Database.
From S2P Require Import Transactions.
From S2P Require Import VhsmClient.
From S2P Require Import RootCa.
From S2P Require Import Credentials.

(** ** Data *)

Record ImportBootstrapSummary := MkImportBootstrapSummary {
  bs_total_in_file : nat;
  bs_resources_imported : nat;
  bs_resources_skipped : nat;
  bs_credentials_imported : nat;
  bs_credentials_skipped : nat;
  bs_message : string }.

Record TargetResourceRecord := MkTargetResourceRecord {
  br_id : option Z;
  br_target_name : string;
  br_target_type : string;
  br_connection_url : string;
  br_default_role : option string }.

Record BootstrapCredentialRecord := MkBootstrapCredentialRecord {
  bc_id : option Z;
  bc_service_id : ServiceId;
  bc_target_id : option Z;
  bc_credential_id : option Z;
  bc_target_type : string;
  bc_target_db : Value;
  bc_resource : option string;
  bc_username : string;
  bc_password : string;
  bc_ttl_seconds : option Z }.

Record ImportBootstrapInput := MkImportBootstrapInput {
  bf_version : Z;
  bf_target_resources : list TargetResourceRecord;
  bf_credentials : list BootstrapCredentialRecord }.

(** The clock and the audit id, the identifiers ([Uuid::now_v7]) and random
    sources of the records, and how the commit ends. *)
Record ImportEnv := MkImportEnv {
  be_now : Z;
  be_audit_id : Z;
  be_target_id : nat → Z;
  be_target_ent : nat → Entropy;
  be_credential_id : nat → Z;
  be_credential_ent : nat → Entropy;
  be_commit : result unit string }.

Definition dquote : ascii := ascii_of_nat 34.

(** ** The import *)

Section import.
  Context {P : Type}.
  Context `{Sha256} `{Hex} `{Json} `{Chrono} `{UuidFmt} `{PgTime} `{SqlDisplay}
    `{CredentialCodec}.
  Context (send_request : Entropy → HsmRequest → result HsmResponse AppError).
  Implicit Types (env : ImportEnv).

(** KROK A: the counters of imported and skipped records. *)
Fixpoint import_targets env (idx : nat) (records : list TargetResourceRecord)
    (imported skipped : nat) : act (KmsDb * P) (nat * nat) :=
  match records with
  | [] => act_ret (imported, skipped)
  | target :: records =>
    let record_id := default (be_target_id env idx) (br_id target) in
    let@ exists_ := read_db (λ db, target_resource_exists_by_id db record_id) in
    if (exists_ : bool) then import_targets env (S idx) records imported (S skipped)
    else
      let@ encrypted :=
        act_of (map_err (crypto_error_from "Failed to encrypt connection_url")
                  (VhsmCryptoService_encrypt_private_key send_request (be_target_ent env idx)
                     (str_bytes (br_connection_url target)))) in
      let@ inserted := tx_query (λ db, insert_target_resource db record_id
        (br_target_name target) (br_target_type target) (ciphertext encrypted)
        (br_default_role target) (be_now env)) in
      if (inserted : bool) then import_targets env (S idx) records (S imported) skipped
      else import_targets env (S idx) records imported (S skipped)
  end.

(** KROK B *)
Fixpoint import_credentials env (idx : nat) (records : list BootstrapCredentialRecord)
    (imported skipped : nat) : act (KmsDb * P) (nat * nat) :=
  match records with
  | [] => act_ret (imported, skipped)
  | rec :: records =>
    let record_id := default (be_credential_id env idx) (bc_id rec) in
    let@ exists_ := read_db (λ db, credential_exists_by_id db record_id) in
    if (exists_ : bool) then import_credentials env (S idx) records imported (S skipped)
    else
      let@ target_db := act_or_panic UnwrapNone
        (match json_to_string (bc_target_db rec) with Ok s => Some s | Err _ => None end) in
      let target_db_str := trim_matches dquote target_db in
      let@ kek_row := read_db (λ db, latest_kek_id db (bc_service_id rec)) in
      match kek_row with
      | None => act_err (InternalError ("No active KEK for service: " +s+ bc_service_id rec))
      | Some (kek_id, kek_version) =>
        let@ payload_bytes :=
          act_of (map_err (λ e, InternalError ("Failed to serialize credential payload: " +s+ e))
                    (payload_to_vec (bc_username rec) (bc_password rec))) in
        let@ encrypted :=
          act_of (map_err (crypto_error_from "Failed to encrypt credential")
                    (VhsmCryptoService_encrypt_private_key send_request
                       (be_credential_ent env idx) payload_bytes)) in
        if blen (ciphertext encrypted) <? 12 then
          act_err (CryptoError "Encrypted payload too short" None)
        else
          let@ inserted := tx_query (λ db, insert_db_credential db record_id (bc_service_id rec)
            (bc_target_type rec) target_db_str (default EmptyString (bc_resource rec))
            (ciphertext encrypted) kek_id kek_version (be_now env)) in
          if (inserted : bool) then import_credentials env (S idx) records (S imported) skipped
          else import_credentials env (S idx) records imported (S skipped)
      end
  end.

Definition import_reason (n : nat) : string :=
  "imported " +s+ pretty n +s+ " total records (resources + credentials)".

(** KROK C *)
Definition import_audit env (caller_service : string) (count : nat) : act (KmsDb * P) unit :=
  let@ prev_hash_row := read_db latest_hash_tx in
  let prev_hash := default EmptyString prev_hash_row in
  let@ hash := act_or_panic UnwrapNone (compute_audit_hash {|
    hi_id := uuid_to_string (be_audit_id env);
    hi_caller_service := caller_service;
    hi_target_service := "bootstrap";
    hi_action := "bootstrap:import";
    hi_algorithm := "bootstrap-import";
    hi_status := "Success";
    hi_reason := Some (import_reason count);
    hi_prev_hash := prev_hash;
    hi_timestamp := be_now env;
    hi_request_id := None;
    hi_operation_id := None;
    hi_target_id := None;
    hi_metadata := Some "bootstrap_import_v2"%string;
    hi_hash_version := CURRENT |}) in
  tx_exec (λ db, audit_insert_tx db {|
    ar_id := be_audit_id env;
    ar_caller_service := caller_service;
    ar_target_service := "bootstrap";
    ar_action := "bootstrap:import";
    ar_algorithm := "bootstrap-import";
    ar_status := "Success";
    ar_reason := Some (import_reason count);
    ar_prev_hash := prev_hash;
    ar_hash := hash;
    ar_signature := Some [];
    ar_request_id := None;
    ar_operation_id := None;
    ar_target_id := None;
    ar_metadata := Some "bootstrap_import_v2"%string;
    ar_created_at := be_now env |}).

Definition import_tx env (caller_service : string) (input : ImportBootstrapInput) :
    act (KmsDb * P) (nat * nat * (nat * nat)) :=
  let@ (ri, rs) := import_targets env 0 (bf_target_resources input) 0 0 in
  let@ (ci, cs) := import_credentials env 0 (bf_credentials input) 0 0 in
  import_audit env caller_service (ri + ci) ;;@
  act_ret (ri, rs, (ci, cs)).

Definition import_bootstrap (acl : CompiledAcl) env (caller_service : string)
    (input : ImportBootstrapInput) : act (KmsDb * P) ImportBootstrapSummary :=
  if negb (CompiledAcl_has_control_action acl caller_service BootstrapImport) then act_err Forbidden
  else if negb (bf_version input =? 1) then
    act_err (ValidationError "Unsupported bootstrap version")
  else if (length (bf_target_resources input) =? 0)%nat
          && (length (bf_credentials input) =? 0)%nat then
    act_err (ValidationError "Nothing to import: both target_resources and credentials are empty")
  else
    let@ (ri, rs, (ci, cs)) :=
      transaction (be_commit env) (import_tx env caller_service input)
        (λ e _, act_ret (commit_error e)) in
    let total_in_file := (length (bf_target_resources input) + length (bf_credentials input))%nat in
    act_ret (MkImportBootstrapSummary total_in_file ri rs ci cs
      ("Pomyślnie przetworzona operacja: zaimportowano " +s+ pretty (ri + ci)%nat +s+ "/"
       +s+ pretty total_in_file +s+ " nowych pozycji (" +s+ pretty (rs + cs)%nat
       +s+ " pozycji już istniało w bazie)")).

(** [handlers/admin.rs] answers with the fields of the summary. *)
Definition import_bootstrap_handler (acl : CompiledAcl) env (caller : ServiceId)
    (payload : ImportBootstrapInput) : act (KmsDb * P) ImportBootstrapSummary :=
  import_bootstrap acl env caller payload.

End import.

(** ** Loops that import or skip *)

(** What a loop over [records] has added to the table: as many rows as the
    first counter says, one count for each record, and every record is
    present at the end. *)
Section counted.
  Context {Rec Row : Type} (rec_id : nat → Rec → Z) (present : list Row → Z → Prop)
    (row_of : Rec → Row → Prop).
  Context (present_app : ∀ l l' id, present l id → present (l ++ l') id).

Record counted (idx : nat) (records : list Rec) (old : list Row) (i s i' s' : nat)
    (new : list Row) : Prop := {
  ct_imported : i' = (i + length new)%nat;
  ct_total : (i' + s' = i + s + length records)%nat;
  ct_present k r : records !! k = Some r → present (old ++ new) (rec_id (idx + k) r);
  ct_rows row : row ∈ new → ∃ r, r ∈ records ∧ row_of r row }.

Lemma counted_nil idx old i s : counted idx [] old i s i s [].
Proof. split; cbn [length]; [lia|lia|done|by intros row ?%elem_of_nil]. Qed.

Lemma counted_skip idx r records old i s i' s' new :
  present old (rec_id idx r) → counted (S idx) records old i (S s) i' s' new →
  counted idx (r :: records) old i s i' s' new.
Proof.
  intros Hp [Hi Ht Hr Hrows]. split; cbn [length] in *; [lia|lia| |].
  - intros [|k] r0 Hk; cbn in Hk.
    + injection Hk as <-. rewrite Nat.add_0_r. auto.
    + replace (idx + S k)%nat with (S idx + k)%nat by lia. auto.
  - intros row (r0 & ? & ?)%Hrows. exists r0. split; [by right|done].
Qed.

Lemma counted_add idx r records old row i s i' s' new :
  present (old ++ [row]) (rec_id idx r) → row_of r row →
  counted (S idx) records (old ++ [row]) (S i) s i' s' new →
  counted idx (r :: records) old i s i' s' (row :: new).
Proof.
  intros Hp Ho [Hi Ht Hr Hrows].
  assert (Happ : (old ++ [row]) ++ new = old ++ row :: new) by (by rewrite <- app_assoc).
  split; cbn [length] in *; [lia|lia| |].
  - intros [|k] r0 Hk; cbn in Hk; rewrite <- Happ.
    + injection Hk as <-. rewrite Nat.add_0_r. auto.
    + replace (idx + S k)%nat with (S idx + k)%nat by lia. auto.
  - intros row0 [->|(r0 & ? & ?)%Hrows]%elem_of_cons.
    + exists r. split; [by left|done].
    + exists r0. split; [by right|done].
Qed.

End counted.

(** ** What an import does *)

Section import_steps.
  Context {P : Type}.
  Context `{Sha256} `{Hex} `{Json} `{Chrono} `{UuidFmt} `{Hpg : PgTime} `{SqlDisplay}
    `{CredentialCodec}.
  Context (send_request : Entropy → HsmRequest → result HsmResponse AppError).
  Implicit Types (env : ImportEnv) (db : KmsDb) (p : P).

Definition target_id_of env (idx : nat) (r : TargetResourceRecord) : Z :=
  default (be_target_id env idx) (br_id r).
Definition credential_id_of env (idx : nat) (r : BootstrapCredentialRecord) : Z :=
  default (be_credential_id env idx) (bc_id r).

(** The row of an imported target. *)
Definition target_row_of (r : TargetResourceRecord) (row : TargetResource) : Prop :=
  ∃ ent enc,
    VhsmCryptoService_encrypt_private_key send_request ent (str_bytes (br_connection_url r)) =
      Ok enc ∧
    tr_connection_url_encrypted row = ciphertext enc ∧ tr_active row = true ∧
    varchar 64 "target_name" (br_target_name r) = Ok (tr_target_name row) ∧
    opt_varchar 64 "default_role" (br_default_role r) = Ok (tr_default_role row).

Lemma insert_target_ok db id name ty url role t b db' :
  insert_target_resource db id name ty url role t = Ok (b, db') →
  (b = false ∧ db' = db ∧ target_resource_exists_by_id db id = true) ∨
  (b = true ∧ ∃ row, db' = set_targets db (db_targets db ++ [row]) ∧ tr_id row = id ∧
     tr_connection_url_encrypted row = url ∧ tr_active row = true ∧
     varchar 64 "target_name" name = Ok (tr_target_name row) ∧
     opt_varchar 64 "default_role" role = Ok (tr_default_role row) ∧
     existsb (λ r, String.eqb (tr_target_name r) (tr_target_name row)) (db_targets db) = false).
Proof.
  unfold insert_target_resource. intros E.
  apply result_bind_Ok in E as (n & Hn & E). apply result_bind_Ok in E as (ty' & _ & E).
  apply result_bind_Ok in E as (ro & Hr & E).
  destruct (target_resource_exists_by_id db id) eqn:Hx; [injection E as <- <-; by left|].
  apply result_bind_Ok in E as (u & Hg & E). apply guard_sql_Ok, negb_true_iff in Hg.
  injection E as <- <-. right. split; [done|]. eexists. split; [reflexivity|]. done.
Qed.

Lemma insert_credential_ok db id svc ty tdb res enc kek kv t b db' :
  insert_db_credential db id svc ty tdb res enc kek kv t = Ok (b, db') →
  (b = false ∧ db' = db ∧ id ∈ (dc_id <$> db_credentials db)) ∨
  (b = true ∧ (id ∉ (dc_id <$> db_credentials db)) ∧
   ∃ row, db' = set_credentials db (db_credentials db ++ [row]) ∧ dc_id row = id ∧
     dc_encrypted_credentials row = enc).
Proof.
  unfold insert_db_credential. destruct (existsb _ _) eqn:Hx; intros E.
  - injection E as <- <-. left. by rewrite existsb_eq_true in Hx.
  - rewrite existsb_eq_false in Hx. apply result_bind_Ok in E as (u & _ & E).
    injection E as <- <-. right. split_and!; [done..|]. by eexists.
Qed.

Definition target_present (l : list TargetResource) (id : Z) : Prop := id ∈ (tr_id <$> l).
Lemma target_present_app l l' id : target_present l id → target_present (l ++ l') id.
Proof. unfold target_present. rewrite fmap_app. set_solver. Qed.

Lemma import_targets_ok env : ∀ records idx i s db p i' s' st,
  import_targets send_request env idx records i s (db, p) = (Done (Ok (i', s')), st) →
  ∃ new, st = (set_targets db (db_targets db ++ new), p) ∧
    counted (target_id_of env) target_present target_row_of idx records (db_targets db)
      i s i' s' new.
Proof.
  induction records as [|r records IH]; intros idx i s db p i' s' st E; cbn [import_targets] in E.
  { injection E as <- <- <-. exists []. split; [|apply counted_nil].
    destruct db; unfold set_targets; cbn. by rewrite app_nil_r. }
  apply act_bind_Ok in E as (ex & s1 & [= <- <-] & E). fold (target_id_of env idx r) in E.
  cbn [fst] in E. destruct (target_resource_exists_by_id db (target_id_of env idx r)) eqn:Hex.
  { apply IH in E as (new & -> & Hc). exists new. split; [done|].
    apply counted_skip; [apply target_present_app|by apply existsb_eq_true|done]. }
  apply act_bind_Ok in E as (enc & s1 & Henc & E). injection Henc as Henc <-.
  apply map_err_Ok in Henc.
  apply act_bind_Ok in E as (ins & s1 & Hins & E). apply tx_query_Ok in Hins as (db1 & Hins & ->).
  cbn [fst snd] in *.
  apply insert_target_ok in Hins as [(-> & -> & Hin)|(-> & row & -> & Hid & Hrow)].
  { apply IH in E as (new & -> & Hc). exists new. split; [done|].
    apply counted_skip; [apply target_present_app|by apply existsb_eq_true|done]. }
  apply IH in E as (new & -> & Hc). exists (row :: new).
  split; [cbn [db_targets set_targets]; by rewrite <- app_assoc|].
  apply counted_add; [apply target_present_app| | |done].
  - unfold target_present. rewrite <- Hid, fmap_app. set_solver.
  - exists (be_target_ent env idx), enc. naive_solver.
Qed.

(** A record is present when its credential is stored, or when another table
    has its identifier. *)
Definition credential_present (prov : list ProvisionedCredential) (l : list DbCredential) (id : Z) :
    Prop := id ∈ (dc_id <$> l) ∨ id ∈ (pc_id <$> prov).
Lemma credential_present_app prov l l' id :
  credential_present prov l id → credential_present prov (l ++ l') id.
Proof. unfold credential_present. rewrite fmap_app. set_solver. Qed.

(** The row of an imported credential. *)
Definition credential_row_of (r : BootstrapCredentialRecord) (row : DbCredential) : Prop :=
  ∃ ent enc bs, payload_to_vec (bc_username r) (bc_password r) = Ok bs ∧
    VhsmCryptoService_encrypt_private_key send_request ent bs = Ok enc ∧
    dc_encrypted_credentials row = ciphertext enc.

Lemma import_credentials_ok env : ∀ records idx i s db p i' s' st,
  import_credentials send_request env idx records i s (db, p) = (Done (Ok (i', s')), st) →
  ∃ new, st = (set_credentials db (db_credentials db ++ new), p) ∧
    counted (credential_id_of env) (credential_present (db_provisioned db)) credential_row_of
      idx records (db_credentials db) i s i' s' new.
Proof.
  induction records as [|r records IH]; intros idx i s db p i' s' st E; cbn [import_credentials] in E.
  { injection E as <- <- <-. exists []. split; [|apply counted_nil].
    destruct db; unfold set_credentials; cbn. by rewrite app_nil_r. }
  apply act_bind_Ok in E as (ex & s1 & [= <- <-] & E). fold (credential_id_of env idx r) in E.
  cbn [fst] in E. destruct (credential_exists_by_id db (credential_id_of env idx r)) eqn:Hex.
  { apply IH in E as (new & -> & Hc). exists new. split; [done|].
    apply counted_skip; [apply credential_present_app| |done]. right. by apply existsb_eq_true. }
  apply act_bind_Ok in E as (tdb & s1 & Ht & E).
  assert (s1 = (db, p)) as ->.
  { unfold act_or_panic in Ht. destruct (json_to_string _); [|discriminate]. by injection Ht. }
  apply act_bind_Ok in E as (kek & s1 & [= <- <-] & E). cbn [fst] in E.
  destruct (latest_kek_id db (bc_service_id r)) as [[kek_id kv]|]; [|discriminate].
  apply act_bind_Ok in E as (bs & s1 & Hbs & E). injection Hbs as Hbs%map_err_Ok <-.
  apply act_bind_Ok in E as (enc & s1 & Henc & E). injection Henc as Henc%map_err_Ok <-.
  destruct (blen (ciphertext enc) <? 12); [discriminate|].
  apply act_bind_Ok in E as (ins & s1 & Hins & E). apply tx_query_Ok in Hins as (db1 & Hins & ->).
  cbn [fst snd] in *.
  apply insert_credential_ok in Hins as [(-> & -> & Hin)|(-> & _ & row & -> & Hid & Hrow)].
  { apply IH in E as (new & -> & Hc). exists new. split; [done|].
    apply counted_skip; [apply credential_present_app|by left|done]. }
  apply IH in E as (new & -> & Hc). exists (row :: new).
  split; [cbn [db_credentials set_credentials]; by rewrite <- app_assoc|].
  apply counted_add; [apply credential_present_app| | |done].
  - left. fold (credential_id_of env idx r) in Hid. rewrite <- Hid, fmap_app. set_solver.
  - exists (be_credential_ent env idx), enc, bs. naive_solver.
Qed.

Lemma import_audit_ok env caller n s u s' :
  import_audit (P := P) env caller n s = (Done (Ok u), s') →
  ∃ audit_row, s' = (set_audit s.1 (db_audit s.1 ++ [stored audit_row]), s.2) ∧
    ar_prev_hash audit_row = default EmptyString (latest_hash (db_audit s.1)) ∧
    row_hash_ok audit_row ∧ ar_signature audit_row = Some [] ∧
    ar_created_at audit_row = be_now env ∧ ar_id audit_row = be_audit_id env ∧
    ar_reason audit_row = Some (import_reason n) ∧ ar_id audit_row ∉ (ar_id <$> db_audit s.1).
Proof.
  unfold import_audit. intros E. apply act_bind_Ok in E as (prev & s1 & [= <- <-] & E).
  apply act_bind_Ok in E as (hash & s1 & Hh & E). unfold act_or_panic in Hh.
  destruct (compute_audit_hash _) as [hash'|] eqn:Hc in Hh; [|discriminate]. injection Hh as <- <-.
  apply tx_exec_Ok in E as (db2 & Hi & ->). apply audit_insert_tx_ok in Hi as [-> Hf].
  eexists. split; [reflexivity|]. split_and!; done.
Qed.

(** The state a successful import leaves. *)
Record imported env (input : ImportBootstrapInput) (db db' : KmsDb)
    (sum : ImportBootstrapSummary) (targets : list TargetResource)
    (credentials : list DbCredential) (audit_row : AuditRow) : Prop := {
  im_db : db' = set_audit (set_credentials (set_targets db (db_targets db ++ targets))
                   (db_credentials db ++ credentials)) (db_audit db ++ [stored audit_row]);
  im_targets : counted (target_id_of env) target_present target_row_of 0
    (bf_target_resources input) (db_targets db) 0 0 (bs_resources_imported sum)
    (bs_resources_skipped sum) targets;
  im_credentials : counted (credential_id_of env) (credential_present (db_provisioned db))
    credential_row_of 0 (bf_credentials input) (db_credentials db) 0 0
    (bs_credentials_imported sum) (bs_credentials_skipped sum) credentials;
  im_prev : ar_prev_hash audit_row = default EmptyString (latest_hash (db_audit db));
  im_hash : row_hash_ok audit_row;
  im_signature : ar_signature audit_row = Some [];
  im_created : ar_created_at audit_row = be_now env;
  im_id : ar_id audit_row = be_audit_id env;
  im_reason : ar_reason audit_row =
    Some (import_reason (bs_resources_imported sum + bs_credentials_imported sum));
  im_fresh : ar_id audit_row ∉ (ar_id <$> db_audit db) }.

Lemma import_bootstrap_ok acl env caller input db p sum st :
  import_bootstrap send_request acl env caller input (db, p) = (Done (Ok sum), st) →
  CompiledAcl_has_control_action acl caller BootstrapImport = true ∧ st.2 = p ∧
  import_targets send_request env 0 (bf_target_resources input) 0 0 (db, p) =
    (Done (Ok (bs_resources_imported sum, bs_resources_skipped sum)),
     (set_targets db (db_targets st.1), p)) ∧
  bs_total_in_file sum = (length (bf_target_resources input) + length (bf_credentials input))%nat ∧
  ∃ targets credentials audit_row, imported env input db st.1 sum targets credentials audit_row.
Proof.
  unfold import_bootstrap. destruct (CompiledAcl_has_control_action _ _ _); [|done]. cbn [negb].
  destruct (negb _); [done|]. destruct (_ && _); [done|]. intros E.
  apply act_bind_Ok in E as ([[ri rs] [ci cs]] & s1 & E & [= <- <-]).
  apply transaction_Ok in E as [E _]. unfold import_tx in E.
  apply act_bind_Ok in E as ([ri' rs'] & s2 & Et & E).
  pose proof Et as (nt & -> & Hct)%import_targets_ok.
  apply act_bind_Ok in E as ([ci' cs'] & s3 & Ec & E).
  apply import_credentials_ok in Ec as (nc & -> & Hcc).
  apply act_bind_Ok in E as (u & s4 & Ea & [= <- <- <- <- <-]).
  apply import_audit_ok in Ea as (row & -> & Hp & Hh & Hs & Hn & Hi & Hr & Hf).
  cbn [fst snd bs_resources_imported bs_resources_skipped bs_total_in_file] in *.
  split_and!; [done|done|exact Et|done|]. exists nt, nc, row. split; done.
Qed.

Lemma import_bootstrap_atomic acl env caller input :
  atomic (P := P) (import_bootstrap send_request acl env caller input).
Proof.
  unfold import_bootstrap. repeat case_match; [auto with kms..|].
  apply atomic_then_ret; [auto with kms|]. intros [[ri rs] [ci cs]] s. by eexists.
Qed.

End import_steps.

(** ** Properties *)

Section import_properties.
  Context {P : Type}.
  Context `{Sha256} `{Hex} `{Json} `{Chrono} `{UuidFmt} `{Hpg : PgTime} `{SqlDisplay}
    `{CredentialCodec}.
  Context (send_request : Entropy → HsmRequest → result HsmResponse AppError).
  Implicit Types (env : ImportEnv) (db : KmsDb) (p : P).

(** C25: an import is all or nothing, needs the control action, and its summary is
    exact: one count for each record of the file, as many new rows in the two
    tables as it says were imported, and the sum of both in the audit row. *)
Theorem import_summary_exact acl env caller input db p :
  let (r, st) := import_bootstrap send_request acl env caller input (db, p) in
  match r with
  | Done (Ok sum) =>
    CompiledAcl_has_control_action acl caller BootstrapImport = true ∧
    (bs_resources_imported sum + bs_resources_skipped sum =
       length (bf_target_resources input))%nat ∧
    (bs_credentials_imported sum + bs_credentials_skipped sum = length (bf_credentials input))%nat ∧
    (length (db_targets st.1) = length (db_targets db) + bs_resources_imported sum)%nat ∧
    (length (db_credentials st.1) = length (db_credentials db) + bs_credentials_imported sum)%nat ∧
    ∃ row, db_audit st.1 = db_audit db ++ [row] ∧
      ar_reason row =
        Some (import_reason (bs_resources_imported sum + bs_credentials_imported sum))
  | _ => st.1 = db
  end.
Proof.
  destruct (import_bootstrap _ _ _ _ _ _) as [r st] eqn:E.
  pose proof (import_bootstrap_atomic send_request acl env caller input (db, p)) as Hat.
  rewrite E in Hat. cbn [fst snd] in Hat.
  destruct r as [[sum|e]|w|]; [|destruct Hat as [[x Hx]|Hat]; [discriminate|exact Hat]..].
  apply import_bootstrap_ok in E as (Ha & _ & _ & _ & nt & nc & row & Him).
  destruct Him as [Hdb Ht Hc _ _ _ _ _ Hr]. rewrite Hdb. cbn.
  pose proof (ct_imported _ _ _ _ _ _ _ _ _ _ _ Ht). pose proof (ct_total _ _ _ _ _ _ _ _ _ _ _ Ht).
  pose proof (ct_imported _ _ _ _ _ _ _ _ _ _ _ Hc). pose proof (ct_total _ _ _ _ _ _ _ _ _ _ _ Hc).
  rewrite !length_app. split_and!; [done|lia|lia|lia|lia|]. by exists (stored row).
Qed.

Lemma import_targets_present env records : ∀ idx i s db p,
  (∀ r, r ∈ records → ∃ id, br_id r = Some id ∧ id ∈ (tr_id <$> db_targets db)) →
  import_targets send_request env idx records i s (db, p) =
  (Done (Ok (i, (s + length records)%nat)), (db, p)).
Proof.
  induction records as [|r records IH]; intros idx i s db p Hr; cbn [import_targets length].
  { by rewrite Nat.add_0_r. }
  destruct (Hr r) as (id & Hid & Hin); [by left|]. rewrite Hid.
  change (default _ (Some id)) with id. erewrite act_bind_step by reflexivity. cbn [fst].
  unfold target_resource_exists_by_id. rewrite (proj2 (existsb_eq_true tr_id _ _) Hin).
  rewrite IH by (intros; apply Hr; by right). by rewrite Nat.add_succ_comm.
Qed.

(** The loop over credentials that are all present adds none, however it ends. *)
Lemma import_credentials_present env records : ∀ idx i s db p i' s' st,
  (∀ r, r ∈ records → ∃ id, bc_id r = Some id ∧
     credential_present (db_provisioned db) (db_credentials db) id) →
  import_credentials send_request env idx records i s (db, p) = (Done (Ok (i', s')), st) →
  st = (db, p) ∧ i' = i.
Proof.
  induction records as [|r records IH]; intros idx i s db p i' s' st Hr E.
  { cbn [import_credentials] in E. by injection E as <- _ <-. }
  destruct (Hr r) as (id & Hid & Hin); [by left|].
  assert (∀ r, r ∈ records → ∃ id, bc_id r = Some id ∧
     credential_present (db_provisioned db) (db_credentials db) id) as Hr' by (intros; apply Hr; by right).
  cbn [import_credentials] in E. rewrite Hid in E.
  change (default _ (Some id)) with id in E.
  apply act_bind_Ok in E as (ex & s1 & [= <- <-] & E). cbn [fst] in E.
  destruct (credential_exists_by_id db id) eqn:Hex; [by apply IH in E|].
  assert (id ∈ (dc_id <$> db_credentials db)) as Hdc.
  { destruct Hin as [|Hp]; [done|]. unfold credential_exists_by_id in Hex.
    rewrite (proj2 (existsb_eq_true pc_id _ _) Hp) in Hex. discriminate. }
  apply act_bind_Ok in E as (tdb & s1 & Ht & E). unfold act_or_panic in Ht.
  destruct (json_to_string _); [|discriminate]. injection Ht as <- <-.
  apply act_bind_Ok in E as (kek & s1 & [= <- <-] & E). cbn [fst] in E.
  destruct (latest_kek_id db (bc_service_id r)) as [[kek_id kv]|]; [|discriminate].
  apply act_bind_Ok in E as (bs & s1 & [= _ <-] & E).
  apply act_bind_Ok in E as (enc & s1 & [= _ <-] & E).
  destruct (blen (ciphertext enc) <? 12); [discriminate|].
  apply act_bind_Ok in E as (ins & s1 & Hins & E). apply tx_query_Ok in Hins as (db1 & Hins & ->).
  cbn [fst snd] in *.
  apply insert_credential_ok in Hins as [(-> & -> & _)|(_ & Hno & _)]; [by apply IH in E|done].
Qed.

Lemma import_same_tables acl env caller input db p sum st :
  (∀ r, r ∈ bf_target_resources input → ∃ id, br_id r = Some id ∧ id ∈ (tr_id <$> db_targets db)) →
  (∀ r, r ∈ bf_credentials input → ∃ id, bc_id r = Some id ∧
     credential_present (db_provisioned db) (db_credentials db) id) →
  import_bootstrap send_request acl env caller input (db, p) = (Done (Ok sum), st) →
  db_targets st.1 = db_targets db ∧ db_credentials st.1 = db_credentials db ∧
  bs_resources_imported sum = 0%nat ∧ bs_credentials_imported sum = 0%nat.
Proof.
  intros HT HC. unfold import_bootstrap. repeat (case_match; [done|]). intros E.
  apply act_bind_Ok in E as ([[ri rs] [ci cs]] & s1 & E & [= <- <-]).
  apply transaction_Ok in E as [E _]. unfold import_tx in E.
  rewrite (act_bind_step _ _ _ _ _ (import_targets_present env _ 0 0 0 db p HT)) in E.
  apply act_bind_Ok in E as ([ci' cs'] & s3 & Ec & E).
  apply import_credentials_present in Ec as [-> ->]; [|done].
  apply act_bind_Ok in E as (u & s4 & Ea & [= <- <- <- <- <-]).
  by apply import_audit_ok in Ea as (row & -> & _).
Qed.

(** Importing a file again changes neither table, whatever the second import's
    outcome: when it succeeds it has imported nothing. *)
Theorem reimport_adds_nothing acl env1 env2 caller1 caller2 input db p sum db' p' :
  (∀ r, r ∈ bf_target_resources input → is_Some (br_id r)) →
  (∀ r, r ∈ bf_credentials input → is_Some (bc_id r)) →
  import_bootstrap send_request acl env1 caller1 input (db, p) = (Done (Ok sum), (db', p')) →
  let (r, st) := import_bootstrap send_request acl env2 caller2 input (db', p') in
  db_targets st.1 = db_targets db' ∧ db_credentials st.1 = db_credentials db' ∧
  ∀ sum2, r = Done (Ok sum2) →
    bs_resources_imported sum2 = 0%nat ∧ bs_credentials_imported sum2 = 0%nat.
Proof.
  intros HidT HidC E. apply import_bootstrap_ok in E as (_ & Hp & _ & _ & nt & nc & row & Him).
  destruct Him as [Hdb Ht Hc _ _ _ _ _ _]. cbn [fst snd] in Hp, Hdb. subst p'.
  assert (HT : ∀ r, r ∈ bf_target_resources input → ∃ id, br_id r = Some id ∧ id ∈ (tr_id <$> db_targets db')).
  { intros r Hr. destruct (HidT r Hr) as [id Hid]. exists id. split; [done|].
    apply list_elem_of_lookup in Hr as [k Hk]. apply Ht in Hk. unfold target_id_of in Hk.
    rewrite Hid in Hk. by rewrite Hdb. }
  assert (HC : ∀ r, r ∈ bf_credentials input → ∃ id, bc_id r = Some id ∧
     credential_present (db_provisioned db') (db_credentials db') id).
  { intros r Hr. destruct (HidC r Hr) as [id Hid]. exists id. split; [done|].
    apply list_elem_of_lookup in Hr as [k Hk]. apply Hc in Hk. unfold credential_id_of in Hk.
    rewrite Hid in Hk. by rewrite Hdb. }
  clear Hdb. destruct (import_bootstrap _ _ env2 _ _ _) as [r st] eqn:E2.
  pose proof (import_bootstrap_atomic send_request acl env2 caller2 input (db', p)) as Hat.
  rewrite E2 in Hat. cbn [fst snd] in Hat.
  destruct r as [[sum2|e]|w|];
    [|(destruct Hat as [[x Hx]|Hat]; [discriminate|]; rewrite Hat; by split_and!)..]. clear Hat.
  destruct (import_same_tables acl env2 caller2 input db' p sum2 st HT HC E2)
    as (-> & -> & Hi & Hj). split_and!; [done..|]. intros sum3 [= <-]. done.
Qed.

Lemma import_targets_names env : ∀ records idx i s db p x st,
  NoDup (tr_target_name <$> db_targets db) →
  import_targets send_request env idx records i s (db, p) = (Done (Ok x), st) →
  NoDup (tr_target_name <$> db_targets st.1).
Proof.
  induction records as [|r records IH]; intros idx i s db p x st N E; cbn [import_targets] in E.
  { injection E as _ <-. done. }
  apply act_bind_Ok in E as (ex & s1 & [= <- <-] & E). cbn [fst] in E.
  destruct (target_resource_exists_by_id db _); [by eapply IH|].
  apply act_bind_Ok in E as (enc & s1 & [= _ <-] & E).
  apply act_bind_Ok in E as (ins & s1 & Hins & E). apply tx_query_Ok in Hins as (db1 & Hins & ->).
  cbn [fst snd] in *.
  apply insert_target_ok in Hins as [(-> & -> & _)|(-> & row & -> & _ & _ & _ & _ & _ & Hnew)];
    [by eapply IH|].
  eapply IH in E; [done|]. cbn [db_targets set_targets]. rewrite fmap_app.
  apply NoDup_app. split_and!; [done| |apply NoDup_singleton].
  intros n Hn ->%list_elem_of_singleton. apply list_elem_of_fmap in Hn as (r0 & Hr0 & Hin).
  apply not_true_iff_false in Hnew. apply Hnew, existsb_exists.
  exists r0. rewrite Hr0, String.eqb_refl. split; [by apply list_elem_of_In|done].
Qed.

Lemma fetch_target_unique db row :
  NoDup (tr_target_name <$> db_targets db) → row ∈ db_targets db → tr_active row = true →
  fetch_target_resource db (tr_target_name row) =
  Some (tr_id row, tr_connection_url_encrypted row, tr_default_role row).
Proof.
  unfold fetch_target_resource. induction (db_targets db) as [|r l IH]; [by intros _ ?%elem_of_nil|].
  intros [Hr N]%NoDup_cons [->|Hin]%elem_of_cons Ha.
  - rewrite filter_cons_True by (by rewrite String.eqb_refl, Ha). done.
  - rewrite filter_cons_False; [by apply IH|]. rewrite andb_true_iff, String.eqb_eq.
    intros [E _]. apply Hr. rewrite E. by apply list_elem_of_fmap_2.
Qed.

(** An imported target can be used: issuing a credential finds it under its
    name, and its connection string, of at most [SECRET_MAX] bytes, decrypts to
    the one in the file. *)
Theorem imported_targets_usable `{!VhsmTransportLaws send_request} acl env caller input db p sum
    db' p' :
  NoDup (tr_target_name <$> db_targets db) →
  import_bootstrap send_request acl env caller input (db, p) = (Done (Ok sum), (db', p')) →
  ∀ row, row ∈ db_targets db' → row ∉ db_targets db →
  ∃ r, r ∈ bf_target_resources input ∧
    varchar 64 "target_name" (br_target_name r) = Ok (tr_target_name row) ∧
    fetch_target_resource db' (tr_target_name row) =
      Some (tr_id row, tr_connection_url_encrypted row, tr_default_role row) ∧
    ∀ ent, blen (str_bytes (br_connection_url r)) ≤ SECRET_MAX →
      VhsmCryptoService_decrypt_bytes send_request ent (tr_connection_url_encrypted row) =
           Ok (str_bytes (br_connection_url r)).
Proof.
  intros N E row Hrow Hold.
  apply import_bootstrap_ok in E as (_ & _ & Et & _ & nt & nc & ar & [Hdb Ht _ _ _ _ _ _ _ _]).
  apply import_targets_names in Et; [|done]. cbn [fst db_targets set_targets] in *.
  assert (row ∈ nt) as Hnt.
  { rewrite Hdb in Hrow. cbn in Hrow. apply elem_of_app in Hrow as [|]; done. }
  destruct (ct_rows _ _ _ _ _ _ _ _ _ _ _ Ht row Hnt) as (r & Hr & ent & enc & He & Hc & Ha & Hn & _).
  exists r. split_and!; [done|done|by apply fetch_target_unique|].
  intros ent' Hl. rewrite Hc. unfold VhsmCryptoService_encrypt_private_key in He.
  apply result_bind_Ok in He as (ct & Hct & He). apply result_bind_Ok in He as (v & _ & [= <-]).
  by eapply transport_decrypt_encrypt.
Qed.

End import_properties.

(** ** A concrete import *)

Section ImportWitnesses.
  Import Concrete ConcreteAudit ConcretePg.

#[local] Existing Instances unary_codec unary_codec_laws.

Definition import_acl : CompiledAcl := {|
  access := ∅; preload := ∅; actions := {["kms-cli"%string := {[BootstrapImport]}]} |}.
Definition import_input : ImportBootstrapInput := MkImportBootstrapInput 1
  [MkTargetResourceRecord (Some 5) "postgres_auth" "postgres" "db.internal" None]
  [MkBootstrapCredentialRecord (Some 6) "kms-system" None None "postgres" (VString "auth") None
     "user" "password" None].
Definition import_env (id now : Z) : ImportEnv :=
  MkImportEnv now id (λ _, 0) (λ _, ent0) (λ _, 0) (λ _, ent0) (Ok ()).
Definition import_demo (id now : Z) (s : KmsDb * unit) :=
  import_bootstrap (daemon_transport open_state 0) import_acl (import_env id now) "kms-cli"
    import_input s.

Definition import_first : KmsDb * unit := (import_demo 1 1000 (ca_db, ())).2.
Definition import_sum (r : outcome (result ImportBootstrapSummary AppError)) :
    ImportBootstrapSummary :=
  match r with Done (Ok sum) => sum | _ => MkImportBootstrapSummary 0 0 0 0 0 EmptyString end.

Lemma import_first_ok :
  import_demo 1 1000 (ca_db, ()) =
  (Done (Ok (import_sum (import_demo 1 1000 (ca_db, ())).1)), (import_first.1, import_first.2)).
Proof. vm_compute. reflexivity. Qed.

Lemma reimport_adds_nothing_witness :
  length (db_targets import_first.1) = 1%nat ∧
  db_targets (import_demo 2 2000 import_first).2.1 = db_targets import_first.1.
Proof.
  split; [vm_compute; reflexivity|].
  pose proof (reimport_adds_nothing (daemon_transport open_state 0) import_acl (import_env 1 1000)
    (import_env 2 2000) "kms-cli" "kms-cli" import_input ca_db ()
    (import_sum (import_demo 1 1000 (ca_db, ())).1) import_first.1 import_first.2) as Hre. unfold import_demo. rewrite (surjective_pairing import_first).
  destruct (import_bootstrap _ _ (import_env 2 2000) _ _ _) as [r st].
  destruct Hre as [Hre _]; [..|exact Hre].
  - intros r0 ->%list_elem_of_singleton. by eexists.
  - intros r0 ->%list_elem_of_singleton. by eexists.
  - exact import_first_ok.
Defined.

Lemma imported_targets_usable_witness :
  ∃ c, fetch_target_resource import_first.1 "postgres_auth" = Some (5, c, None) ∧
    VhsmCryptoService_decrypt_bytes (daemon_transport open_state 0) ent0 c =
      Ok (str_bytes "db.internal").
Proof.
  destruct (db_targets import_first.1) as [|row l] eqn:Hl; [exfalso; vm_compute in Hl; discriminate|].
  destruct (imported_targets_usable (daemon_transport open_state 0) import_acl (import_env 1 1000)
    "kms-cli" import_input ca_db () _ _ _ (NoDup_nil_2) import_first_ok row)
    as (r & ->%list_elem_of_singleton & Hn & Hf & Hd).
  - rewrite Hl. by left.
  - apply not_elem_of_nil.
  - exists (tr_connection_url_encrypted row). split; [|apply Hd; by vm_compute].
    assert (tr_target_name row = "postgres_auth"%string ∧ tr_id row = 5 ∧ tr_default_role row = None)
      as (E1 & E2 & E3) by (revert Hl; vm_compute; by intros [= <- _]).
    rewrite E1, E2, E3 in Hf. exact Hf.
Defined.

End ImportWitnesses.
