(* ===== verification/AuditOrder.v ===== *)
(** * Which audit tables verify

    The rows of the table [audit_logs] are appended by several writers, each
    with the latest hash of the table as it finds it.  Whether the table
    verifies afterwards depends on the stamps of the writes alone: the time a
    row is hashed with and the one the table keeps, the identifier it is hashed
    with and the one it is stored under, and the order of the writes.  This
    file states that condition as a function on the stamps and proves it exact. *)

From stdpp Require Import sorting.
From S2P Require Import Prelude.
From S2P Require Import Interfaces.
From S2P Require Import Protocol.
From S2P Require Import Domain.
From S2P Require Import Acl.
From S2P Require Import AuditLog.
From S2P Require Import AuditChain.
From S2P Require Import Transactions.

(** ** Stamps *)

(** What a writer puts into a row besides its text: whether it writes the
    genesis hash when the table is empty (or else the empty text), the
    identifier it hashes, the identifier of the row, and the time it hashes. *)
Record Stamp := MkStamp {
  st_genesis : bool;
  st_hashed_id : Z;
  st_id : Z;
  st_time : Z }.

(** The place of a row in the order of the table. *)
Definition row_key (r : AuditRow) : Z * Z := (ar_created_at r, ar_id r).
Definition key_ltb (k k' : Z * Z) : bool :=
  (k.1 <? k'.1) || ((k.1 =? k'.1) && (k.2 <? k'.2)).

(** A write after the rows with the keys [l]: the first row of a table carries
    the genesis hash, the row is hashed with the time and the identifier the
    table keeps, and it comes after the others. *)
Definition stamp_ok (l : list (Z * Z)) (w : Stamp) : bool :=
  (st_genesis w || negb (bool_decide (l = []))) && (st_time w mod 1000 =? 0) &&
  (st_hashed_id w =? st_id w) && forallb (λ k, key_ltb k (st_time w, st_id w)) l.

Fixpoint in_order (l : list (Z * Z)) (ws : list Stamp) : bool :=
  match ws with
  | [] => true
  | w :: ws => stamp_ok l w && in_order (l ++ [(st_time w, st_id w)]) ws
  end.

Lemma in_order_snoc ws w : ∀ l,
  in_order l (ws ++ [w]) =
  in_order l ws && stamp_ok (l ++ ((λ w, (st_time w, st_id w)) <$> ws)) w.
Proof.
  induction ws as [|w' ws IH]; intros l; cbn [app in_order fmap list_fmap].
  - by rewrite app_nil_r, andb_true_r.
  - rewrite IH, <- app_assoc, andb_assoc. done.
Qed.

Lemma key_ltb_row r k : key_ltb (row_key r) k = true ↔
  ar_created_at r < k.1 ∨ (ar_created_at r = k.1 ∧ ar_id r < k.2).
Proof. unfold key_ltb, row_key. cbn [fst snd]. lia. Qed.

Lemma forallb_exists_false {A} (f : A → bool) l :
  forallb f l = false → ∃ x, x ∈ l ∧ f x = false.
Proof.
  induction l as [|x l IH]; cbn [forallb]; [done|].
  destruct (f x) eqn:E; [|exists x; split; [by left|done]].
  intros (y & Hy & Hf)%IH. exists y. split; [by right|done].
Qed.

Lemma ascending_last l m x : ascending l → last l = Some m → x ∈ l → row_le x m.
Proof.
  intros A Hm Hx. apply last_Some in Hm as [l' ->]. induction l' as [|y l' IH]; cbn in *.
  - apply list_elem_of_singleton in Hx as ->. unfold row_le. lia.
  - apply StronglySorted_inv in A as [A Hall]. apply elem_of_cons in Hx as [->|Hx]; [|by apply IH].
    rewrite Forall_forall in Hall. specialize (Hall m ltac:(set_solver)).
    unfold row_lt, row_le in *. lia.
Qed.

Section appends.
  Context `{Hsha : Sha256} `{Hhex : Hex} `{Hjson : Json} `{Hchrono : Chrono} `{Huuid : UuidFmt}
    `{Hpg : PgTime} `{Hsql : SqlDisplay} `{Hed : Ed25519Lib}.

(** What a row was hashed with. *)
Definition hashed_as (w : Stamp) (r : AuditRow) : AuditHashInput := {|
  hi_id := uuid_to_string (st_hashed_id w);
  hi_caller_service := ar_caller_service r;
  hi_target_service := ar_target_service r;
  hi_action := ar_action r;
  hi_algorithm := ar_algorithm r;
  hi_status := ar_status r;
  hi_reason := ar_reason r;
  hi_prev_hash := ar_prev_hash r;
  hi_timestamp := st_time w;
  hi_request_id := ar_request_id r;
  hi_operation_id := ar_operation_id r;
  hi_target_id := ar_target_id r;
  hi_metadata := ar_metadata r;
  hi_hash_version := V1 |}.

(** A row as a writer appends it to the table [l]. *)
Record appended (l : list AuditRow) (w : Stamp) (r : AuditRow) : Prop := {
  ap_hash : compute_audit_hash (hashed_as w r) = Some (ar_hash r);
  ap_id : ar_id r = st_id w;
  ap_time : ar_created_at r = pg_timestamptz (st_time w);
  ap_prev : ar_prev_hash r =
    default (if st_genesis w then GENESIS_HASH else EmptyString) (latest_hash l);
  ap_unsigned : unsigned r;
  ap_fresh : ar_id r ∉ (ar_id <$> l) }.

(** Rows appended to [base] one after the other. *)
Inductive appends (base : list AuditRow) : list Stamp → list AuditRow → Prop :=
| appends_nil : appends base [] base
| appends_snoc ws l w r :
    appends base ws l → appended l w r → appends base (ws ++ [w]) (l ++ [r]).

(** A writer that stores what it has hashed. *)
Lemma appended_stored l b row :
  row_hash_ok row → ar_prev_hash row = default (if b : bool then GENESIS_HASH else EmptyString) (latest_hash l) →
  unsigned row → ar_id row ∉ (ar_id <$> l) →
  appended l (MkStamp b (ar_id row) (ar_id row) (ar_created_at row)) (stored row).
Proof. by split. Qed.

(** The ways in which the hashes themselves can make a table verify: two
    different payloads, of rows of the table or of a row and what it was hashed
    with, that the digest does not tell apart, or a payload whose digest is the
    genesis hash. *)
Definition hash_accident (ws : list Stamp) (l : list AuditRow) : Prop :=
  (∃ r r', r ∈ l ∧ r' ∈ l ∧ payload_collision (row_hash_input r) (row_hash_input r')) ∨
  (∃ w r, w ∈ ws ∧ r ∈ l ∧ payload_collision (hashed_as w r) (row_hash_input r)) ∨
  (∃ r, r ∈ l ∧ ar_hash r = GENESIS_HASH).

(** ** Stamps in order are enough *)

Lemma appends_keys `{!PgTimeLaws Hpg} base ws l :
  appends base ws l → in_order (row_key <$> base) ws = true →
  row_key <$> l = (row_key <$> base) ++ ((λ w, (st_time w, st_id w)) <$> ws).
Proof.
  induction 1 as [|ws l w r A IH [_ Hid Ht _ _ _]]; [by rewrite app_nil_r|].
  rewrite in_order_snoc. intros [Ho Hs]%andb_true_iff.
  rewrite !fmap_app, app_assoc, <- IH by done. f_equal. cbn. unfold row_key.
  unfold stamp_ok in Hs. rewrite Ht, Hid, pg_timestamptz_exact by lia. done.
Qed.

Lemma appends_sound `{!PgTimeLaws Hpg} base ws l :
  chain_wf base → appends base ws l → in_order (row_key <$> base) ws = true → chain_wf l.
Proof.
  intros W A. induction A as [|ws l w r A IH [Hh Hid Ht Hp Hu _]]; [done|].
  rewrite in_order_snoc. intros [Ho Hs]%andb_true_iff. specialize (IH Ho).
  rewrite <- (appends_keys base ws l A Ho) in Hs. unfold stamp_ok in Hs.
  apply andb_true_iff in Hs as [[[Hg Hm]%andb_true_iff Hi]%andb_true_iff Hl].
  rewrite pg_timestamptz_exact in Ht by lia.
  assert (stored r = r) as <-.
  { unfold stored. rewrite Ht, pg_timestamptz_exact by lia. rewrite <- Ht. by destruct r. }
  apply chain_wf_snoc; [done| | |done|rewrite Ht; lia|].
  - rewrite Hp. destruct IH as [As _ _]. destruct (decide (l = [])) as [->|Hne].
    + rewrite fmap_nil, bool_decide_eq_true_2, orb_false_r in Hg by done. by rewrite Hg.
    + by rewrite latest_hash_Some.
  - unfold row_hash_ok. rewrite <- Hh. f_equal. unfold row_hash_input, hashed_as.
    rewrite Hid, Ht. by replace (st_hashed_id w) with (st_id w) by lia.
  - intros x Hx. rewrite forallb_forall in Hl. unfold row_lt. rewrite Ht, Hid.
    apply (key_ltb_row x (st_time w, st_id w)). apply Hl, list_elem_of_In.
    by apply list_elem_of_fmap_2.
Qed.

(** ** Stamps out of order are noticed *)

Lemma linked_split h pre r post :
  linked h (pre ++ r :: post) → ar_prev_hash r = tip h pre.
Proof.
  revert h. induction pre as [|x pre IH]; intros h; cbn [app linked].
  - by intros [-> _].
  - intros (_ & _ & Hl). rewrite (IH _ Hl). unfold tip. rewrite last_cons. by destruct (last pre).
Qed.

Lemma appends_nodup base ws l :
  NoDup (ar_id <$> base) → appends base ws l → NoDup (ar_id <$> l).
Proof.
  intros N. induction 1 as [|ws l w r A IH [_ _ _ _ _ Hf]]; [done|].
  rewrite fmap_app. apply NoDup_app. split_and!; [done| |apply NoDup_singleton].
  intros x Hx ->%list_elem_of_singleton. done.
Qed.

Section exact.
  Context `{!PgTimeLaws Hpg} `{!Sha256Laws Hsha} `{!HexLaws Hhex} `{!JsonLaws Hjson}
    `{!ChronoLaws Hchrono} `{!UuidLaws Huuid}.
  (** A table that verifies, and the stamps of its rows. *)
  Context (ws0 : list Stamp) (table : list AuditRow).
  Hypothesis table_linked : linked GENESIS_HASH (sorted_rows table).
  Hypothesis table_wf : ∀ r, r ∈ table → input_wf (row_hash_input r).
  Hypothesis table_ids : NoDup (ar_id <$> table).
  Hypothesis stamps_wf : ∀ w, w ∈ ws0 → valid_time (st_time w).

Lemma table_hash r : r ∈ table → row_hash_ok r.
Proof.
  intros Hr. eapply linked_elem; [exact table_linked|]. unfold sorted_rows.
  by rewrite merge_sort_Permutation.
Qed.

Lemma table_id r r' : r ∈ table → r' ∈ table → ar_id r = ar_id r' → r = r'.
Proof.
  intros (i & Hi)%list_elem_of_lookup (j & Hj)%list_elem_of_lookup E.
  assert (i = j) as ->; [|congruence].
  apply (NoDup_lookup (ar_id <$> table) i j (ar_id r) table_ids); rewrite list_lookup_fmap.
  - by rewrite Hi.
  - by rewrite Hj, E.
Qed.

Lemma same_hash r r' :
  r ∈ table → r' ∈ table → ar_hash r = ar_hash r' → r = r' ∨ hash_accident ws0 table.
Proof.
  intros Hr Hr' E. pose proof (table_hash r Hr) as H1. pose proof (table_hash r' Hr') as H2.
  unfold row_hash_ok in *. rewrite E in H1.
  destruct (compute_audit_hash_inj _ _ _ (table_wf r Hr) (table_wf r' Hr') H1 H2) as [Heq|Hc];
    [left|right; left; eauto].
  apply table_id; [done..|]. apply uuid_to_string_inj. exact (f_equal hi_id Heq).
Qed.

(** The hash covers the time and the identifier. *)
Lemma appended_exact l w r :
  appended l w r → w ∈ ws0 → r ∈ table →
  (st_time w mod 1000 = 0 ∧ st_hashed_id w = st_id w) ∨ hash_accident ws0 table.
Proof.
  intros [Hh Hid Ht _ _ _] Hw Hr. pose proof (table_hash r Hr) as H1. unfold row_hash_ok in H1.
  assert (input_wf (hashed_as w r)) as Hwf.
  { pose proof (table_wf r Hr) as Hi. unfold input_wf in *. cbn in *.
    destruct Hi as (_ & Hi). split; [apply uuid_to_string_utf8|].
    repeat (destruct Hi as [? Hi]; split; [assumption|]). by apply stamps_wf. }
  destruct (compute_audit_hash_inj _ _ _ Hwf (table_wf r Hr) Hh H1) as [Heq|Hc];
    [left|right; right; left; eauto].
  pose proof (f_equal hi_id Heq) as E1. pose proof (f_equal hi_timestamp Heq) as E2. cbn in E1, E2.
  apply uuid_to_string_inj in E1. pose proof (pg_timestamptz_micros (st_time w)). split; congruence.
Qed.

(** What the verification has compared the previous hash of a row with. *)
Lemma prev_hash_cases r :
  r ∈ table →
  ar_prev_hash r = GENESIS_HASH ∨
  ∃ p, p ∈ table ∧ row_le p r ∧ ar_prev_hash r = ar_hash p.
Proof.
  intros Hr. assert (r ∈ sorted_rows table) as (pre & post & E)%list_elem_of_split.
  { unfold sorted_rows. by rewrite merge_sort_Permutation. }
  pose proof table_linked as Hl. rewrite E in Hl. apply linked_split in Hl. unfold tip in Hl.
  destruct (last pre) as [p|] eqn:Hp; [right|by left]. exists p.
  apply last_Some in Hp as [pre' ->]. split_and!; [| |done].
  - assert (p ∈ sorted_rows table) as Hin by (rewrite E; set_solver). revert Hin.
    unfold sorted_rows. by rewrite merge_sort_Permutation.
  - assert (StronglySorted row_le (sorted_rows table)) as Hs
      by apply (StronglySorted_merge_sort row_le).
    rewrite E, <- app_assoc in Hs. cbn in Hs. clear E. induction pre' as [|x pre' IH]; cbn in Hs.
    + apply StronglySorted_inv in Hs as [_ Hs%Forall_cons]. by destruct Hs.
    + apply StronglySorted_inv in Hs as [Hs _]. auto.
Qed.

Lemma hash_not_empty r : r ∈ table → ar_hash r ≠ EmptyString.
Proof.
  intros Hr%table_hash E. unfold row_hash_ok, compute_audit_hash, compute_hash_for_version in Hr.
  destruct (json_to_string _); [|done]. injection Hr as Hr. rewrite E in Hr.
  apply (f_equal String.length) in Hr. by rewrite hex_encode_length, sha256_length in Hr.
Qed.

(** A row that was not the last one when it was written. *)
Lemma appended_after l w r :
  ascending l → (∀ x, x ∈ l → x ∈ table) → appended l w r → r ∈ table →
  (∀ x, x ∈ l → row_lt x r) ∨ hash_accident ws0 table.
Proof.
  intros A Hl Ha Hr.
  destruct (forallb (λ x, key_ltb (row_key x) (row_key r)) l) eqn:E.
  { left. intros x Hx. rewrite forallb_forall in E.
    by apply (key_ltb_row x (row_key r)), E, list_elem_of_In. }
  right. apply forallb_exists_false in E as (x & Hx & Hn).
  destruct (last l) as [m|] eqn:Hm; [|apply last_None in Hm as ->; by apply elem_of_nil in Hx].
  pose proof (last_Some_elem_of _ _ Hm) as Hml.
  assert (row_le x m) as Hxm by (by eapply ascending_last).
  assert (ar_id x ≠ ar_id r) as Hid.
  { intros Ei. apply (ap_fresh _ _ _ Ha). rewrite <- Ei. by apply list_elem_of_fmap_2. }
  assert (ar_prev_hash r = ar_hash m) as Hp.
  { rewrite (ap_prev _ _ _ Ha), latest_hash_Some by (done || by intros ->). cbn. unfold tip. by rewrite Hm. }
  destruct (prev_hash_cases r Hr) as [Hg|(p & Hpt & Hpr & Hph)].
  - right; right. exists m. split; [by apply Hl|congruence].
  - destruct (same_hash p m) as [->|]; [done|by apply Hl|congruence| |done]. exfalso.
    unfold row_le in *. unfold key_ltb, row_key in Hn. cbn in Hn. lia.
Qed.

Lemma appends_exact base ws l :
  chain_wf base → appends base ws l →
  (∀ x, x ∈ l → x ∈ table) → (∀ w, w ∈ ws → w ∈ ws0) →
  in_order (row_key <$> base) ws = true ∨ hash_accident ws0 table.
Proof.
  intros W A. induction A as [|ws l w r A IH Ha]; [by left|]. intros Hl Hw.
  destruct IH as [Ho|]; [intros; apply Hl; set_solver|intros; apply Hw; set_solver| |by right].
  assert (r ∈ table) as Hr by (apply Hl; set_solver).
  destruct (appended_exact l w r Ha) as [[Hm Hi]|]; [apply Hw; set_solver|done| |by right].
  pose proof (appends_sound base ws l W A Ho) as [As _ _].
  destruct (appended_after l w r As) as [Hlt|]; [intros; apply Hl; set_solver|done|done| |by right].
  left. rewrite in_order_snoc, Ho, <- (appends_keys base ws l A Ho). unfold stamp_ok.
  rewrite Hm, Hi, !Z.eqb_refl, andb_true_r. cbn [andb]. apply andb_true_iff. split.
  - destruct (st_genesis w) eqn:Hg; [done|]. destruct l as [|x l]; [exfalso|done].
    pose proof (ap_prev _ _ _ Ha) as Hp. rewrite Hg in Hp. cbn in Hp.
    destruct (prev_hash_cases r Hr) as [E|(p & Hpt & _ & E)]; rewrite Hp in E; [done|].
    by apply (hash_not_empty p).
  - apply forallb_forall. intros k (x & -> & Hx)%list_elem_of_In%list_elem_of_fmap.
    apply key_ltb_row. cbn. specialize (Hlt x Hx). unfold row_lt in Hlt.
    rewrite (ap_id _ _ _ Ha), (ap_time _ _ _ Ha), pg_timestamptz_exact in Hlt by done. exact Hlt.
Qed.

End exact.

(** ** The verification, exactly *)

Section verification.
  Context `{!PgTimeLaws Hpg} `{!Sha256Laws Hsha} `{!HexLaws Hhex} `{!JsonLaws Hjson}
    `{!ChronoLaws Hchrono} `{!UuidLaws Huuid}.

Lemma verify_loop_total pks h c rows :
  (∀ r, r ∈ rows → input_wf (row_hash_input r)) → is_Some (verify_loop pks h c rows).
Proof.
  revert h c. induction rows as [|r rows IH]; intros h c Hwf; cbn [verify_loop]; [by eexists|].
  destruct (compute_audit_hash_total (row_hash_input r)) as [x ->]; [apply Hwf; by left|].
  repeat case_match; try (by eexists). apply IH. intros; apply Hwf; by right.
Qed.

(** The outcome of a full verification of rows appended to a chain that holds. *)
Definition verified_exactly acl caller keys (base : list AuditRow) (ws : list Stamp)
    (l : list AuditRow) : Prop :=
  if in_order (row_key <$> base) ws then
    verify_audit_handler acl caller l keys None (Some true) =
    Some (Ok (MkVerifyReport true (blen l) (blen l) []))
  else
    (∃ rep, verify_audit_handler acl caller l keys None (Some true) = Some (Ok rep) ∧
            vr_ok rep = false) ∨ hash_accident ws l.

Lemma appends_verified acl caller keys base ws l :
  AclSettings_has_control_action acl caller AuditVerify = true →
  chain_wf base → NoDup (ar_id <$> base) → appends base ws l →
  (∀ r, r ∈ l → input_wf (row_hash_input r)) → (∀ w, w ∈ ws → valid_time (st_time w)) →
  verified_exactly acl caller keys base ws l.
Proof.
  intros Hacl W N A Hwf Hval. unfold verified_exactly.
  destruct (in_order (row_key <$> base) ws) eqn:Ho.
  { apply chain_wf_verifies; [done|]. by eapply appends_sound. }
  destruct (decide (l = [])) as [->|Hne].
  { inversion A as [E1 E2|ws' l' w r _ _ E1 E2]; subst; [done|by destruct l']. }
  rewrite verify_full_report by done.
  destruct (verify_loop_total (omap parse_ed25519_pub_from_pem keys) GENESIS_HASH 0 (sorted_rows l))
    as [[n errs] Hv].
  { intros r Hr. apply Hwf. revert Hr. unfold sorted_rows. by rewrite merge_sort_Permutation. }
  rewrite Hv. destruct errs as [|e errs]; [right|left; by eexists].
  apply verify_loop_linked in Hv as [Hv _].
  destruct (appends_exact ws l Hv Hwf (appends_nodup _ _ _ N A) Hval base ws l W A) as [E|]; auto.
  congruence.
Qed.

End verification.

End appends.
