(* ===== verification/AuditWriters.v ===== *)
(** * The writers of the audit table

    The table [audit_logs] has five writers: the repository
    ([PgAuditRepository::record]), the initialization of a root CA, the
    registration of a ceremony, the bootstrap import and the issuing of a
    credential.  This file puts them together: which sequences of their writes
    keep the chain verifiable, and which break it. *)

From stdpp Require Import sorting.
From S2P Require Import Prelude.
From S2P Require Import Interfaces.
From S2P Require Import Protocol.
From S2P Require Import Vhsm.
From S2P Require Import Domain.
From S2P Require Import Effects.
From S2P Require Import Acl.
From S2P Require Import Providers.
From S2P Require Import AuditLog.
From S2P Require Import AuditChain.
From S2P Require Import KeyStore.
From S2P Require Import KeyUseCases.
From S2P Require Import Database.
From S2P Require Import Transactions.
From S2P Require Import VhsmClient.
From S2P Require Import RootCa.
From S2P Require Import Credentials.
From S2P Require Import Bootstrap.
From S2P Require Import AuditOrder.

Section writers.
  Context {P : Type}.
  Context `{Hsha : Sha256} `{Hhex : Hex} `{Hjson : Json} `{Hchrono : Chrono} `{Huuid : UuidFmt}
    `{Hpg : PgTime} `{Hsql : SqlDisplay} `{Hed : Ed25519Lib} `{Unicode} `{Base64} `{ChronoTtl}
    `{UuidBytes} `{CeremonyCodec} `{CredentialCodec}.
  Context (send_request : Entropy → HsmRequest → result HsmResponse AppError).

(** The tables that sequences of committed writes lead to, with the stamps of
    the writes: whatever time the clock of the service gives, whatever rows the
    table holds.  A request for a credential that finds a usable one writes
    nothing. *)
Inductive written : list Stamp → list AuditRow → Prop :=
| written_start : written [] []
| written_record ws l log l' :
    written ws l → record l log = Some (Ok l') →
    written (ws ++ [MkStamp true (al_id log) (al_id log) (al_timestamp log)]) l'
| written_ca_init ws db (p : P) env input out s' :
    written ws (db_audit db) → init_root_ca env input (db, p) = (Done (Ok out), s') →
    written (ws ++ [MkStamp true (ca_audit_id env) (ca_audit_id env) (ca_now env)]) (db_audit s'.1)
| written_ceremony ws db env payload r db' :
    written ws (db_audit db) → register_ceremony_handler env payload db = (Done (Ok r), db') →
    written (ws ++ [MkStamp false (ca_audit_id env) (ca_audit_id env) (ca_now env)]) (db_audit db')
| written_import ws acl caller db (p : P) env input sum s' :
    written ws (db_audit db) →
    import_bootstrap send_request acl env caller input (db, p) = (Done (Ok sum), s') →
    written (ws ++ [MkStamp false (be_audit_id env) (be_audit_id env) (be_now env)]) (db_audit s'.1)
| written_issue ws db (p : P) policy providers env input out db' p' :
    written ws (db_audit db) →
    IssueAgentCredential_execute send_request policy providers env input (db, p) =
      (Done (Ok out), (db', p')) →
    db_audit db' ≠ db_audit db →
    written (ws ++ [MkStamp false (io_credential_id out) (ie_audit_id env) (ie_created_at env)])
      (db_audit db').

Lemma issue_appends policy providers env input db (p : P) out db' p' :
  IssueAgentCredential_execute send_request policy providers env input (db, p) =
    (Done (Ok out), (db', p')) →
  db_audit db' ≠ db_audit db →
  ∃ row, db_audit db' = db_audit db ++ [row] ∧
    appended (db_audit db) (MkStamp false (io_credential_id out) (ie_audit_id env) (ie_created_at env)) row.
Proof.
  intros E Hne. apply execute_ok in E as (_ & tid & conn & role & cb & exp & _ & _ & _ & _ & Hcase).
  destruct Hcase as [(id & blob & e & _ & _ & [= -> ->])|
    (granted & kek & kv & generated & provider & cred & _ & _ & Htx & ->)]; [done|].
  apply issue_tx_ok in Htx as (pl & enc & svc' & role' & sec & hash & _ & _ & _ & _ & _ & _ & _ & _
    & Hh & Hf & ->).
  cbn [db_audit io_credential_id] in *. eexists. split; [reflexivity|]. by split.
Qed.

(** Each writer appends a row with the latest hash. *)
Lemma written_appends ws l : written ws l → appends [] ws l.
Proof.
  induction 1 as [|ws l log l' W IH E|ws db p env input out s' W IH E|ws db env payload r db' W IH E
    |ws acl caller db p env input sum s' W IH E|ws db p policy providers env input out db' p' W IH E Hne].
  - constructor.
  - apply record_write_inv in E as (row & Hrow & -> & Hf).
    apply record_row_inv in Hrow as (Hc & Hin & Hid & Hts & Hprev & Hs).
    apply appends_snoc; [done|]. rewrite <- Hid, <- Hts.
    apply appended_stored; [unfold row_hash_ok; by rewrite Hin|done|by unfold unsigned; rewrite Hs|done].
  - apply init_root_ca_ok in E as (_ & _ & _ & k & v & row & -> & _ & Hp & Hok & Hs & Hn & Hi & Hf).
    apply appends_snoc; [done|]. rewrite <- Hn, <- Hi.
    apply appended_stored; [done|done|by unfold unsigned; rewrite Hs|done].
  - apply register_ceremony_ok in E as (row & -> & Hp & Hok & Hs & Hn & Hi & Hf).
    apply appends_snoc; [done|]. rewrite <- Hn, <- Hi.
    apply appended_stored; [done|done|by unfold unsigned; rewrite Hs|done].
  - apply import_bootstrap_ok in E as (_ & _ & _ & _ & nt & nc & row & [-> _ _ Hp Hok Hs Hn Hi _ Hf]).
    apply appends_snoc; [done|]. rewrite <- Hn, <- Hi.
    apply appended_stored; [done|done|by unfold unsigned; rewrite Hs|done].
  - apply issue_appends in E as (row & -> & Ha); [|done]. by apply appends_snoc.
Qed.

Lemma written_wf `{!PgTimeLaws Hpg} ws l : written ws l → in_order [] ws = true → chain_wf l.
Proof. intros W Ho. eapply (appends_sound []); [apply chain_wf_nil|by apply written_appends|done]. Qed.

(** C17: which audit tables verify.  After any sequence of committed writes by
    the five writers of the table (records, root CA initializations,
    ceremonies, bootstrap imports and issued credentials), each of which read
    the latest hash after the write before it had committed, a full
    verification accepts every row exactly when the writes are in order: the
    first one is a record or a root CA initialization, every time is a whole
    number of microseconds, every row is hashed under the identifier it is
    stored under, and each row is later than the ones before it, or at the same
    time with a larger identifier.  Otherwise the verification reports an
    error, unless the hashes collide on payloads of the table or give the
    genesis hash. *)
Theorem writers_chain_exact `{!PgTimeLaws Hpg} `{!Sha256Laws Hsha} `{!HexLaws Hhex}
    `{!JsonLaws Hjson} `{!ChronoLaws Hchrono} `{!UuidLaws Huuid} acl caller keys ws l :
  AclSettings_has_control_action acl caller AuditVerify = true → written ws l →
  (∀ r, r ∈ l → input_wf (row_hash_input r)) → (∀ w, w ∈ ws → valid_time (st_time w)) →
  if in_order [] ws then
    verify_audit_handler acl caller l keys None (Some true) =
    Some (Ok (MkVerifyReport true (blen l) (blen l) []))
  else
    (∃ rep, verify_audit_handler acl caller l keys None (Some true) = Some (Ok rep) ∧
            vr_ok rep = false) ∨ hash_accident ws l.
Proof.
  intros Hacl W%written_appends. apply (appends_verified acl caller keys [] ws l Hacl chain_wf_nil);
    [constructor|done].
Qed.

(** A write with identifier [id] at time [t], at microsecond precision and
    after every row of the table. *)
Definition on_time (l : list AuditRow) (id t : Z) : Prop :=
  t mod 1000 = 0 ∧
  ∀ r, r ∈ l → ar_created_at r < t ∨ (ar_created_at r = t ∧ ar_id r < id).

Lemma on_time_row `{!PgTimeLaws Hpg} l id t row :
  on_time l id t → ar_id row = id → ar_created_at row = t → ∀ x, x ∈ l → row_lt x (stored row).
Proof.
  intros [Hm Hlt] Hid Ht x Hx. unfold row_lt. cbn [ar_created_at ar_id stored].
  rewrite Hid, Ht, pg_timestamptz_exact by done. by apply Hlt.
Qed.

(** The lock does not protect the chain from the repository, which does not
    take it: a record that has read the latest hash before a ceremony commits
    and is inserted after it leaves a chain that does not verify. *)
Theorem lock_not_taken_by_record `{!PgTimeLaws Hpg} acl caller keys ws db env payload r db' log l2 :
  written ws (db_audit db) → in_order [] ws = true → db_audit db ≠ [] →
  on_time (db_audit db) (ca_audit_id env) (ca_now env) →
  register_ceremony_handler env payload db = (Done (Ok r), db') →
  on_time (db_audit db') (al_id log) (al_timestamp log) →
  record_write (db_audit db') (record_read (db_audit db)) log = Some (Ok l2) →
  latest_hash (db_audit db') ≠ latest_hash (db_audit db) →
  ∀ rep, verify_audit_handler acl caller l2 keys None (Some true) = Some (Ok rep) →
    vr_ok rep = false.
Proof.
  intros W Ho Hne Ht E Ht2 E2 Hdiff rep Hv. pose proof (written_wf _ _ W Ho) as [A _ _].
  apply register_ceremony_ok in E as (row' & -> & _ & _ & _ & Hn & Hi & _). cbn [db_audit set_audit] in *.
  assert (ascending (db_audit db ++ [stored row'])) as A1
    by exact (ascending_snoc _ _ A (on_time_row _ _ _ _ Ht Hi Hn)).
  apply record_write_inv in E2 as (row & Hrow & -> & _).
  apply record_row_inv in Hrow as (_ & _ & Hid & Hts & Hp & _).
  destruct (vr_ok rep) eqn:Hok; [|done]. exfalso.
  apply verify_full_ok in Hv; [|done]. rewrite sorted_rows_ascending in Hv
    by exact (ascending_snoc _ _ A1 (on_time_row _ _ _ _ Ht2 Hid Hts)).
  apply linked_snoc in Hv as (_ & Hv & _). cbn [ar_prev_hash stored] in Hv. rewrite Hp in Hv.
  apply Hdiff. unfold record_read in Hv.
  rewrite !latest_hash_Some in * by (done || by destruct (db_audit db)).
  cbn in Hv. by rewrite Hv.
Qed.

Lemma sorted_rows_perm l l' : ascending l' → l ≡ₚ l' → sorted_rows l = l'.
Proof.
  intros A Hperm. unfold sorted_rows.
  apply (StronglySorted_unique_strong row_le); [|apply (StronglySorted_merge_sort row_le)|
    by apply ascending_le|by rewrite merge_sort_Permutation].
  intros x y Hx Hy. rewrite merge_sort_Permutation, Hperm in Hx. by apply (ascending_unique l').
Qed.

(** The lock orders the commits but not the timestamps, which an import takes
    before it waits for the lock: when an import that started later commits
    first, the chain no longer verifies. *)
Theorem late_commit_breaks_chain `{!PgTimeLaws Hpg} vacl vcaller keys acl caller1 caller2 ws db (p : P)
    env1 env2 input1 input2 sum1 sum2 s1 s2 :
  written ws (db_audit db) → in_order [] ws = true → db_audit db ≠ [] →
  on_time (db_audit db) (be_audit_id env1) (be_now env1) →
  on_time (db_audit db) (be_audit_id env2) (be_now env2) → be_now env1 < be_now env2 →
  import_bootstrap send_request acl env2 caller2 input2 (db, p) = (Done (Ok sum2), s1) →
  import_bootstrap send_request acl env1 caller1 input1 s1 = (Done (Ok sum1), s2) →
  latest_hash (db_audit s1.1) ≠ latest_hash (db_audit db) →
  ∀ rep, verify_audit_handler vacl vcaller (db_audit s2.1) keys None (Some true) = Some (Ok rep) →
    vr_ok rep = false.
Proof.
  intros W Ho Hne Ht1 Ht2 Hlt E2 E1 Hdiff rep Hv. pose proof (written_wf _ _ W Ho) as [A _ _].
  destruct s1 as [db1 p1]. cbn [fst] in *.
  apply import_bootstrap_ok in E2 as (_ & _ & _ & _ & nt2 & nc2 & row2 & [Hs1 _ _ _ _ _ Hn2 Hi2 _ _]).
  cbn [fst] in Hs1. subst db1.
  apply import_bootstrap_ok in E1 as (_ & _ & _ & _ & nt1 & nc1 & row1 & [Hs2 _ _ Hp1 _ _ Hn1 Hi1 _ _]).
  rewrite Hs2 in Hv. cbn [db_audit set_audit] in *. clear Hs2.
  destruct (vr_ok rep) eqn:Hok; [|done]. exfalso. apply verify_full_ok in Hv; [|done].
  assert (ascending (db_audit db ++ [stored row1])) as A1
    by exact (ascending_snoc _ _ A (on_time_row _ _ _ _ Ht1 Hi1 Hn1)).
  assert (ascending (db_audit db ++ [stored row2])) as A2
    by exact (ascending_snoc _ _ A (on_time_row _ _ _ _ Ht2 Hi2 Hn2)).
  rewrite (sorted_rows_perm _ ((db_audit db ++ [stored row1]) ++ [stored row2])) in Hv.
  - apply linked_snoc in Hv as [Hv _]. apply linked_snoc in Hv as (_ & Hv & _).
    cbn [ar_prev_hash stored] in Hv. apply Hdiff.
    rewrite Hp1, latest_hash_Some in Hv by (done || by destruct (db_audit db)).
    rewrite !latest_hash_Some by (done || by destruct (db_audit db)). cbn in Hv. by rewrite Hv.
  - apply ascending_snoc; [done|]. intros x [Hx|Hx]%elem_of_app;
      [exact (on_time_row _ _ _ _ Ht2 Hi2 Hn2 x Hx)|].
    apply list_elem_of_singleton in Hx as ->. left. cbn [ar_created_at stored].
    destruct Ht1, Ht2. by rewrite Hn1, Hn2, !pg_timestamptz_exact.
  - rewrite <- !app_assoc. apply Permutation_app_head, Permutation_swap.
Qed.

End writers.

(** ** Concrete tables *)

Section WriterWitnesses.
  Import Concrete ConcreteAudit ConcretePg ConcreteTargets AsciiUnicode.

#[local] Existing Instances unary_codec hex_uuid text_ceremony.
#[local] Abbreviation send := (daemon_transport open_state 0).

(** One record, and a database with it. *)
Definition one_db : KmsDb := set_audit ca_db db_one.
(** A ceremony and an import after it. *)
Definition two_db : KmsDb := (ceremony_demo one_db 2 2000).2.
Definition import_after (id now : Z) (s : KmsDb * unit) : KmsDb * unit := (import_demo id now s).2.

Definition on_timeb (l : list AuditRow) (id t : Z) : bool :=
  (t mod 1000 =? 0) &&
  forallb (λ r, (ar_created_at r <? t) || ((ar_created_at r =? t) && (ar_id r <? id))) l.

Lemma on_timeb_spec l id t : on_timeb l id t = true → on_time l id t.
Proof.
  unfold on_timeb, on_time. intros [Ht Hl]%andb_true_iff. rewrite forallb_forall in Hl.
  split; [lia|]. intros r Hr%list_elem_of_In%Hl. lia.
Qed.

(** The stamps of the two tables. *)
Definition one_stamps : list Stamp := [MkStamp true 1 1 1000].
Definition ceremony_stamp : Stamp :=
  MkStamp false (ca_audit_id (ca_env 2 2000)) (ca_audit_id (ca_env 2 2000)) (ca_now (ca_env 2 2000)).
Definition two_stamps : list Stamp := one_stamps ++ [ceremony_stamp].

Lemma one_written : written (P := unit) send one_stamps (db_audit one_db).
Proof.
  apply (written_record send [] [] (demo_log 1 1000)); [apply written_start|vm_compute; reflexivity].
Qed.

Lemma two_written : written (P := unit) send two_stamps (db_audit two_db).
Proof.
  apply (written_ceremony send one_stamps one_db (ca_env 2 2000) unseal_ceremony 102 two_db);
    [exact one_written|vm_compute; reflexivity].
Qed.

(** A ceremony before any other row. *)
Definition early_db : KmsDb := (ceremony_demo ca_db 2 2000).2.
Lemma early_written : written (P := unit) send [ceremony_stamp] (db_audit early_db).
Proof.
  apply (written_ceremony send [] ca_db (ca_env 2 2000) unseal_ceremony 102 early_db);
    [apply written_start|vm_compute; reflexivity].
Qed.

Lemma rows_wfb l :
  forallb (λ r, input_wfb (row_hash_input r)) l = true → ∀ r, r ∈ l → input_wf (row_hash_input r).
Proof. rewrite forallb_forall. intros Hl r Hr. by apply input_wfb_spec, Hl, list_elem_of_In. Qed.

Lemma stamps_wfb (ws : list Stamp) :
  forallb (λ w, (0 <=? st_time w) && (st_time w <? 253402300800 * 1000000000)) ws = true →
  ∀ w, w ∈ ws → valid_time (st_time w).
Proof.
  rewrite forallb_forall. intros Hl w Hw%list_elem_of_In%Hl. unfold valid_time. lia.
Qed.

Lemma writers_chain_exact_witness :
  verify_audit_handler cli_acl "kms-cli" (db_audit two_db) [] None (Some true) =
    Some (Ok (MkVerifyReport true 2 2 [])) ∧
  ((∃ rep, verify_audit_handler cli_acl "kms-cli" (db_audit early_db) [] None (Some true) =
     Some (Ok rep) ∧ vr_ok rep = false) ∨
   hash_accident [ceremony_stamp] (db_audit early_db)).
Proof.
  split.
  - apply (writers_chain_exact (P := unit) send cli_acl "kms-cli" [] two_stamps (db_audit two_db));
      [vm_compute; reflexivity|exact two_written|apply rows_wfb; vm_compute; reflexivity|
       apply stamps_wfb; vm_compute; reflexivity].
  - apply (writers_chain_exact (P := unit) send cli_acl "kms-cli" [] [ceremony_stamp]
      (db_audit early_db));
      [vm_compute; reflexivity|exact early_written|apply rows_wfb; vm_compute; reflexivity|
       apply stamps_wfb; vm_compute; reflexivity].
Defined.

(** The verification of a table reports a failure. *)
Definition reported_broken (l : list AuditRow) : Prop :=
  ∃ rep, verify_audit_handler cli_acl "kms-cli" l [] None (Some true) = Some (Ok rep) ∧
    vr_ok rep = false.

Lemma reported_broken_intro l :
  is_Some (verify_audit_handler cli_acl "kms-cli" l [] None (Some true) ≫= (λ r,
    match r with Ok rep => Some rep | Err _ => None end)) →
  (∀ rep, verify_audit_handler cli_acl "kms-cli" l [] None (Some true) = Some (Ok rep) →
     vr_ok rep = false) → reported_broken l.
Proof.
  intros [rep Hr] H. unfold reported_broken.
  destruct (verify_audit_handler cli_acl "kms-cli" l [] None (Some true)) as [[rep'|e]|]; try done.
  eauto.
Qed.

Definition raced : list AuditRow :=
  table_of (record_write (db_audit two_db) (record_read (db_audit one_db)) (demo_log 3 3000)).

Lemma lock_not_taken_by_record_witness : reported_broken raced.
Proof.
  apply reported_broken_intro; [vm_compute; by eexists|].
  apply (lock_not_taken_by_record (P := unit) send cli_acl "kms-cli" [] one_stamps one_db (ca_env 2 2000)
           unseal_ceremony 102 two_db (demo_log 3 3000) raced).
  - exact one_written.
  - vm_compute. reflexivity.
  - vm_compute. discriminate.
  - apply on_timeb_spec. vm_compute. reflexivity.
  - vm_compute. reflexivity.
  - apply on_timeb_spec. vm_compute. reflexivity.
  - vm_compute. reflexivity.
  - vm_compute. discriminate.
Defined.

Definition second_first : KmsDb * unit := import_after 4 4000 (one_db, ()).
Definition first_second : KmsDb * unit := import_after 3 3000 second_first.

Lemma late_commit_breaks_chain_witness : reported_broken (db_audit first_second.1).
Proof.
  apply reported_broken_intro; [vm_compute; by eexists|].
  apply (late_commit_breaks_chain (P := unit) send cli_acl "kms-cli" [] import_acl "kms-cli" "kms-cli"
    one_stamps one_db () (import_env 3 3000) (import_env 4 4000) import_input import_input
    (import_sum (import_demo 3 3000 second_first).1) (import_sum (import_demo 4 4000 (one_db, ())).1)
    second_first first_second).
  - exact one_written.
  - vm_compute. reflexivity.
  - vm_compute. discriminate.
  - apply on_timeb_spec. vm_compute. reflexivity.
  - apply on_timeb_spec. vm_compute. reflexivity.
  - reflexivity.
  - vm_compute. reflexivity.
  - vm_compute. reflexivity.
  - vm_compute. discriminate.
Defined.

End WriterWitnesses.
