(* ===== verification/IssueRace.v ===== *)
(** * Credential requests side by side

    The requests of [issue_agent_credential.rs] run as tasks of one runtime: each
    looks for a usable credential, and when there is none begins a transaction
    that revokes the live credentials of its service at the target, inserts a
    new one and commits.  Nothing in the schema keeps two of them apart.  This
    file runs their statements in any order Postgres admits at its default
    level: a statement sees the rows committed before it starts, an update waits
    for the rows another transaction has updated and passes over those that no
    longer match, and an insertion waits for an uncommitted row with its id.

    Under any interleaving the ids stay unique and every credential answered
    is one of its service at its target; but two overlapping first requests
    both get a credential, and both stay live. *)

From S2P Require Import Prelude.
From S2P Require Import Interfaces.
From S2P Require Import Protocol.
From S2P Require Import Vhsm.
From S2P Require Import Domain.
From S2P Require Import Effects.
From S2P Require Import Acl.
From S2P Require Import Providers.
From S2P Require Import AuditLog.
From S2P Require Import AuditChain.
From S2P Require Import KeyStore.
From S2P Require Import KeyUseCases.
From S2P Require Import Database.
From S2P Require Import Transactions.
From S2P Require Import VhsmClient.
From S2P Require Import Credentials.

(** ** Statements *)

Inductive IssuePhase :=
| IssueChecking
| IssueBegun
| IssueRevoking (hits : list Z)
| IssueRevoked (held : list Z)
| IssueInserted (held : list Z).

(** A request, with the row it will insert. *)
Record IssueTask := MkIssueTask {
  it_service : string;
  it_target : Z;
  it_row : ProvisionedCredential;
  it_phase : IssuePhase }.

(** The committed rows, the tasks, and the service, target and credential of
    every answer. *)
Record IssueState := MkIssueState {
  is_table : list ProvisionedCredential;
  is_tasks : gmap nat IssueTask;
  is_answers : list (string * Z * Z) }.

(** The rows a transaction has updated and not yet committed. *)
Definition held (t : IssueTask) : list Z :=
  match it_phase t with IssueRevoked ids | IssueInserted ids => ids | _ => [] end.

Definition set_phase (t : IssueTask) (ph : IssuePhase) : IssueTask :=
  MkIssueTask (it_service t) (it_target t) (it_row t) ph.

Definition issue_phase (s : IssueState) (i : nat) (t : IssueTask) (ph : IssuePhase) : IssueState :=
  MkIssueState (is_table s) (<[i := set_phase t ph]> (is_tasks s)) (is_answers s).

Definition usable_id (l : list ProvisionedCredential) (now : Z) (service_id : string)
    (target_id : Z) : option Z :=
  fst ∘ fst <$> fetch_latest_active_provisioned_credential_for_service_target
    (set_provisioned (MkKmsDb [] [] [] [] [] []) l) now service_id target_id.

(** The look-up on the pool: an existing credential is the answer. *)
Definition issue_check (s : IssueState) (i : nat) (now : Z) : option IssueState :=
  t ← is_tasks s !! i;
  match it_phase t with
  | IssueChecking => Some
      match usable_id (is_table s) now (it_service t) (it_target t) with
      | Some id => MkIssueState (is_table s) (delete i (is_tasks s))
                     ((it_service t, it_target t, id) :: is_answers s)
      | None => issue_phase s i t IssueBegun
      end
  | _ => None
  end.

(** The update of the live rows: what it sees when it starts, *)
Definition revoke_starts (s : IssueState) (i : nat) : option IssueState :=
  t ← is_tasks s !! i;
  match it_phase t with
  | IssueBegun => Some (issue_phase s i t (IssueRevoking (pc_id <$>
      filter (λ r, live_for (it_service t) (it_target t) r = true) (is_table s))))
  | _ => None
  end.

(** and, once no other transaction has them updated, which of them still
    match. *)
Definition rows_free (s : IssueState) (i : nat) (ids : list Z) : Prop :=
  map_Forall (λ j t, j = i ∨ Forall (λ id, id ∉ held t) ids) (is_tasks s).
#[export] Instance rows_free_dec s i ids : Decision (rows_free s i ids).
Proof. unfold rows_free. apply _. Defined.

Definition revoke_ends (s : IssueState) (i : nat) : option IssueState :=
  t ← is_tasks s !! i;
  match it_phase t with
  | IssueRevoking hits =>
      if decide (rows_free s i hits) then Some (issue_phase s i t (IssueRevoked
        (pc_id <$> filter (λ r, pc_id r ∈ hits ∧ pc_revoked r = false) (is_table s))))
      else None
  | _ => None
  end.

(** The insertion: an id that is taken ends the request, and one that an
    uncommitted row has is waited for. *)
Definition id_free (s : IssueState) (i : nat) (id : Z) : Prop :=
  map_Forall (λ j t, j = i ∨
      match it_phase t with IssueInserted _ => pc_id (it_row t) ≠ id | _ => True end) (is_tasks s).
#[export] Instance id_free_dec s i id : Decision (id_free s i id).
Proof. apply map_Forall_dec. intros j t. destruct (it_phase t); apply _. Defined.

Definition issue_rollback (s : IssueState) (i : nat) : IssueState :=
  MkIssueState (is_table s) (delete i (is_tasks s)) (is_answers s).

Definition issue_insert (s : IssueState) (i : nat) : option IssueState :=
  t ← is_tasks s !! i;
  match it_phase t with
  | IssueRevoked ids =>
      if decide (pc_id (it_row t) ∈ (pc_id <$> is_table s)) then Some (issue_rollback s i)
      else if decide (id_free s i (pc_id (it_row t))) then
        Some (issue_phase s i t (IssueInserted ids))
      else None
  | _ => None
  end.

(** The commit, after the status of the row was set to ACTIVE. *)
Definition revoke_ids (ids : list Z) (l : list ProvisionedCredential) : list ProvisionedCredential :=
  (λ r, if decide (pc_id r ∈ ids) then set_revoked r else r) <$> l.

Definition issue_commit (s : IssueState) (i : nat) : option IssueState :=
  t ← is_tasks s !! i;
  match it_phase t with
  | IssueInserted ids => Some (MkIssueState
      (revoke_ids ids (is_table s) ++
       [set_pc_status (ProvisioningStatus_as_str PsActive) (it_row t)])
      (delete i (is_tasks s))
      ((it_service t, it_target t, pc_id (it_row t)) :: is_answers s))
  | _ => None
  end.

(** A request begins with a row of its service at its target. *)
Definition row_for (service_id : string) (target_id : Z) (r : ProvisionedCredential) : Prop :=
  pc_service_id r = service_id ∧ pc_target_id r = target_id ∧ pc_revoked r = false.

(** [G] says when a request may begin beside the others. *)
Inductive issue_step (G : IssueState → string → Z → Prop) : IssueState → IssueState → Prop :=
| issue_spawns i service_id target_id row s :
    is_tasks s !! i = None → row_for service_id target_id row → G s service_id target_id →
    issue_step G s (MkIssueState (is_table s)
      (<[i := MkIssueTask service_id target_id row IssueChecking]> (is_tasks s)) (is_answers s))
| issue_checks i now s s' : issue_check s i now = Some s' → issue_step G s s'
| issue_revokes i s s' : revoke_starts s i = Some s' → issue_step G s s'
| issue_waits i s s' : revoke_ends s i = Some s' → issue_step G s s'
| issue_inserts i s s' : issue_insert s i = Some s' → issue_step G s s'
| issue_commits i s s' : issue_commit s i = Some s' → issue_step G s s'
| issue_fails i s : issue_step G s (issue_rollback s i).

Definition issue_start (l : list ProvisionedCredential) : IssueState := MkIssueState l ∅ [].
Definition issue_reachable (G : IssueState → string → Z → Prop) (l : list ProvisionedCredential)
    (s : IssueState) : Prop :=
  rtc (issue_step G) (issue_start l) s.

(** At any time, and only when no other request of the service at the target
    is running. *)
Definition any_time (s : IssueState) (service_id : string) (target_id : Z) : Prop := True.
Definition none_running (s : IssueState) (service_id : string) (target_id : Z) : Prop :=
  map_Forall (λ _ t, ¬ (it_service t = service_id ∧ it_target t = target_id)) (is_tasks s).

(** ** What a step does *)

(** Where a task that moves on within its request arrives. *)
Definition arrives (s : IssueState) (i : nat) (t : IssueTask) (ph : IssuePhase) : Prop :=
  match ph with
  | IssueChecking => False
  | IssueBegun => it_phase t = IssueChecking
  | IssueRevoking hits =>
      hits = pc_id <$> filter (λ r, live_for (it_service t) (it_target t) r = true) (is_table s)
  | IssueRevoked ids => ∃ hits, it_phase t = IssueRevoking hits ∧
      ids = pc_id <$> filter (λ r, pc_id r ∈ hits ∧ pc_revoked r = false) (is_table s)
  | IssueInserted ids => it_phase t = IssueRevoked ids ∧
      (pc_id (it_row t) ∉ (pc_id <$> is_table s)) ∧ id_free s i (pc_id (it_row t))
  end.

Variant issue_move (G : IssueState → string → Z → Prop) (s : IssueState) : IssueState → Prop :=
| move_spawn i service_id target_id row :
    is_tasks s !! i = None → row_for service_id target_id row → G s service_id target_id →
    issue_move G s (MkIssueState (is_table s)
      (<[i := MkIssueTask service_id target_id row IssueChecking]> (is_tasks s)) (is_answers s))
| move_phase i t ph :
    is_tasks s !! i = Some t → arrives s i t ph → issue_move G s (issue_phase s i t ph)
| move_reuse i t now id :
    is_tasks s !! i = Some t →
    usable_id (is_table s) now (it_service t) (it_target t) = Some id →
    issue_move G s (MkIssueState (is_table s) (delete i (is_tasks s))
      ((it_service t, it_target t, id) :: is_answers s))
| move_drop i : issue_move G s (issue_rollback s i)
| move_commit i t ids s' :
    is_tasks s !! i = Some t → it_phase t = IssueInserted ids → issue_commit s i = Some s' →
    issue_move G s s'.

Lemma issue_step_move G s s' : issue_step G s s' → issue_move G s s'.
Proof.
  destruct 1 as [|i now s s' E|i s s' E|i s s' E|i s s' E|i s s' E|]; [by constructor| | | | | |constructor].
  all: pose proof E as E0; apply bind_Some in E as (t & Ht & E);
    destruct (it_phase t) eqn:Hp; try discriminate E.
  - injection E as <-. destruct (usable_id _ _ _ _) eqn:Hu; [by eapply move_reuse|by apply move_phase].
  - injection E as <-. by apply move_phase.
  - case_decide; [|discriminate E]. injection E as <-. apply move_phase; [done|by eexists].
  - case_decide; [injection E as <-; constructor|].
    case_decide; [|discriminate E]. injection E as <-. by apply move_phase.
  - by eapply move_commit.
Qed.

(** ** Every interleaving *)

Definition answered (l : list ProvisionedCredential) (a : string * Z * Z) : Prop :=
  ∃ r, r ∈ l ∧ pc_service_id r = a.1.1 ∧ pc_target_id r = a.1.2 ∧ pc_id r = a.2.

Definition inserted (t : IssueTask) : Prop := ∃ ids, it_phase t = IssueInserted ids.

Record issue_inv (s : IssueState) : Prop := {
  iv_ids : NoDup (pc_id <$> is_table s);
  iv_row i t : is_tasks s !! i = Some t → row_for (it_service t) (it_target t) (it_row t);
  iv_fresh i t : is_tasks s !! i = Some t → inserted t → pc_id (it_row t) ∉ (pc_id <$> is_table s);
  iv_pending i j t u : is_tasks s !! i = Some t → is_tasks s !! j = Some u → i ≠ j →
    inserted t → inserted u → pc_id (it_row t) ≠ pc_id (it_row u);
  iv_answers : Forall (answered (is_table s)) (is_answers s) }.

Lemma revoke_ids_ids ids l : pc_id <$> revoke_ids ids l = pc_id <$> l.
Proof.
  unfold revoke_ids. rewrite <- list_fmap_compose. apply list_fmap_ext. intros i r _.
  cbn. by case_decide.
Qed.

Lemma revoke_ids_elem ids l r :
  r ∈ revoke_ids ids l ↔ ∃ r0, r0 ∈ l ∧ r = if decide (pc_id r0 ∈ ids) then set_revoked r0 else r0.
Proof. unfold revoke_ids. rewrite list_elem_of_fmap. naive_solver. Qed.

Lemma revoke_ids_live ids l r :
  r ∈ revoke_ids ids l → pc_revoked r = false → r ∈ l ∧ pc_id r ∉ ids.
Proof. rewrite revoke_ids_elem. intros (r0 & Hr & ->). by case_decide. Qed.

Lemma answered_commit ids l row a : answered l a → answered (revoke_ids ids l ++ [row]) a.
Proof.
  intros (r & Hr & Hs & Ht & Hi). exists (if decide (pc_id r ∈ ids) then set_revoked r else r).
  split; [apply elem_of_app; left; apply revoke_ids_elem; eauto|]. by case_decide.
Qed.

Lemma usable_id_Some l now svc tid id :
  usable_id l now svc tid = Some id →
  ∃ r, r ∈ l ∧ usable svc tid now r = true ∧ id = pc_id r.
Proof.
  unfold usable_id. intros ([[i b] e] & Hf & ->)%fmap_Some.
  apply fetch_latest_Some in Hf as (r & Hr & Hu & -> & _). by exists r.
Qed.

Lemma usable_id_answered l now svc tid id :
  usable_id l now svc tid = Some id → answered l (svc, tid, id).
Proof.
  intros (r & Hr & Hu & ->)%usable_id_Some. exists r. unfold usable in Hu.
  rewrite !andb_true_iff, live_for_true in Hu. naive_solver.
Qed.

Lemma id_free_task s i id j t :
  id_free s i id → is_tasks s !! j = Some t → j ≠ i → inserted t → pc_id (it_row t) ≠ id.
Proof.
  intros Hn Hj Hne [ids Hp]. destruct (Hn j t Hj) as [?|Hq]; [done|]. by rewrite Hp in Hq.
Qed.

(** A move within a request, or to its end, without a commit. *)
Lemma issue_inv_tasks s tasks :
  issue_inv s →
  (∀ i t, tasks !! i = Some t → is_tasks s !! i = Some t ∨
     (row_for (it_service t) (it_target t) (it_row t) ∧
      (inserted t → (pc_id (it_row t) ∉ (pc_id <$> is_table s)) ∧
         ∀ j u, is_tasks s !! j = Some u → j ≠ i → inserted u → pc_id (it_row u) ≠ pc_id (it_row t)) ∧
      ∀ j u, tasks !! j = Some u → j ≠ i → is_tasks s !! j = Some u)) →
  issue_inv (MkIssueState (is_table s) tasks (is_answers s)).
Proof.
  intros [Hids Hrow Hfr Hp Ha] Hk. split; cbn [is_table is_tasks is_answers]; [done| | | |done].
  - intros i t Hi. destruct (Hk i t Hi) as [?|[? _]]; [by eapply Hrow|done].
  - intros i t Hi Hin. destruct (Hk i t Hi) as [?|(_ & Hx & _)]; [by eapply Hfr|by apply Hx].
  - intros i j t u Hi Hj Hne Ti Tj.
    destruct (Hk i t Hi) as [Hi'|(_ & Hx & Ho)].
    + destruct (Hk j u Hj) as [Hj'|(_ & Hx & _)]; [by eapply (Hp i j)|].
      apply Hx with (j := i); done.
    + apply not_eq_sym, (proj2 (Hx Ti) j); [by apply Ho|done..].
Qed.

Lemma issue_inv_delete s i : issue_inv s →
  issue_inv (MkIssueState (is_table s) (delete i (is_tasks s)) (is_answers s)).
Proof.
  intros I. apply issue_inv_tasks; [done|]. intros j t [_ Hj]%lookup_delete_Some. by left.
Qed.

Lemma issue_inv_insert s i t :
  issue_inv s → row_for (it_service t) (it_target t) (it_row t) →
  (inserted t → (pc_id (it_row t) ∉ (pc_id <$> is_table s)) ∧ id_free s i (pc_id (it_row t))) →
  issue_inv (MkIssueState (is_table s) (<[i := t]> (is_tasks s)) (is_answers s)).
Proof.
  intros I Hr Hin. apply issue_inv_tasks; [done|].
  intros j u [[-> ->]|[Hne Hj]]%lookup_insert_Some; [|by left]. right. split_and!; [done| |].
  - intros Hu. destruct (Hin Hu) as [Hf Hn]. split; [done|]. intros k v Hk Hne.
    by apply (id_free_task _ _ _ _ _ Hn Hk).
  - intros k v Hk Hne. by rewrite lookup_insert_ne in Hk.
Qed.

Lemma issue_inv_answer s a : issue_inv s → answered (is_table s) a →
  issue_inv (MkIssueState (is_table s) (is_tasks s) (a :: is_answers s)).
Proof. intros [] Ha. split; try done. by constructor. Qed.

Lemma issue_inv_commit s i s' : issue_inv s → issue_commit s i = Some s' → issue_inv s'.
Proof.
  intros [Hids Hrow Hfr Hp Ha] (t & Ht & E)%bind_Some.
  destruct (it_phase t) as [| | | |ids] eqn:Hph; [discriminate E..|]. injection E as <-.
  assert (inserted t) as Hin by (by exists ids).
  split; cbn [is_table is_tasks is_answers].
  - rewrite fmap_app, revoke_ids_ids. apply NoDup_app. cbn [fmap list_fmap].
    split_and!; [done| |apply NoDup_singleton]. intros x Hx ->%list_elem_of_singleton.
    by apply (Hfr i t).
  - intros j u [_ Hj]%lookup_delete_Some. by eapply Hrow.
  - intros j u [Hne Hj]%lookup_delete_Some Hu. rewrite fmap_app, revoke_ids_ids.
    intros [Hx|Hx%list_elem_of_singleton]%elem_of_app; [by apply (Hfr j u)|].
    by apply (Hp j i u t).
  - intros j k u v [_ Hj]%lookup_delete_Some [_ Hk]%lookup_delete_Some. by apply (Hp j k).
  - constructor; [|eapply Forall_impl; [exact Ha|]; intros a; apply answered_commit].
    destruct (Hrow i t Ht) as (Hs & Hd & _).
    exists (set_pc_status (ProvisioningStatus_as_str PsActive) (it_row t)). split; [|done].
    apply elem_of_app. right. by apply list_elem_of_singleton.
Qed.

Lemma issue_step_inv G s s' : issue_inv s → issue_step G s s' → issue_inv s'.
Proof.
  intros I St%issue_step_move. destruct St as [i svc tid row Hi Hr _|i t ph Ht Har|i t now id Ht Hu|i|].
  - apply issue_inv_insert; [done|done|]. intros [ids [=]].
  - apply issue_inv_insert; [done|exact (iv_row _ I i t Ht)|].
    intros [ids Hp]. cbn in Hp. subst ph. by destruct Har.
  - apply (issue_inv_answer (MkIssueState _ _ _)); [by apply issue_inv_delete|].
    by eapply usable_id_answered.
  - by apply issue_inv_delete.
  - by eapply issue_inv_commit.
Qed.

Lemma issue_reachable_inv G l s :
  NoDup (pc_id <$> l) → issue_reachable G l s → issue_inv s.
Proof.
  intros Hl R. assert (issue_inv (issue_start l)) as I0.
  { split; cbn; try done. }
  revert I0. unfold issue_reachable in R. induction R; eauto using issue_step_inv.
Qed.

(** ** One request of a service at a target at a time *)

Definition one_live (l : list ProvisionedCredential) : Prop :=
  ∀ r1 r2, r1 ∈ l → r2 ∈ l → pc_revoked r1 = false → pc_revoked r2 = false →
    pc_service_id r1 = pc_service_id r2 → pc_target_id r1 = pc_target_id r2 → r1 = r2.

(** The rows a task is about to revoke, or has revoked. *)
Definition claimed (t : IssueTask) : option (list Z) :=
  match it_phase t with
  | IssueRevoking ids | IssueRevoked ids | IssueInserted ids => Some ids
  | _ => None
  end.

Definition claims_live (l : list ProvisionedCredential) (t : IssueTask) : Prop :=
  ∀ ids r, claimed t = Some ids → r ∈ l → live_for (it_service t) (it_target t) r = true →
    pc_id r ∈ ids.

Record apart_inv (s : IssueState) : Prop := {
  ap_live : one_live (is_table s);
  ap_pairs i j t u : is_tasks s !! i = Some t → is_tasks s !! j = Some u → i ≠ j →
    ¬ (it_service t = it_service u ∧ it_target t = it_target u);
  ap_claims i t : is_tasks s !! i = Some t → claims_live (is_table s) t }.

Lemma apart_delete s i answers : apart_inv s →
  apart_inv (MkIssueState (is_table s) (delete i (is_tasks s)) answers).
Proof.
  intros [Hl Hp Hc]. split; cbn; [done| |].
  - intros j k t u [_ Hj]%lookup_delete_Some [_ Hk]%lookup_delete_Some. by apply (Hp j k).
  - intros j t [_ Hj]%lookup_delete_Some. by apply (Hc j).
Qed.

Lemma apart_insert s i t : apart_inv s →
  (∀ j u, is_tasks s !! j = Some u → j ≠ i →
     ¬ (it_service u = it_service t ∧ it_target u = it_target t)) →
  claims_live (is_table s) t →
  apart_inv (MkIssueState (is_table s) (<[i := t]> (is_tasks s)) (is_answers s)).
Proof.
  intros [Hl Hp Hc] Hpair Hcl. split; cbn; [done| |].
  - intros j k u v [[<- <-]|[? Hj]]%lookup_insert_Some [[<- <-]|[? Hk]]%lookup_insert_Some Hne;
      [done| | |by apply (Hp j k)].
    + intros [? ?]. by apply (Hpair k v).
    + by apply (Hpair j u).
  - intros j u [[<- <-]|[_ Hj]]%lookup_insert_Some; [done|by apply (Hc j)].
Qed.

Lemma apart_commit s i s' : issue_inv s → apart_inv s → issue_commit s i = Some s' → apart_inv s'.
Proof.
  intros I [Hl Hp Hc] (t & Ht & E)%bind_Some.
  destruct (it_phase t) as [| | | |ids] eqn:Hph; [discriminate E..|]. injection E as <-.
  destruct (iv_row _ I i t Ht) as (Hs & Hd & _).
  assert (∀ r, r ∈ revoke_ids ids (is_table s) → pc_revoked r = false →
    pc_service_id r = it_service t → pc_target_id r = it_target t → False) as Hno.
  { intros r Hr Hv Es Et. apply revoke_ids_live in Hr as [Hr Hn]; [|done]. apply Hn.
    apply (Hc i t Ht); [unfold claimed; by rewrite Hph|done|by apply live_for_true]. }
  split; cbn [is_table is_tasks is_answers].
  - intros r1 r2 [H1| ->%list_elem_of_singleton]%elem_of_app
      [H2| ->%list_elem_of_singleton]%elem_of_app R1 R2 Es Et; [|exfalso..|done].
    + apply revoke_ids_live in H1 as [H1 _]; [|done]. apply revoke_ids_live in H2 as [H2 _]; [|done].
      by apply Hl.
    + cbn in Es, Et. apply (Hno r1); congruence.
    + cbn in Es, Et. apply (Hno r2); congruence.
  - intros j k u v [_ Hj]%lookup_delete_Some [_ Hk]%lookup_delete_Some. by apply (Hp j k).
  - intros j u [Hne Hj]%lookup_delete_Some js r Hjs [Hr| ->%list_elem_of_singleton]%elem_of_app
      (Es & Et & Hv)%live_for_true.
    + apply revoke_ids_live in Hr as [Hr _]; [|done]. apply (Hc j u Hj); [done..|by apply live_for_true].
    + cbn in Es, Et. destruct (Hp i j t u Ht Hj); [done|]. split; congruence.
Qed.

Lemma claims_arrives s i t ph :
  claims_live (is_table s) t → arrives s i t ph → claims_live (is_table s) (set_phase t ph).
Proof.
  intros Hc Har ids r Hcl Hr Hlive. cbn in Hlive. pose proof Hlive as (_ & _ & Hv)%live_for_true.
  destruct ph as [| |hits|ids'|ids']; try discriminate Hcl; injection Hcl as <-.
  - rewrite Har. apply list_elem_of_fmap_2, list_elem_of_filter. done.
  - destruct Har as (hits & Hp & ->). apply list_elem_of_fmap_2, list_elem_of_filter.
    split_and!; [|done..]. apply Hc; [unfold claimed; by rewrite Hp|done..].
  - destruct Har as (Hp & _). apply Hc; [unfold claimed; by rewrite Hp|done..].
Qed.

Lemma apart_step s s' :
  issue_inv s → apart_inv s → issue_step none_running s s' → apart_inv s'.
Proof.
  intros I A St%issue_step_move.
  destruct St as [i svc tid row Hi Hr Hn|i t ph Ht Har|i t now id Ht Hu|i|].
  - apply apart_insert; [done| |by intros ids r [=]]. intros j u Hj _. exact (Hn j u Hj).
  - apply apart_insert; [done| |by eapply claims_arrives, Har; apply (ap_claims _ A i)].
    intros j u Hj Hne. exact (ap_pairs _ A j i u t Hj Ht Hne).
  - by apply apart_delete.
  - by apply apart_delete.
  - by eapply apart_commit.
Qed.

(** ** A request alone *)

(** The statements of one request, one after the other. *)
Definition issue_finish (s : IssueState) (i : nat) : option IssueState :=
  s1 ← revoke_ends s i; s2 ← issue_insert s1 i; issue_commit s2 i.

Definition issue_run (s : IssueState) (i : nat) (now : Z) : option IssueState :=
  s1 ← issue_check s i now;
  match is_tasks s1 !! i with
  | None => Some s1
  | Some _ => s2 ← revoke_starts s1 i; issue_finish s2 i
  end.

Definition issue_alone (l : list ProvisionedCredential) (service_id : string) (target_id : Z)
    (row : ProvisionedCredential) : IssueState :=
  MkIssueState l {[ 0%nat := MkIssueTask service_id target_id row IssueChecking ]} [].

Lemma issue_finish_rtc G s i s' : issue_finish s i = Some s' → rtc (issue_step G) s s'.
Proof.
  intros (s1 & E1 & (s2 & E2 & E3)%bind_Some)%bind_Some.
  eapply rtc_l; [by eapply issue_waits|]. eapply rtc_l; [by eapply issue_inserts|].
  eapply rtc_once, issue_commits, E3.
Qed.

(** What is left of a request, beside others that have updated nothing. *)
Lemma issue_finish_ok s i t hits :
  is_tasks s !! i = Some t → it_phase t = IssueRevoking hits →
  (∀ j u, is_tasks s !! j = Some u → j ≠ i → held u = [] ∧ ¬ inserted u) →
  (pc_id (it_row t) ∉ (pc_id <$> is_table s)) →
  issue_finish s i = Some (MkIssueState
    (revoke_ids (pc_id <$> filter (λ r, pc_id r ∈ hits ∧ pc_revoked r = false) (is_table s))
       (is_table s) ++ [set_pc_status (ProvisioningStatus_as_str PsActive) (it_row t)])
    (delete i (is_tasks s)) ((it_service t, it_target t, pc_id (it_row t)) :: is_answers s)).
Proof.
  intros Ht Hp Ho Hid. unfold issue_finish, revoke_ends. rewrite Ht. cbn [mbind option_bind].
  rewrite Hp, decide_True.
  2: { intros j u Hj. destruct (decide (j = i)) as [->|Hne]; [by left|right].
       destruct (Ho j u Hj Hne) as [-> _]. apply Forall_forall. intros ? _ []%elem_of_nil. }
  cbn [mbind option_bind]. unfold issue_insert, issue_phase. cbn [is_tasks is_table is_answers].
  rewrite lookup_insert_eq. cbn [mbind option_bind set_phase it_phase it_row].
  rewrite decide_False, decide_True; [|intros j u|done].
  - cbn [mbind option_bind]. unfold issue_commit. cbn [is_tasks is_table is_answers].
    rewrite lookup_insert_eq. cbn [mbind option_bind set_phase it_phase it_row it_service it_target].
    by rewrite !delete_insert_eq.
  - cbn [is_tasks]. intros [[<- <-]|[Hne Hj]]%lookup_insert_Some; [by left|].
    right. destruct (it_phase u) eqn:Hu; [done..|].
    destruct (Ho j u Hj) as [_ []]; [done|by eexists].
Qed.

(** An id names one row. *)
Lemma pc_id_inj l r q : NoDup (pc_id <$> l) → r ∈ l → q ∈ l → pc_id r = pc_id q → r = q.
Proof.
  intros Hnd (i & Hi)%list_elem_of_lookup (j & Hj)%list_elem_of_lookup E.
  assert (i = j) as <-; [|congruence].
  eapply NoDup_lookup; [exact Hnd|by rewrite list_lookup_fmap, Hi|by rewrite list_lookup_fmap, Hj, E].
Qed.

Lemma id_of_filter (Q : ProvisionedCredential → Prop) `{!∀ r, Decision (Q r)} l r :
  NoDup (pc_id <$> l) → r ∈ l → (pc_id r ∈ (pc_id <$> filter Q l)) ↔ Q r.
Proof.
  intros Hnd Hr. rewrite list_elem_of_fmap. split.
  - intros (q & E & [Hq Hl]%list_elem_of_filter).
    by rewrite (pc_id_inj l r q).
  - intros Hq. exists r. by rewrite list_elem_of_filter.
Qed.

Lemma revoke_ids_revoked svc tid ids l :
  (∀ r, r ∈ l → pc_id r ∈ ids ↔ live_for svc tid r = true) →
  revoke_ids ids l = revoked_for svc tid l.
Proof.
  intros Hi. apply list_fmap_ext. intros k r Hr%list_elem_of_lookup_2.
  specialize (Hi r Hr). case_decide as Hd; destruct (live_for svc tid r); naive_solver.
Qed.

(** What the update sees when it starts is what it revokes, if nothing was
    committed since. *)
Lemma revoke_unchanged svc tid l :
  NoDup (pc_id <$> l) →
  let hits := pc_id <$> filter (λ r, live_for svc tid r = true) l in
  revoke_ids (pc_id <$> filter (λ r, pc_id r ∈ hits ∧ pc_revoked r = false) l) l =
  revoked_for svc tid l.
Proof.
  intros Hnd hits. apply revoke_ids_revoked. intros r Hr.
  rewrite id_of_filter by done. unfold hits. rewrite id_of_filter by done.
  rewrite live_for_true. tauto.
Qed.

Lemma revoke_none l : revoke_ids [] l = l.
Proof.
  unfold revoke_ids. rewrite <- (list_fmap_id l) at 2. apply list_fmap_ext. intros i r _.
  rewrite decide_False; [done|]. apply not_elem_of_nil.
Qed.

(** A request alone that finds no usable credential. *)
Lemma issue_run_new l svc tid row now :
  NoDup (pc_id <$> l) → (pc_id row ∉ (pc_id <$> l)) → usable_id l now svc tid = None →
  issue_run (issue_alone l svc tid row) 0 now = Some (MkIssueState
    (revoked_for svc tid l ++ [set_pc_status (ProvisioningStatus_as_str PsActive) row])
    ∅ [(svc, tid, pc_id row)]).
Proof.
  intros Hnd Hid Hu. unfold issue_run, issue_check, issue_alone. cbn [is_tasks].
  rewrite lookup_singleton_eq. cbn [mbind option_bind it_phase is_table it_service it_target].
  rewrite Hu. unfold issue_phase. cbn [is_tasks is_table is_answers].
  rewrite lookup_insert_eq. unfold revoke_starts. cbn [is_tasks].
  rewrite lookup_insert_eq. cbn [mbind option_bind set_phase it_phase it_service it_target it_row].
  unfold issue_phase. cbn [is_tasks is_table is_answers].
  erewrite issue_finish_ok; [|cbn [is_tasks]; by rewrite lookup_insert_eq|done| |done].
  - cbn [is_tasks is_table is_answers set_phase it_service it_target it_row].
    rewrite revoke_unchanged by done. by rewrite !delete_insert_eq, delete_singleton_eq.
  - intros j u Hj Hne. cbn [is_tasks] in Hj. by rewrite !insert_singleton_eq, lookup_singleton_ne in Hj.
Qed.

(** One that finds a usable credential. *)
Lemma issue_run_reuse l svc tid row now id :
  usable_id l now svc tid = Some id →
  issue_run (issue_alone l svc tid row) 0 now = Some (MkIssueState l ∅ [(svc, tid, id)]).
Proof.
  intros Hu. unfold issue_run, issue_check, issue_alone. cbn [is_tasks].
  rewrite lookup_singleton_eq. cbn [mbind option_bind it_phase is_table it_service it_target].
  rewrite Hu. cbn [is_tasks is_answers]. by rewrite delete_singleton_eq, lookup_empty.
Qed.

Section alone.
  Context {P : Type}.
  Context `{Hsha : Sha256} `{Hhex : Hex} `{Hjson : Json} `{Hchrono : Chrono} `{Huuid : UuidFmt}
    `{Hpg : PgTime} `{Hsql : SqlDisplay} `{Hed : Ed25519Lib} `{Unicode} `{Base64} `{ChronoTtl}
    `{UuidBytes} `{Hcodec : CredentialCodec}.
  Context (send_request : Entropy → HsmRequest → result HsmResponse AppError).

(** A run of the use case does to the table, and answers, what the statements of
    one request do alone. *)
Theorem execute_is_request policy providers env input db (p : P) out db' p' :
  fits_varchar 64 (ii_caller_service input) → NoDup (pc_id <$> db_provisioned db) →
  IssueAgentCredential_execute send_request policy providers env input (db, p) =
    (Done (Ok out), (db', p')) →
  ∃ tid row s, row_for (ii_caller_service input) tid row ∧
    issue_run (issue_alone (db_provisioned db) (ii_caller_service input) tid row) 0 (ie_db_now env)
      = Some s ∧
    is_table s = db_provisioned db' ∧
    is_answers s = [(ii_caller_service input, tid, io_credential_id out)].
Proof.
  intros Hfit Hnd (_ & tid & conn & role & cb & exp & _ & _ & _ & _ & Hcase)%execute_ok.
  destruct Hcase as [(id & blob & e & Hf & Hx & [= -> ->])|
    (granted & kek & kv & generated & provider & cred & Hnone & _ & Htx & ->)].
  - pose proof Hf as (r & Hr & Hus & _)%fetch_latest_Some.
    unfold usable in Hus. rewrite !andb_true_iff, live_for_true in Hus.
    destruct Hus as ((Hrow & _) & _).
    eexists tid, r, _. split_and!; [done|apply (issue_run_reuse _ _ _ _ _ id)|done|].
    + unfold usable_id. change (fst ∘ fst <$> fetch_latest_active_provisioned_credential_for_service_target
        db (ie_db_now env) (ii_caller_service input) tid = Some id). by rewrite Hf.
    + cbn. do 2 f_equal. unfold existing_output in Hx. inv_ok. by repeat case_match; simplify_eq/=.
  - apply issue_tx_ok in Htx
      as (pl & enc & svc' & role' & sec & hash & _ & _ & Hsvc & Hid & _ & _ & _ & _ & _ & _ & ->).
    rewrite (Hfit "service_id"%string) in Hsvc. injection Hsvc as <-.
    set (row := issued_row env (ii_caller_service input) tid enc role' kek kv exp generated).
    eexists tid, (set_pc_status (ProvisioningStatus_as_str PsProvisioning) row), _.
    split_and!; [done|apply issue_run_new; [done..|]|done|done].
    unfold usable_id. change (fst ∘ fst <$> fetch_latest_active_provisioned_credential_for_service_target
      db (ie_db_now env) (ii_caller_service input) tid = None). by rewrite Hnone.
Qed.

End alone.

(** C15: credential requests of different services, or for different targets,
    may interleave statement by statement: as long as no two requests of one
    service for one target run at the same time, identifiers stay unique, a
    service has at most one credential that is not revoked at a target, and
    every credential that was answered is in the table as one of the
    requesting service at the requested target. *)
Theorem requests_apart_one_live l s :
  NoDup (pc_id <$> l) → one_live l → issue_reachable none_running l s →
  NoDup (pc_id <$> is_table s) ∧ one_live (is_table s) ∧
  Forall (answered (is_table s)) (is_answers s).
Proof.
  intros Hids Hl R. assert (issue_inv s) as I by (by eapply issue_reachable_inv).
  cut (apart_inv s); [by intros [? _ _]; destruct I|].
  unfold issue_reachable in R. revert R. clear I. revert s. refine (rtc_ind_r _ _ _ _).
  - split; cbn; try done.
  - intros s1 s2 R St A. eapply apart_step; [by eapply issue_reachable_inv|done..].
Qed.

(** ** Two requests at once *)

(** Two requests of one service for one target. *)
Definition two_requests (l : list ProvisionedCredential) (svc : string) (tid : Z)
    (row1 row2 : ProvisionedCredential) (ph1 ph2 : IssuePhase) : IssueState :=
  MkIssueState l (<[0%nat := MkIssueTask svc tid row1 ph1]>
                   {[ 1%nat := MkIssueTask svc tid row2 ph2 ]}) [].

Lemma issue_check_none s i t now :
  is_tasks s !! i = Some t → it_phase t = IssueChecking →
  usable_id (is_table s) now (it_service t) (it_target t) = None →
  issue_check s i now = Some (issue_phase s i t IssueBegun).
Proof. intros Ht Hp Hu. unfold issue_check. rewrite Ht. cbn [mbind option_bind]. by rewrite Hp, Hu. Qed.

Lemma two_requests_revoking l svc tid row1 row2 now :
  row_for svc tid row1 → row_for svc tid row2 → usable_id l now svc tid = None →
  let hits := pc_id <$> filter (λ r, live_for svc tid r = true) l in
  issue_reachable any_time l
    (two_requests l svc tid row1 row2 (IssueRevoking hits) (IssueRevoking hits)).
Proof.
  intros H1 H2 Hu hits. unfold issue_reachable.
  eapply rtc_l; [by apply (issue_spawns any_time 1 svc tid row2)|].
  eapply rtc_l; [by apply (issue_spawns any_time 0 svc tid row1)|].
  change (rtc (issue_step any_time)
    (two_requests l svc tid row1 row2 IssueChecking IssueChecking)
    (two_requests l svc tid row1 row2 (IssueRevoking hits) (IssueRevoking hits))).
  eapply (rtc_l _ _ (two_requests l svc tid row1 row2 IssueBegun IssueChecking)).
  { apply (issue_checks _ 0 now). by erewrite issue_check_none by done. }
  eapply (rtc_l _ _ (two_requests l svc tid row1 row2 IssueBegun IssueBegun)).
  { apply (issue_checks _ 1 now). by erewrite issue_check_none by done. }
  eapply (rtc_l _ _ (two_requests l svc tid row1 row2 (IssueRevoking hits) IssueBegun)).
  { by apply (issue_revokes _ 0). }
  by apply rtc_once, (issue_revokes _ 1).
Qed.

(** The second update finds the rows it waited for revoked, and does not see the
    one that was inserted meanwhile. *)
Lemma second_revokes_nothing svc tid l row :
  (pc_id row ∉ (pc_id <$> l)) → NoDup (pc_id <$> l) →
  let hits := pc_id <$> filter (λ r, live_for svc tid r = true) l in
  filter (λ r, pc_id r ∈ hits ∧ pc_revoked r = false) (revoked_for svc tid l ++ [row]) = [].
Proof.
  intros Hid Hnd hits. destruct (filter _ (_ ++ _)) as [|r k] eqn:E; [done|exfalso].
  assert (r ∈ r :: k) as Hr by left. rewrite <- E in Hr.
  apply list_elem_of_filter in Hr as ((Hh & Hv) & [Hr| ->%list_elem_of_singleton]%elem_of_app).
  - apply revoked_for_elem in Hr as (q & Hq & [[-> Hn]| ->]); [|done].
    unfold hits in Hh. rewrite id_of_filter in Hh by done. congruence.
  - apply Hid. unfold hits in Hh. apply list_elem_of_fmap in Hh as (q & -> & [_ Hq]%list_elem_of_filter).
    by apply list_elem_of_fmap_2.
Qed.

(** C39: nothing keeps two requests of one service for one target apart.  When
    no usable credential exists, two requests that overlap can both succeed
    with different credentials, and both credentials stay live: the second
    transaction does not see the row of the first, so it revokes only what was
    there before, and the table no longer has one live credential. *)
Theorem overlapping_requests_both_live l svc tid row1 row2 now :
  NoDup (pc_id <$> l) → usable_id l now svc tid = None →
  row_for svc tid row1 → row_for svc tid row2 → pc_id row1 ≠ pc_id row2 →
  (pc_id row1 ∉ (pc_id <$> l)) → (pc_id row2 ∉ (pc_id <$> l)) →
  let active := set_pc_status (ProvisioningStatus_as_str PsActive) in
  ∃ s, issue_reachable any_time l s ∧ is_tasks s = ∅ ∧
    is_table s = revoked_for svc tid l ++ [active row1; active row2] ∧
    is_answers s = [(svc, tid, pc_id row2); (svc, tid, pc_id row1)] ∧
    ¬ one_live (is_table s).
Proof.
  intros Hnd Hu R1 R2 Hne F1 F2 active.
  set (hits := pc_id <$> filter (λ r, live_for svc tid r = true) l).
  set (s0 := two_requests l svc tid row1 row2 (IssueRevoking hits) (IssueRevoking hits)).
  pose proof (two_requests_revoking l svc tid row1 row2 now R1 R2 Hu) as S0. cbv zeta in S0.
  fold hits in S0. fold s0 in S0.
  set (s1 := MkIssueState (revoked_for svc tid l ++ [active row1])
    {[ 1%nat := MkIssueTask svc tid row2 (IssueRevoking hits) ]} [(svc, tid, pc_id row1)]).
  assert (issue_finish s0 0 = Some s1) as E1.
  { erewrite issue_finish_ok; [|done|done| |done].
    - cbn [is_table s0 two_requests it_row]. unfold hits. rewrite revoke_unchanged by done. done.
    - intros j u. cbn [is_tasks s0 two_requests].
      intros [[<- <-]|[_ [<- <-]%lookup_singleton_Some]]%lookup_insert_Some; [done|].
      intros _. split; [done|]. by intros [ids [=]]. }
  assert (pc_id (active row2) ∉ (pc_id <$> is_table s1)) as F2'.
  { cbn. rewrite fmap_app, revoked_for_ids. intros [?|?%list_elem_of_singleton]%elem_of_app; done. }
  set (s2 := MkIssueState (revoked_for svc tid l ++ [active row1; active row2]) ∅
    [(svc, tid, pc_id row2); (svc, tid, pc_id row1)]).
  assert (issue_finish s1 1 = Some s2) as E2.
  { erewrite issue_finish_ok; [|done|done| |exact F2'].
    - cbn [is_table s1 it_row]. unfold hits. rewrite second_revokes_nothing by done.
      cbn [fmap list_fmap]. rewrite revoke_none, <- app_assoc. done.
    - intros j u. cbn [is_tasks s1]. by intros [<- <-]%lookup_singleton_Some. }
  exists s2. split_and!; [|done..|].
  - unfold issue_reachable. etrans; [exact S0|]. etrans; eapply issue_finish_rtc; eassumption.
  - destruct R1 as (S1 & T1 & V1), R2 as (S2 & T2 & V2). intros Ho. apply Hne.
    apply (f_equal pc_id (x := active row1) (y := active row2)).
    apply Ho; cbn; [set_solver..|done|done|congruence|congruence].
Qed.

(** ** Two services, and one service twice *)

Section RaceWitnesses.

Definition demo_row (id : Z) (svc : string) (expires_at : Z) (revoked : bool) (status : string) :
    ProvisionedCredential :=
  MkProvisionedCredential id svc 7 [] "app_role" 3 1 expires_at revoked status 1000.

(** An expired credential of "billing" and an older, revoked one. *)
Definition demo_table : list ProvisionedCredential :=
  [demo_row 1 "billing" 900 true "ACTIVE"; demo_row 2 "billing" 1500 false "ACTIVE"].

Definition demo_billing : ProvisionedCredential := demo_row 10 "billing" 9000 false "PROVISIONING".
Definition demo_again : ProvisionedCredential := demo_row 11 "billing" 9000 false "PROVISIONING".
Definition demo_orders : ProvisionedCredential := demo_row 12 "orders" 9000 false "PROVISIONING".

Fixpoint issue_schedule (fs : list (IssueState → option IssueState)) (s : IssueState) :
    option IssueState :=
  match fs with [] => Some s | f :: fs => f s ≫= issue_schedule fs end.

(** The requests of two services, interleaved; "billing" asks again when it has
    its credential. *)
Definition demo_interleaved : list (IssueState → option IssueState) :=
  [ (λ s, issue_check s 0 2000); (λ s, issue_check s 1 2000); (λ s, revoke_starts s 0);
    (λ s, revoke_starts s 1); (λ s, revoke_ends s 1); (λ s, revoke_ends s 0);
    (λ s, issue_insert s 0); (λ s, issue_insert s 1); (λ s, issue_commit s 1);
    (λ s, issue_commit s 0) ].

Definition demo_begun : IssueState :=
  MkIssueState demo_table
    (<[1%nat := MkIssueTask "orders" 7 demo_orders IssueChecking]>
     (<[0%nat := MkIssueTask "billing" 7 demo_billing IssueChecking]> ∅)) [].

Definition demo_done : IssueState :=
  default demo_begun (issue_schedule demo_interleaved demo_begun).

Definition demo_asked : IssueState :=
  MkIssueState (is_table demo_done)
    (<[2%nat := MkIssueTask "billing" 7 demo_again IssueChecking]> (is_tasks demo_done))
    (is_answers demo_done).

Definition demo_answered : IssueState := default demo_asked (issue_check demo_asked 2 3000).

Lemma issue_schedule_rtc G fs s s' :
  Forall (λ f, ∀ s s', f s = Some s' → issue_step G s s') fs →
  issue_schedule fs s = Some s' → rtc (issue_step G) s s'.
Proof.
  intros Hf. revert s. induction Hf as [|f fs Hf _ IH]; intros s.
  - by intros [= <-].
  - cbn. intros (s1 & E & R)%bind_Some. eapply rtc_l; eauto.
Qed.

Lemma demo_answered_reachable : issue_reachable none_running demo_table demo_answered.
Proof.
  unfold issue_reachable.
  eapply rtc_l; [by apply (issue_spawns none_running 0 "billing" 7 demo_billing)|].
  eapply rtc_l.
  { apply (issue_spawns none_running 1 "orders" 7 demo_orders); [done..|].
    intros i t. cbn [is_tasks issue_start].
    intros [[<- <-]|[_ []%lookup_empty_Some]]%lookup_insert_Some. by intros []. }
  etrans; [apply (issue_schedule_rtc _ demo_interleaved demo_begun demo_done)|].
  - repeat constructor; intros s s';
      eauto using issue_checks, issue_revokes, issue_waits, issue_inserts, issue_commits.
  - vm_compute. reflexivity.
  - eapply rtc_l; [by apply (issue_spawns none_running 2 "billing" 7 demo_again)|].
    apply rtc_once, (issue_checks _ 2 3000). vm_compute. reflexivity.
Qed.

Lemma requests_apart_one_live_witness :
  pc_id <$> is_table demo_answered = [1; 2; 12; 10] ∧ one_live (is_table demo_answered) ∧
  is_answers demo_answered = [("billing", 7, 10); ("billing", 7, 10); ("orders", 7, 12)]%string.
Proof.
  split_and!; [vm_compute; reflexivity| |vm_compute; reflexivity].
  apply (requests_apart_one_live demo_table demo_answered).
  - apply (bool_decide_unpack _). vm_compute. exact I.
  - intros r1 r2 H1 H2. unfold demo_table in *. set_unfold. naive_solver.
  - exact demo_answered_reachable.
Defined.

Lemma overlapping_requests_both_live_witness :
  ∃ s, issue_reachable any_time demo_table s ∧
    (λ r, (pc_id r, pc_revoked r)) <$> is_table s =
      [(1, true); (2, true); (10, false); (11, false)] ∧
    is_answers s = [("billing", 7, 11); ("billing", 7, 10)]%string.
Proof.
  destruct (overlapping_requests_both_live demo_table "billing" 7 demo_billing demo_again 2000)
    as (s & R & _ & Ht & Ha & _).
  - apply (bool_decide_unpack _). vm_compute. exact I.
  - vm_compute. reflexivity.
  - done.
  - done.
  - done.
  - apply (bool_decide_unpack _). vm_compute. exact I.
  - apply (bool_decide_unpack _). vm_compute. exact I.
  - exists s. split; [exact R|]. rewrite Ht, Ha. split; vm_compute; reflexivity.
Defined.

End RaceWitnesses.
