(* ===== verification/Ceremony.v ===== *)
(** * The ceremony CLI

    Models the password containers of [kms-core/src/crypto/aes.rs], the share
    files of [kms-core/src/ceremony.rs] and [storage/files.rs], and the
    commands [interactive], [unseal], [encrypt] and [decrypt] of
    [kms-ceremony-cli] over the vHSM client of [Protocol].  What officers type
    and what the operating system answers are arguments. *)

From Stdlib Require Import Ascii.
From stdpp Require Import sorting.
From S2P Require Import Prelude.
From S2P Require Import Interfaces.
From S2P Require Import Sss.
From S2P Require Import Protocol.
From S2P Require Import Vhsm.
From S2P Require Import Daemon.
From S2P Require Import Domain.
From S2P Require Import Providers.
From S2P Require Import AuditLog.
From S2P Require Import AuditChain.
From S2P Require Import Credentials.

(** ** Password containers (aes.rs) *)

Record EncryptedContainer := MkEncryptedContainer {
  ec_salt : string; ec_nonce : string; ec_ciphertext : string }.

Definition ARGON2_M_COST : Z := 65536.
Definition ARGON2_T_COST : Z := 3.
Definition ARGON2_P_COST : Z := 4.

(** The [argon2] and [password_hash] crates. *)
Class Argon2Lib := {
  argon2_params : Type;
  params_new : Z → Z → Z → nat → result argon2_params string;
  hash_password_into : argon2_params → list byte (* password *) → list byte (* salt *) →
    result (list byte) string;
  salt_encode_b64 : list byte → result string string;
  salt_generate : Draw → outcome string }.

Section containers.
  Context `{Argon2Lib} `{Aead} `{Hex}.

Definition get_argon2_instance : result argon2_params string :=
  map_err (λ e, "Błąd konfiguracji parametrów Argon2id: " +s+ e)
    (params_new ARGON2_M_COST ARGON2_T_COST ARGON2_P_COST KEY_SIZE).

Definition derive_key_from_password (password : string) (d : Draw) :
    result (SecretKey * string) string :=
  let? rng_bytes := map_err (λ e, "Nie udało się wygenerować soli: " +s+ e) (d 16%nat) in
  let? salt := map_err (λ e, "Błąd kodowania soli B64: " +s+ e) (salt_encode_b64 rng_bytes) in
  let? argon2 := get_argon2_instance in
  let? key_bytes := map_err (λ e, "Błąd derywacji klucza Argon2id: " +s+ e)
                      (hash_password_into argon2 (str_bytes password) (str_bytes salt)) in
  Ok (SecretKey_from_bytes key_bytes, salt).

Definition derive_key_with_salt (password salt_str : string) : result SecretKey string :=
  let? argon2 := get_argon2_instance in
  let? key_bytes := map_err (λ e, "Błąd derywacji klucza z solą: " +s+ e)
                      (hash_password_into argon2 (str_bytes password) (str_bytes salt_str)) in
  Ok (SecretKey_from_bytes key_bytes).

(** [d0] and [d1]: the draws of the salt and of the nonce. *)
Definition encrypt_bytes_with_password (password : string) (data : list byte) (d0 d1 : Draw) :
    result EncryptedContainer string :=
  let? (key, salt) := derive_key_from_password password d0 in
  let? cipher := new_from_slice (as_bytes key) in
  let? nonce_bytes := d1 12%nat in
  let? ciphertext := aead_encrypt cipher nonce_bytes data in
  Ok (MkEncryptedContainer salt (hex_encode nonce_bytes) (hex_encode ciphertext)).

(** The nonce and ciphertext of a container, opened with a key. *)
Definition open_container (cipher : cipher) (container : EncryptedContainer) :
    result (list byte) string :=
  let? nonce_bytes := hex_decode (ec_nonce container) in
  let? ciphertext_bytes := hex_decode (ec_ciphertext container) in
  if negb (length nonce_bytes =? 12)%nat then Err "Invalid nonce length: expected 12 bytes"%string
  else aead_decrypt cipher nonce_bytes ciphertext_bytes.

Definition decrypt_bytes_with_password (password : string) (container : EncryptedContainer) :
    result (list byte) string :=
  let? key := derive_key_with_salt password (ec_salt container) in
  let? cipher := new_from_slice (as_bytes key) in
  open_container cipher container.

Definition encrypt_storage_key (master_key storage_key : SecretKey) (d0 d1 : Draw) :
    outcome (result EncryptedContainer string) :=
  let! salt_str := salt_generate d0 in
  Interfaces.Value (
    let? cipher := new_from_slice (as_bytes master_key) in
    let? nonce_bytes := d1 12%nat in
    let? ciphertext := aead_encrypt cipher nonce_bytes (as_bytes storage_key) in
    Ok (MkEncryptedContainer salt_str (hex_encode nonce_bytes) (hex_encode ciphertext))).

Definition decrypt_storage_key (master_key : SecretKey) (container : EncryptedContainer) :
    result SecretKey string :=
  let? cipher := new_from_slice (as_bytes master_key) in
  let? decrypted_bytes := open_container cipher container in
  if negb (length decrypted_bytes =? KEY_SIZE)%nat then Err "Invalid key length recovered"%string
  else Ok (SecretKey_from_bytes decrypted_bytes).

Definition decrypt_bytes_with_argon2_raw (password : string) (data : list byte) :
    result (list byte) string :=
  if (length data <? 16 + 12)%nat then
    Err "Invalid encrypted file format: file too short"%string
  else
    let salt := take 16 data in
    let encrypted_data := drop 16 data in
    let nonce_bytes := take 12 encrypted_data in
    let ciphertext := drop 12 encrypted_data in
    let? params := map_err (λ e, "Błąd parametrów Argon2id dla binarnego formatu Go: " +s+ e)
                     (params_new 65536 3 4 KEY_SIZE) in
    let? key_bytes := map_err (λ e, "Błąd derywacji klucza Argon2id: " +s+ e)
                        (hash_password_into params (str_bytes password) salt) in
    let? cipher := map_err (λ e, "Błąd inicjalizacji AES-256-GCM: " +s+ e)
                     (new_from_slice key_bytes) in
    map_err (λ e, "Błąd deszyfrowania (nieprawidłowe hasło lub uszkodzony plik): " +s+ e)
      (aead_decrypt cipher nonce_bytes ciphertext).

End containers.

(** ** Share files (ceremony.rs, storage/files.rs) *)

Record ShareFileRecord := MkShareFileRecord {
  sf_index : Z;
  sf_threshold : Z;
  sf_total_shares : Z;
  sf_container : EncryptedContainer;
  sf_share_sha256 : string;
  sf_created_at : Z }.

(** [serde_json] on containers and records. *)
Class ShareCodec := {
  container_to_string : EncryptedContainer → result string string;
  record_to_string_pretty : ShareFileRecord → result string string;
  record_from_str : string → result ShareFileRecord string }.

Class ShareCodecLaws (C : ShareCodec) : Prop := {
  record_roundtrip r s : record_to_string_pretty r = Ok s → record_from_str s = Ok r }.

(** An entry of a directory listing. *)
Record DirEntry := MkDirEntry {
  de_path : string; de_name : string; de_is_file : bool; de_content : result string string }.

(** [Path::extension] of a file name: what follows the last dot, unless that
    dot is the first character. *)
Fixpoint last_dot (l : list ascii) : option (list ascii) :=
  match l with
  | [] => None
  | c :: l' =>
    match last_dot l' with
    | Some e => Some e
    | None => if Ascii.eqb c "."%char then Some l' else None
    end
  end.
Definition path_extension (name : string) : option string :=
  match chars name with
  | [] => None
  | _ :: l => String.string_of_list_ascii <$> last_dot l
  end.

Section files.
  Context `{Hsha : Sha256} `{Hhex : Hex} `{ShareCodec}.

Definition compute_share_sha256 (share_hex : string) : string :=
  hex_encode (sha256 (str_bytes
    (if negb (Nat.even (String.length share_hex)) then "0" +s+ share_hex else share_hex))).

Definition compute_sha256_hex (value : string) : string := hex_encode (sha256 (str_bytes value)).

Definition share_file_name (index : Z) : string := "share_" +s+ pretty index +s+ ".json".

(** [dir] is the content of the directory [path] by file name; [write] is what
    the operating system answers to the write. *)
Definition write_share_file (write : result unit string) (now : Z) (path : string)
    (dir : gmap string string)
    (index threshold total_shares : Z) (container : EncryptedContainer) :
    result (gmap string string) string :=
  let? container_json := container_to_string container in
  let sha256 := compute_sha256_hex container_json in
  let record := MkShareFileRecord index threshold total_shares container sha256 now in
  let? json := record_to_string_pretty record in
  let? _ := map_err (λ _, "Failed to write share file " +s+ path +s+ "/"
                            +s+ share_file_name index) write in
  Ok (<[share_file_name index := json]> dir).

Definition check_record (path : string) (record : ShareFileRecord) :
    result ShareFileRecord string :=
  let? container_json := container_to_string (sf_container record) in
  let expected_sha256 := compute_sha256_hex container_json in
  if negb (String.eqb (sf_share_sha256 record) expected_sha256) then
    Err ("Błąd integralności! Plik " +s+ path +s+
         " został zmodyfikowany lub uszkodzony (niezgodny hash SHA-256).")
  else Ok record.

Fixpoint load_entries (entries : list (result DirEntry string)) :
    result (list ShareFileRecord) string :=
  match entries with
  | [] => Ok []
  | entry :: entries =>
    let? entry := entry in
    if negb (de_is_file entry) ||
       negb (bool_decide (path_extension (de_name entry) = Some "json"%string))
    then load_entries entries
    else
      let? content := de_content entry in
      let? record := map_err (λ _, "Uszkodzona struktura JSON w pliku: " +s+ de_path entry)
                       (record_from_str content) in
      let? record := check_record (de_path entry) record in
      let? records := load_entries entries in
      Ok (record :: records)
  end.

Definition load_share_directory (listing : result (list (result DirEntry string)) string) :
    result (list ShareFileRecord) string :=
  let? entries := listing in load_entries entries.

End files.

(** ** The commands *)

(** What an officer does in a ceremony, with the draws of the container. *)
Record Officer := MkOfficer {
  of_password : result string string;
  of_confirm : result string string;
  of_salt : Draw;
  of_nonce : Draw;
  of_now : Z;
  of_write : result unit string }.

Section commands.
  Context `{Argon2Lib} `{Aead} `{Hsha : Sha256} `{Hhex : Hex} `{ShareCodec}.
  Context `{Hcodec : HsmCodec} `{Hnet : Network}.

(** One share: the officer's password, the container and its file. *)
Definition secure_share (path : string) (threshold shares_count : Z) (officer : Officer)
    (share : Z * string) (dir : gmap string string) : result (gmap string string) string :=
  let? password := of_password officer in
  let? confirm := of_confirm officer in
  if negb (String.eqb password confirm) then
    Err "Hasła się nie zgadzają! Przerwano ceremonię."%string
  else
    let? encrypted_container :=
      encrypt_bytes_with_password password (str_bytes share.2) (of_salt officer)
        (of_nonce officer) in
    write_share_file (of_write officer) (of_now officer) path dir share.1 threshold shares_count
      encrypted_container.

(** The loop over the shares: files written before an error stay. *)
Fixpoint secure_shares (path : string) (threshold shares_count : Z) (officers : nat → Officer)
    (shares : list (Z * string)) (dir : gmap string string) :
    result unit string * gmap string string :=
  match shares with
  | [] => (Ok (), dir)
  | share :: shares =>
    match secure_share path threshold shares_count (officers 0%nat) share dir with
    | Ok dir => secure_shares path threshold shares_count (λ i, officers (S i)) shares dir
    | Err e => (Err e, dir)
    end
  end.

(** [mkdir]: the answer to the creation of the two directories. *)
Definition handle_interactive_ceremony (socket_path : string) (shares_count threshold : Z)
    (path : string) (mkdir : result unit string) (officers : nat → Officer)
    (dir : gmap string string) : result unit string * gmap string string :=
  if (shares_count =? 0) || (threshold =? 0) then
    (Err "Liczba udziałów i próg muszą być większe od zera."%string, dir)
  else if shares_count <? threshold then
    (Err "Próg nie może być większy niż całkowita liczba udziałów."%string, dir)
  else
    match send_hsm_request socket_path (GenerateCeremony threshold shares_count) None with
    | Err _ => (Err "Nie udało się połączyć z daemonem vHSM"%string, dir)
    | Ok (CeremonyGenerated raw_shares) =>
      match mkdir with
      | Err e => (Err e, dir)
      | Ok _ => secure_shares path threshold shares_count officers raw_shares dir
      end
    | Ok (Error code message) =>
      (Err ("Błąd HSM [" +s+ pretty code +s+ "]: " +s+ message), dir)
    | Ok _ => (Err "Otrzymano nieoczekiwaną odpowiedź z vHSM"%string, dir)
    end.

(** *** unseal *)

Definition send_init_master_key_request (socket_path : string) (threshold : Z)
    (shares : list (Z * string)) : result unit string :=
  match first_duplicate ∅ shares with
  | Some index =>
    Err ("Wykryto powielony indeks Oficera (" +s+ pretty index
         +s+ ")! Każdy udział musi pochodzić od innego Oficera.")
  | None =>
    match send_hsm_request socket_path (InitMasterKey threshold shares) None with
    | Ok MasterKeyInitialized => Ok ()
    | Ok (Error code message) =>
      Err ("Błąd odblokowania vHSM [" +s+ pretty code +s+ "]: " +s+ message)
    | Ok _ => Err "Nieoczekiwana odpowiedź z vHSM"%string
    | Err err => Err ("Błąd komunikacji z vHSM: " +s+ HsmClientError_display err)
    end
  end.

Definition MAX_ATTEMPTS : nat := 3.

(** The attempts left at one record; [Ok None] when all of them failed. *)
Fixpoint try_pins (attempts : nat) (pins : nat → result string string) (record : ShareFileRecord) :
    result (option string) string :=
  match attempts with
  | O => Ok None
  | S attempts =>
    let? password := map_err (λ _, "Błąd odczytu z terminala"%string) (pins 0%nat) in
    if is_empty (trim password) then try_pins attempts (λ i, pins (S i)) record
    else
      match decrypt_bytes_with_password password (sf_container record) with
      | Ok decrypted =>
        Ok (Some (if is_utf8_bytes decrypted then str_of_bytes decrypted
                  else hex_encode decrypted))
      | Err _ => try_pins attempts (λ i, pins (S i)) record
      end
  end.

(** [pins i j]: what is typed at the [j]-th attempt at the [i]-th record. *)
Fixpoint collect_shares (threshold : Z) (pins : nat → nat → result string string)
    (records : list ShareFileRecord) (shares_to_send : list (Z * string)) :
    result (list (Z * string)) string :=
  match records with
  | [] => Ok shares_to_send
  | record :: records =>
    if threshold <=? blen shares_to_send then Ok shares_to_send
    else
      let? share := try_pins MAX_ATTEMPTS (pins 0%nat) record in
      collect_shares threshold (λ i, pins (S i)) records
        (match share with
         | Some share => shares_to_send ++ [(sf_index record, share)]
         | None => shares_to_send
         end)
  end.

Definition sort_by_index : list ShareFileRecord → list ShareFileRecord := sort_by_key sf_index.

(** A file named on the command line; its integrity is not checked. *)
Fixpoint load_files (files : list DirEntry) : result (list ShareFileRecord) string :=
  match files with
  | [] => Ok []
  | file :: files =>
    if negb (de_is_file file) then load_files files
    else
      let? content := map_err (λ _, "Nie można odczytać pliku: " +s+ de_path file)
                        (de_content file) in
      let? record := map_err (λ _, "Niepoprawny JSON w pliku: " +s+ de_path file)
                       (record_from_str content) in
      let? records := load_files files in
      Ok (record :: records)
  end.

Definition interactive_shares (threshold : Z)
    (listing : result (list (result DirEntry string)) string) (share_files : list DirEntry)
    (pins : nat → nat → result string string) : result (list (Z * string)) string :=
  let? records :=
    if (length share_files =? 0)%nat then load_share_directory listing
    else load_files share_files in
  if blen records <? threshold then
    Err ("Znaleziono za mało plików udziałów: " +s+ pretty (length records)
         +s+ " (wymagane: " +s+ pretty threshold +s+ ")")
  else
    let? shares_to_send := collect_shares threshold pins (sort_by_index records) [] in
    if blen shares_to_send <? threshold then
      Err ("Nie udało się odszyfrować wystarczającej liczby udziałów (wymagane: "
           +s+ pretty threshold +s+ ").")
    else Ok shares_to_send.

(** Lines [index:share], from the environment or from a pipe. *)
Fixpoint parse_share_lines (bad_index bad_format : string) (lines : list string) :
    result (list (Z * string)) string :=
  match lines with
  | [] => Ok []
  | line :: lines =>
    let ln := trim line in
    if is_empty ln then parse_share_lines bad_index bad_format lines
    else match find_sub ":" ln with
    | None => Err bad_format
    | Some pos =>
      match parse_u8 (trim (str_take pos ln)) with
      | None => Err bad_index
      | Some idx =>
        let share := trim (str_drop (pos + 1) ln) in
        let? shares := parse_share_lines bad_index bad_format lines in
        Ok ((idx, share) :: shares)
      end
    end
  end.

Definition piped_shares (unseal_shares : option string) (stdin : result string string) :
    result (list (Z * string)) string :=
  match unseal_shares with
  | Some env_shares =>
    parse_share_lines "Invalid share index in UNSEAL_SHARES"
      "UNSEAL_SHARES has invalid format; expected lines 'index:share'" (str_lines env_shares)
  | None =>
    let? stdin_buf := stdin in
    parse_share_lines "Invalid share index from stdin"
      "Stdin input has invalid format; expected lines 'index:share'" (str_lines stdin_buf)
  end.

(** Where the shares come from. *)
Inductive UnsealInput :=
| FromTerminal (listing : result (list (result DirEntry string)) string)
    (share_files : list DirEntry) (pins : nat → nat → result string string)
| FromPipe (unseal_shares : option string) (stdin : result string string).

Definition handle_unseal_hsm (socket_path : string) (threshold : Z) (input : UnsealInput) :
    result unit string :=
  let? shares_to_send :=
    match input with
    | FromTerminal listing share_files pins =>
      interactive_shares threshold listing share_files pins
    | FromPipe unseal_shares stdin => piped_shares unseal_shares stdin
    end in
  send_init_master_key_request socket_path threshold shares_to_send.

(** *** encrypt and decrypt: the line they print *)

Definition cli_handle_encrypt (socket_path plaintext : string) : result string string :=
  match send_hsm_request socket_path (Encrypt "master_key" None (str_bytes plaintext)) None with
  | Ok (Encrypted ciphertext _) => Ok ("Ciphertext (HEX): " +s+ hex_encode ciphertext)
  | Ok (Error code message) =>
    Err ("Błąd szyfrowania [" +s+ pretty code +s+ "]: " +s+ message)
  | Ok _ => Err "Otrzymano nieoczekiwaną odpowiedź z HSM"%string
  | Err err => Err ("Błąd komunikacji z HSM: " +s+ HsmClientError_display err)
  end.

Definition cli_handle_decrypt (socket_path ciphertext_hex : string) : result string string :=
  let? ciphertext := map_err (λ _, "Nieprawidłowy HEX szyfrogramu"%string)
                       (hex_decode (trim ciphertext_hex)) in
  match send_hsm_request socket_path (Decrypt "master_key" None ciphertext) None with
  | Ok (Decrypted plaintext _) =>
    if is_utf8_bytes plaintext then Ok ("Plaintext: " +s+ str_of_bytes plaintext)
    else Err "Tekst odszyfrowany nie jest prawidłowym UTF-8"%string
  | Ok (Error code message) =>
    Err ("Błąd dekodowania [" +s+ pretty code +s+ "]: " +s+ message)
  | Ok _ => Err "Otrzymano nieoczekiwaną odpowiedź z HSM"%string
  | Err err => Err ("Błąd komunikacji z HSM: " +s+ HsmClientError_display err)
  end.

End commands.

(** ** Containers *)

Section container_proofs.
  Context `{Argon2Lib} `{Haead : AeadLaws} `{Hhex : HexLaws}.

Lemma open_sealed c nonce data ct salt :
  length nonce = 12%nat → aead_encrypt c nonce data = Ok ct →
  open_container c (MkEncryptedContainer salt (hex_encode nonce) (hex_encode ct)) = Ok data.
Proof.
  intros Hn He. unfold open_container. cbn [ec_nonce ec_ciphertext].
  rewrite !hex_decode_encode. cbn [result_bind]. rewrite Hn. by eapply decrypt_encrypt.
Qed.

Lemma container_opens password data d0 d1 container :
  encrypt_bytes_with_password password data d0 d1 = Ok container →
  decrypt_bytes_with_password password container = Ok data.
Proof.
  unfold encrypt_bytes_with_password, derive_key_from_password, decrypt_bytes_with_password,
    derive_key_with_salt. intros E. inv_ok.
  match goal with E : _ = Ok container |- _ => rename E into Hc end.
  apply result_bind_Ok in Hc as (c & Hk & Hc). apply result_bind_Ok in Hc as (nonce & Hn & Hc).
  apply result_bind_Ok in Hc as (ct & Hct & [= <-]). cbn [ec_salt].
  repeat match goal with E : _ = Ok _ |- context [_] => rewrite E; cbn [result_bind map_err] end.
  cbn [as_bytes SecretKey_from_bytes]. rewrite Hk. cbn [result_bind].
  apply open_sealed; [by eapply draw_length|done].
Qed.

(** A password container gives back what was put in it, and a storage key
    container the storage key. *)
Theorem containers_roundtrip password data d0 d1 container master storage d2 d3 container' :
  encrypt_bytes_with_password password data d0 d1 = Ok container →
  secret_key_wf storage →
  encrypt_storage_key master storage d2 d3 = Interfaces.Value (Ok container') →
  decrypt_bytes_with_password password container = Ok data ∧
  decrypt_storage_key master container' = Ok storage.
Proof.
  intros Hp Hwf Hs. split; [by eapply container_opens|].
  unfold encrypt_storage_key in Hs. destruct (salt_generate d2) as [salt| |]; [|done..].
  injection Hs as Hs. apply result_bind_Ok in Hs as (c & Hk & Hs).
  apply result_bind_Ok in Hs as (nonce & Hn & Hs).
  apply result_bind_Ok in Hs as (ct & Hct & [= <-]). unfold decrypt_storage_key.
  rewrite Hk. cbn [result_bind].
  rewrite (open_sealed c nonce (as_bytes storage)); [|by eapply draw_length|done].
  cbn [result_bind]. rewrite Hwf. by destruct storage.
Qed.

End container_proofs.

(** ** Share files *)

Lemma last_dot_app (l r : list ascii) :
  last_dot r = None → last_dot (l ++ "."%char :: r) = Some r.
Proof.
  intros Hr. induction l as [|c l IH]; [cbn; by rewrite Hr|].
  cbn [app last_dot]. by rewrite IH.
Qed.

Lemma share_file_extension i : path_extension (share_file_name i) = Some "json"%string.
Proof.
  unfold path_extension, share_file_name. rewrite chars_app.
  change (chars "share_") with ("s"%char :: chars "hare_"). cbn [app].
  rewrite chars_app. change (chars ".json") with ("."%char :: chars "json").
  rewrite app_assoc, last_dot_app by done. reflexivity.
Qed.

#[export] Instance share_file_name_inj : Inj (=) (=) share_file_name.
Proof.
  intros i j E. unfold share_file_name in E.
  apply (f_equal chars) in E. rewrite !chars_app in E. apply app_inv_head in E.
  apply app_inv_tail in E. apply (inj (pretty (A := Z))).
  rewrite <- (String.string_of_list_ascii_of_string (pretty i)).
  unfold chars in E. by rewrite E, String.string_of_list_ascii_of_string.
Qed.

Section file_proofs.
  Context `{Argon2Lib} `{Haead : AeadLaws} `{Hsha : Sha256} `{Hhex : HexLaws}
    `{Hcodec : ShareCodecLaws}.

(** The record a file holds. *)
Definition record_of (file : string * string) : ShareFileRecord :=
  match record_from_str file.2 with
  | Ok r => r
  | Err _ => MkShareFileRecord 0 0 0 (MkEncryptedContainer EmptyString EmptyString EmptyString)
               EmptyString 0
  end.

Definition entry_of (path : string) (file : string * string) : result DirEntry string :=
  Ok (MkDirEntry (path +s+ "/" +s+ file.1) file.1 true (Ok file.2)).

(** A file as [write_share_file] leaves it. *)
Definition sound_file (file : string * string) : Prop :=
  path_extension file.1 = Some "json"%string ∧ record_from_str file.2 = Ok (record_of file) ∧
  ∀ path, check_record path (record_of file) = Ok (record_of file).

Lemma load_entries_sound path files :
  Forall sound_file files → load_entries (entry_of path <$> files) = Ok (record_of <$> files).
Proof.
  induction 1 as [|file files (Hx & Hr & Hc) _ IH]; [done|].
  rewrite !fmap_cons. cbn [load_entries]. unfold entry_of at 1.
  cbn [result_bind de_is_file de_name].
  rewrite bool_decide_true by done. cbn [negb orb de_content result_bind].
  rewrite Hr. cbn [map_err result_bind]. rewrite Hc. cbn [result_bind]. by rewrite IH.
Qed.

(** A record that holds the officer's share under the officer's password. *)
Definition holds (officer : Officer) (share : Z * string) (r : ShareFileRecord) : Prop :=
  sf_index r = share.1 ∧
  ∃ pw, of_password officer = Ok pw ∧
    decrypt_bytes_with_password pw (sf_container r) = Ok (str_bytes share.2).

Fixpoint secured (officers : nat → Officer) (shares : list (Z * string))
    (records : list ShareFileRecord) : Prop :=
  match shares, records with
  | [], [] => True
  | share :: shares, r :: records =>
    holds (officers 0%nat) share r ∧ secured (λ i, officers (S i)) shares records
  | _, _ => False
  end.

Lemma secure_share_ok path t n officer share dir dir' :
  secure_share path t n officer share dir = Ok dir' →
  ∃ json, dir' = <[share_file_name share.1 := json]> dir ∧
    sound_file (share_file_name share.1, json) ∧
    holds officer share (record_of (share_file_name share.1, json)).
Proof.
  unfold secure_share. intros E. apply result_bind_Ok in E as (pw & Hpw & E).
  apply result_bind_Ok in E as (cf & _ & E). destruct (String.eqb pw cf); [|done].
  apply result_bind_Ok in E as (c & Hc & E). apply container_opens in Hc.
  unfold write_share_file in E. apply result_bind_Ok in E as (cj & Hcj & E).
  apply result_bind_Ok in E as (json & Hj & E). apply result_bind_Ok in E as (_ & _ & [= <-]).
  apply record_roundtrip in Hj. exists json. split; [done|].
  assert (∀ name, record_of (name, json) = MkShareFileRecord share.1 t n c
    (compute_sha256_hex cj) (of_now officer)) as Hrec
    by (intros; unfold record_of; cbn [snd]; by rewrite Hj).
  split; [|rewrite Hrec; split; [done|eauto]].
  split_and!; [apply share_file_extension|by rewrite Hrec|].
  intros p. rewrite Hrec. unfold check_record. cbn [sf_container sf_share_sha256].
  rewrite Hcj. cbn [result_bind]. by rewrite String.eqb_refl.
Qed.

Lemma secure_shares_ok path t n shares : ∀ officers dir dir',
  secure_shares path t n officers shares dir = (Ok (), dir') →
  NoDup shares.*1 → (∀ i, i ∈ shares.*1 → dir !! share_file_name i = None) →
  ∃ files, map_to_list dir' ≡ₚ files ++ map_to_list dir ∧ Forall sound_file files ∧
    secured officers shares (record_of <$> files).
Proof.
  induction shares as [|share shares IH]; intros officers dir dir' E Hnd Hfresh.
  { injection E as <-. by exists []. }
  cbn [secure_shares] in E.
  destruct (secure_share path t n (officers 0%nat) share dir) as [d1|] eqn:E1; [|done].
  apply secure_share_ok in E1 as (json & -> & Hs & Hh).
  cbn [fmap list_fmap] in Hnd, Hfresh. apply NoDup_cons in Hnd as [Hni Hnd].
  apply IH in E as (files & Hp & Hall & Hsec); [|done|].
  - exists ((share_file_name share.1, json) :: files). split; [|split; [by constructor|done]].
    rewrite Hp, map_to_list_insert by (apply Hfresh; by left).
    symmetry. apply Permutation_middle.
  - intros i Hi. rewrite lookup_insert_ne; [apply Hfresh; by right|].
    intros <-%(inj share_file_name). done.
Qed.

End file_proofs.

(** ** Collecting *)

Section unseal_proofs.
  Context `{Argon2Lib} `{Haead : AeadLaws} `{Hsha : Sha256} `{Hhex : HexLaws}
    `{Hcodec : ShareCodecLaws}.

Lemma secured_indices officers shares records :
  secured officers shares records → sf_index <$> records = shares.*1.
Proof.
  revert officers records. induction shares as [|share shares IH]; intros officers [|r records];
    try done. intros [[Hi _] Hs]. rewrite !fmap_cons, Hi. f_equal. by eapply IH.
Qed.

Lemma try_pins_right officer share r pins pw :
  holds officer share r → of_password officer = Ok pw → is_empty (trim pw) = false →
  is_utf8 share.2 = true → pins 0%nat = Ok pw →
  try_pins MAX_ATTEMPTS pins r = Ok (Some share.2).
Proof.
  intros (_ & pw' & Hpw' & Hd) Hpw Hne Hu Hp. rewrite Hpw in Hpw'. injection Hpw' as <-.
  unfold MAX_ATTEMPTS. cbn [try_pins]. rewrite Hp. cbn [map_err result_bind].
  rewrite Hne, Hd. unfold is_utf8 in Hu. by rewrite Hu, str_of_str_bytes.
Qed.

(** The first officers needed, typing their passwords, give their shares. *)
Lemma collect_shares_right t shares : ∀ officers pins records acc,
  secured officers shares records → Forall (λ s, is_utf8 s.2 = true) shares →
  (∀ i, Z.of_nat i < t - blen acc → pins i 0%nat = of_password (officers i) ∧
        ∀ pw, of_password (officers i) = Ok pw → is_empty (trim pw) = false) →
  collect_shares t pins records acc = Ok (acc ++ take (Z.to_nat (t - blen acc)) shares).
Proof.
  induction shares as [|share shares IH]; intros officers pins [|r records] acc Hsec Hu Hpin;
    try done.
  { cbn. by rewrite take_nil, app_nil_r. }
  cbn [collect_shares]. destruct (Z.leb_spec t (blen acc)).
  { rewrite (Z2Nat.nonpos (t - blen acc)) by lia. by rewrite app_nil_r. }
  destruct Hsec as [Hh Hsec]. apply Forall_cons in Hu as [Hus Hu].
  destruct (Hpin 0%nat ltac:(lia)) as [Hp Hne]. destruct Hh as (Hi & pw & Hpw & Hd).
  erewrite try_pins_right; [|by split; [|eauto]|exact Hpw|by apply Hne|done|by rewrite Hp].
  cbn [result_bind]. rewrite (IH (λ i, officers (S i))); [|done|done|].
  - rewrite Hi. unfold blen. rewrite length_app. cbn [length].
    replace (Z.to_nat (t - Z.of_nat (length acc))) with
      (S (Z.to_nat (t - Z.of_nat (length acc + 1)))) by (unfold blen in *; lia).
    cbn [take]. rewrite <- app_assoc. by destruct share.
  - intros i Hlt. apply Hpin. unfold blen in *. rewrite length_app in Hlt. cbn in Hlt. lia.
Qed.

End unseal_proofs.

(** ** Properties of the commands *)

Section command_proofs.
  Context `{Argon2Lib} `{SsssLaws} `{Haead : AeadLaws} `{Hsha : Sha256} `{Hhex : HexLaws}
    `{Hp256 : P256} `{Hx509 : X509} `{Hshare : ShareCodecLaws} `{Hlaws : HsmCodecLaws}.

(** A message serde encodes within the daemon's limit. *)
Definition request_fits (req : HsmRequest) : Prop :=
  request_wf req = true ∧
  ∃ bs, request_to_vec req = Ok bs ∧ blen bs ≤ MAX_PAYLOAD_SIZE.
Definition response_fits (r : HsmResponse) : Prop :=
  response_wf r = true ∧
  ∃ bs, response_to_vec r = Ok bs ∧ blen bs ≤ MAX_PAYLOAD_SIZE.

Lemma send_fits ent now s path req r s' :
  request_fits req → response_fits r →
  run (handle_request ent now req) s = (Replied r, s') → (∀ c m, r ≠ Error c m) →
  send_hsm_request (Hnet := vhsm_socket ent now s) path req None = Ok r.
Proof.
  intros (Hw & bs & Hb & Hl) (Hw' & bs' & Hb' & Hl') Hrun Hne.
  rewrite (send_over_socket ent now s path req None bs r s' bs') by done.
  destruct r; try done. by destruct (Hne code message).
Qed.

(** What the ceremony command does once the daemon has answered. *)
Lemma ceremony_after_answer ent now sock n t path mkdir officers dir shares s1 :
  0 ≤ n ≤ u8_max → request_fits (GenerateCeremony t n) →
  response_fits (CeremonyGenerated shares) →
  run (handle_request ent now (GenerateCeremony t n)) VhsmState_new =
    (Replied (CeremonyGenerated shares), s1) →
  2 ≤ t ≤ n ∧
  handle_interactive_ceremony (Hnet := vhsm_socket ent now VhsmState_new) sock n t path mkdir
    officers dir =
  match mkdir with
  | Err e => (Err e, dir)
  | Ok _ => secure_shares path t n officers shares dir
  end.
Proof.
  intros Hn Hq Hr Hrun. pose proof Hrun as (key & _ & Hsplit & _)%run_generate_ceremony_inv.
  apply split_shares_inv in Hsplit as (? & (_ & Ht & _)%split_secret_inv & _).
  split; [done|]. unfold handle_interactive_ceremony.
  destruct (Z.eqb_spec n 0), (Z.eqb_spec t 0), (Z.ltb_spec n t); try lia. cbn [orb].
  by rewrite (send_fits _ _ _ _ _ (CeremonyGenerated shares) s1).
Qed.

Lemma shares_of_ceremony ent now t n shares s1 :
  0 ≤ n ≤ u8_max →
  run (handle_request ent now (GenerateCeremony t n)) VhsmState_new =
    (Replied (CeremonyGenerated shares), s1) →
  ∃ key, length key = 32%nat ∧ split_shares (MkSecretKey key) n t (ent 1) = Ok shares ∧
    s1 = install_master_key key VhsmState_new ∧
    shares.*1 = Z.of_nat <$> seq 1 (Z.to_nat n) ∧ NoDup shares.*1.
Proof.
  intros Hn (key & Hl & Hs & ->)%run_generate_ceremony_inv. exists key.
  split_and!; [done..|by eapply split_shares_fst|by eapply split_shares_nodup].
Qed.

Lemma ascending_indices officers shares records n :
  secured officers shares records → shares.*1 = Z.of_nat <$> seq 1 n →
  StronglySorted (key_le sf_index) records.
Proof.
  intros Hsec%secured_indices Hseq. rewrite Hseq in Hsec. clear Hseq.
  revert records Hsec. generalize 1%nat. induction n as [|n IH]; intros k [|r records] E;
    try done; [constructor|]. cbn [seq] in E. rewrite !fmap_cons in E. injection E as Er E.
  constructor; [by eapply IH|].
  apply Forall_forall. intros x Hx. unfold key_le.
  assert (sf_index x ∈ sf_index <$> records) as Hin by (by apply list_elem_of_fmap_2).
  rewrite E in Hin.
  apply list_elem_of_fmap in Hin as (j & -> & Hj%elem_of_seq). lia.
Qed.

(** The shares the terminal mode collects from the files of a ceremony. *)
Lemma interactive_shares_right path n t officers shares files listing pins :
  2 ≤ t ≤ n → shares.*1 = Z.of_nat <$> seq 1 (Z.to_nat n) → NoDup shares.*1 →
  Forall (λ s, is_utf8 s.2 = true) shares →
  Forall sound_file files → secured officers shares (record_of <$> files) → listing ≡ₚ files →
  (∀ i, Z.of_nat i < t → pins i 0%nat = of_password (officers i) ∧
        ∀ pw, of_password (officers i) = Ok pw → is_empty (trim pw) = false) →
  interactive_shares t (Ok (entry_of path <$> listing)) [] pins =
    Ok (take (Z.to_nat t) shares).
Proof.
  intros Ht Hseq Hnd Hu Hall Hsec Hlist Hpins.
  assert (length shares = Z.to_nat n) as Hlen.
  { rewrite <- (length_fmap fst), Hseq. by rewrite length_fmap, length_seq. }
  pose proof (secured_indices _ _ _ Hsec) as Hidx.
  unfold interactive_shares, load_share_directory. cbn [length Nat.eqb result_bind].
  rewrite load_entries_sound by (by rewrite Hlist). cbn [result_bind].
  rewrite (sort_by_key_unique sf_index _ (record_of <$> files));
    [|by rewrite Hlist|by eapply ascending_indices|by rewrite Hidx].
  assert (blen (record_of <$> listing) = n) as ->.
  { unfold blen. rewrite Hlist, <- (length_fmap sf_index), Hidx, length_fmap. lia. }
  destruct (Z.ltb_spec n t); [lia|].
  rewrite (collect_shares_right t shares officers);
    [|done|done|intros i Hi; apply Hpins; unfold blen in Hi; cbn [length] in Hi; lia].
  cbn [result_bind app]. rewrite (Z.sub_0_r t : t - blen [] = t).
  destruct (Z.ltb_spec (blen (take (Z.to_nat t) shares)) t) as [Hlt|]; [|done].
  unfold blen in Hlt. rewrite length_take, Hlen in Hlt. lia.
Qed.

Lemma response_shares_utf8 shares :
  response_fits (CeremonyGenerated shares) → Forall (λ s, is_utf8 s.2 = true) shares.
Proof.
  intros [Hwf _]. cbn in Hwf. unfold shares_wf in Hwf. apply Forall_forall. intros s Hin.
  apply list_elem_of_In, (proj1 (forallb_forall _ _) Hwf s), andb_true_iff in Hin.
  apply Hin.
Qed.

(** C10: the command line round trip of a master key: a ceremony that ends
    normally leaves share files from which [unseal], whatever the order in
    which the directory is listed, restores in a fresh daemon the very state
    the ceremony left, once the first [t] officers type their passwords. *)
Theorem ceremony_unseals ent now sock n t path mkdir officers shares s1 dir
    ent2 now2 sock2 listing pins :
  0 ≤ n ≤ u8_max → request_fits (GenerateCeremony t n) →
  response_fits (CeremonyGenerated shares) →
  run (handle_request ent now (GenerateCeremony t n)) VhsmState_new =
    (Replied (CeremonyGenerated shares), s1) →
  handle_interactive_ceremony (Hnet := vhsm_socket ent now VhsmState_new) sock n t path mkdir
    officers ∅ = (Ok (), dir) →
  listing ≡ₚ map_to_list dir →
  (∀ i, Z.of_nat i < t → pins i 0%nat = of_password (officers i) ∧
        ∀ pw, of_password (officers i) = Ok pw → is_empty (trim pw) = false) →
  request_fits (InitMasterKey t (take (Z.to_nat t) shares)) →
  response_fits MasterKeyInitialized →
  handle_unseal_hsm (Hnet := vhsm_socket ent2 now2 VhsmState_new) sock2 t
    (FromTerminal (Ok (entry_of path <$> listing)) [] pins) = Ok () ∧
  run (handle_request ent2 now2 (InitMasterKey t (take (Z.to_nat t) shares))) VhsmState_new =
    (Replied MasterKeyInitialized, s1).
Proof.
  intros Hn Hq Hr Hrun Hcer Hlist Hpins Hq2 Hr2.
  destruct (ceremony_after_answer ent now sock n t path mkdir officers ∅ shares s1)
    as [Ht Hh]; [done..|]. rewrite Hh in Hcer. destruct mkdir as [[]|]; [|done].
  destruct (shares_of_ceremony _ _ _ _ _ _ Hn Hrun) as (key & Hl & Hs & -> & Hseq & Hnd).
  apply secure_shares_ok in Hcer as (files & Hp & Hall & Hsec);
    [|done|by intros; apply lookup_empty].
  rewrite map_to_list_empty, app_nil_r in Hp.
  assert (run (handle_request ent2 now2 (InitMasterKey t (take (Z.to_nat t) shares)))
    VhsmState_new = (Replied MasterKeyInitialized, install_master_key key VhsmState_new)) as Hrun2.
  { assert (blen (take (Z.to_nat t) shares) = t) as Htake.
    { unfold blen. rewrite length_take, <- (length_fmap fst shares), Hseq, length_fmap,
        length_seq. lia. }
    apply run_init_master_key; [lia|].
    eapply reconstruct_split; [done|done|exact Hs|apply submseteq_take|lia]. }
  split; [|done]. unfold handle_unseal_hsm.
  rewrite (interactive_shares_right path n t officers shares files);
    [|done..|by apply response_shares_utf8|done|done|by rewrite Hlist|done].
  cbn [result_bind]. unfold send_init_master_key_request.
  rewrite (proj2 (first_duplicate_None ∅ _)).
  - by rewrite (send_fits _ _ _ _ _ MasterKeyInitialized (install_master_key key VhsmState_new)).
  - split; [|set_solver]. rewrite fmap_take. eapply sublist_NoDup; [done|apply sublist_take].
Qed.

(** An officer whose confirmation differs ends the loop with at most the
    files of the officers before. *)
Lemma secure_shares_abort path t n a b shares : ∀ officers dir k,
  of_password (officers k) = Ok a → of_confirm (officers k) = Ok b → a ≠ b →
  (k < length shares)%nat →
  ∃ e dir', secure_shares path t n officers shares dir = (Err e, dir') ∧
    (size dir' ≤ size dir + k)%nat.
Proof.
  induction shares as [|share shares IH]; intros officers dir k Ha Hb Hne Hk; [cbn in Hk; lia|].
  cbn [secure_shares].
  destruct (secure_share path t n (officers 0%nat) share dir) as [d1|e] eqn:E.
  - destruct k as [|k].
    { unfold secure_share in E. rewrite Ha, Hb in E. cbn [result_bind] in E.
      by rewrite (proj2 (String.eqb_neq a b)) in E. }
    destruct (IH (λ i, officers (S i)) d1 k) as (e & dir' & -> & Hs); [done..|cbn in Hk; lia|].
    exists e, dir'. split; [done|].
    apply secure_share_ok in E as (json & -> & _).
    pose proof (map_size_insert (share_file_name share.1) json dir) as Hi.
    destruct (dir !! share_file_name share.1); cbn in Hi; lia.
  - exists e, dir. split; [done|lia].
Qed.

Lemma load_entries_length entries records :
  load_entries entries = Ok records → (length records ≤ length entries)%nat.
Proof.
  revert records. induction entries as [|entry entries IH]; intros records E.
  { injection E as <-. done. }
  cbn [load_entries] in E. apply result_bind_Ok in E as (en & _ & E).
  case_match; [apply IH in E; cbn; lia|].
  apply result_bind_Ok in E as (c & _ & E). apply result_bind_Ok in E as (r & _ & E).
  apply result_bind_Ok in E as (r' & _ & E). apply result_bind_Ok in E as (rs & Hrs & [= <-]).
  apply IH in Hrs. cbn. lia.
Qed.

(** C35: a typing mistake before the last needed officer costs the master key: the
    command gives up with the key installed and fewer share files than the
    threshold, which [unseal] refuses, while the daemon refuses to repeat the
    ceremony. *)
Theorem aborted_ceremony_loses_key ent now sock n t path mkdir officers shares s1 k a b :
  0 ≤ n ≤ u8_max → request_fits (GenerateCeremony t n) →
  response_fits (CeremonyGenerated shares) →
  run (handle_request ent now (GenerateCeremony t n)) VhsmState_new =
    (Replied (CeremonyGenerated shares), s1) →
  of_password (officers k) = Ok a → of_confirm (officers k) = Ok b → a ≠ b →
  Z.of_nat k < t →
  ∃ e dir,
    handle_interactive_ceremony (Hnet := vhsm_socket ent now VhsmState_new) sock n t path mkdir
      officers ∅ = (Err e, dir) ∧
    (size dir ≤ k)%nat ∧ is_Some (master_key s1) ∧
    (∀ ent2 now2 t2 n2, ∃ msg,
       run (handle_request ent2 now2 (GenerateCeremony t2 n2)) s1 = (Replied (Error 400 msg), s1)) ∧
    ∀ listing pins sent, listing ≡ₚ map_to_list dir →
      interactive_shares t (Ok (entry_of path <$> listing)) [] pins ≠ Ok sent.
Proof.
  intros Hn Hq Hr Hrun Ha Hb Hne Hk.
  destruct (ceremony_after_answer ent now sock n t path mkdir officers ∅ shares s1)
    as [Ht ->]; [done..|].
  destruct (shares_of_ceremony _ _ _ _ _ _ Hn Hrun) as (key & _ & _ & -> & Hseq & _).
  assert (∃ e dir, match mkdir with
    | Ok _ => secure_shares path t n officers shares ∅
    | Err e => (Err e, ∅) end = (Err e, dir) ∧ (size dir ≤ k)%nat) as (e & dir & -> & Hsize).
  { destruct mkdir; [|exists e, ∅; split; [done|rewrite map_size_empty; lia]].
    destruct (secure_shares_abort path t n a b shares officers ∅ k) as (e & dir & -> & Hs);
      [done..| |rewrite map_size_empty in Hs; eauto].
    rewrite <- (length_fmap fst), Hseq, length_fmap, length_seq. lia. }
  exists e, dir. split_and!; [done|done|by eexists|by intros; eexists|].
  intros listing pins sent Hl E. unfold interactive_shares in E. cbn [length Nat.eqb] in E.
  apply result_bind_Ok in E as (records & Hrec & E). unfold load_share_directory in Hrec.
  cbn [result_bind] in Hrec. apply load_entries_length in Hrec.
  rewrite length_fmap, Hl, length_map_to_list in Hrec.
  destruct (Z.ltb_spec (blen records) t) as [|Hge]; [done|]. unfold blen in Hge. lia.
Qed.

(** A share file whose hash does not match its container is refused when it
    is found in the directory, and accepted when it is named with [--file]. *)
Theorem named_share_files_unchecked path name content r container_json :
  path_extension name = Some "json"%string → record_from_str content = Ok r →
  container_to_string (sf_container r) = Ok container_json →
  sf_share_sha256 r ≠ compute_sha256_hex container_json →
  (∃ e, load_share_directory (Ok [Ok (MkDirEntry path name true (Ok content))]) = Err e) ∧
  load_files [MkDirEntry path name true (Ok content)] = Ok [r].
Proof.
  intros Hx Hr Hc Hne. unfold load_share_directory. cbn. rewrite bool_decide_true by done.
  cbn. rewrite Hr. cbn. split; [|done]. unfold check_record. rewrite Hc. cbn.
  rewrite (proj2 (String.eqb_neq _ _)) by done. by eexists.
Qed.

(** What the [encrypt] command prints, the [decrypt] command turns back into
    the text. *)
Theorem cli_encrypt_decrypt ent now ent2 now2 sock sock2 s s' text ct v :
  is_utf8 text = true → trim (hex_encode ct) = hex_encode ct →
  run (handle_request ent now (Encrypt "master_key" None (str_bytes text))) s =
    (Replied (Encrypted ct v), s') →
  request_fits (Encrypt "master_key" None (str_bytes text)) → response_fits (Encrypted ct v) →
  request_fits (Decrypt "master_key" None ct) → response_fits (Decrypted (str_bytes text) v) →
  cli_handle_encrypt (Hnet := vhsm_socket ent now s) sock text =
    Ok ("Ciphertext (HEX): " +s+ hex_encode ct) ∧
  cli_handle_decrypt (Hnet := vhsm_socket ent2 now2 s') sock2 (hex_encode ct) =
    Ok ("Plaintext: " +s+ text).
Proof.
  intros Hu Htrim Hrun Hq1 Hr1 Hq2 Hr2. split.
  { unfold cli_handle_encrypt. by rewrite (send_fits _ _ _ _ _ (Encrypted ct v) s'). }
  apply run_encrypt_inv in Hrun as (_ & -> & -> & k & Hk & Henc).
  unfold cli_handle_decrypt. rewrite Htrim, hex_decode_encode. cbn [map_err result_bind].
  rewrite (send_fits _ _ _ _ _ (Decrypted (str_bytes text) (active_key_version s)) s);
    [|done|done| |done].
  - unfold is_utf8 in Hu. by rewrite Hu, str_of_str_bytes.
  - apply decrypt_encrypt_bytes in Henc. unfold handle_request, handle_decrypt. cbn.
    rewrite Hk. cbn. by rewrite Henc.
Qed.

End command_proofs.

(** ** A concrete ceremony *)

Section CeremonyWitnesses.

Import Concrete.

(** The key is the first 32 bytes of the salt and the password. *)
#[local] Instance plain_argon2 : Argon2Lib := {
  argon2_params := unit;
  params_new _ _ _ _ := Ok ();
  hash_password_into _ password salt := Ok (take 32 (salt ++ password ++ replicate 32 Byte.x00));
  salt_encode_b64 bs := Ok (hex_of bs);
  salt_generate _ := Interfaces.Value "salt"%string }.

(** Numbers below 256 as one byte; other records are refused. *)
Definition byte_text (z : Z) : string := str_of_bytes [byte_of_Z z].
Definition text_byte (s : string) : Z := match str_bytes s with b :: _ => Z_of_byte b | [] => 0 end.
Definition small_record (r : ShareFileRecord) : bool :=
  is_u8 (sf_index r) && is_u8 (sf_threshold r) && is_u8 (sf_total_shares r) &&
  is_u8 (sf_created_at r).

Lemma text_byte_text z : is_u8 z = true → text_byte (byte_text z) = z.
Proof.
  unfold is_u8, u8_max, text_byte, byte_text. intros Hz. rewrite str_bytes_of_str, Z_of_byte_of_Z.
  apply Z.mod_small. lia.
Qed.

Definition pack_record (r : ShareFileRecord) : string :=
  pack [byte_text (sf_index r); byte_text (sf_threshold r); byte_text (sf_total_shares r);
        byte_text (sf_created_at r); sf_share_sha256 r; ec_salt (sf_container r);
        ec_nonce (sf_container r); ec_ciphertext (sf_container r)].
Definition unpack_record (s : string) : result ShareFileRecord string :=
  match unpack 8 s with
  | Some [i; t; n; c; h; salt; nonce; ct] =>
    Ok (MkShareFileRecord (text_byte i) (text_byte t) (text_byte n)
          (MkEncryptedContainer salt nonce ct) h (text_byte c))
  | _ => Err "record"%string
  end.

#[local] Instance packed_shares : ShareCodec := {
  container_to_string c := Ok (pack [ec_salt c; ec_nonce c; ec_ciphertext c]);
  record_to_string_pretty r := if small_record r then Ok (pack_record r) else Err "large"%string;
  record_from_str := unpack_record }.

#[local] Instance packed_shares_laws : ShareCodecLaws packed_shares.
Proof.
  split. cbn [record_to_string_pretty record_from_str packed_shares]. intros r s.
  destruct (small_record r) eqn:Hs; [|done]. intros [= <-].
  unfold small_record in Hs. rewrite !andb_true_iff in Hs. destruct Hs as [[[? ?] ?] ?].
  unfold unpack_record, pack_record. rewrite (unpack_pack [_; _; _; _; _; _; _; _]).
  rewrite !text_byte_text by done. by destruct r as [? ? ? [] ? ?].
Qed.

(** The messages of a ceremony: a tag and the packed fields. *)
Definition pack_shares (ss : list (Z * string)) : list byte :=
  byte_of_Z (blen ss) :: str_bytes (pack (concat ((λ p, [byte_text p.1; p.2]) <$> ss))).
Fixpoint pair_up (texts : list string) : list (Z * string) :=
  match texts with
  | i :: v :: texts => (text_byte i, v) :: pair_up texts
  | _ => []
  end.
Definition unpack_shares (bs : list byte) : option (list (Z * string)) :=
  match bs with
  | [] => None
  | b :: bs => pair_up <$> unpack (2 * Z.to_nat (Z_of_byte b)) (str_of_bytes bs)
  end.

Lemma unpack_pack_shares ss :
  shares_wf ss = true → blen ss ≤ u8_max → unpack_shares (pack_shares ss) = Some ss.
Proof.
  intros Hwf Hl. unfold pack_shares. cbn [unpack_shares]. rewrite str_of_str_bytes, Z_of_byte_of_Z.
  rewrite Z.mod_small by (unfold blen, u8_max in *; lia).
  replace (2 * Z.to_nat (blen ss))%nat with
    (length (concat ((λ p, [byte_text p.1; p.2]) <$> ss))).
  - rewrite unpack_pack. change (pair_up <$> Some ?x) with (Some (pair_up x)). f_equal. clear Hl. unfold shares_wf in Hwf.
    induction ss as [|[i v] ss IH]; [done|]. cbn [forallb] in Hwf.
    apply andb_true_iff in Hwf as [[Hi _]%andb_true_iff Hwf].
    rewrite fmap_cons. cbn [concat app pair_up fst snd].
    rewrite text_byte_text by done. f_equal. by apply IH.
  - unfold blen. rewrite Nat2Z.id. clear. induction ss as [|p ss IH]; [done|]. cbn in *. lia.
Qed.

#[local] Instance ceremony_codec : HsmCodec := {
  request_to_vec r :=
    match r with
    | GenerateCeremony t n => Ok [byte_of_Z 1; byte_of_Z t; byte_of_Z n]
    | InitMasterKey t ss =>
      if blen ss <=? u8_max then Ok (byte_of_Z 2 :: byte_of_Z t :: pack_shares ss)
      else Err "large"%string
    | Encrypt k None p =>
      if String.eqb k "master_key" then Ok (byte_of_Z 3 :: p) else Err "key"%string
    | Decrypt k None c =>
      if String.eqb k "master_key" then Ok (byte_of_Z 4 :: c) else Err "key"%string
    | _ => Err "unsupported"%string
    end;
  request_from_slice bs :=
    match bs with
    | [] => Err "empty"%string
    | b :: bs =>
      let k := Z_of_byte b in
      if k =? 3 then Ok (Encrypt "master_key" None bs)
      else if k =? 4 then Ok (Decrypt "master_key" None bs)
      else match bs with
      | t :: bs =>
        if k =? 1 then Ok (GenerateCeremony (Z_of_byte t) (text_byte (str_of_bytes bs)))
        else match unpack_shares bs with
        | Some ss => Ok (InitMasterKey (Z_of_byte t) ss)
        | None => Err "shares"%string
        end
      | [] => Err "request"%string
      end
    end;
  response_to_vec r :=
    match r with
    | CeremonyGenerated ss =>
      if blen ss <=? u8_max then Ok (byte_of_Z 1 :: pack_shares ss) else Err "large"%string
    | MasterKeyInitialized => Ok [byte_of_Z 2]
    | Encrypted c v => if is_u8 v then Ok (byte_of_Z 3 :: byte_of_Z v :: c) else Err "v"%string
    | Decrypted p v => if is_u8 v then Ok (byte_of_Z 4 :: byte_of_Z v :: p) else Err "v"%string
    | _ => Err "unsupported"%string
    end;
  response_from_slice bs :=
    match bs with
    | [] => Err "empty"%string
    | b :: bs =>
      let k := Z_of_byte b in
      if k =? 1 then
        match unpack_shares bs with
        | Some ss => Ok (CeremonyGenerated ss)
        | None => Err "shares"%string
        end
      else match bs with
      | [] => Ok MasterKeyInitialized
      | v :: bs =>
        if k =? 3 then Ok (Encrypted bs (Z_of_byte v)) else Ok (Decrypted bs (Z_of_byte v))
      end
    end }.

Lemma byte_roundtrip z : is_u8 z = true → Z_of_byte (byte_of_Z z) = z.
Proof. unfold is_u8, u8_max. intros. rewrite Z_of_byte_of_Z. apply Z.mod_small. lia. Qed.

#[local] Instance ceremony_codec_laws : HsmCodecLaws ceremony_codec.
Proof.
  split; intros r bs Hwf Hr; destruct r; cbn [request_to_vec response_to_vec ceremony_codec] in Hr;
    try discriminate Hr; cbn [request_wf response_wf] in Hwf;
    rewrite ?andb_true_iff in Hwf; destruct_and?; repeat case_match; try discriminate;
    injection Hr as <-; cbn [request_from_slice response_from_slice ceremony_codec];
    rewrite !byte_roundtrip by done; cbn [Z.eqb Pos.eqb];
    repeat match goal with E : String.eqb _ _ = true |- _ => apply String.eqb_eq in E as -> end;
    rewrite ?unpack_pack_shares by (done || lia); try done.
  change (str_of_bytes [byte_of_Z total_shares]) with (byte_text total_shares).
  by rewrite text_byte_text.
Qed.

Definition demo_officer (i : nat) : Officer :=
  MkOfficer (Ok "secret"%string) (Ok "secret"%string) (draw_const (byte_of_Z 7))
    (draw_const (byte_of_Z 9)) 5 (Ok ()).
Definition hasty_officer (i : nat) : Officer :=
  if (i =? 1)%nat
  then MkOfficer (Ok "secret"%string) (Ok "Secret"%string) (draw_const (byte_of_Z 7))
         (draw_const (byte_of_Z 9)) 5 (Ok ())
  else demo_officer i.

Definition demo_shares : list (Z * string) :=
  imap (λ i v, (Z.of_nat i + 1, v)) (replicate 3 (rep_share 2 (replicate 32 (byte_of_Z 0)))).
Definition demo_unsealed : VhsmState :=
  install_master_key (replicate 32 (byte_of_Z 0)) VhsmState_new.
Definition demo_dir : gmap string string :=
  (handle_interactive_ceremony (Hnet := vhsm_socket ent0 0 VhsmState_new) "sock" 3 2 "out/shares"
     (Ok ()) demo_officer ∅).2.

Ltac fits := split; [vm_compute; reflexivity|]; eexists;
  split; [vm_compute; reflexivity|vm_compute; discriminate].

Lemma ceremony_unseals_witness :
  handle_unseal_hsm (Hnet := vhsm_socket ent0 1 VhsmState_new) "sock" 2
    (FromTerminal (Ok (entry_of "out/shares" <$> reverse (map_to_list demo_dir))) []
       (λ _ _, Ok "secret"%string)) = Ok () ∧
  run (handle_request ent0 1 (InitMasterKey 2 (take 2 demo_shares))) VhsmState_new =
    (Replied MasterKeyInitialized, demo_unsealed).
Proof.
  apply (ceremony_unseals ent0 0 "sock" 3 2 "out/shares" (Ok ()) demo_officer demo_shares
    demo_unsealed demo_dir).
  - vm_compute. split; discriminate.
  - fits.
  - fits.
  - vm_compute. reflexivity.
  - vm_compute. reflexivity.
  - apply reverse_Permutation.
  - intros i _. split; [reflexivity|]. intros pw [= <-]. vm_compute. reflexivity.
  - fits.
  - fits.
Defined.

Lemma aborted_ceremony_loses_key_witness :
  ∃ e dir,
    handle_interactive_ceremony (Hnet := vhsm_socket ent0 0 VhsmState_new) "sock" 3 2 "out/shares"
      (Ok ()) hasty_officer ∅ = (Err e, dir) ∧ (size dir ≤ 1)%nat.
Proof.
  destruct (aborted_ceremony_loses_key ent0 0 "sock" 3 2 "out/shares" (Ok ()) hasty_officer
    demo_shares demo_unsealed 1 "secret" "Secret") as (e & dir & Hh & Hs & _).
  - vm_compute. split; discriminate.
  - fits.
  - fits.
  - vm_compute. reflexivity.
  - reflexivity.
  - reflexivity.
  - discriminate.
  - vm_compute. reflexivity.
  - exists e, dir. split; [exact Hh|exact Hs].
Defined.

Lemma containers_roundtrip_witness :
  ∃ c c', encrypt_bytes_with_password "pin" [byte_of_Z 1] (draw_const (byte_of_Z 2))
            (draw_const (byte_of_Z 3)) = Ok c ∧
    decrypt_bytes_with_password "pin" c = Ok [byte_of_Z 1] ∧
    decrypt_storage_key zero_key c' = Ok zero_key.
Proof.
  do 2 eexists. split; [vm_compute; reflexivity|].
  apply (containers_roundtrip "pin" [byte_of_Z 1] (draw_const (byte_of_Z 2))
    (draw_const (byte_of_Z 3)) _ zero_key zero_key (draw_const (byte_of_Z 4))
    (draw_const (byte_of_Z 5))); vm_compute; reflexivity.
Defined.

Definition altered_record : ShareFileRecord :=
  MkShareFileRecord 1 2 3 (MkEncryptedContainer "salt" "nonce" "text") "other" 5.

Lemma named_share_files_unchecked_witness :
  (∃ e, load_share_directory (Ok [Ok (MkDirEntry "d/share_1.json" "share_1.json" true
          (Ok (pack_record altered_record)))]) = Err e) ∧
  load_files [MkDirEntry "d/share_1.json" "share_1.json" true (Ok (pack_record altered_record))] =
    Ok [altered_record].
Proof.
  eapply named_share_files_unchecked; [vm_compute; reflexivity|vm_compute; reflexivity
    |reflexivity|vm_compute; discriminate].
Defined.

Lemma cli_encrypt_decrypt_witness :
  ∃ ct, cli_handle_encrypt (Hnet := vhsm_socket ent0 0 demo_unsealed) "sock" "text" =
          Ok ("Ciphertext (HEX): " +s+ hex_encode ct) ∧
        cli_handle_decrypt (Hnet := vhsm_socket ent0 1 demo_unsealed) "sock" (hex_encode ct) =
          Ok "Plaintext: text"%string.
Proof.
  eexists. eapply (cli_encrypt_decrypt ent0 0 ent0 1 "sock" "sock" demo_unsealed demo_unsealed
    "text"); [vm_compute; reflexivity| |vm_compute; reflexivity|fits|fits|fits|fits].
  vm_compute. reflexivity.
Defined.

End CeremonyWitnesses.
