(* ===== verification/Spire.v ===== *)
(** * The SPIRE upstream authority

    The plugin [spire-kms-upstream-authority], which SPIRE starts as a child
    process, and its way to the service: [config.rs], [kms_client.rs],
    [grpc_server.rs] and [main.rs] of the plugin, and the Unix socket listener
    of [kms-service/src/main.rs] that answers it.  The peer of the plugin's
    client has a state, so that an attempt that fails is seen by the next one;
    the listener over the use case of [RootCa] is one such peer.  Log lines
    are not modelled. *)

From S2P Require Import Prelude.
From S2P Require Import Interfaces.
From S2P Require Import Protocol.
From S2P Require Import Domain.
From S2P Require Import Effects.
From S2P Require Import Acl.
From S2P Require Import AuditLog.
From S2P Require Import AuditChain.
From S2P Require Import KeyStore.
From S2P Require Import KeyUseCases.
From S2P Require Import Database.
From S2P Require Import VhsmClient.
From S2P Require Import DataUseCases.
From S2P Require Import RootCa.

(** ** config.rs *)

Record PluginArgs := MkPluginArgs {
  pa_spire_plugin_socket_path : string;
  pa_kms_socket_path : string;
  pa_ca_tag : string }.

Record PluginConfig := MkPluginConfig {
  pc_spire_plugin_socket_path : string;
  pc_kms_socket_path : string;
  pc_ca_tag : string;
  pc_plugin_name : string }.

Definition into_config (self : PluginArgs) : PluginConfig := {|
  pc_spire_plugin_socket_path := pa_spire_plugin_socket_path self;
  pc_kms_socket_path := pa_kms_socket_path self;
  pc_ca_tag := pa_ca_tag self;
  pc_plugin_name := "spire-kms-upstream-authority" |}.

Definition PluginConfig_validate (self : PluginConfig) : result unit string :=
  if is_empty (trim (pc_spire_plugin_socket_path self)) then
    Err "SPIRE plugin socket path must not be empty"
  else if is_empty (trim (pc_kms_socket_path self)) then Err "KMS socket path must not be empty"
  else if is_empty (trim (pc_ca_tag self)) then Err "CA tag must not be empty"
  else Ok ().

(** ** kms_client.rs *)

Definition MAX_KMS_RESPONSE_SIZE : Z := 10 * 1024 * 1024.
(** 15 s, in nanoseconds *)
Definition KMS_TIMEOUT : Z := 15 * 1000000000.
Definition ATTEMPTS : Z := 5.
Definition INITIAL_BACKOFF_MS : Z := 500.

Record KmsSignRequest := MkKmsSignRequest {
  ks_csr_pem : string;
  ks_ca_tag : string;
  ks_validity_days : Z;
  ks_caller_service : string }.

Record KmsSignResponse := MkKmsSignResponse {
  kr_certificate_pem : string;
  kr_root_certificate_pem : option string }.

(** [serde_json] on the messages, and on any JSON text. *)
Class KmsSignCodec := {
  sign_request_to_vec : KmsSignRequest → result (list byte) string;
  sign_request_from_slice : list byte → result KmsSignRequest string;
  sign_response_to_vec : KmsSignResponse → result (list byte) string;
  sign_response_from_slice : list byte → result KmsSignResponse string;
  value_from_slice : list byte → result Value string }.

(** Where the plugin connects. *)
Inductive KmsAddr := TcpAddr (addr : string) | UnixAddr (path : string).

(** [s.trim_start_matches(p)] for a string [p]: every leading copy. *)
Fixpoint trim_prefixes_fuel (fuel : nat) (p s : string) : string :=
  match fuel with
  | O => s
  | S fuel =>
    if starts_with p s then trim_prefixes_fuel fuel p (str_drop (String.length p) s) else s
  end.
Definition trim_prefixes (p s : string) : string :=
  trim_prefixes_fuel (String.length s) p s.

Definition kms_addr (socket_path : string) : KmsAddr :=
  if starts_with "tcp:" socket_path then TcpAddr (trim_prefixes "tcp:" socket_path)
  else if starts_with "unix:" socket_path then UnixAddr (trim_prefixes "unix:" socket_path)
  else UnixAddr socket_path.

(** The other end of the connection, with its state: whether a socket file
    exists, the outcome of [connect] and of writing, and what comes back once
    the bytes were written.  A step that hangs lasts until the timeout. *)
Class KmsPeer (W : Type) := {
  peer_exists : string → W → bool;
  peer_connect : KmsAddr → W → timed unit * W;
  peer_write : KmsAddr → list byte → W → timed unit * W;
  peer_reply : KmsAddr → list byte → W → Stream * W;
  (** how many bytes the [i]-th call of [read] returns at most *)
  peer_chunk : nat → nat }.

(** [while read < response_len { .. }]: each [read] returns at least one
    byte, or none at the end of the stream. *)
Fixpoint read_loop_fuel (fuel : nat) (chunk : nat → nat) (i want : nat) (acc : list byte)
    (st : Stream) : timed (list byte) :=
  match want, fuel with
  | O, _ | _, O => Completed (Ok acc)
  | _, S fuel =>
    match pending st with
    | [] => if stalled st then Elapsed else Completed (Err UnexpectedEof)
    | _ =>
      let n := (Nat.max 1 (chunk i) `min` want)%nat in
      let got := take n (pending st) in
      read_loop_fuel fuel chunk (S i) (want - length got) (acc ++ got)
        (MkStream (drop n (pending st)) (stalled st))
    end
  end.
Definition read_loop (chunk : nat → nat) (want : nat) (st : Stream) : timed (list byte) :=
  read_loop_fuel want chunk 0 want [] st.

(** [Value::get], [as_str] and [as_u64]. *)
Definition value_get (k : string) (v : Value) : option Value :=
  match v with
  | VObject l => (λ p, p.2.2) <$> list_find (λ kv, kv.1 = k) l
  | _ => None
  end.
Definition value_as_str (v : Value) : option string :=
  match v with VString s => Some s | _ => None end.
Definition value_as_u64 (v : Value) : option Z :=
  match v with
  | VNumber repr =>
    if is_empty repr then None
    else match digits_value 0 repr with
         | Some n => if n <=? 18446744073709551615 then Some n else None
         | None => None
         end
  | _ => None
  end.

Section kms_client.
  Context `{Hsc : KmsSignCodec} `{Hio : IoDisplay} {W : Type} `{Hpeer : KmsPeer W}.

(** What a complete answer means. *)
Definition kms_decode (response_buf : list byte) : result KmsSignResponse string :=
  let? v := value_from_slice response_buf in
  match value_get "Error" v with
  | Some err_obj =>
    let code := default 0 (value_get "code" err_obj ≫= value_as_u64) in
    let message := default EmptyString (value_get "message" err_obj ≫= value_as_str) in
    Err ("KMS error " +s+ pretty code +s+ ": " +s+ message)
  | None =>
    match value_get "SignedIntermediate" v with
    | Some signed =>
      match value_get "certificate_pem" signed ≫= value_as_str with
      | Some cert => Ok (MkKmsSignResponse cert None)
      | None => Err "missing certificate_pem in SignedIntermediate"
      end
    | None => sign_response_from_slice response_buf
    end
  end.

(** Reading the answer; [None] when it does not come before the timeout. *)
Definition kms_read (st : Stream) : option (result KmsSignResponse string) :=
  let '(o, len_buf, st) := read_exact 4 st in
  match o with
  | Elapsed => None
  | Completed (Err e) => Some (Err (io_display e))
  | Completed (Ok _) =>
    let response_len := u32_from_be_bytes len_buf in
    if MAX_KMS_RESPONSE_SIZE <? response_len then
      Some (Err ("KMS response length " +s+ pretty response_len +s+ " exceeds limit "
                 +s+ pretty MAX_KMS_RESPONSE_SIZE))
    else
      match read_loop peer_chunk (Z.to_nat response_len) st with
      | Elapsed => None
      | Completed (Err _) => Some (Err "unexpected EOF while reading KMS response")
      | Completed (Ok response_buf) => Some (kms_decode response_buf)
      end
  end.

(** One attempt, [fut]; [None] when its timeout expires.  The branches for
    TCP and for Unix sockets do the same on their streams. *)
Definition kms_exchange (addr : KmsAddr) (req : KmsSignRequest) (w : W) :
    option (result KmsSignResponse string) * W :=
  match sign_request_to_vec req with
  | Err e => (Some (Err e), w)
  | Ok payload =>
    let frame := u32_to_be_bytes (as_u32 (blen payload)) ++ payload in
    let (c, w) := peer_connect addr w in
    match c with
    | Elapsed => (None, w)
    | Completed (Err e) => (Some (Err (io_display e)), w)
    | Completed (Ok _) =>
      let (o, w) := peer_write addr frame w in
      match o with
      | Elapsed => (None, w)
      | Completed (Err e) => (Some (Err (io_display e)), w)
      | Completed (Ok _) => let (st, w) := peer_reply addr frame w in (kms_read st, w)
      end
    end
  end.

(** [INITIAL_BACKOFF_MS.saturating_mul(1u64 << (attempt - 1))] *)
Definition backoff_ms (attempt : Z) : Z :=
  Z.min 18446744073709551615 (INITIAL_BACKOFF_MS * as_u64 (Z.shiftl 1 (attempt - 1))).

(** [for attempt in 1..=ATTEMPTS], with the pauses it makes. *)
Fixpoint kms_attempts (addr : KmsAddr) (req : KmsSignRequest) (attempts : list Z)
    (last_err : option string) (w : W) : result KmsSignResponse string * list Z * W :=
  match attempts with
  | [] => (Err (default "KMS request failed" last_err), [], w)
  | attempt :: attempts =>
    let (o, w) := kms_exchange addr req w in
    match o with
    | Some (Ok resp) => (Ok resp, [], w)
    | _ =>
      let err := match o with Some (Err e) => e | _ => "KMS request timed out after 15s" end in
      let '(r, pauses, w) := kms_attempts addr req attempts (Some err) w in
      (r, (if attempt <? ATTEMPTS then [backoff_ms attempt] else []) ++ pauses, w)
    end
  end.

Definition sign_csr_via_kms (socket_path : string) (req : KmsSignRequest) :
    io W KmsSignResponse := λ w,
  let addr := kms_addr socket_path in
  match addr with
  | UnixAddr path =>
    if negb (peer_exists path w) then (Err ("KMS socket not available at " +s+ path), w)
    else let '(r, _, w) := kms_attempts addr req (seqZ 1 ATTEMPTS) None w in (r, w)
  | TcpAddr _ => let '(r, _, w) := kms_attempts addr req (seqZ 1 ATTEMPTS) None w in (r, w)
  end.

End kms_client.

(** ** grpc_server.rs: minting *)

Inductive GrpcCode := InvalidArgument | FailedPrecondition | Unimplemented | Internal | Unavailable.
Record GrpcStatus := MkStatus { gs_code : GrpcCode; gs_message : string }.

Record X509Certificate := MkX509Certificate { xc_asn1 : list byte; xc_tainted : bool }.

Record MintX509caRequest := MkMintX509caRequest {
  mr_csr : list byte;
  (** [i32] *)
  mr_preferred_ttl : Z }.
Record MintX509caResponse := MkMintX509caResponse {
  mp_x509_ca_chain : list X509Certificate;
  mp_upstream_x509_roots : list X509Certificate }.

(** The [pem] crate: the contents of the blocks of a text, and a block. *)
Class PemCrate := {
  pem_parse_many : string → result (list (list byte)) string;
  pem_block : string (* tag *) → list byte → string }.

(** *** Division of doubles

    The quotient of two positive integers below [2 ^ 53] as a double: the
    mantissa, of 53 bits, and the power of two that divides it.  The quotients
    here are far from the subnormal numbers. *)
Definition round_half_even (n d : Z) : Z :=
  let q := n / d in
  let r := n mod d in
  if 2 * r <? d then q
  else if d <? 2 * r then q + 1
  else if Z.even q then q else q + 1.

(** The greatest [e] with [2 ^ e * b <= a]. *)
Definition quotient_log2 (a b : Z) : Z :=
  let e := Z.log2 a - Z.log2 b in
  if (if 0 <=? e then b * 2 ^ e <=? a else b <=? a * 2 ^ (- e)) then e else e - 1.

Definition f64_div (a b : Z) : Z * Z :=
  let s := 52 - quotient_log2 a b in (round_half_even (a * 2 ^ s) b, s).
Definition f64_ceil (x : Z * Z) : Z := let (m, s) := x in - (- m / 2 ^ s).
(** [x as u32] of a float saturates. *)
Definition f64_as_u32 (z : Z) : Z := Z.max 0 (Z.min u32_max z).

Definition mint_validity_days (preferred_ttl : Z) : Z :=
  if 0 <? preferred_ttl then f64_as_u32 (f64_ceil (f64_div preferred_ttl 86400)) else 30.

Section minting.
  Context `{Hsc : KmsSignCodec} `{Hio : IoDisplay} `{Hpem : PemCrate}.
  Context {W : Type} `{Hpeer : KmsPeer W}.

(** An unreadable text is logged and gives no certificate. *)
Definition parse_pem_to_der_list (pem_str : string) : list (list byte) :=
  match pem_parse_many pem_str with Ok blocks => blocks | Err _ => [] end.

Definition build_mint_x509ca_response (certs_pem_list : list string) : MintX509caResponse :=
  let chain := (λ der, MkX509Certificate der false) <$>
                 (certs_pem_list ≫= parse_pem_to_der_list) in
  let upstream_x509_roots :=
    match chain with
    | [] => []
    | _ => [default (MkX509Certificate [] false) (last chain)]
    end in
  MkMintX509caResponse chain upstream_x509_roots.

(** The stream answered: its items, after which it ends. *)
Definition mint_x509ca_and_subscribe (self : PluginConfig) (req : MintX509caRequest) (w : W) :
    result (list (result MintX509caResponse GrpcStatus)) GrpcStatus * W :=
  let validity_days := mint_validity_days (mr_preferred_ttl req) in
  match mr_csr req with
  | [] => (Err (MkStatus InvalidArgument "empty CSR"), w)
  | _ =>
    let csr_pem := pem_block "CERTIFICATE REQUEST" (mr_csr req) in
    let (response, w) := sign_csr_via_kms (pc_kms_socket_path self)
      (MkKmsSignRequest csr_pem (pc_ca_tag self) validity_days "spire") w in
    match response with
    | Err err => (Err (MkStatus Unavailable ("kms-service proxy failed: " +s+ err)), w)
    | Ok response =>
      let chain :=
        (if is_empty (trim (kr_certificate_pem response)) then []
         else [kr_certificate_pem response]) ++
        match kr_root_certificate_pem response with
        | Some root => if is_empty (trim root) then [] else [root]
        | None => []
        end in
      match chain with
      | [] => (Err (MkStatus Internal "kms-service returned an empty certificate chain"), w)
      | _ => (Ok [Ok (build_mint_x509ca_response chain)], w)
      end
    end
  end.

End minting.

(** ** grpc_server.rs: the services SPIRE and go-plugin call *)

Record PluginInfo := MkPluginInfo {
  pi_name : string;
  pi_category : string;
  pi_type : string;
  pi_description : string;
  pi_date_created : string;
  pi_location : string;
  pi_version : string;
  pi_author : string;
  pi_company : string }.

(** The senders the two streaming services keep, each by the number of its
    channel.  A stream ends once no sender of its channel is left. *)
Record PluginState := MkPluginState {
  ps_stdio_senders : list nat;
  ps_broker_senders : list nat;
  ps_channels : nat }.

Definition PluginState_default : PluginState := MkPluginState [] [] 0.

Definition stream_open (s : PluginState) (channel : nat) : Prop :=
  channel ∈ ps_stdio_senders s ++ ps_broker_senders s.

Inductive PluginRpc :=
| PluginConfigure (configuration : string) (global_config : option string)
| GetPluginInfo
| ControllerShutdown
| StreamStdio
| StartStream
| ConfigConfigure (configuration global_configuration : string)
| PluginInit (host_services : list string)
| PrivateInit (host_service_names : list string)
| PrivateDeinit
| MintX509CAAndSubscribe (req : MintX509caRequest)
| PublishJWTKeyAndSubscribe.

Inductive PluginReply :=
| ErrorList (error_list : list string)
| Info (info : PluginInfo)
| EmptyReply
| ChannelStream (channel : nat)
| PluginServices (names : list string)
| MintStream (items : list (result MintX509caResponse GrpcStatus)).

(** Both [Configure] methods accept every configuration and keep none of it. *)
Definition PluginService_configure (configuration : string) (global_config : option string) :
    list string := [].
Definition ConfigService_configure (configuration global_configuration : string) : list string :=
  if is_empty (trim configuration) then [] else [].

(** [env!("CARGO_PKG_VERSION")] *)
Definition PluginService_get_plugin_info (version : string) : PluginInfo := {|
  pi_name := "spire-kms-upstream-authority";
  pi_category := "UpstreamAuthority";
  pi_type := "server";
  pi_description := "SPIRE upstream authority plugin backed by KMS";
  pi_date_created := EmptyString;
  pi_location := EmptyString;
  pi_version := version;
  pi_author := EmptyString;
  pi_company := EmptyString |}.

Definition stream_stdio (s : PluginState) : nat * PluginState :=
  (ps_channels s, MkPluginState (ps_stdio_senders s ++ [ps_channels s]) (ps_broker_senders s)
                    (S (ps_channels s))).
Definition start_stream (s : PluginState) : nat * PluginState :=
  (ps_channels s, MkPluginState (ps_stdio_senders s) (ps_broker_senders s ++ [ps_channels s])
                    (S (ps_channels s))).

Definition PluginInitService_init (host_services : list string) : list string :=
  ["spire.service.common.config.v1.Config";
   "spire.plugin.server.upstreamauthority.v1.UpstreamAuthority";
   "grpc.health.v1.Health"]%string.
Definition PrivateInitService_init (host_service_names : list string) : list string :=
  ["spire.service.common.config.v1.Config";
   "spire.plugin.server.upstreamauthority.v1.UpstreamAuthority";
   "grpc.health.v1.Health"]%string.

(** Neither of them ends anything. *)
Definition GoPluginControllerService_shutdown : PluginReply := EmptyReply.
Definition PrivateInitService_deinit : PluginReply := EmptyReply.

Definition publish_jwt_key_and_subscribe : GrpcStatus :=
  MkStatus Unimplemented
    "JWT key publication is not supported by this SPIRE UpstreamAuthority plugin".

Section plugin_calls.
  Context `{Hsc : KmsSignCodec} `{Hio : IoDisplay} `{Hpem : PemCrate}.
  Context {W : Type} `{Hpeer : KmsPeer W}.
  Context (version : string) (config : PluginConfig).

Definition plugin_call (c : PluginRpc) (s : PluginState) (w : W) :
    result PluginReply GrpcStatus * PluginState * W :=
  match c with
  | PluginConfigure configuration global =>
      (Ok (ErrorList (PluginService_configure configuration global)), s, w)
  | GetPluginInfo => (Ok (Info (PluginService_get_plugin_info version)), s, w)
  | ControllerShutdown => (Ok GoPluginControllerService_shutdown, s, w)
  | StreamStdio => let (channel, s) := stream_stdio s in (Ok (ChannelStream channel), s, w)
  | StartStream => let (channel, s) := start_stream s in (Ok (ChannelStream channel), s, w)
  | ConfigConfigure configuration global =>
      (Ok (ErrorList (ConfigService_configure configuration global)), s, w)
  | PluginInit names => (Ok (PluginServices (PluginInitService_init names)), s, w)
  | PrivateInit names => (Ok (PluginServices (PrivateInitService_init names)), s, w)
  | PrivateDeinit => (Ok PrivateInitService_deinit, s, w)
  | MintX509CAAndSubscribe req =>
      let (r, w) := mint_x509ca_and_subscribe config req w in
      (match r with Ok items => Ok (MintStream items) | Err e => Err e end, s, w)
  | PublishJWTKeyAndSubscribe => (Err publish_jwt_key_and_subscribe, s, w)
  end.

(** A run of calls, one after the other, with the answers. *)
Fixpoint plugin_calls (l : list PluginRpc) (s : PluginState) (w : W) :
    list (result PluginReply GrpcStatus) * PluginState * W :=
  match l with
  | [] => ([], s, w)
  | c :: l =>
    let '(r, s, w) := plugin_call c s w in
    let '(rs, s, w) := plugin_calls l s w in (r :: rs, s, w)
  end.

End plugin_calls.

(** ** grpc_server.rs and main.rs: start-up *)

(** [Path::parent], without repeated separators and [.] components. *)
Fixpoint path_components (cur : string) (s : string) : list string :=
  match s with
  | EmptyString => [cur]
  | String c s =>
    if (Z.of_N (Ascii.N_of_ascii c) =? 47) then cur :: path_components EmptyString s
    else path_components (cur +s+ String c EmptyString) s
  end.
Definition path_normal (p : string) : list string :=
  match path_components EmptyString p with
  | [] => []
  | first :: rest =>
    (if is_empty first then [] else [first]) ++
    filter (λ c, c ≠ EmptyString ∧ c ≠ "."%string) rest
  end.
Definition path_parent (p : string) : option string :=
  match reverse (path_normal p) with
  | [] => None
  | _ :: rev_parent =>
    Some ((if starts_with "/" p then "/" else EmptyString) +s+
          String.concat "/" (reverse rev_parent))
  end.

(** How [tokio::select!] ends: the server returned, or [ctrl_c] did. *)
Inductive Selected := ServerReturned (r : result unit string) | CtrlC.

(** The operating system and the [tonic] server. *)
Class PluginOs (F : Type) := {
  os_exists : string → F → bool;
  os_create_dir_all : string → io F unit;
  os_remove_file : string → io F unit;
  os_bind : string → io F unit;
  os_set_permissions : string → Z → io F unit;
  os_stdout_write : string → io F unit;
  os_stdout_flush : io F unit;
  (** serves the named services until the select ends *)
  os_serve : list string → F → Selected * F }.

Definition registered_services : list string :=
  ["spire.common.plugin.Plugin";
   "spire.service.common.config.v1.Config";
   "spire.common.plugin.PluginInit";
   "spire.service.private.init.v1.Init";
   "plugin.GRPCController";
   "plugin.GRPCStdio";
   "plugin.GRPCBroker";
   "spire.plugin.server.upstreamauthority.v1.UpstreamAuthority";
   "grpc.health.v1.Health"]%string.

Section plugin_start.
  Context {F : Type} `{Hos : PluginOs F}.

Definition prepare_plugin_socket_path (socket_path : string) : io F unit :=
  match path_parent socket_path with
  | Some parent => os_create_dir_all parent
  | None => io_ret ()
  end ;;>
  let> stale := io_read (os_exists socket_path) in
  if stale : bool then os_remove_file socket_path else io_ret ().

Definition cleanup_socket_file (path : string) : io F unit :=
  let> present := io_read (os_exists path) in
  if present : bool then io_ignore (os_remove_file path) else io_ret ().

Definition serve_with_listener (config : PluginConfig) : io F unit :=
  let socket_path := pc_spire_plugin_socket_path config in
  let> selected := (λ f, let (s, f) := os_serve registered_services f in (Ok s, f)) in
  match selected with
  | ServerReturned r => io_of r
  | CtrlC => cleanup_socket_file socket_path
  end.

(** [0o660] *)
Definition plugin_socket_mode : Z := 432.

Definition go_plugin_handshake (socket_path : string) : string :=
  "1|1|unix|" +s+ socket_path +s+ "|grpc" +s+ str_of_bytes [Byte.x0a].

Definition emit_go_plugin_handshake (socket_path : string) : io F unit :=
  os_stdout_write (go_plugin_handshake socket_path) ;;>
  os_stdout_flush.

Definition plugin_serve (config : PluginConfig) : io F unit :=
  let path := pc_spire_plugin_socket_path config in
  prepare_plugin_socket_path path ;;>
  os_bind path ;;>
  os_set_permissions path plugin_socket_mode ;;>
  emit_go_plugin_handshake path ;;>
  serve_with_listener config.

Definition plugin_main (args : PluginArgs) : io F unit :=
  let config := into_config args in
  io_of (PluginConfig_validate config) ;;>
  plugin_serve config.

End plugin_start.

(** ** kms-service/src/main.rs: the socket the plugin connects to *)

Definition MAX_UDS_REQUEST_SIZE : Z := 10 * 1024 * 1024.

Section kms_listener.
  Context `{Hjs : Json} `{Huf : UuidFmt} `{Hdbg : HsmDebug} {A : Type} `{Hrepo : AuditRepository A}.
  Context `{Hcodec : HsmCodec} `{Hnet : Network} `{Hsc : KmsSignCodec}.

Definition uds_frame (payload : list byte) : list byte :=
  u32_to_be_bytes (as_u32 (blen payload)) ++ payload.

(** The answer to a request that was read: the frame written, if any. *)
Definition uds_answer (hsm_socket : string) (acl : CompiledAcl) (env : Env) (op_id : Z)
    (req : KmsSignRequest) (w : World A) : option (list byte) * World A :=
  let input := {|
    ni_caller_service := ks_caller_service req;
    ni_ca_tag := ks_ca_tag req;
    ni_csr_pem := ks_csr_pem req;
    ni_validity_days := ks_validity_days req |} in
  let (r, w) := sign_intermediate_ca hsm_socket acl env op_id input w in
  match r with
  | Ok certificate_pem =>
    match sign_response_to_vec (MkKmsSignResponse certificate_pem None) with
    | Ok res_payload => (Some (uds_frame res_payload), w)
    | Err _ => (None, w)
    end
  | Err err =>
    match response_to_vec (Error 500 ("SignIntermediateCa failed: " +s+ AppError_display err)) with
    | Ok err_payload => (Some (uds_frame err_payload), w)
    | Err _ => (None, w)
    end
  end.

(** One connection; without an answer it is closed. *)
Definition uds_connection (hsm_socket : string) (acl : CompiledAcl) (env : Env) (op_id : Z)
    (st : Stream) (w : World A) : option (list byte) * World A :=
  let '(o1, len_buf, st) := read_exact 4 st in
  match o1 with
  | Completed (Ok _) =>
    let len := u32_from_be_bytes len_buf in
    if MAX_UDS_REQUEST_SIZE <? len then (None, w)
    else
      let '(o2, payload, _) := read_exact (Z.to_nat len) st in
      match o2 with
      | Completed (Ok _) =>
        match sign_request_from_slice payload with
        | Ok req => uds_answer hsm_socket acl env op_id req w
        | Err _ => (None, w)
        end
      | _ => (None, w)
      end
  | _ => (None, w)
  end.

(** The connections the accept loop hands to a task: those before the first
    error of [accept], which ends the loop. *)
Fixpoint uds_accepted (accepts : list (result Stream string)) : list Stream :=
  match accepts with
  | Ok st :: accepts => st :: uds_accepted accepts
  | _ => []
  end.

(** The service as the plugin's peer: the state of the service and the number
    of connections that were tried, which gives a connection its clock and
    identifiers. *)
Record UdsWorld := MkUdsWorld { uw_served : nat; uw_world : World A }.

(** What can become of a connection: it is served in time; it is refused, or
    accepted too late; the request cannot be written, or is not taken in time;
    the service runs the request but the answer comes after the timeout. *)
Inductive Conn :=
| ServedInTime
| ConnectFails (e : IoError)
| ConnectHangs
| WriteFails (e : IoError)
| WriteHangs
| AnswersLate.

Definition uds_reply hsm_socket acl (envs : nat → Env) (op_ids : nat → Z) (frame : list byte)
    (w : UdsWorld) : Stream * UdsWorld :=
  let n := uw_served w in
  let (reply, w) :=
    uds_connection hsm_socket acl (envs n) (op_ids n) (MkStream frame true) (uw_world w) in
  (MkStream (default [] reply) false, MkUdsWorld (S n) w).

(** A connection that is over before the service has seen the request. *)
Definition uds_lost (w : UdsWorld) : UdsWorld := MkUdsWorld (S (uw_served w)) (uw_world w).

Definition kms_uds_peer hsm_socket acl (envs : nat → Env) (op_ids : nat → Z)
    (chunk : nat → nat) (socket_exists : bool) (conns : nat → Conn) : KmsPeer UdsWorld := {|
  peer_exists _ _ := socket_exists;
  peer_connect _ w :=
    match conns (uw_served w) with
    | ConnectFails e => (Completed (Err e), uds_lost w)
    | ConnectHangs => (Elapsed, uds_lost w)
    | _ => (Completed (Ok ()), w)
    end;
  peer_write _ _ w :=
    match conns (uw_served w) with
    | WriteFails e => (Completed (Err e), uds_lost w)
    | WriteHangs => (Elapsed, uds_lost w)
    | _ => (Completed (Ok ()), w)
    end;
  peer_reply _ frame w :=
    let (st, w') := uds_reply hsm_socket acl envs op_ids frame w in
    match conns (uw_served w) with
    | AnswersLate => (MkStream [] true, w')
    | _ => (st, w')
    end;
  peer_chunk := chunk |}.

End kms_listener.
Arguments UdsWorld A : clear implicits.

(** [0o666] *)
Definition kms_socket_mode : Z := 438.

(** Before the accept loop: the path of the bound socket, if binding
    succeeded; other failures are logged. *)
Definition kms_uds_bind {F} `{PluginOs F} (kms_grpc_socket : option string) :
    io F (option string) :=
  let socket_path := default "/run/kms/kms.sock"%string kms_grpc_socket in
  match path_parent socket_path with
  | Some parent => io_ignore (os_create_dir_all parent)
  | None => io_ret ()
  end ;;>
  let> stale := io_read (os_exists socket_path) in
  (if stale : bool then io_ignore (os_remove_file socket_path) else io_ret ()) ;;>
  let> bound := io_try (os_bind socket_path) in
  match bound with
  | Ok _ => io_ignore (os_set_permissions socket_path kms_socket_mode) ;;> io_ret (Some socket_path)
  | Err _ => io_ret None
  end.

(** ** kms-service/src/grpc/upstream_authority.rs

    The file is not part of the crate's module tree. *)

Definition mint_x509_ca `{Json} `{UuidFmt} `{HsmDebug} {A} `{AuditRepository A} `{HsmCodec}
    `{Network} (hsm_socket : string) (acl : CompiledAcl) (env : Env) (op_id : Z) (db : KmsDb)
    (csr_pem : string) (w : World A) : result (list string) GrpcStatus * World A :=
  let (r, w) := sign_intermediate_ca hsm_socket acl env op_id {|
    ni_caller_service := "spire";
    ni_ca_tag := "root";
    ni_csr_pem := csr_pem;
    ni_validity_days := 3650 |} w in
  match r with
  | Err e => (Err (MkStatus Internal ("CA signing failed: " +s+ AppError_display e)), w)
  | Ok certificate_pem =>
    match fetch_active_by_tag db "root" with
    | Some row => (Ok [certificate_pem; rc_certificate_pem row], w)
    | None => (Err (MkStatus FailedPrecondition "root CA certificate not found"), w)
    end
  end.

(** ** Validity *)

Lemma round_half_even_bounds n d :
  0 < d → n / d ≤ round_half_even n d ≤ n / d + 1 ∧
          (n mod d = 0 → round_half_even n d = n / d).
Proof.
  intros Hd. unfold round_half_even. cbv zeta.
  destruct (Z.ltb_spec (2 * (n mod d)) d); [lia|].
  destruct (Z.ltb_spec d (2 * (n mod d))); [lia|].
  destruct (Z.even (n / d)); lia.
Qed.

Lemma quotient_log2_le a b : 0 < a → 0 < b → quotient_log2 a b ≤ Z.log2 a - Z.log2 b.
Proof. intros. unfold quotient_log2. case_match; lia. Qed.

(** Rounding the quotient does not move it across an integer. *)
Lemma f64_div_ceil a b :
  0 < a → 0 < b → b ≤ 2 ^ (52 - quotient_log2 a b) → 0 ≤ 52 - quotient_log2 a b →
  f64_ceil (f64_div a b) = (a + b - 1) / b.
Proof.
  intros Ha Hb Hs Hs0. unfold f64_ceil, f64_div. set (s := 52 - quotient_log2 a b) in *.
  assert (0 < 2 ^ s) as Hp by (apply Z.pow_pos_nonneg; lia).
  set (p := 2 ^ s) in *. clearbody p s.
  destruct (round_half_even_bounds (a * p) b Hb) as [[Hlo Hhi] Hz].
  set (m := round_half_even (a * p) b) in *. clearbody m.
  set (c := (a + b - 1) / b).
  assert (b * (c - 1) < a ≤ b * c) as [Hc1 Hc2].
  { unfold c. pose proof (Z.div_mod (a + b - 1) b). pose proof (Z.mod_pos_bound (a + b - 1) b). lia. }
  pose proof (Z.div_mod (a * p) b) as Hdm. pose proof (Z.mod_pos_bound (a * p) b Hb) as Hmb.
  assert (m ≤ c * p) as Hm1.
  { destruct (Z.eq_dec (a * p mod b) 0) as [E|E]; [rewrite (Hz E); nia|]. nia. }
  assert ((c - 1) * p < m) as Hm2.
  { assert ((b * (c - 1) + 1) * p ≤ a * p) by (apply Z.mul_le_mono_nonneg_r; lia).
    assert (b * ((c - 1) * p + 1) ≤ a * p) by nia.
    assert ((c - 1) * p + 1 ≤ a * p / b) by (apply Z.div_le_lower_bound; lia). lia. }
  clearbody c. enough (- m / p = - c) by lia.
  symmetry. apply (Z.div_unique _ _ _ (c * p - m)); nia.
Qed.

(** C32: the validity the plugin asks for is the requested time to live in
    days, rounded up: the division in floating point loses nothing.  A time
    to live that is not positive asks for thirty days. *)
Theorem mint_validity_exact ttl :
  -2147483648 ≤ ttl ≤ 2147483647 →
  mint_validity_days ttl = (if 0 <? ttl then (ttl + 86399) / 86400 else 30) ∧
  (0 < ttl → 86400 * (mint_validity_days ttl - 1) < ttl ≤ 86400 * mint_validity_days ttl).
Proof.
  intros Hr. unfold mint_validity_days. destruct (Z.ltb_spec 0 ttl); [|split; [done|lia]].
  assert (quotient_log2 ttl 86400 ≤ 14) as Hq.
  { pose proof (quotient_log2_le ttl 86400 ltac:(lia) ltac:(lia)) as Hl.
    assert (Z.log2 ttl ≤ 30) by (change 30 with (Z.log2 2147483647); apply Z.log2_le_mono; lia).
    change (Z.log2 86400) with 16 in Hl. lia. }
  rewrite f64_div_ceil; [|lia..| |lia].
  2:{ transitivity (2 ^ 38); [lia|]. apply Z.pow_le_mono_r; lia. }
  replace (ttl + 86400 - 1) with (ttl + 86399) by lia.
  pose proof (Z.div_mod (ttl + 86399) 86400). pose proof (Z.mod_pos_bound (ttl + 86399) 86400).
  unfold f64_as_u32, u32_max. split; lia.
Qed.

(** ** The plugin's client *)

Lemma read_loop_fuel_spec fuel chunk : ∀ i want acc st,
  (want ≤ fuel)%nat →
  read_loop_fuel fuel chunk i want acc st =
  if (want <=? length (pending st))%nat then Completed (Ok (acc ++ take want (pending st)))
  else if stalled st then Elapsed else Completed (Err UnexpectedEof).
Proof.
  induction fuel as [|fuel IH]; intros i [|want] acc st Hf; try lia;
    [by rewrite take_0, app_nil_r..|].
  cbn [read_loop_fuel]. destruct (pending st) as [|b rest] eqn:Hp; [done|]. rewrite <- Hp.
  assert (1 ≤ length (pending st))%nat as Hl by (rewrite Hp; simpl; lia). clear Hp b rest.
  set (n := (Nat.max 1 (chunk i) `min` S want)%nat).
  assert (1 ≤ n ≤ S want)%nat as Hn by lia. clearbody n.
  rewrite IH by (rewrite length_take; lia). cbn [pending stalled].
  rewrite length_take, length_drop.
  destruct (Nat.leb_spec (S want) (length (pending st))).
  - rewrite (proj2 (Nat.leb_le _ _)) by lia. rewrite <- app_assoc. do 3 f_equal.
    rewrite Nat.min_l by lia. rewrite take_take_drop. f_equal. lia.
  - by rewrite (proj2 (Nat.leb_gt _ _)) by lia.
Qed.

(** The loop reads what one exact read would, however the bytes arrive. *)
Lemma read_loop_spec chunk want st :
  read_loop chunk want st =
  if (want <=? length (pending st))%nat then Completed (Ok (take want (pending st)))
  else if stalled st then Elapsed else Completed (Err UnexpectedEof).
Proof. unfold read_loop. by rewrite read_loop_fuel_spec. Qed.

Lemma as_u32_small z : 0 ≤ z ≤ u32_max → as_u32 z = z.
Proof. intros. unfold as_u32, u32_max in *. apply Z.mod_small. lia. Qed.

Lemma uds_frame_read payload b :
  blen payload ≤ u32_max →
  read_exact 4 (MkStream (uds_frame payload) b) =
    (Completed (Ok ()), u32_to_be_bytes (blen payload), MkStream payload b) ∧
  u32_from_be_bytes (u32_to_be_bytes (blen payload)) = blen payload.
Proof.
  intros Hb. assert (0 ≤ blen payload) as H0 by (unfold blen; lia).
  unfold uds_frame. rewrite as_u32_small by lia. split.
  - apply read_exact_app, length_u32_to_be_bytes.
  - apply u32_be_roundtrip. done.
Qed.

Section client_properties.
  Context `{Hsc : KmsSignCodec} `{Hio : IoDisplay} {W : Type} `{Hpeer : KmsPeer W}.

Lemma kms_read_frame payload :
  blen payload ≤ MAX_KMS_RESPONSE_SIZE →
  kms_read (MkStream (uds_frame payload) false) = Some (kms_decode payload).
Proof.
  intros Hb. unfold MAX_KMS_RESPONSE_SIZE in Hb.
  destruct (uds_frame_read payload false) as [Hr He]; [unfold u32_max; lia|].
  unfold kms_read. rewrite Hr, He. unfold MAX_KMS_RESPONSE_SIZE.
  rewrite (proj2 (Z.ltb_ge _ _)) by lia. rewrite read_loop_spec. cbn [pending stalled].
  unfold blen. rewrite Nat2Z.id, Nat.leb_refl, take_ge by lia. done.
Qed.

(** The exchanges of a run of attempts, one after the other. *)
Fixpoint exchanges (addr : KmsAddr) (req : KmsSignRequest) (n : nat) (w : W) :
    list (option (result KmsSignResponse string)) * W :=
  match n with
  | O => ([], w)
  | S n =>
    let (o, w) := kms_exchange addr req w in
    let (os, w) := exchanges addr req n w in (o :: os, w)
  end.

(** The pauses between the attempts [attempts] when all fail. *)
Definition all_pauses (attempts : list Z) : list Z :=
  attempts ≫= λ a, if a <? ATTEMPTS then [backoff_ms a] else [].

Lemma kms_attempts_run addr req attempts last_err w r pauses w' :
  kms_attempts addr req attempts last_err w = (r, pauses, w') →
  match r with
  | Ok resp => ∃ n os, (n < length attempts)%nat ∧ exchanges addr req (S n) w = (os ++ [Some (Ok resp)], w')
      ∧ length os = n ∧ pauses = all_pauses (take n attempts)
  | Err e => pauses = all_pauses attempts ∧ ∃ os, exchanges addr req (length attempts) w = (os, w')
      ∧ Forall (λ o, ∀ resp, o ≠ Some (Ok resp)) os
  end.
Proof.
  revert last_err w r pauses w'.
  induction attempts as [|a attempts IH]; intros last_err w r pauses w'; cbn [kms_attempts].
  { intros [= <- <- <-]. split; [done|]. by exists []. }
  destruct (kms_exchange addr req w) as [o w1] eqn:Ex.
  assert (∀ err, (let '(r, pauses, w) := kms_attempts addr req attempts (Some err) w1 in
            (r, (if a <? ATTEMPTS then [backoff_ms a] else []) ++ pauses, w)) = (r, pauses, w') →
          (∀ resp, o ≠ Some (Ok resp)) →
    match r with
    | Ok resp => ∃ n os, (n < S (length attempts))%nat ∧
        exchanges addr req (S n) w = (os ++ [Some (Ok resp)], w')
        ∧ length os = n ∧ pauses = all_pauses (take n (a :: attempts))
    | Err e => pauses = all_pauses (a :: attempts) ∧ ∃ os,
        exchanges addr req (S (length attempts)) w = (os, w')
        ∧ Forall (λ o, ∀ resp, o ≠ Some (Ok resp)) os
    end) as Hnext.
  { intros err Hk Ho. destruct (kms_attempts addr req attempts (Some err) w1) as [[r1 p1] w2] eqn:E.
    injection Hk as <- <- <-. apply IH in E. destruct r1 as [resp|e].
    - destruct E as (n & os & Hn & Hex & Hl & ->). exists (S n), (o :: os).
      split_and!; [lia| |simpl; lia|done].
      cbn [exchanges] in *. rewrite Ex. by rewrite Hex.
    - destruct E as (-> & os & Hex & Hf). split; [done|]. exists (o :: os).
      split; [|by constructor]. cbn [exchanges]. by rewrite Ex, Hex. }
  destruct o as [[resp|e]|]; [|intros Hk; by apply (Hnext _ Hk)..].
  intros [= <- <- <-]. exists 0%nat, []. split_and!; [simpl; lia| |done|done].
  cbn [exchanges]. by rewrite Ex.
Qed.

(** A request of the plugin ends after at most five exchanges with the
    service.  It succeeds with the first answer that is a certificate; a
    failure comes after exactly five attempts, none of which gave one, with
    pauses of 0.5, 1, 2 and 4 seconds between them. *)
Theorem kms_request_bounded addr req w r pauses w' :
  kms_attempts addr req (seqZ 1 ATTEMPTS) None w = (r, pauses, w') →
  ∃ n os, (n ≤ 5)%nat ∧ exchanges addr req n w = (os, w') ∧
    match r with
    | Ok resp => last os = Some (Some (Ok resp)) ∧ pauses = take (n - 1) [500; 1000; 2000; 4000]
    | Err e => n = 5%nat ∧ Forall (λ o, ∀ resp, o ≠ Some (Ok resp)) os
        ∧ pauses = [500; 1000; 2000; 4000]
    end.
Proof.
  intros Hk%kms_attempts_run. change (seqZ 1 ATTEMPTS) with [1; 2; 3; 4; 5] in Hk.
  destruct r as [resp|e].
  - destruct Hk as (n & os & Hn & Hex & Hl & ->). exists (S n), (os ++ [Some (Ok resp)]).
    simpl in Hn. split_and!; [lia|done|by rewrite last_snoc|].
    do 5 (destruct n as [|n]; [reflexivity|]). lia.
  - destruct Hk as (-> & os & Hex & Hf). exists 5%nat, os. split_and!; [lia|done|done|done|reflexivity].
Qed.

End client_properties.

(** ** The plugin over the service's socket *)

Definition sign_request_wf (r : KmsSignRequest) : bool :=
  is_utf8 (ks_csr_pem r) && is_utf8 (ks_ca_tag r) && is_u32 (ks_validity_days r)
  && is_utf8 (ks_caller_service r).

(** [serde_json]: the derived encodings of the structures and of
    [HsmResponse::Error], and how they read as JSON values. *)
Class KmsSignLaws (H : KmsSignCodec) (Hcodec : HsmCodec) := {
  sign_request_encodes r : ∃ bs, sign_request_to_vec r = Ok bs;
  sign_request_roundtrip r bs :
    sign_request_wf r = true → sign_request_to_vec r = Ok bs → sign_request_from_slice bs = Ok r;
  sign_response_encodes r : ∃ bs, sign_response_to_vec r = Ok bs;
  sign_response_roundtrip c bs :
    is_utf8 c = true → sign_response_to_vec (MkKmsSignResponse c None) = Ok bs →
    sign_response_from_slice bs = Ok (MkKmsSignResponse c None);
  sign_response_value c bs :
    is_utf8 c = true → sign_response_to_vec (MkKmsSignResponse c None) = Ok bs →
    value_from_slice bs =
      Ok (VObject [("certificate_pem", VString c); ("root_certificate_pem", VNull)]%string);
  error_encodes code m : ∃ bs, response_to_vec (Error code m) = Ok bs;
  error_value code m bs :
    is_u16 code = true → is_utf8 m = true → response_to_vec (Error code m) = Ok bs →
    value_from_slice bs =
      Ok (VObject [("Error", VObject [("code", VNumber (pretty code));
                                      ("message", VString m)])]%string) }.

(** What [pem::encode] writes is text. *)
Class PemCrateLaws (P : PemCrate) := {
  pem_block_utf8 tag bs : is_utf8 tag = true → is_utf8 (pem_block tag bs) = true }.

Section listener_properties.
  Context `{Hjs : Json} `{Huf : UuidFmt} `{Hdbg : HsmDebug} {A : Type} `{Hrepo : AuditRepository A}.
  Context `{Hcodec : HsmCodec} `{Hnet : Network} `{Hsc : KmsSignCodec} `{Hl : !KmsSignLaws Hsc Hcodec}.
  Context `{Hio : IoDisplay} `{Hpem : PemCrate} `{Hpl : !PemCrateLaws Hpem}.
  Context (hsm_socket : string) (acl : CompiledAcl) (envs : nat → Env) (op_ids : nat → Z)
    (chunk : nat → nat) (conns : nat → Conn).

#[local] Instance listener_peer : KmsPeer (UdsWorld A) :=
  kms_uds_peer hsm_socket acl envs op_ids chunk true conns.

Definition use_case_input (req : KmsSignRequest) : SignIntermediateCaInput := {|
  ni_caller_service := ks_caller_service req;
  ni_ca_tag := ks_ca_tag req;
  ni_csr_pem := ks_csr_pem req;
  ni_validity_days := ks_validity_days req |}.

(** A frame of an encoded request reaches the use case unchanged. *)
Lemma uds_connection_frame env op_id req payload (w : World A) :
  sign_request_wf req = true → sign_request_to_vec req = Ok payload →
  blen payload ≤ MAX_UDS_REQUEST_SIZE →
  uds_connection hsm_socket acl env op_id (MkStream (uds_frame payload) true) w =
  uds_answer hsm_socket acl env op_id req w.
Proof.
  intros Hwf Henc Hb. unfold MAX_UDS_REQUEST_SIZE in Hb.
  destruct (uds_frame_read payload true) as [Hr He]; [unfold u32_max; lia|].
  unfold uds_connection. rewrite Hr, He. unfold MAX_UDS_REQUEST_SIZE.
  rewrite (proj2 (Z.ltb_ge _ _)) by lia.
  rewrite <- (app_nil_r payload) at 2. rewrite read_exact_app by (unfold blen; lia).
  by rewrite (sign_request_roundtrip req payload).
Qed.

(** An exchange of the client with the listener that is served in time is one
    run of the use case, with the caller the request names. *)
Lemma kms_exchange_listener addr req payload w :
  conns (uw_served w) = ServedInTime → sign_request_wf req = true → sign_request_to_vec req = Ok payload →
  blen payload ≤ MAX_UDS_REQUEST_SIZE →
  let n := uw_served w in
  let (r, w') := sign_intermediate_ca hsm_socket acl (envs n) (op_ids n) (use_case_input req)
                   (uw_world w) in
  let (answer, w1) := kms_exchange addr req w in
  w1 = MkUdsWorld (S n) w' ∧
  match r with
  | Ok c => is_utf8 c = true → (∀ bs, sign_response_to_vec (MkKmsSignResponse c None) = Ok bs →
                blen bs ≤ MAX_KMS_RESPONSE_SIZE) →
            answer = Some (Ok (MkKmsSignResponse c None))
  | Err e =>
    let m := "SignIntermediateCa failed: " +s+ AppError_display e in
    is_utf8 m = true → (∀ bs, response_to_vec (Error 500 m) = Ok bs →
      blen bs ≤ MAX_KMS_RESPONSE_SIZE) →
    answer = Some (Err ("KMS error 500: " +s+ m))
  end.
Proof.
  intros Hconn Hwf Henc Hb n. unfold kms_exchange. rewrite Henc.
  cbn [peer_connect peer_write peer_reply listener_peer kms_uds_peer]. rewrite !Hconn.
  change (u32_to_be_bytes (as_u32 (blen payload)) ++ payload) with (uds_frame payload).
  unfold uds_reply. rewrite (uds_connection_frame _ _ req) by done. fold n. unfold uds_answer.
  change {| ni_caller_service := _ |} with (use_case_input req).
  destruct (sign_intermediate_ca _ _ _ _ _ _) as [[c|e] w'].
  - destruct (sign_response_encodes (MkKmsSignResponse c None)) as [bs Hbs]. rewrite Hbs.
    split; [done|]. intros Hu Hsz. change (default [] (Some ?x)) with x.
    rewrite kms_read_frame by auto. f_equal.
    unfold kms_decode. rewrite (sign_response_value c bs) by done. cbn.
    by rewrite (sign_response_roundtrip c bs).
  - cbv zeta. set (m := "SignIntermediateCa failed: " +s+ AppError_display e).
    destruct (error_encodes 500 m) as [bs Hbs]. rewrite Hbs.
    split; [done|]. intros Hu Hsz. change (default [] (Some ?x)) with x.
    rewrite kms_read_frame by auto. f_equal.
    unfold kms_decode. rewrite (error_value 500 m bs) by done. by cbn.
Qed.

Lemma minted_roots_last cert :
  xc_asn1 <$> mp_upstream_x509_roots (build_mint_x509ca_response [cert]) =
  option_list (last (parse_pem_to_der_list cert)).
Proof.
  unfold build_mint_x509ca_response. cbn [mp_upstream_x509_roots mbind list_bind].
  rewrite app_nil_r. destruct (parse_pem_to_der_list cert) as [|d ders]; [done|].
  cbn [fmap list_fmap]. destruct (last_is_Some (d :: ders)) as [_ [x Hx]]; [done|]. rewrite Hx.
  change (MkX509Certificate d false :: ((λ der, MkX509Certificate der false) <$> ders)) with
    ((λ der, MkX509Certificate der false) <$> (d :: ders)).
  by rewrite fmap_last, Hx.
Qed.

Definition mint_request (config : PluginConfig) (req : MintX509caRequest) : KmsSignRequest :=
  MkKmsSignRequest (pem_block "CERTIFICATE REQUEST" (mr_csr req)) (pc_ca_tag config)
    (mint_validity_days (mr_preferred_ttl req)) "spire".

Lemma mint_validity_u32 ttl : is_u32 (mint_validity_days ttl) = true.
Proof.
  unfold mint_validity_days, f64_as_u32, is_u32, u32_max. case_match; [|done].
  apply andb_true_iff. rewrite !Z.leb_le. lia.
Qed.

Lemma mint_request_wf config req :
  is_utf8 (pc_ca_tag config) = true → sign_request_wf (mint_request config req) = true.
Proof.
  intros Ht. unfold sign_request_wf, mint_request. cbn [ks_csr_pem ks_ca_tag ks_validity_days
    ks_caller_service]. by rewrite pem_block_utf8, Ht, mint_validity_u32.
Qed.

(** The socket of the listener exists, so the attempts are made. *)
Lemma sign_csr_listener path req (w : UdsWorld A) :
  sign_csr_via_kms path req w =
  let '(r, _, w) := kms_attempts (kms_addr path) req (seqZ 1 ATTEMPTS) None w in (r, w).
Proof. unfold sign_csr_via_kms. by destruct (kms_addr path). Qed.

(** Attempts that fail are made again, up to the fifth. *)
Lemma kms_attempts_after addr req k : ∀ attempts last_err (w : UdsWorld A) os w1 resp w2,
  exchanges addr req k w = (os, w1) → Forall (λ o, ∀ resp, o ≠ Some (Ok resp)) os →
  (k < length attempts)%nat → kms_exchange addr req w1 = (Some (Ok resp), w2) →
  ∃ pauses, kms_attempts addr req attempts last_err w = (Ok resp, pauses, w2).
Proof.
  induction k as [|k IH]; intros [|a attempts] last_err w os w1 resp w2 Hex Hf Hk E;
    cbn [exchanges length kms_attempts] in *; try lia.
  - injection Hex as <- <-. rewrite E. eauto.
  - destruct (kms_exchange addr req w) as [o w'].
    destruct (exchanges addr req k w') as [os' w''] eqn:Hex'. injection Hex as <- <-.
    apply Forall_cons in Hf as [Ho Hf].
    destruct o as [[r|e]|]; [by destruct (Ho r)|..];
      (edestruct (IH attempts) as [pauses Hp]; [exact Hex'|done|lia|exact E|rewrite Hp; eauto]).
Qed.

(** C27: SPIRE is not told the root.  When the service signs the request of the
    plugin, on the first connection or after up to four that failed in any
    way, SPIRE is answered with the blocks of the issued certificate as the
    chain and with the last of them as the upstream root.  The service sends no
    root certificate, so the root reported for a single certificate is the
    intermediate itself, and the certificate stored for the root CA, when it is
    another one, is in neither list. *)
Theorem minted_bundle_lacks_root config req w k os w1 cert w' payload :
  mr_csr req ≠ [] → is_utf8 (pc_ca_tag config) = true →
  sign_request_to_vec (mint_request config req) = Ok payload →
  blen payload ≤ MAX_UDS_REQUEST_SIZE →
  exchanges (kms_addr (pc_kms_socket_path config)) (mint_request config req) k w = (os, w1) →
  Forall (λ o, ∀ resp, o ≠ Some (Ok resp)) os → (k < 5)%nat →
  let n := uw_served w1 in
  conns n = ServedInTime →
  sign_intermediate_ca hsm_socket acl (envs n) (op_ids n)
    (use_case_input (mint_request config req)) (uw_world w1) = (Ok cert, w') →
  is_utf8 cert = true → is_empty (trim cert) = false →
  (∀ bs, sign_response_to_vec (MkKmsSignResponse cert None) = Ok bs →
     blen bs ≤ MAX_KMS_RESPONSE_SIZE) →
  let ders := parse_pem_to_der_list cert in
  ∃ resp, mint_x509ca_and_subscribe config req w = (Ok [Ok resp], MkUdsWorld (S n) w') ∧
    xc_asn1 <$> mp_x509_ca_chain resp = ders ∧
    xc_asn1 <$> mp_upstream_x509_roots resp = option_list (last ders) ∧
    ∀ db row root, fetch_active_by_tag db (pc_ca_tag config) = Some row →
      root ∈ parse_pem_to_der_list (rc_certificate_pem row) → root ∉ ders →
      (root ∉ (xc_asn1 <$> mp_x509_ca_chain resp)) ∧
      (root ∉ (xc_asn1 <$> mp_upstream_x509_roots resp)).
Proof.
  intros Hcsr Htag Henc Hb Hfail Hos Hk n Hconn Hsign Hu Hblank Hsz ders.
  pose proof (kms_exchange_listener (kms_addr (pc_kms_socket_path config))
    (mint_request config req) payload w1 Hconn (mint_request_wf _ _ Htag) Henc Hb) as Hex.
  fold n in Hex. cbv zeta in Hex. rewrite Hsign in Hex.
  destruct (kms_exchange _ _ w1) as [o w2] eqn:E. destruct Hex as [-> Ho].
  rewrite (Ho Hu Hsz) in E.
  destruct (kms_attempts_after _ _ k (seqZ 1 ATTEMPTS) None _ _ _ _ _ Hfail Hos Hk E) as [pauses Hatt].
  set (resp := build_mint_x509ca_response [cert]).
  assert (xc_asn1 <$> mp_x509_ca_chain resp = ders) as Hchain.
  { unfold resp, build_mint_x509ca_response. cbn [mp_x509_ca_chain mbind list_bind].
    rewrite app_nil_r. by rewrite <- list_fmap_compose, list_fmap_id. }
  assert (xc_asn1 <$> mp_upstream_x509_roots resp = option_list (last ders)) as Hroots.
  { apply minted_roots_last. }
  exists resp. split_and!; [|done|done|].
  - unfold mint_x509ca_and_subscribe. destruct (mr_csr req) as [|b bs] eqn:Ec; [done|].
    rewrite <- Ec. fold (mint_request config req). rewrite sign_csr_listener, Hatt.
    cbn [kr_certificate_pem kr_root_certificate_pem]. rewrite Hblank. reflexivity.
  - intros db row root _ _ Hroot. rewrite Hchain, Hroots. split; [done|].
    destruct (last ders) as [d|] eqn:Hd; [|apply not_elem_of_nil].
    intros ->%list_elem_of_singleton. apply Hroot. by apply last_Some_elem_of.
Qed.

(** One more connection, the keys and the cache as before. *)
Definition served_again (k : nat) (w w' : UdsWorld A) : Prop :=
  uw_served w' = (uw_served w + k)%nat ∧ same_store (uw_world w) (uw_world w').

Lemma kms_attempts_refused addr req m (attempts : list Z) : ∀ last_err (w : UdsWorld A),
  (∀ w, ∃ w', kms_exchange addr req w = (Some (Err m), w') ∧ served_again 1 w w') →
  default "KMS request failed"%string last_err = m ∨ attempts ≠ [] →
  ∃ pauses w', kms_attempts addr req attempts last_err w = (Err m, pauses, w') ∧
    served_again (length attempts) w w'.
Proof.
  induction attempts as [|a attempts IH]; intros last_err w Hex Hm; cbn [kms_attempts].
  - destruct Hm as [->|]; [|done]. eexists _, _. split; [reflexivity|].
    split; [simpl; lia|by split].
  - destruct (Hex w) as (w1 & -> & Hn & Hs). destruct (IH (Some m) w1 Hex) as (p & w2 & -> & Hn2 & Hs2).
    { by left. }
    eexists _, _. split; [reflexivity|]. unfold served_again, same_store in *. simpl. split; [lia|].
    destruct Hs, Hs2. split; congruence.
Qed.

Lemma denied_exchange addr config req w payload :
  (∀ n, conns n = ServedInTime) → audit_total (A := A) →
  authorize_control_action acl "spire" CaSignIntermediate = false →
  is_utf8 (pc_ca_tag config) = true →
  sign_request_to_vec (mint_request config req) = Ok payload →
  blen payload ≤ MAX_UDS_REQUEST_SIZE →
  let m := ("SignIntermediateCa failed: " +s+ AppError_display Forbidden)%string in
  (∀ bs, response_to_vec (Error 500 m) = Ok bs → blen bs ≤ MAX_KMS_RESPONSE_SIZE) →
  ∃ w', kms_exchange addr (mint_request config req) w = (Some (Err ("KMS error 500: " +s+ m)), w') ∧
    served_again 1 w w'.
Proof.
  intros Hconn Ht Ha Htag Henc Hb m Hsz.
  pose proof (kms_exchange_listener addr (mint_request config req) payload w (Hconn _)
    (mint_request_wf _ _ Htag) Henc Hb) as Hex. cbv zeta in Hex.
  set (n := uw_served w) in *.
  assert (refused Forbidden (uw_world w) (sign_intermediate_ca hsm_socket acl (envs n) (op_ids n)
            (use_case_input (mint_request config req)) (uw_world w))) as [Hs (e & He & Hf)].
  { unfold sign_intermediate_ca. cbn [ni_caller_service use_case_input ks_caller_service mint_request].
    rewrite Ha. apply audit_then_err. }
  destruct (sign_intermediate_ca _ _ _ _ _ _) as [r w2]. cbn [fst snd] in *. subst r.
  rewrite (Hf Ht) in Hex. destruct (kms_exchange _ _ w) as [o w1].
  destruct Hex as [-> Ho]. exists (MkUdsWorld (S n) w2).
  rewrite Ho by done. split; [done|]. split; [cbn [uw_served]; lia|done].
Qed.

(** A refusal is retried like a failure of the network: when the access
    list does not let [spire] sign, the plugin has the use case run five times
    before it answers SPIRE that the service is unavailable. *)
Theorem refused_mint_retried config req w payload :
  (∀ n, conns n = ServedInTime) → audit_total (A := A) →
  authorize_control_action acl "spire" CaSignIntermediate = false →
  mr_csr req ≠ [] → is_utf8 (pc_ca_tag config) = true →
  sign_request_to_vec (mint_request config req) = Ok payload →
  blen payload ≤ MAX_UDS_REQUEST_SIZE →
  let m := ("SignIntermediateCa failed: " +s+ AppError_display Forbidden)%string in
  (∀ bs, response_to_vec (Error 500 m) = Ok bs → blen bs ≤ MAX_KMS_RESPONSE_SIZE) →
  ∃ w', mint_x509ca_and_subscribe config req w =
      (Err (MkStatus Unavailable ("kms-service proxy failed: KMS error 500: " +s+ m)), w') ∧
    uw_served w' = (uw_served w + 5)%nat ∧ same_store (uw_world w) (uw_world w').
Proof.
  intros Hconn Ht Ha Hcsr Htag Henc Hb m Hsz.
  destruct (kms_attempts_refused (kms_addr (pc_kms_socket_path config)) (mint_request config req)
    ("KMS error 500: " +s+ m) (seqZ 1 ATTEMPTS) None w) as (p & w' & Hk & Hn & Hs).
  - intros w0. by apply (denied_exchange _ config req w0 payload).
  - by right.
  - exists w'. split; [|done]. unfold mint_x509ca_and_subscribe.
    destruct (mr_csr req) as [|b bs] eqn:Ec; [done|]. rewrite <- Ec.
    fold (mint_request config req). rewrite sign_csr_listener, Hk. reflexivity.
Qed.

End listener_properties.

(** ** The plugin's streams *)

Definition answered_channels (rs : list (result PluginReply GrpcStatus)) : list nat :=
  omap (λ r, match r with Ok (ChannelStream c) => Some c | _ => None end) rs.

Lemma answered_channel c rs :
  answered_channels (Ok (ChannelStream c) :: rs) = c :: answered_channels rs.
Proof. done. Qed.

Section stream_properties.
  Context `{Hsc : KmsSignCodec} `{Hio : IoDisplay} `{Hpem : PemCrate}.
  Context {W : Type} `{Hpeer : KmsPeer W}.
  Context (version : string) (config : PluginConfig).

(** The channels answered are numbered from [ps_channels] on, and are open
    with those that were. *)
Lemma plugin_calls_channels l : ∀ s w rs s' w',
  plugin_calls version config l s w = (rs, s', w') →
  ∃ k, answered_channels rs = seq (ps_channels s) k ∧
    ∀ c, stream_open s' c ↔ stream_open s c ∨ c ∈ answered_channels rs.
Proof.
  induction l as [|c l IH]; intros s w rs s' w'; cbn [plugin_calls].
  { intros [= <- <- <-]. exists 0%nat. split; [done|]. intros c. set_solver. }
  destruct (plugin_call version config c s w) as [[r s1] w1] eqn:Hc.
  destruct (plugin_calls version config l s1 w1) as [[rs1 s2] w2] eqn:Hl.
  intros [= <- <- <-]. apply IH in Hl as (k & Hk & Ho).
  destruct c; cbn [plugin_call] in Hc;
    try (destruct (mint_x509ca_and_subscribe _ _ _) as [[items|e] wm]);
    injection Hc as <- <- <-;
    try (exists k; split; [exact Hk|exact Ho]);
    exists (S k); (split; [by rewrite answered_channel, Hk|]); intros c;
    rewrite Ho, answered_channel; unfold stream_open; cbn; set_solver.
Qed.

(** Every stream the plugin has answered to SPIRE stays open while it
    runs: its channel has a sender of its own that no later call removes. *)
Theorem plugin_streams_stay_open l w :
  let '(rs, s', _) := plugin_calls version config l PluginState_default w in
  NoDup (answered_channels rs) ∧ ∀ c, stream_open s' c ↔ c ∈ answered_channels rs.
Proof.
  destruct (plugin_calls version config l PluginState_default w) as [[rs s'] w'] eqn:Hl.
  apply plugin_calls_channels in Hl as (k & Hk & Ho). split.
  - rewrite Hk. apply NoDup_seq.
  - intros c. rewrite Ho. unfold stream_open. cbn. set_solver.
Qed.

End stream_properties.

(** ** The order of the start-up *)

Inductive OsEvent :=
| EvMkdir (path : string)
| EvRemove (path : string)
| EvBind (path : string)
| EvChmod (path : string) (mode : Z)
| EvWrite (text : string)
| EvFlush
| EvServe (services : list string).

(** An operating system that keeps a trace of the calls with whether they
    succeeded, and answers them as it likes. *)
Section start_properties.
  Context (fails : list (OsEvent * bool) → OsEvent → option string).
  Context (exists_at : string → list (OsEvent * bool) → bool).
  Context (select : list (OsEvent * bool) → Selected).

Definition os_event (e : OsEvent) : io (list (OsEvent * bool)) unit := λ t,
  match fails t e with
  | None => (Ok (), t ++ [(e, true)])
  | Some m => (Err m, t ++ [(e, false)])
  end.

#[local] Instance traced_os : PluginOs (list (OsEvent * bool)) := {
  os_exists := exists_at;
  os_create_dir_all p := os_event (EvMkdir p);
  os_remove_file p := os_event (EvRemove p);
  os_bind p := os_event (EvBind p);
  os_set_permissions p mode := os_event (EvChmod p mode);
  os_stdout_write text := os_event (EvWrite text);
  os_stdout_flush := os_event EvFlush;
  os_serve names t := (select t, t ++ [(EvServe names, true)]) }.

(** Whenever [e'] is done, [e] has succeeded before. *)
Definition precedes (t : list (OsEvent * bool)) (e e' : OsEvent) : Prop :=
  ∀ i b, t !! i = Some (e', b) → (e, true) ∈ take i t.

Lemma precedes_snoc t x b e e' :
  precedes (t ++ [(x, b)]) e e' ↔ precedes t e e' ∧ (x = e' → (e, true) ∈ t).
Proof.
  split.
  - intros Hp. split.
    + intros i b' Hi. assert (i < length t)%nat by (by eapply lookup_lt_Some).
      specialize (Hp i b'). rewrite lookup_app_l, take_app_le in Hp by lia. auto.
    + intros ->. specialize (Hp (length t) b). rewrite take_app_length in Hp. apply Hp.
      by rewrite lookup_app_r, Nat.sub_diag.
  - intros [Hp Hx] i b'. destruct (decide (i < length t)%nat).
    + rewrite lookup_app_l, take_app_le by lia. apply Hp.
    + rewrite lookup_app_r by lia. destruct (i - length t)%nat as [|k] eqn:E; [|done].
      intros [= <- <-]. replace i with (length t) by lia. rewrite take_app_length. auto.
Qed.

(** The order of the events of a start-up at [path]. *)
Definition start_order (path : string) (t : list (OsEvent * bool)) : Prop :=
  let line := EvWrite (go_plugin_handshake path) in
  precedes t (EvBind path) (EvChmod path plugin_socket_mode) ∧
  precedes t (EvChmod path plugin_socket_mode) line ∧
  precedes t line EvFlush ∧ precedes t EvFlush (EvServe registered_services) ∧
  ∀ text b, (EvWrite text, b) ∈ t → EvWrite text = line.

(** What must have succeeded before an event. *)
Definition event_allowed (path : string) (t : list (OsEvent * bool)) (x : OsEvent) : Prop :=
  match x with
  | EvChmod _ _ => (EvBind path, true) ∈ t
  | EvWrite text => text = go_plugin_handshake path ∧
      (EvChmod path plugin_socket_mode, true) ∈ t
  | EvFlush => (EvWrite (go_plugin_handshake path), true) ∈ t
  | EvServe _ => (EvFlush, true) ∈ t
  | _ => True
  end.

Lemma start_order_snoc path t x b :
  start_order path t →
  event_allowed path t x →
  start_order path (t ++ [(x, b)]).
Proof.
  intros (H1 & H2 & H3 & H4 & H5) Hx. unfold start_order. rewrite !precedes_snoc.
  split_and!; try done; try (by intros ->; (apply Hx || destruct Hx)).
  intros text b'. rewrite elem_of_app, list_elem_of_singleton. intros [Ht|[= <- <-]]; [by eapply H5|].
  by destruct Hx as [-> _].
Qed.

Lemma os_event_order path e t :
  start_order path t →
  event_allowed path t e →
  start_order path (os_event e t).2 ∧
  ((os_event e t).1 = Ok () → (e, true) ∈ (os_event e t).2).
Proof.
  intros Ht He. unfold os_event. destruct (fails t e); cbn [fst snd];
    (split; [by apply start_order_snoc|]); [done|]. intros _. set_solver.
Qed.

Lemma io_bind_order {X} path (m : io _ unit) (k : unit → io _ X) t :
  start_order path (m t).2 →
  ((m t).1 = Ok () → start_order path (k () (m t).2).2) →
  start_order path (io_bind m k t).2.
Proof. intros H1 H2. unfold io_bind. destruct (m t) as [[[]|e] t']; auto. Qed.

Lemma prepare_order path t :
  start_order path t → start_order path (prepare_plugin_socket_path path t).2.
Proof.
  intros Ht. unfold prepare_plugin_socket_path.
  assert (start_order path (match path_parent path with
    | Some parent => os_create_dir_all parent | None => io_ret () end t).2) as H1.
  { destruct (path_parent path); [|done]. by apply os_event_order. }
  apply io_bind_order; [done|intros _]. unfold io_bind, io_read.
  destruct (os_exists path _); [|done]. by apply os_event_order.
Qed.

Lemma serve_order config path t :
  start_order path t → (EvFlush, true) ∈ t → start_order path (serve_with_listener config t).2.
Proof.
  intros Ht Hf. unfold serve_with_listener, io_bind. cbn [os_serve traced_os].
  assert (start_order path (t ++ [(EvServe registered_services, true)])) as H1
    by (by apply start_order_snoc).
  destruct (select t) as [r|]; [done|]. unfold cleanup_socket_file, io_bind, io_read, io_ignore.
  destruct (os_exists _ _); [|done]. by apply os_event_order.
Qed.

(** SPIRE is told of the plugin only once it can connect: whatever the
    operating system answers, the handshake line is the only text written to
    the standard output, it is written after the socket is bound and has mode
    0660, and the services are served after it is flushed. *)
Theorem handshake_after_socket_ready args :
  let path := pa_spire_plugin_socket_path args in
  let line := EvWrite (go_plugin_handshake path) in
  let t := (plugin_main args []).2 in
  precedes t (EvBind path) (EvChmod path plugin_socket_mode) ∧
  precedes t (EvChmod path plugin_socket_mode) line ∧
  precedes t line EvFlush ∧ precedes t EvFlush (EvServe registered_services) ∧
  ∀ text b, (EvWrite text, b) ∈ t → EvWrite text = line.
Proof.
  change (start_order (pa_spire_plugin_socket_path args) (plugin_main args []).2).
  set (path := pa_spire_plugin_socket_path args).
  assert (start_order path []) as H0.
  { split_and!; [intros i b; by rewrite lookup_nil..|]. intros ? ? []%elem_of_nil. }
  unfold plugin_main. apply io_bind_order; [done|intros _]. cbn [io_of snd].
  unfold plugin_serve. cbn [pc_spire_plugin_socket_path into_config]. fold path.
  apply io_bind_order; [by apply prepare_order|intros _].
  set (t := (prepare_plugin_socket_path path []).2).
  assert (start_order path t) as Ht by (by apply prepare_order). clearbody t.
  destruct (os_event_order path (EvBind path) t Ht I) as [O1 B1].
  apply io_bind_order; [done|intros B%B1].
  destruct (os_event_order path (EvChmod path plugin_socket_mode) _ O1 B) as [O2 B2].
  apply io_bind_order; [done|intros C%B2].
  destruct (os_event_order path (EvWrite (go_plugin_handshake path)) _ O2 (conj eq_refl C)) as [O3 B3].
  apply io_bind_order.
  - unfold emit_go_plugin_handshake. apply io_bind_order; [done|intros D%B3].
    by apply os_event_order.
  - intros E. apply serve_order.
    + unfold emit_go_plugin_handshake. apply io_bind_order; [done|intros D%B3].
      by apply os_event_order.
    + revert E. unfold emit_go_plugin_handshake, io_bind. cbn [os_stdout_write os_stdout_flush traced_os].
      destruct (os_event (EvWrite _) _) as [[[]|e] t3] eqn:Ew; [|done].
      intros E. destruct (os_event_order path EvFlush t3 O3 (B3 eq_refl)) as [_ F]. by apply F.
Qed.

End start_properties.

(** ** Concrete instances *)

Lemma Ok_injective {X E} (a b : X) : @Ok X E a = Ok b → a = b.
Proof. congruence. Qed.

Section SpireWitnesses.
  Import Concrete ConcreteAudit ConcretePg ConcreteKeys.

#[local] Existing Instances list_audit no_hsm_debug no_io_text.

(** A vHSM that signs every request. *)
#[local] Instance spire_hsm : HsmCodec := {
  request_to_vec _ := Ok [];
  request_from_slice _ := Err "unused"%string;
  response_to_vec r :=
    match r with
    | Error code m => Ok (Byte.x65 :: str_bytes (pack [pretty code; m]))
    | _ => Err "unused"%string
    end;
  response_from_slice _ := Ok (SignedIntermediate "certificate") }.
#[local] Instance spire_network : Network := sign_socket true.

(** A tag, and the texts of the structure. *)
#[local] Instance packed_sign_codec : KmsSignCodec := {
  sign_request_to_vec r :=
    Ok (str_bytes (pack [ks_csr_pem r; ks_ca_tag r; pretty (ks_validity_days r);
                         ks_caller_service r]));
  sign_request_from_slice bs :=
    match unpack 4 (str_of_bytes bs) with
    | Some [csr; tag; days; caller] =>
      Ok (MkKmsSignRequest csr tag (default 0 (digits_value 0 days)) caller)
    | _ => Err "bad request"%string
    end;
  sign_response_to_vec r := Ok (Byte.x72 :: str_bytes (kr_certificate_pem r));
  sign_response_from_slice bs :=
    match bs with _ :: bs => Ok (MkKmsSignResponse (str_of_bytes bs) None) | [] => Err "empty"%string end;
  value_from_slice bs :=
    match bs with
    | [] => Err "EOF"%string
    | b :: bs =>
      if Z_of_byte b =? 101 then
        match unpack 2 (str_of_bytes bs) with
        | Some [code; m] =>
          Ok (VObject [("Error", VObject [("code", VNumber code); ("message", VString m)])]%string)
        | _ => Err "bad error"%string
        end
      else Ok (VObject [("certificate_pem", VString (str_of_bytes bs));
                        ("root_certificate_pem", VNull)]%string)
    end }.

#[local] Instance packed_sign_laws : KmsSignLaws packed_sign_codec spire_hsm.
Proof.
  split.
  - intros r. by eexists.
  - intros [csr tag days caller] bs Hwf <-%Ok_injective. cbn [sign_request_from_slice packed_sign_codec].
    rewrite str_of_str_bytes. cbn [ks_csr_pem ks_ca_tag ks_validity_days ks_caller_service].
    rewrite (unpack_pack [_; _; _; _]).
    unfold sign_request_wf, is_u32 in Hwf. cbn [ks_validity_days] in Hwf.
    rewrite !andb_true_iff, !Z.leb_le in Hwf.
    destruct (pretty_nonneg_value days) as [-> _]; [lia|done].
  - intros r. by eexists.
  - intros c bs _ [= <-]. cbn [sign_response_from_slice packed_sign_codec]. by rewrite str_of_str_bytes.
  - intros c bs _ [= <-]. cbn [value_from_slice packed_sign_codec].
    change (Z_of_byte Byte.x72 =? 101) with false. by rewrite str_of_str_bytes.
  - intros code m. by eexists.
  - intros code m bs _ _ <-%Ok_injective. cbn [value_from_slice packed_sign_codec].
    change (Z_of_byte Byte.x65 =? 101) with true. rewrite str_of_str_bytes.
    by rewrite (unpack_pack [_; _]).
Qed.

#[local] Instance plain_pem : PemCrate := {
  pem_parse_many s := Ok [str_bytes s];
  pem_block _ bs := hex_of bs }.
#[local] Instance plain_pem_laws : PemCrateLaws plain_pem.
Proof.
  split. intros tag bs _. cbn [pem_block plain_pem].
  induction bs as [|b bs IH]; [done|]. destruct b; exact IH.
Qed.

Definition spire_config : PluginConfig :=
  into_config (MkPluginArgs "/tmp/spire-kms-plugin.sock" "/run/kms/kms.sock" "root").
Definition spire_csr : MintX509caRequest := MkMintX509caRequest [Byte.x30; Byte.x82] 86401.
Definition spire_world : UdsWorld (list AuditLog) := MkUdsWorld 0 demo_empty.
Definition spire_envs (n : nat) : Env := good_env (Z.of_nat n + 1).
Definition spire_peer (callers : list string) : KmsPeer (UdsWorld (list AuditLog)) :=
  kms_uds_peer "sock" (sign_acl callers) spire_envs Z.of_nat (λ _, 3%nat) true
    (λ _, ServedInTime).
(** The first connection is refused, the second answered too late. *)
Definition spire_outage (n : nat) : Conn :=
  match n with O => ConnectFails UnexpectedEof | 1%nat => AnswersLate | _ => ServedInTime end.
Definition spire_late_peer : KmsPeer (UdsWorld (list AuditLog)) :=
  kms_uds_peer "sock" (sign_acl ["spire"%string]) spire_envs Z.of_nat (λ _, 3%nat) true spire_outage.

Lemma mint_validity_exact_witness : mint_validity_days 86401 = 2.
Proof. apply (mint_validity_exact 86401). lia. Defined.

Lemma kms_request_bounded_witness :
  ∃ n os, (n ≤ 5)%nat ∧
    exchanges (Hpeer := spire_peer []) (UnixAddr "/run/kms/kms.sock")
      (mint_request spire_config spire_csr) n spire_world =
      (os, (kms_attempts (Hpeer := spire_peer []) (UnixAddr "/run/kms/kms.sock")
              (mint_request spire_config spire_csr) (seqZ 1 ATTEMPTS) None spire_world).2) ∧
    n = 5%nat.
Proof.
  destruct (kms_attempts (Hpeer := spire_peer []) (UnixAddr "/run/kms/kms.sock")
              (mint_request spire_config spire_csr) (seqZ 1 ATTEMPTS) None spire_world)
    as [[r p] w'] eqn:E.
  destruct (kms_request_bounded _ _ _ _ _ _ E) as (n & os & Hn & Hex & Hr).
  exists n, os. split; [done|]. split; [done|].
  destruct r; [exfalso; vm_compute in E; discriminate|]. apply Hr.
Defined.

(** After the two failures. *)
Definition spire_failed :=
  exchanges (Hpeer := spire_late_peer) (kms_addr (pc_kms_socket_path spire_config))
    (mint_request spire_config spire_csr) 2 spire_world.
Definition spire_signed :=
  sign_intermediate_ca "sock" (sign_acl ["spire"%string]) (spire_envs 2) 2
    (use_case_input (mint_request spire_config spire_csr)) (uw_world spire_failed.2).

Lemma spire_signed_ok : spire_signed = (Ok "certificate"%string, spire_signed.2).
Proof.
  rewrite (surjective_pairing spire_signed) at 1. by f_equal.
Qed.

Lemma minted_bundle_lacks_root_witness :
  ∃ resp w', mint_x509ca_and_subscribe (Hpeer := spire_late_peer) spire_config spire_csr
      spire_world = (Ok [Ok resp], w') ∧ uw_served w' = 3%nat ∧
    xc_asn1 <$> mp_upstream_x509_roots resp = [str_bytes "certificate"].
Proof.
  destruct (minted_bundle_lacks_root "sock" (sign_acl ["spire"%string]) spire_envs Z.of_nat
    (λ _, 3%nat) spire_outage spire_config spire_csr spire_world 2 spire_failed.1 spire_failed.2
    "certificate" spire_signed.2 (str_bytes (pack ["3082"; "root"; "2"; "spire"]%string)))
    as (resp & Hm & _ & Hroot & _);
    [done|reflexivity|vm_compute; reflexivity|vm_compute; discriminate
    |exact (surjective_pairing spire_failed)|vm_compute; by repeat constructor|lia
    |vm_compute; reflexivity|exact spire_signed_ok|reflexivity|vm_compute; reflexivity
    |intros bs [= <-]; vm_compute; discriminate|].
  exists resp, (MkUdsWorld 3 spire_signed.2). split; [exact Hm|]. split; [reflexivity|exact Hroot].
Defined.

Lemma refused_mint_retried_witness :
  ∃ m w', mint_x509ca_and_subscribe (Hpeer := spire_peer []) spire_config spire_csr spire_world =
      (Err (MkStatus Unavailable m), w') ∧ uw_served w' = 5%nat.
Proof.
  destruct (refused_mint_retried "sock" (sign_acl []) spire_envs Z.of_nat (λ _, 3%nat)
    (λ _, ServedInTime) spire_config spire_csr spire_world (str_bytes (pack ["3082"; "root"; "2"; "spire"]%string)))
    as (w' & Hm & Hn & _);
    [done|exact list_audit_total|reflexivity|done|reflexivity|vm_compute; reflexivity
    |vm_compute; discriminate|intros bs [= <-]; vm_compute; discriminate|].
  eexists _, w'. split; [exact Hm|exact Hn].
Defined.

End SpireWitnesses.
