(* ===== verification/Migrate.v ===== *)
(** * The database configuration and the migration runner

    [DatabaseConfig] of [kms-db/src/lib.rs], and [kms-migrate/src/main.rs],
    which waits for Postgres, compares the migration files of a directory with
    the table [_sqlx_migrations] and has [sqlx] apply what is pending.
    Postgres, [sqlx]'s migrator and the signals are parameters over a state;
    the standard output is a list of lines beside it. *)

From S2P Require Import Prelude.
From S2P Require Import Interfaces.
From S2P Require Import Protocol.
From S2P Require Import Domain.
From S2P Require Import Effects.

(** ** kms-db/src/lib.rs *)

Inductive DatabaseConfigError :=
| InvalidPort (value : string)
| InvalidPoolSize (value : string).

(** [{value:?}] of a string. *)
Class StrDebug := { str_debug : string → string }.

Definition DatabaseConfigError_display `{StrDebug} (e : DatabaseConfigError) : string :=
  match e with
  | InvalidPort value =>
      "Invalid PostgreSQL port value: " +s+ str_debug value +s+ ". Expected a valid u16."
  | InvalidPoolSize value =>
      "Invalid PostgreSQL pool size value: " +s+ str_debug value +s+ ". Expected a valid u32."
  end.

Record DatabaseConfig := MkDatabaseConfig {
  dc_host : string;
  dc_port : Z;
  dc_user : option string;
  dc_password : option string;
  dc_name : string;
  dc_pool_size : Z;
  dc_auth_source : option string }.

Definition default_host : string := "127.0.0.1".
Definition default_port : Z := 5432.
Definition default_name : string := "kms_db".
Definition default_pool_size : Z := 10.

Definition DatabaseConfig_default : DatabaseConfig := {|
  dc_host := default_host;
  dc_port := default_port;
  dc_user := None;
  dc_password := None;
  dc_name := default_name;
  dc_pool_size := default_pool_size;
  dc_auth_source := None |}.

Section database_config.
  (** [std::env::var(..).ok()] and [std::fs::read_to_string(..).ok()] *)
  Context (env_var : string → option string) (read_file : string → option string).

Fixpoint read_env_var (keys : list string) : option string :=
  match keys with
  | [] => None
  | key :: keys =>
    match env_var key with Some value => Some value | None => read_env_var keys end
  end.

Definition DatabaseConfig_from_env : result DatabaseConfig DatabaseConfigError :=
  let host := default default_host (read_env_var ["DATABASE__HOST"; "DATABASE_HOST"]%string) in
  let? port :=
    match read_env_var ["DATABASE__PORT"; "DATABASE_PORT"]%string with
    | Some value =>
      match parse_uint 65535 value with Some p => Ok p | None => Err (InvalidPort value) end
    | None => Ok default_port
    end in
  let user := read_env_var ["DATABASE__USER"; "DATABASE_USER"]%string in
  let password := read_env_var ["DATABASE__PASSWORD"; "DATABASE_PASSWORD"]%string in
  let name := default default_name
    match read_env_var ["DATABASE__NAME"; "DATABASE_NAME"]%string with
    | Some name => Some name
    | None => env_var "POSTGRES_DB"
    end in
  let? pool_size :=
    match read_env_var ["DATABASE__POOL_SIZE"; "DATABASE_POOL_SIZE"]%string with
    | Some value =>
      match parse_uint u32_max value with Some n => Ok n | None => Err (InvalidPoolSize value) end
    | None => Ok default_pool_size
    end in
  Ok (MkDatabaseConfig host port user password name pool_size None).

Definition explicit_password (self : DatabaseConfig) : option string :=
  match dc_password self with
  | Some password => if is_empty (trim password) then None else Some password
  | None => None
  end.

(** The password of the configuration, or the trimmed contents of the file
    the environment names. *)
Definition DatabaseConfig_password_value (self : DatabaseConfig) : option string :=
  match explicit_password self with
  | Some password => Some password
  | None =>
    match env_var "DATABASE__PASSWORD_FILE" with
    | Some file => Some file
    | None => env_var "DATABASE_PASSWORD_FILE"
    end ≫= λ password_file,
    read_file password_file ≫= λ raw,
    let trimmed := trim raw in
    if is_empty trimmed then None else Some trimmed
  end.

Definition url_credentials (user password : option string) : string :=
  match user, password with
  | Some user, Some pass =>
    if negb (is_empty user) && negb (is_empty pass) then user +s+ ":" +s+ pass +s+ "@"
    else if negb (is_empty user) then user +s+ "@"
    else EmptyString
  | Some user, None => if negb (is_empty user) then user +s+ "@" else EmptyString
  | None, _ => EmptyString
  end.

Definition connection_string (self : DatabaseConfig) : string :=
  "postgresql://" +s+ url_credentials (dc_user self) (DatabaseConfig_password_value self)
    +s+ dc_host self +s+ ":" +s+ pretty (dc_port self) +s+ "/" +s+ dc_name self.

End database_config.

(** ** kms-migrate/src/main.rs: data *)

Definition MIGRATION_LOCK_KEY : Z := 0x4B4D535F4D494752.
Definition DB_READY_RETRIES : Z := 10.
(** 2 s, in nanoseconds *)
Definition DB_READY_BACKOFF : Z := 2 * 1000000000.

Inductive Commands := CmdRun (dry_run : bool) | CmdStatus.

Record LocalMigration := MkLocalMigration {
  lm_version : Z;
  lm_description : string;
  lm_path : string }.

Record AppliedMigration := MkAppliedMigration {
  am_version : Z;
  am_description : string;
  am_installed_at : option string }.

Definition default_command : Commands := CmdRun false.

(** ** Migration files *)

(** [s.rsplit_once(c)] *)
Fixpoint rsplit_once (c : Ascii.ascii) (s : string) : option (string * string) :=
  match s with
  | EmptyString => None
  | String x rest =>
    match rsplit_once c rest with
    | Some (before, after) => Some (String x before, after)
    | None => if Ascii.eqb x c then Some (EmptyString, rest) else None
    end
  end.

(** [Path::file_stem] and [Path::extension] of a file name. *)
Definition split_file_name (name : string) : string * option string :=
  if String.eqb name ".." then (name, None)
  else match rsplit_once (Ascii.ascii_of_nat 46) name with
       | Some (before, after) =>
         if is_empty before then (name, None) else (before, Some after)
       | None => (name, None)
       end.

(** [s.split(c).next()] *)
Fixpoint split_first (c : Ascii.ascii) (s : string) : string :=
  match s with
  | EmptyString => EmptyString
  | String x s => if Ascii.eqb x c then EmptyString else String x (split_first c s)
  end.

(** The migration a file of the directory stands for, if any. *)
Definition local_migration (dir name : string) : option LocalMigration :=
  let (stem, ext) := split_file_name name in
  match ext with
  | Some ext =>
    if String.eqb ext "sql" then
      let file_name := if is_utf8 stem then stem else EmptyString in
      match parse_i64 (split_first (Ascii.ascii_of_nat 95) file_name) with
      | Some version =>
        Some (MkLocalMigration version (str_replace "_" " " file_name) (dir +s+ "/" +s+ name))
      | None => None
      end
    else None
  | None => None
  end.

Fixpoint local_entries (dir : string) (entries : list (result string string)) :
    result (list LocalMigration) string :=
  match entries with
  | [] => Ok []
  | Err e :: _ => Err e
  | Ok name :: entries =>
    let? migrations := local_entries dir entries in
    Ok (match local_migration dir name with Some m => m :: migrations | None => migrations end)
  end.

(** [read_dir] gives the names of the entries, each after an error of its own. *)
Definition list_local_migrations (read_dir : string → result (list (result string string)) string)
    (dir : string) : result (list LocalMigration) string :=
  let? entries := read_dir dir in
  let? migrations := local_entries dir entries in
  Ok (sort_by_key lm_version migrations).

(** ** Postgres and sqlx *)

(** An error of a query: the server's, with its SQLSTATE code, or another. *)
Inductive QueryError := DatabaseErr (code : option string) (text : string) | QueryFailed (text : string).
Definition query_error_text (e : QueryError) : string :=
  match e with DatabaseErr _ text | QueryFailed text => text end.

(** A row as [try_get] reads it. *)
Record MigrationRow := MkMigrationRow {
  mg_version : result Z string;
  mg_description : result string string;
  mg_installed_at : result (option string) string }.

(** The server, [sqlx]'s migrator and the signals.  [pg_fetch] selects the
    named columns of [_sqlx_migrations] in the order of the versions. *)
Class MigratePg (F : Type) := {
  pg_connect : string → Z → io F unit;
  pg_select_1 : io F unit;
  pg_close : F → F;
  pg_sleep : Z → F → F;
  pg_advisory_lock : Z → io F unit;
  pg_advisory_unlock : Z → F → F;
  pg_fetch : list string → F → result (list MigrationRow) QueryError;
  migrator_new : string → io F unit;
  migrator_run : string → io F unit;
  (** whether a signal comes before the command is done, and what the
      interrupted command leaves *)
  signal_first : F → bool;
  interrupted : F → F }.

Definition applied_columns : list string := ["version"; "description"; "installed_at"]%string.

Fixpoint read_rows (rows : list MigrationRow) : result (list AppliedMigration) string :=
  match rows with
  | [] => Ok []
  | row :: rows =>
    let? version := mg_version row in
    let? description := mg_description row in
    let? installed_at := mg_installed_at row in
    let? migrations := read_rows rows in
    Ok (MkAppliedMigration version description installed_at :: migrations)
  end.

Section runner.
  Context {F : Type} `{Hpg : MigratePg F}.
  Context (read_dir : string → result (list (result string string)) string).

(** The state of a command: the server and the lines printed. *)
Definition run (X : Type) : Type := io (F * list string) X.

Definition on_pg {X} (m : io F X) : run X := λ s,
  let (r, f) := m s.1 in (r, (f, s.2)).
Definition println (line : string) : run unit := λ s, (Ok (), (s.1, s.2 ++ [line])).
Fixpoint println_all (lines : list string) : run unit :=
  match lines with [] => io_ret () | l :: lines => println l ;;> println_all lines end.

Definition fetch_applied_migrations : run (list AppliedMigration) := λ s,
  match pg_fetch applied_columns s.1 with
  | Ok rows => (read_rows rows, s)
  | Err (DatabaseErr (Some code) text) =>
    if String.eqb code "42P01" then (Ok [], s)
    else (Err ("Failed to query applied migrations from _sqlx_migrations: " +s+ text), s)
  | Err e =>
    (Err ("Failed to query applied migrations from _sqlx_migrations: " +s+ query_error_text e), s)
  end.

(** [local.iter().filter(|m| !applied_by_version.contains_key(&m.version))] *)
Definition pending_migrations (local : list LocalMigration) (applied : list AppliedMigration) :
    list LocalMigration :=
  filter (λ m, lm_version m ∉ am_version <$> applied) local.

Definition migration_line (m : LocalMigration) : string :=
  "  - " +s+ pretty (lm_version m) +s+ " (" +s+ lm_description m +s+ ")".

Definition run_migration_command (dir : string) (dry_run : bool) : run unit :=
  let> local_migrations := io_of (list_local_migrations read_dir dir) in
  let> applied := fetch_applied_migrations in
  let pending := pending_migrations local_migrations applied in
  if dry_run then
    println ("🔎 Dry run: " +s+ pretty (length pending) +s+ " pending migration(s) found.") ;;>
    match pending with
    | [] => println "✅ No pending migrations."
    | _ => println_all (migration_line <$> pending)
    end
  else
    match pending with
    | [] => println "✅ No pending migrations to apply."
    | _ =>
      println ("🚀 Applying " +s+ pretty (length pending) +s+ " migration(s)...") ;;>
      println_all (migration_line <$> pending) ;;>
      io_context "Failed to load migration files from disk" (on_pg (migrator_new dir)) ;;>
      io_context "Migration execution failed" (on_pg (migrator_run dir)) ;;>
      println "✅ Migration runner completed successfully."
    end.

Definition applied_line (m : AppliedMigration) : string :=
  "  ✅ " +s+ pretty (am_version m) +s+ " | " +s+ am_description m +s+ " | "
    +s+ default "n/a"%string (am_installed_at m).
Definition pending_line (m : LocalMigration) : string :=
  "  ⏳ " +s+ pretty (lm_version m) +s+ " | " +s+ lm_description m.
Definition newline : string := str_of_bytes [Byte.x0a].

Definition print_status (dir : string) (db_config : DatabaseConfig) : run unit :=
  let> local_migrations := io_of (list_local_migrations read_dir dir) in
  let> applied := fetch_applied_migrations in
  let pending := pending_migrations local_migrations applied in
  println "=== KMS migration status ===" ;;>
  println ("Database: " +s+ dc_host db_config +s+ ":" +s+ pretty (dc_port db_config) +s+ " / "
           +s+ dc_name db_config) ;;>
  println (newline +s+ "Applied migrations:") ;;>
  println_all (match applied with [] => ["  (none)"%string] | _ => applied_line <$> applied end) ;;>
  println (newline +s+ "Pending migrations:") ;;>
  println_all (match pending with [] => ["  (none)"%string] | _ => pending_line <$> pending end) ;;>
  println (newline +s+ "Total local migrations: " +s+ pretty (length local_migrations)
           +s+ " | applied: " +s+ pretty (length applied)
           +s+ " | pending: " +s+ pretty (length pending)).

(** [for attempt in 1..=attempts] *)
Fixpoint wait_attempts (conn_str : string) (pool_size backoff last : Z) (attempts : list Z)
    (f : F) : bool * F :=
  match attempts with
  | [] => (false, f)
  | attempt :: attempts =>
    let (connected, f) := pg_connect conn_str pool_size f in
    let (ready, f) :=
      match connected with
      | Ok _ => let (r, f) := pg_select_1 f in (is_ok r, if is_ok r then f else pg_close f)
      | Err _ => (false, f)
      end in
    if ready then (true, f)
    else
      wait_attempts conn_str pool_size backoff last attempts
        (if attempt <? last then pg_sleep backoff f else f)
  end.

Definition wait_for_database_ready (conn_str : string) (db_config : DatabaseConfig)
    (attempts backoff : Z) : io F unit := λ f,
  let (ready, f) := wait_attempts conn_str (dc_pool_size db_config) backoff attempts
                      (seqZ 1 attempts) f in
  (if ready then Ok ()
   else Err ("Timed out after " +s+ pretty attempts +s+ " attempts while waiting for PostgreSQL at "
             +s+ dc_host db_config +s+ ":" +s+ pretty (dc_port db_config)), f).

(** [run_migration_command] under [tokio::select!] with the exit signals. *)
Definition run_or_signal (dir : string) (dry_run : bool) : run unit := λ s,
  if signal_first s.1 then
    (Err "Termination signal received; exiting before applying migrations",
     (interrupted s.1, s.2))
  else run_migration_command dir dry_run s.

(** The guard of the advisory lock is dropped on every way out. *)
Definition with_advisory_lock (m : run unit) : run unit := λ s,
  match pg_advisory_lock MIGRATION_LOCK_KEY s.1 with
  | (Err e, f) =>
    (Err ("Failed to acquire PostgreSQL advisory lock 0x4b4d535f4d494752: " +s+ e), (f, s.2))
  | (Ok _, f) => let (r, s) := m (f, s.2) in (r, (pg_advisory_unlock MIGRATION_LOCK_KEY s.1, s.2))
  end.

Definition migrate_run `{StrDebug} (env_var read_file : string → option string)
    (command : option Commands) : run unit :=
  let command := default default_command command in
  let dir := default "crates/kms-migrate/migrations"%string (env_var "MIGRATIONS_DIR") in
  let> db_config := io_of (context "Failed to load database configuration from environment"
    (map_err DatabaseConfigError_display (DatabaseConfig_from_env env_var))) in
  io_context "Database is not ready after retrying; PostgreSQL did not become healthy in time"
    (on_pg (wait_for_database_ready (connection_string env_var read_file db_config) db_config
              DB_READY_RETRIES DB_READY_BACKOFF)) ;;>
  match command with
  | CmdStatus => print_status dir db_config
  | CmdRun dry_run => with_advisory_lock (run_or_signal dir dry_run)
  end.

(** The exit code of [main]. *)
Definition migrate_main `{StrDebug} (env_var read_file : string → option string)
    (command : option Commands) (s : F * list string) : Z * (F * list string) :=
  let (r, s) := migrate_run env_var read_file command s in (if is_ok r then 0 else 1, s).

End runner.
Arguments run F X : clear implicits.

(** ** Migration files *)

Lemma rsplit_once_last c a b :
  c ∉ chars b → rsplit_once c (a +s+ String c b) = Some (a, b).
Proof.
  intros Hb. assert (rsplit_once c b = None) as Hn.
  { induction b as [|x b IH]; [done|]. cbn [rsplit_once]. unfold chars in *. cbn in Hb.
    rewrite IH by set_solver. destruct (Ascii.eqb_spec x c); [set_solver|done]. }
  induction a as [|x a IH]; [change (EmptyString +s+ ?x) with x|rewrite str_app_cons];
    cbn [rsplit_once].
  - by rewrite Hn, Ascii.eqb_refl.
  - by rewrite IH.
Qed.

Lemma split_first_stop c a b : c ∉ chars a → split_first c (a +s+ String c b) = a.
Proof.
  induction a as [|x a IH]; intros Ha.
  { change (EmptyString +s+ ?x) with x. cbn [split_first]. by rewrite Ascii.eqb_refl. }
  rewrite str_app_cons. cbn [split_first].
  destruct (Ascii.eqb_spec x c); [unfold chars in Ha; cbn in Ha; set_solver|].
  f_equal. apply IH. unfold chars in *. cbn in Ha. set_solver.
Qed.

(** The characters of a decimal number are digits. *)
Lemma digits_value_chars s acc v c :
  digits_value acc s = Some v → c ∈ chars s → digit_value c ≠ None.
Proof.
  revert acc. induction s as [|x s IH]; intros acc; cbn [digits_value]; [by intros _ ?%elem_of_nil|].
  destruct (digit_value x) as [d|] eqn:Hd; [|done]. intros Hv.
  change (chars (String x s)) with (x :: chars s). intros [->|Hc]%elem_of_cons; [by rewrite Hd|].
  by eapply IH.
Qed.

Lemma pretty_chars z c : 0 ≤ z → digit_value c = None → c ∉ chars (pretty z).
Proof.
  intros Hz Hc Hin. destruct (pretty_nonneg_value z Hz) as [Hv _].
  by eapply digits_value_chars.
Qed.

(** A file [<version>_<name>.sql] is the migration of that version,
    whatever the name, also one with dots or further underscores. *)
Theorem migration_file_version dir v name :
  0 ≤ v ≤ 9223372036854775807 →
  let stem := pretty v +s+ "_" +s+ name in
  is_utf8 stem = true →
  local_migration dir (stem +s+ ".sql") =
    Some (MkLocalMigration v (str_replace "_" " " stem) (dir +s+ "/" +s+ stem +s+ ".sql")).
Proof.
  intros Hv stem Hu.
  assert (rsplit_once (Ascii.ascii_of_nat 46) (stem +s+ ".sql") = Some (stem, "sql"%string)) as Hr.
  { apply (rsplit_once_last (Ascii.ascii_of_nat 46) stem "sql"). cbn. set_solver. }
  assert (is_empty stem = false ∧ String.eqb (stem +s+ ".sql") ".." = false) as [He Hd].
  { destruct (pretty_nonneg_value v) as (_ & _ & Hp); [lia|]. subst stem.
    destruct (pretty v) as [|c p]; [done|]. split; [done|].
    apply String.eqb_neq. rewrite str_app_cons. intros [= _ Hx].
    apply (f_equal String.length) in Hx. rewrite !str_app_length in Hx. cbn in Hx. lia. }
  unfold local_migration, split_file_name. rewrite Hd, Hr, He.
  change (String.eqb "sql" "sql") with true. cbn iota. rewrite Hu.
  assert (split_first (Ascii.ascii_of_nat 95) stem = pretty v) as Hs.
  { apply split_first_stop, pretty_chars; [lia|done]. }
  by rewrite Hs, parse_i64_pretty.
Qed.

Lemma StronglySorted_filter {A} (R : A → A → Prop) (P : A → Prop) `{∀ x, Decision (P x)} l :
  StronglySorted R l → StronglySorted R (filter P l).
Proof.
  induction 1 as [|x l Hl IH Hx]; [constructor|]. rewrite filter_cons. case_decide; [|done].
  constructor; [done|]. apply Forall_forall. intros y [_ Hy]%list_elem_of_filter.
  by eapply Forall_forall in Hx.
Qed.

Lemma local_entries_elem dir entries local m :
  local_entries dir entries = Ok local →
  m ∈ local ↔ ∃ name, Ok name ∈ entries ∧ local_migration dir name = Some m.
Proof.
  revert local. induction entries as [|[name|e] entries IH]; intros local; cbn [local_entries].
  - intros [= <-]. split; [by intros ?%elem_of_nil|by intros (? & ?%elem_of_nil & _)].
  - intros H. inv_ok. specialize (IH _ H).
    assert (m ∈ (match local_migration dir name with Some m => m :: x | None => x end) ↔
            local_migration dir name = Some m ∨ m ∈ x) as ->.
    { destruct (local_migration dir name) as [m'|]; [rewrite elem_of_cons|].
      - split; intros [E|E]; auto; left; congruence.
      - split; [by right|]. by intros [?|?]. }
    rewrite IH. split.
    + intros [E|(n & Hn & E)]; [exists name|exists n]; set_solver.
    + intros (n & Hn & E). apply elem_of_cons in Hn as [[= ->]|Hn]; [by left|right; eauto].
  - done.
Qed.

Lemma pending_of_none local : pending_migrations local [] = local.
Proof.
  unfold pending_migrations. induction local as [|m local IH]; [done|].
  rewrite filter_cons_True by (cbn; set_solver). by rewrite IH.
Qed.

Section runner_properties.
  Context {F : Type} `{Hpg : MigratePg F}.

Lemma println_all_run lines (s : F * list string) :
  println_all lines s = (Ok (), (s.1, s.2 ++ lines)).
Proof.
  revert s. induction lines as [|l lines IH]; intros s; cbn [println_all].
  - rewrite app_nil_r. by destruct s.
  - unfold io_bind, println. rewrite IH. cbn [fst snd]. by rewrite <- app_assoc.
Qed.

(** A dry run prints the number and then the line of each pending
    migration, in ascending order of their versions, and leaves the database
    alone.  Pending are exactly the migration files of the directory whose
    version is not in the table. *)
Theorem dry_run_lists_pending read_dir dir entries local applied (f : F) out :
  read_dir dir = Ok entries → list_local_migrations read_dir dir = Ok local →
  fetch_applied_migrations (f, out) = (Ok applied, (f, out)) →
  let pending := pending_migrations local applied in
  (∀ m, m ∈ pending ↔
     (∃ name, Ok name ∈ entries ∧ local_migration dir name = Some m) ∧
     lm_version m ∉ am_version <$> applied) ∧
  StronglySorted (key_le lm_version) pending ∧
  run_migration_command read_dir dir true (f, out) =
    (Ok (), (f, out ++ (("🔎 Dry run: " +s+ pretty (length pending) +s+ " pending migration(s) found.")
       :: match pending with [] => ["✅ No pending migrations."%string]
          | _ => migration_line <$> pending end))).
Proof.
  intros Hdir Hlocal Happ pending. split_and!.
  - intros m. unfold pending, pending_migrations. rewrite list_elem_of_filter.
    unfold list_local_migrations in Hlocal. rewrite Hdir in Hlocal. cbn [result_bind] in Hlocal.
    apply result_bind_Ok in Hlocal as (ms & Hms & [= <-]).
    rewrite sort_by_key_perm, (local_entries_elem dir entries) by done. tauto.
  - apply StronglySorted_filter. unfold list_local_migrations in Hlocal. inv_ok.
    apply sort_by_key_sorted.
  - unfold run_migration_command. rewrite (io_bind_step _ _ _ local (f, out)) by (by unfold io_of; rewrite Hlocal).
    rewrite (io_bind_step _ _ _ applied (f, out)) by done. fold pending.
    erewrite io_bind_step by reflexivity. cbn [fst snd].
    destruct pending as [|m ms]; [unfold println|rewrite println_all_run]; cbn [fst snd];
      by rewrite <- app_assoc.
Qed.

(** The columns of the table [sqlx] creates. *)
Definition sqlx_columns : list string :=
  ["version"; "description"; "installed_on"; "success"; "checksum"; "execution_time"]%string.

(** Postgres on a missing table and on a missing column, and [sqlx]'s
    migrator, which creates the table it records its migrations in. *)
Class MigratePgLaws (P : MigratePg F) := {
  migrations_table : F → option (list string);
  fetch_no_table cols f :
    migrations_table f = None → ∃ t, pg_fetch cols f = Err (DatabaseErr (Some "42P01"%string) t);
  fetch_no_column cols f cs c :
    migrations_table f = Some cs → c ∈ cols → c ∉ cs →
    ∃ t, pg_fetch cols f = Err (DatabaseErr (Some "42703"%string) t);
  migrator_run_table dir f f' :
    migrator_run dir f = (Ok (), f') → migrations_table f' = Some sqlx_columns }.

Context `{Hlaws : !MigratePgLaws Hpg}.

Lemma fetch_applied_migrated f out :
  migrations_table f = Some sqlx_columns →
  ∃ t, fetch_applied_migrations (f, out) =
    (Err ("Failed to query applied migrations from _sqlx_migrations: " +s+ t), (f, out)).
Proof.
  intros Ht. destruct (fetch_no_column applied_columns f sqlx_columns "installed_at") as [t E];
    [done|set_solver|apply (bool_decide_unpack _); vm_compute; exact I|].
  exists t. unfold fetch_applied_migrations. cbn [fst]. by rewrite E.
Qed.

(** The migration runner works once.  It reads a column [installed_at]
    that the table of [sqlx] does not have; a missing table counts as no
    migrations, so the first run succeeds.  After it, every run, dry run and
    status report on that database fails. *)
Theorem migrated_database_refused read_dir dir m ms (f : F) out s' :
  migrations_table f = None → list_local_migrations read_dir dir = Ok (m :: ms) →
  run_migration_command read_dir dir false (f, out) = (Ok (), s') →
  ∀ read_dir' dir' local, list_local_migrations read_dir' dir' = Ok local →
  ∃ t, let e := "Failed to query applied migrations from _sqlx_migrations: " +s+ t in
    (∀ dry_run, run_migration_command read_dir' dir' dry_run s' = (Err e, s')) ∧
    (∀ db_config, print_status read_dir' dir' db_config s' = (Err e, s')).
Proof.
  intros Ht Hl Hr read_dir' dir' local Hl'.
  assert (migrations_table s'.1 = Some sqlx_columns) as Hm.
  { unfold run_migration_command in Hr.
    rewrite (io_bind_step _ _ _ (m :: ms) (f, out)) in Hr by (by unfold io_of; rewrite Hl).
    destruct (fetch_no_table applied_columns f Ht) as [t E].
    rewrite (io_bind_step _ _ _ [] (f, out)) in Hr
      by (unfold fetch_applied_migrations; cbn [fst]; by rewrite E).
    cbv zeta in Hr. rewrite pending_of_none in Hr.
    erewrite io_bind_step in Hr by reflexivity. erewrite io_bind_step in Hr by apply println_all_run.
    apply io_bind_Ok in Hr as ([] & s1 & _ & Hr). apply io_bind_Ok in Hr as ([] & s2 & H2 & [= <-]).
    unfold io_context, on_pg in H2. destruct (migrator_run dir s1.1) as [r f2] eqn:E2.
    injection H2 as Hr <-. apply map_err_Ok in Hr as ->. by eapply migrator_run_table. }
  destruct s' as [f' out']. destruct (fetch_applied_migrated f' out' Hm) as [t E].
  exists t. split; intros; unfold run_migration_command, print_status;
    (rewrite (io_bind_step _ _ _ local (f', out')) by (by unfold io_of; rewrite Hl'));
    by rewrite (io_bind_fail _ _ _ _ _ E).
Qed.

End runner_properties.

(** ** The configuration of the database *)

(** The port and the pool size of a configuration from the environment
    fit their types; the only errors are a port or a pool size that is set
    and does not parse, and they name the text that was set. *)
Theorem database_config_from_env_typed env_var :
  match DatabaseConfig_from_env env_var with
  | Ok c => 0 ≤ dc_port c ≤ 65535 ∧ 0 ≤ dc_pool_size c ≤ u32_max
  | Err (InvalidPort v) =>
    read_env_var env_var ["DATABASE__PORT"; "DATABASE_PORT"]%string = Some v ∧
    parse_uint 65535 v = None
  | Err (InvalidPoolSize v) =>
    read_env_var env_var ["DATABASE__POOL_SIZE"; "DATABASE_POOL_SIZE"]%string = Some v ∧
    parse_uint u32_max v = None
  end.
Proof.
  unfold DatabaseConfig_from_env.
  destruct (read_env_var env_var ["DATABASE__PORT"; "DATABASE_PORT"]%string) as [v|];
    [destruct (parse_uint 65535 v) as [p|] eqn:Hp; [apply parse_uint_range in Hp|by cbn]|];
    cbn [result_bind];
    (destruct (read_env_var env_var ["DATABASE__POOL_SIZE"; "DATABASE_POOL_SIZE"]%string) as [n|];
      [destruct (parse_uint u32_max n) as [k|] eqn:Hn; [apply parse_uint_range in Hn|by cbn]|]);
    cbn [result_bind dc_port dc_pool_size]; unfold default_port, default_pool_size, u32_max in *; lia.
Qed.

(** The authority of a URL: what follows the scheme, up to the first slash,
    question mark or hash. *)
Definition url_delimiter (c : Ascii.ascii) : bool :=
  let n := Z.of_N (Ascii.N_of_ascii c) in (n =? 47) || (n =? 63) || (n =? 35).
Fixpoint until_delimiter (s : string) : string :=
  match s with
  | EmptyString => EmptyString
  | String c s => if url_delimiter c then EmptyString else String c (until_delimiter s)
  end.
Definition url_authority (url : string) : string := until_delimiter (str_drop 13 url).
Definition plain_text (s : string) : bool := forallb (λ c, negb (url_delimiter c)) (chars s).

Lemma until_delimiter_app a b :
  plain_text a = true → until_delimiter (a +s+ b) = a +s+ until_delimiter b.
Proof.
  unfold plain_text. induction a as [|c a IH]; [done|]. rewrite !str_app_cons.
  change (chars (String c a)) with (c :: chars a). cbn [forallb].
  intros [Hc Ha]%andb_true_iff. cbn [until_delimiter]. apply negb_true_iff in Hc. rewrite Hc.
  by rewrite IH.
Qed.

Lemma plain_pretty z : 0 ≤ z → plain_text (pretty z) = true.
Proof.
  intros Hz. unfold plain_text. apply forallb_forall. intros c Hc%list_elem_of_In.
  destruct (pretty_nonneg_value z Hz) as [Hv _].
  pose proof (digits_value_chars _ _ _ c Hv Hc) as Hd. unfold digit_value in Hd. unfold url_delimiter.
  destruct (andb _ _) eqn:E; [|done]. apply andb_true_iff in E as [E1%Z.leb_le E2%Z.leb_le].
  apply negb_true_iff. rewrite !orb_false_iff, !Z.eqb_neq. lia.
Qed.

(** The URL the pool connects to names the configured user, password,
    host and port when they have no character with a meaning in URLs.  They
    are not escaped: a password with a slash ends the authority, and the host
    that is left is the part of the password before it. *)
Theorem connection_string_authority env_var read_file c user pass :
  dc_user c = Some user → DatabaseConfig_password_value env_var read_file c = Some pass →
  is_empty user = false → is_empty pass = false → 0 ≤ dc_port c → plain_text user = true →
  let url := connection_string env_var read_file c in
  (plain_text pass = true → plain_text (dc_host c) = true →
     url_authority url =
       user +s+ ":" +s+ pass +s+ "@" +s+ dc_host c +s+ ":" +s+ pretty (dc_port c)) ∧
  (∀ a b, pass = a +s+ "/" +s+ b → plain_text a = true → url_authority url = user +s+ ":" +s+ a).
Proof.
  intros Hu Hp Hue Hpe Hport Hup url.
  assert (str_drop 13 url = user +s+ ":" +s+ pass +s+ "@" +s+ dc_host c +s+ ":" +s+
            pretty (dc_port c) +s+ "/" +s+ dc_name c) as Hd.
  { unfold url, connection_string, url_credentials. rewrite Hu, Hp, Hue, Hpe. cbn [negb andb].
    rewrite !str_app_assoc. reflexivity. }
  unfold url_authority. rewrite Hd, until_delimiter_app by done.
  rewrite (until_delimiter_app ":" _) by done. split.
  - intros Hpp Hh. rewrite until_delimiter_app by done. rewrite (until_delimiter_app "@" _) by done.
    rewrite until_delimiter_app by done. rewrite (until_delimiter_app ":" _) by done.
    rewrite until_delimiter_app by (by apply plain_pretty).
    change (until_delimiter ("/" +s+ dc_name c)) with EmptyString. by rewrite str_app_nil_r.
  - intros a b -> Ha. rewrite str_app_assoc, until_delimiter_app by done.
    rewrite str_app_assoc. change (until_delimiter ("/" +s+ ?x)) with EmptyString.
    by rewrite str_app_nil_r.
Qed.

(** ** Concrete instances *)

Section MigrateWitnesses.

(** A server that is its table: the columns, and whether it is there. *)
#[local] Instance table_pg : MigratePg (option (list string)) := {
  pg_connect _ _ f := (Ok (), f);
  pg_select_1 f := (Ok (), f);
  pg_close f := f;
  pg_sleep _ f := f;
  pg_advisory_lock _ f := (Ok (), f);
  pg_advisory_unlock _ f := f;
  pg_fetch cols f :=
    match f with
    | None => Err (DatabaseErr (Some "42P01"%string) "relation does not exist")
    | Some cs =>
      if forallb (λ c, bool_decide (c ∈ cs)) cols then Ok []
      else Err (DatabaseErr (Some "42703"%string) "column does not exist")
    end;
  migrator_new _ f := (Ok (), f);
  migrator_run _ _ := (Ok (), Some sqlx_columns);
  signal_first _ := false;
  interrupted f := f }.

#[local] Instance table_pg_laws : MigratePgLaws table_pg.
Proof.
  unshelve econstructor; [exact (λ f, f)|..].
  - intros cols f ->. by eexists.
  - intros cols f cs c -> Hc Hn. cbn [pg_fetch table_pg].
    destruct (forallb _ cols) eqn:E; [|by eexists].
    rewrite forallb_forall in E. specialize (E c (proj1 (list_elem_of_In _ _) Hc)).
    by apply bool_decide_eq_true in E.
  - by intros dir f f' [= <-].
Defined.

Definition demo_entries : list (result string string) :=
  [Ok "002_audit_chain.sql"; Ok "README.md"; Ok "001_init.sql"]%string.
Definition demo_dir (dir : string) : result (list (result string string)) string :=
  Ok demo_entries.

Definition fresh_pg : option (list string) := None.

Lemma migration_file_version_witness :
  local_migration "m" "7_root_ca_add.v2.sql" =
    Some (MkLocalMigration 7 "7 root ca add.v2" "m/7_root_ca_add.v2.sql").
Proof. apply (migration_file_version "m" 7 "root_ca_add.v2"); [lia|reflexivity]. Defined.

Lemma dry_run_lists_pending_witness :
  (run_migration_command demo_dir "m" true (fresh_pg, [])).2.2 =
    ["🔎 Dry run: 2 pending migration(s) found."; "  - 1 (001 init)"; "  - 2 (002 audit chain)"]%string.
Proof.
  destruct (list_local_migrations demo_dir "m") as [local|] eqn:Hl; [|vm_compute in Hl; discriminate].
  destruct (dry_run_lists_pending demo_dir "m" demo_entries local [] fresh_pg []) as (_ & _ & ->);
    [reflexivity|exact Hl|vm_compute; reflexivity|].
  vm_compute in Hl. injection Hl as <-. vm_compute. reflexivity.
Defined.

Lemma migrated_database_refused_witness :
  ∃ e, (run_migration_command demo_dir "m" true
          (run_migration_command demo_dir "m" false (fresh_pg, [])).2).1 = Err e.
Proof.
  destruct (list_local_migrations demo_dir "m") as [[|m ms]|] eqn:Hl; [vm_compute in Hl; discriminate| |
    vm_compute in Hl; discriminate].
  destruct (run_migration_command demo_dir "m" false (fresh_pg, [])) as [r s'] eqn:Hr.
  assert (r = Ok ()) as -> by (apply (f_equal fst) in Hr; vm_compute in Hr; congruence).
  assert (migrations_table fresh_pg = None) as Ht by reflexivity.
  destruct (migrated_database_refused demo_dir "m" m ms fresh_pg [] s' Ht Hl Hr demo_dir "m" (m :: ms) Hl)
    as (t & Hrun & _).
  eexists. cbn [snd]. rewrite Hrun. reflexivity.
Defined.

Definition slash_config : DatabaseConfig :=
  MkDatabaseConfig "db.internal" 5432 (Some "kms"%string) (Some "s3cret/x"%string) "kms_db" 10 None.

Lemma connection_string_authority_witness :
  url_authority (connection_string (λ _, None) (λ _, None) slash_config) = "kms:s3cret"%string.
Proof.
  apply (connection_string_authority (λ _, None) (λ _, None) slash_config "kms" "s3cret/x"
           eq_refl eq_refl eq_refl eq_refl ltac:(done) eq_refl) with "x"%string; reflexivity.
Defined.

End MigrateWitnesses.
