(* ===== verification/Server.v ===== *)
(** * The HTTP server

    [server/routes.rs], [server/http.rs], the layers of [server/middleware]
    that [RateLimit] and [Security] leave out (CORS, the governor layers, the
    security headers and the request logger), [config/cors.rs] and
    [handlers/health.rs].  A layer is a function from the service it wraps to
    a service; [router] composes them in the order the code adds them, around
    the middleware of [RateLimit] and [Security].  The handlers behind the
    routes are an argument; axum's path matching, tower's CORS and governor
    layers are interfaces. *)

From Stdlib Require Import Ascii.
From S2P Require Import Prelude.
From S2P Require Import Interfaces.
From S2P Require Import Protocol.
From S2P Require Import Domain.
From S2P Require Import Acl.
From S2P Require Import Providers.
From S2P Require Import AuditChain.
From S2P Require Import RateLimit.
From S2P Require Import RedisLimiter.
From S2P Require Import Security.
From S2P Require Import Protobuf.
From S2P Require Import Identity.
From S2P Require Import DataUseCases.

(** ** config/cors.rs *)

Inductive HttpMethod := MGet | MPost | MPut | MDelete | MPatch | MOptions.

Inductive AllowedOrigins := AnyOrigin | SingleOrigin (s : string) | ListOrigins (l : list string).

Definition is_allowed (self : AllowedOrigins) (origin : string) : bool :=
  match self with
  | AnyOrigin => true
  | SingleOrigin s => String.eqb s origin
  | ListOrigins l => existsb (λ o, String.eqb o origin) l
  end.

Definition AllowedOrigins_to_vec (self : AllowedOrigins) : list string :=
  match self with
  | AnyOrigin => ["*"%string]
  | SingleOrigin s => [s]
  | ListOrigins l => l
  end.

Record CorsConfig := MkCorsConfig {
  allowed_origin : AllowedOrigins;
  allowed_methods : list HttpMethod;
  (** seconds *)
  max_age : Z }.

(** ** middleware/cors.rs *)

(** What [CorsLayer] is told: the origins, the methods, any request header,
    and how long an answer to a preflight may be kept. *)
Inductive AllowOrigin := OriginAny | OriginExact (v : list byte) | OriginList (l : list (list byte)).

Record CorsLayer := MkCorsLayer {
  cl_origin : AllowOrigin;
  cl_methods : list string;
  cl_max_age : Z }.

(** The origins whose pages may read the answers. *)
Definition origin_allowed (o : AllowOrigin) (origin : list byte) : bool :=
  match o with
  | OriginAny => true
  | OriginExact v => bool_decide (v = origin)
  | OriginList l => bool_decide (origin ∈ l)
  end.

Definition Method_of (m : HttpMethod) : string :=
  match m with
  | MGet => "GET" | MPost => "POST" | MPut => "PUT"
  | MDelete => "DELETE" | MPatch => "PATCH" | MOptions => "OPTIONS"
  end.

Definition create_cors_layer `{HttpLib} (cors : CorsConfig) : CorsLayer :=
  let origin :=
    match allowed_origin cors with
    | AnyOrigin => OriginAny
    | SingleOrigin origin =>
      match header_from_str origin with Some value => OriginExact value | None => OriginAny end
    | ListOrigins origins =>
      match omap header_from_str origins with
      | [] => OriginAny
      | header_values => OriginList header_values
      end
    end in
  MkCorsLayer origin (Method_of <$> allowed_methods cors) (max_age cors).

(** ** Requests and responses *)

(** [http::Extensions], as far as the layers use it: the peer's address
    ([ConnectInfo]), the authenticated service and the principal. *)
Record Extensions := MkExtensions {
  connect_info : option string;
  ext_service : option ServiceId;
  ext_principal : option Principal }.

Inductive ResponseBody :=
| NoBody
| Text (s : string)
| ErrorJson (code message : string)
| Bytes (b : list byte).

Record Response := MkResponse {
  rs_status : Z;
  rs_headers : HeaderMap;
  rs_body : ResponseBody }.

(** [AppError::into_response] as a response. *)
Definition error_response (e : AppError) : Response :=
  let r := into_response e in
  MkResponse (er_status r) [("content-type"%string, str_bytes "application/json")]
    (ErrorJson (er_code r) (er_message r)).

(** [headers.extend(other)]: each name of [other] is replaced. *)
Definition hm_extend (h other : HeaderMap) : HeaderMap :=
  foldl (λ h nv, hm_insert h nv.1 nv.2) h other.

Definition with_headers (f : HeaderMap → HeaderMap) (r : Response) : Response :=
  MkResponse (rs_status r) (f (rs_headers r)) (rs_body r).

(** ** The routing table *)

Inductive Endpoint :=
| EpHealth | EpStatus
| EpIssueCredentials | EpIssueBatch
| EpGenerateKey | EpGenerateDataKey | EpGetPublicKey | EpRotateKey | EpGetSymmetricKey
| EpSignData | EpEncrypt | EpDecrypt
| EpVerifyAudit | EpAuditLogs
| EpRegisterCeremony | EpCaLoad | EpCaInit | EpSignIntermediate
| EpRewrapKeys | EpImportBootstrap.

#[export] Instance Endpoint_eq_dec : EqDecision Endpoint.
Proof. solve_decision. Defined.

Record Route := MkRoute {
  rt_pattern : string;
  (** [get] or [post] *)
  rt_method : string;
  rt_endpoint : Endpoint;
  (** the governor layer around the method router *)
  rt_tier : RateLimitTier }.

Definition get_route (p : string) (e : Endpoint) (t : RateLimitTier) : Route := MkRoute p "GET" e t.
Definition post_route (p : string) (e : Endpoint) (t : RateLimitTier) : Route := MkRoute p "POST" e t.

Definition routes (enable_rewrap : bool) : list Route :=
  [ get_route "/health" EpHealth Health;
    get_route "/status" EpStatus Health;
    post_route "/api/v1/agent/credentials/issue" EpIssueCredentials Auth;
    post_route "/api/v1/agent/credentials/issue-batch" EpIssueBatch Auth;
    post_route "/api/v1/keys/generate" EpGenerateKey Auth;
    post_route "/api/v1/keys/generate-data-key" EpGenerateDataKey Auth;
    get_route "/api/v1/keys/public/{service_id}/{algorithm}" EpGetPublicKey Health;
    post_route "/api/v1/keys/rotate" EpRotateKey Auth;
    post_route "/api/v1/keys/symmetric" EpGetSymmetricKey Auth;
    post_route "/api/v1/keys/sign" EpSignData Auth;
    post_route "/api/v1/encrypt" EpEncrypt Auth;
    post_route "/api/v1/decrypt" EpDecrypt Auth;
    get_route "/api/v1/audit/verify" EpVerifyAudit Auth;
    get_route "/api/v1/audit/logs" EpAuditLogs Auth;
    post_route "/api/v1/ceremonies" EpRegisterCeremony Auth;
    post_route "/api/v1/ca/load" EpCaLoad Auth;
    post_route "/api/v1/ca/init" EpCaInit Auth;
    post_route "/api/v1/ca/sign-intermediate" EpSignIntermediate Auth ]
  ++ (if enable_rewrap then [post_route "/api/v1/admin/kms/rewrap" EpRewrapKeys Auth] else [])
  ++ [post_route "/api/v1/admin/bootstrap/import" EpImportBootstrap Auth].

(** The handlers that take an [AuthenticatedService] argument. *)
Definition takes_identity (e : Endpoint) : bool :=
  match e with
  | EpHealth | EpStatus | EpEncrypt | EpDecrypt
  | EpRegisterCeremony | EpCaLoad | EpCaInit | EpSignIntermediate => false
  | _ => true
  end.

(** ** Interfaces *)

(** Path patterns of axum: the parameters a path gives to a pattern. *)
Class RouteMatcher := { match_route : string → string → option (list (string * string)) }.

(** A pattern without parameters matches its own text only; a pattern with
    parameters matches only paths that start with the text before the first. *)
Fixpoint static_prefix (p : string) : string :=
  match p with
  | EmptyString => EmptyString
  | String c p => if decide (c = "{"%char) then EmptyString else String c (static_prefix p)
  end.

Class RouteMatcherLaws (M : RouteMatcher) := {
  match_static p path : static_prefix p = p →
    match_route p path = if decide (p = path) then Some [] else None;
  match_params p path ps : match_route p path = Some ps → starts_with (static_prefix p) path = true }.

(** [tower_http::set_header::SetResponseHeaderLayer::overriding] *)
Class SetHeader := { overriding : string → list byte → HeaderMap → HeaderMap }.
Class SetHeaderLaws (S : SetHeader) := {
  overriding_same n v h : hm_get (overriding n v h) n = Some v;
  overriding_other n v h m :
    to_ascii_lowercase m ≠ to_ascii_lowercase n → hm_get (overriding n v h) m = hm_get h m }.

(** [tower_http::cors]: a preflight request is answered by the layer, another
    one is served and the answer's headers extended. *)
Class CorsService := {
  cors_preflight : CorsLayer → Request → option Response;
  cors_headers : CorsLayer → Request → HeaderMap → HeaderMap }.

(** The layer sets [access-control-*] headers and [vary] only, and answers
    only [OPTIONS] requests itself. *)
Class CorsLaws (C : CorsService) := {
  cors_preflight_options l req r : cors_preflight l req = Some r → req_method req = "OPTIONS"%string;
  cors_headers_other l req h n :
    starts_with "access-control-" (to_ascii_lowercase n) = false →
    to_ascii_lowercase n ≠ "vary"%string →
    hm_get (cors_headers l req h) n = hm_get h n }.

(** [tower_governor]: a finished configuration, and a request's fate at one of
    the three layers: an answer, or headers for the answer of the inner
    service.  The extractor sees the request's headers and the peer's
    address. *)
Class Governor := {
  GovConfig : Type;
  gov_finish : Z → Z → option GovConfig;
  GovState : Type;
  gov_call : RateLimitTier → GovConfig → GovState → Z → Request → option string →
    (Response + HeaderMap) * GovState }.

(** [finish] refuses a zero period or burst only. *)
Class GovernorLaws (G : Governor) := {
  gov_finish_positive p b : 0 < p → 0 < b → is_Some (gov_finish p b) }.

(** ** middleware/rate_limiter.rs *)

Section governor.
  Context `{Governor}.

(** [None]: the process aborts. *)
Definition build_config (per_second burst_size : Z) : option GovConfig :=
  match gov_finish per_second burst_size with
  | Some config => Some config
  | None => gov_finish 1 1
  end.

Record RateLimitLayers := MkRateLimitLayers {
  rl_global : GovConfig;
  rl_health : GovConfig;
  rl_auth : GovConfig }.

Definition RateLimitLayers_new (rate_limit : RateLimitConfig) : option RateLimitLayers :=
  global_conf ← build_config (global_per_second rate_limit) (global_burst rate_limit);
  health_conf ← build_config (health_per_second rate_limit) (health_burst rate_limit);
  auth_conf ← build_config (auth_per_second rate_limit) (auth_burst rate_limit);
  Some (MkRateLimitLayers global_conf health_conf auth_conf).

Definition tier_config (layers : RateLimitLayers) (t : RateLimitTier) : GovConfig :=
  match t with
  | Global => rl_global layers
  | Health => rl_health layers
  | Auth => rl_auth layers
  end.

End governor.

(** ** The layers *)

(** [state.settings], as far as the router reads it. *)
Record ServerSettings := MkServerSettings {
  ss_security : Settings;
  ss_rate_limit : RateLimitConfig;
  ss_cors : CorsConfig;
  enable_http_rewrap : bool }.

Section stack.
  Context `{Sha256, Hex, HmacLib, HttpLib, ChronoParse}.
  Context {Nonces : Type} `{NonceStore Nonces} {Limiter : Type} `{RateLimiter Limiter}.
  Context `{Governor} `{RouteMatcher} `{SetHeader} `{CorsService}.
  (** the handlers over the rest of the application's state *)
  Context {App : Type}.
  Context (handle : Endpoint → option ServiceId → list (string * string) → Request → App →
    Response * App).
  (** the text of axum's rejection of a missing extension *)
  Context (missing_extension : string).

Record ServerState := MkServerState {
  sv_limiter : Limiter;
  sv_nonces : Nonces;
  sv_governor : GovState;
  sv_app : App }.

(** A service answers a request it gets at an instant. *)
Definition Service : Type := Clock → Request → Extensions → ServerState → Response * ServerState.

Definition set_app (a : App) (s : ServerState) : ServerState :=
  MkServerState (sv_limiter s) (sv_nonces s) (sv_governor s) a.
Definition set_governor (g : GovState) (s : ServerState) : ServerState :=
  MkServerState (sv_limiter s) (sv_nonces s) g (sv_app s).
Definition set_nonces (n : Nonces) (s : ServerState) : ServerState :=
  MkServerState (sv_limiter s) n (sv_governor s) (sv_app s).
Definition set_limiter (l : Limiter) (s : ServerState) : ServerState :=
  MkServerState l (sv_nonces s) (sv_governor s) (sv_app s).

(** A handler: its extractors run first. *)
Definition endpoint (e : Endpoint) (params : list (string * string)) : Service :=
  λ clk req ext st,
  let run caller :=
    let (r, app) := handle e caller params req (sv_app st) in (r, set_app app st) in
  if takes_identity e then
    match AuthenticatedService (ext_service ext) with
    | Err e => (error_response e, st)
    | Ok caller => run (Some caller)
    end
  else run None.

(** [get] answers [HEAD] as well, without the body. *)
Definition is_get (rt : Route) : bool := String.eqb (rt_method rt) "GET".

Definition method_router (rt : Route) (params : list (string * string)) : Service :=
  λ clk req ext st,
  if String.eqb (req_method req) (rt_method rt) then
    endpoint (rt_endpoint rt) params clk req ext st
  else if is_get rt && String.eqb (req_method req) "HEAD" then
    let (r, st) := endpoint (rt_endpoint rt) params clk req ext st in
    (MkResponse (rs_status r) (rs_headers r) NoBody, st)
  else
    let allow := if is_get rt then "GET,HEAD"%string else rt_method rt in
    (MkResponse 405 [("allow"%string, str_bytes allow)] NoBody, st).

Definition governor_layer (t : RateLimitTier) (config : GovConfig) (inner : Service) : Service :=
  λ clk req ext st,
  match gov_call t config (sv_governor st) (mono clk) req (connect_info ext) with
  | (inl refused, g) => (refused, set_governor g st)
  | (inr headers, g) =>
    let (r, st) := inner clk req ext (set_governor g st) in
    (with_headers (λ h, hm_extend h headers) r, st)
  end.

(** The first route whose pattern matches. *)
Definition find_route (table : list Route) (path : string) :
    option (Route * list (string * string)) :=
  head (omap (λ rt, pair rt <$> match_route (rt_pattern rt) path) table).

(** [route_layer] wraps the routes, not the fallback. *)
Definition dispatch (settings : ServerSettings) (layers : RateLimitLayers) : Service :=
  λ clk req ext st,
  match find_route (routes (enable_http_rewrap settings)) (req_path req) with
  | None => (MkResponse 404 [] NoBody, st)
  | Some (rt, params) =>
    governor_layer Global (rl_global layers)
      (governor_layer (rt_tier rt) (tier_config layers (rt_tier rt))
        (method_router rt params)) clk req ext st
  end.

Definition hmac_layer (settings : Settings) (inner : Service) : Service :=
  λ clk req ext st,
  match hmac_security_middleware settings clk req (sv_nonces st) with
  | (Respond e, nonces) => (error_response e, set_nonces nonces st)
  | (Next None req, nonces) => inner clk req ext (set_nonces nonces st)
  | (Next (Some (s, p)) req, nonces) =>
    inner clk req (MkExtensions (connect_info ext) (Some s) (Some p)) (set_nonces nonces st)
  end.

(** The [ConnectInfo] extractor rejects a request without the extension. *)
Definition rate_limit_layer (config : RateLimitConfig) (inner : Service) : Service :=
  λ clk req ext st,
  match connect_info ext with
  | None =>
    (MkResponse 500 [] (Text missing_extension), st)
  | Some ip =>
    match redis_rate_limit_middleware config (sv_limiter st) (mono clk) (req_path req) ip with
    | (LimitError status, l) => (MkResponse status [] NoBody, set_limiter l st)
    | (LimitExceeded status headers body, l) =>
      (MkResponse status ((λ nv, (nv.1, str_bytes nv.2)) <$> headers) (Text body), set_limiter l st)
    | (LimitNext headers, l) =>
      let (r, st) := inner clk req ext (set_limiter l st) in
      (with_headers (λ h, hm_extend h ((λ nv, (nv.1, str_bytes nv.2)) <$> headers)) r, st)
    end
  end.

Definition security_headers : list (string * string) :=
  [("x-content-type-options", "nosniff");
   ("x-frame-options", "DENY");
   ("content-security-policy", "default-src 'self'; frame-ancestors 'none';");
   ("x-xss-protection", "1; mode=block")]%string.

(** The layer added first is the outermost one, its header is set last. *)
Definition create_security_headers_layer (inner : Service) : Service :=
  λ clk req ext st,
  let (r, st) := inner clk req ext st in
  (with_headers (λ h, foldr (λ nv h, overriding nv.1 (str_bytes nv.2) h) h security_headers) r, st).

Definition cors_layer (layer : CorsLayer) (inner : Service) : Service :=
  λ clk req ext st,
  match cors_preflight layer req with
  | Some r => (r, st)
  | None =>
    let (r, st) := inner clk req ext st in (with_headers (cors_headers layer req) r, st)
  end.

(** *** middleware/logging.rs *)

Definition MAX_DEBUG_BODY_SIZE : Z := 1024 * 1024.

(** [fresh] is [Uuid::new_v4().to_string()]. *)
Definition request_id_for_request (fresh : string) (req : Request) : string :=
  match hm_get (req_headers req) "x-request-id" ≫= header_to_str with
  | Some value => if is_empty (trim value) then fresh else value
  | None => fresh
  end.

Definition http_logger (debug : bool) (inner : Service) : Service :=
  λ clk req ext st,
  if debug then
    match to_bytes (req_body req) MAX_DEBUG_BODY_SIZE with
    | None =>
      inner clk (MkRequest (req_method req) (req_path req) (req_headers req) (Some [])) ext st
    | Some bytes =>
      inner clk (MkRequest (req_method req) (req_path req) (req_headers req) (Some bytes)) ext st
    end
  else inner clk req ext st.

(** [routes::router]; [None] when building the governor layers aborts. *)
Definition router (debug : bool) (settings : ServerSettings) : option Service :=
  let cors := create_cors_layer (ss_cors settings) in
  rate_limits ← RateLimitLayers_new (ss_rate_limit settings);
  Some
    (http_logger debug
      (cors_layer cors
        (create_security_headers_layer
          (rate_limit_layer (ss_rate_limit settings)
            (hmac_layer (ss_security settings)
              (dispatch settings rate_limits)))))).

(** ** server/http.rs *)

(** [serve]: every connection carries its peer's address. *)
Definition plain_request (app : Service) (peer_ip : string) : Clock → Request → ServerState →
    Response * ServerState :=
  λ clk req st, app clk req (MkExtensions (Some peer_ip) None None) st.

Section mtls.
  Context `{Utf8Display} `{Base64} `{SpireAgent} `{PemLib} `{WebPki} `{Pkcs8Lib}.
  Context (config : WorkloadIdentityConfig) (app : Service).

(** What happens at the listener: a connection is accepted or accepting fails,
    a task's handshake ends, a request arrives on a connection, and the
    shutdown future completes. *)
Inductive MtlsEvent :=
| Accepted (r : result unit string)
| Handshake (id : nat) (peer : result (option (list (list byte))) string)
| Arrives (id : nat) (clk : Clock) (req : Request)
| ShutdownComplete.

(** The connections with their principals, and the listener's result once the
    loop has ended.  Tasks of accepted connections go on after it. *)
Record MtlsState := MkMtlsState {
  ms_sessions : gmap nat Principal;
  ms_ended : option (result unit string);
  ms_server : ServerState }.

Definition mtls_step (ev : MtlsEvent) (ms : MtlsState) : option Response * MtlsState :=
  match ev with
  | Accepted (Ok _) => (None, ms)
  | Accepted (Err e) =>
    (None, match ms_ended ms with
           | None => MkMtlsState (ms_sessions ms)
               (Some (Err ("failed to accept mTLS client connection: " +s+ e))) (ms_server ms)
           | Some _ => ms
           end)
  | ShutdownComplete =>
    (None, match ms_ended ms with
           | None => MkMtlsState (ms_sessions ms) (Some (Ok ())) (ms_server ms)
           | Some _ => ms
           end)
  | Handshake id (Err _) => (None, ms)
  | Handshake id (Ok certs) =>
    (None, match peer_principal_from_tls config certs with
           | Ok principal =>
             MkMtlsState (<[id := principal]> (ms_sessions ms)) (ms_ended ms) (ms_server ms)
           | Err _ => ms
           end)
  | Arrives id clk req =>
    match ms_sessions ms !! id with
    | None => (None, ms)
    | Some principal =>
      let (r, st) := app clk req (MkExtensions None None (Some principal)) (ms_server ms) in
      (Some r, MkMtlsState (ms_sessions ms) (ms_ended ms) st)
    end
  end.

Fixpoint serve_mtls_with_config (evs : list MtlsEvent) (ms : MtlsState) :
    list Response * MtlsState :=
  match evs with
  | [] => ([], ms)
  | ev :: evs =>
    let (r, ms) := mtls_step ev ms in
    let (rs, ms) := serve_mtls_with_config evs ms in
    (option_list r ++ rs, ms)
  end.

End mtls.

End stack.

(** *** Shutdown *)

(** Waiting for a signal: the handler could not be installed, or the signal
    comes at an instant, or never. *)
Inductive SignalWait := NotInstalled | Signalled (at_ : option Z).

(** When each arm of the select completes: a missing Ctrl+C handler completes
    at once, a missing SIGTERM handler never. *)
Definition ctrl_c_arm (now : Z) (w : SignalWait) : option Z :=
  match w with NotInstalled => Some now | Signalled at_ => at_ end.
Definition terminate_arm (w : SignalWait) : option Z :=
  match w with NotInstalled => None | Signalled at_ => at_ end.

Record Shutdown := MkShutdown {
  (** the workers' token is cancelled *)
  token_cancelled : Z;
  (** the listener stops accepting *)
  accepting_until : Z }.

Definition shutdown_signal (now timeout : Z) (ctrl_c terminate : SignalWait) : option Shutdown :=
  let first :=
    match ctrl_c_arm now ctrl_c, terminate_arm terminate with
    | Some a, Some b => Some (Z.min a b)
    | Some a, None => Some a
    | None, b => b
    end in
  (λ t, MkShutdown t (t + from_secs timeout)) <$> first.

(** ** handlers/health.rs *)

Record HealthResponse := MkHealthResponse {
  h_status : string; h_database : string; h_redis : string; h_kms : string }.

(** The outcome of a check with its time limit of two seconds. *)
Definition check_ok {A} (r : timed A) : bool :=
  match r with Completed (Ok _) => true | _ => false end.

Definition health {A B} (redis_enabled : bool) (db_ping : timed A) (redis_ping : option (timed B)) :
    Z * HealthResponse :=
  let redis_status :=
    match redis_ping with
    | Some r => if check_ok r then "ok" else "error"
    | None => if redis_enabled then "error" else "disabled"
    end%string in
  let db_status := if check_ok db_ping then "ok"%string else "error"%string in
  let is_ok :=
    String.eqb db_status "ok" &&
    (String.eqb redis_status "ok" || String.eqb redis_status "disabled") in
  (if is_ok then 200 else 503,
   MkHealthResponse (if is_ok then "ok" else "degraded") db_status redis_status "ready").

Definition status : Z * string := (200, "READY"%string).

(** ** Who reaches a handler *)

Section stack_properties.
  Context `{Sha256, Hex, HmacLib, HttpLib, ChronoParse}.
  Context {Nonces : Type} `{NonceStore Nonces} {Limiter : Type} `{RateLimiter Limiter}.
  Context `{Governor} `{RouteMatcher} `{SetHeader} `{CorsService}.
  Context {App : Type}.
  Context (handle : Endpoint → option ServiceId → list (string * string) → Request → App →
    Response * App) (missing_extension : string).
  Implicit Types (clk : Clock) (req : Request) (ext : Extensions) (a : App).

Abbreviation State := (ServerState (Nonces := Nonces) (Limiter := Limiter) (App := App)).
Implicit Types (st : State).

Lemma hmac_next settings clk req nonces x req' nonces' :
  hmac_security_middleware settings clk req nonces = (Next x req', nonces') →
  ∃ body, to_bytes (req_body req) MAX_HMAC_BODY_SIZE = Some body ∧ req' = buffered req body ∧
    match x with
    | None => req_path req ∈ public_endpoints settings
    | Some (s, p) => ∃ key, authentic settings (utc clk) req body s key ∧
        mark_used nonces (mono clk) key MAX_NONCE_TTL_SECONDS = (Ok true, nonces')
    end.
Proof.
  unfold hmac_security_middleware. destruct (to_bytes _ _) as [body|]; [|done].
  case_bool_decide as Hp.
  { intros [= <- <- <-]. by exists body. }
  destruct (verify_request settings (utc clk) req body) as [[s key]|e] eqn:Hv; [|done].
  destruct (mark_used _ _ _ _) as [[[]|] n] eqn:Hm; try done.
  intros [= <- <- <-]. exists body. split_and!; [done..|]. exists key.
  by rewrite <- verify_request_authentic.
Qed.

(** The application's states a service may leave. *)
Definition app_effect (inner : Service (Nonces := Nonces) (Limiter := Limiter)) clk req ext
    (R : App → App → Prop) : Prop :=
  ∀ st, R (sv_app st) (sv_app (inner clk req ext st).2).

Lemma governor_layer_effect t config inner clk req ext (R : App → App → Prop) :
  (∀ a, R a a) → app_effect inner clk req ext R →
  app_effect (governor_layer t config inner) clk req ext R.
Proof.
  intros Hr Hi st. unfold governor_layer. destruct (gov_call _ _ _ _ _ _) as [[refused|headers] g].
  - apply Hr.
  - specialize (Hi (set_governor g st)). by destruct (inner clk req ext _).
Qed.

(** A request of the endpoint [e] with the extensions [ext] either changes
    nothing or runs the handler, with the caller the handler asks for. *)
Definition runs_handler (e : Endpoint) (params : list (string * string)) req ext (a a' : App) : Prop :=
  a' = a ∨
  ((takes_identity e = true → is_Some (ext_service ext)) ∧
   a' = (handle e (if takes_identity e then ext_service ext else None) params req a).2).

Lemma endpoint_effect e params clk req ext :
  app_effect (endpoint handle e params) clk req ext (runs_handler e params req ext).
Proof.
  intros st. unfold endpoint, runs_handler. destruct (takes_identity e).
  - destruct (ext_service ext) as [s|]; cbn [AuthenticatedService]; [|by left].
    right. split; [done|]. by destruct (handle _ _ _ _ _).
  - right. split; [done|]. by destruct (handle _ _ _ _ _).
Qed.

Lemma method_router_effect rt params clk req ext :
  app_effect (method_router handle rt params) clk req ext
    (runs_handler (rt_endpoint rt) params req ext).
Proof.
  intros st. unfold method_router. pose proof (endpoint_effect (rt_endpoint rt) params clk req ext st).
  case_match; [done|]. case_match; [by destruct (endpoint _ _ _ _ _ _)|by left].
Qed.

Lemma dispatch_effect settings layers clk req ext :
  app_effect (dispatch handle settings layers) clk req ext (λ a a',
    a' = a ∨ ∃ rt params,
      find_route (routes (enable_http_rewrap settings)) (req_path req) = Some (rt, params) ∧
      runs_handler (rt_endpoint rt) params req ext a a').
Proof.
  intros st. unfold dispatch. destruct (find_route _ _) as [[rt params]|]; [|by left].
  right. exists rt, params. split; [done|].
  apply (governor_layer_effect _ _ _ clk req ext (runs_handler (rt_endpoint rt) params req ext));
    [by left|].
  apply governor_layer_effect; [by left|apply method_router_effect].
Qed.

(** How the handler of [e] came to run on [req'] with the caller [caller]: the
    rate limiter and the security middleware have let the request through. *)
Definition let_through (settings : ServerSettings) clk (ip : string) req st
    (e : Endpoint) (caller : option ServiceId) (req' : Request) : Prop :=
  (∃ headers l, redis_rate_limit_middleware (ss_rate_limit settings) (sv_limiter st) (mono clk)
     (req_path req) ip = (LimitNext headers, l)) ∧
  ∃ body, req_body req' = Some body ∧
    (req_path req ∈ public_endpoints (ss_security settings) ∧
       takes_identity e = false ∧ caller = None ∨
     ∃ s key, authentic (ss_security settings) (utc clk) req' body s key ∧
       (mark_used (sv_nonces st) (mono clk) key MAX_NONCE_TTL_SECONDS).1 = Ok true ∧
       caller = if takes_identity e then Some s else None).

(** What a request may do to the application's state. *)
Definition served (settings : ServerSettings) clk ip req st (a a' : App) : Prop :=
  a' = a ∨ ∃ rt params caller req',
    find_route (routes (enable_http_rewrap settings)) (req_path req) = Some (rt, params) ∧
    req_method req' = req_method req ∧ req_path req' = req_path req ∧
    req_headers req' = req_headers req ∧
    let_through settings clk ip req st (rt_endpoint rt) caller req' ∧
    a' = (handle (rt_endpoint rt) caller params req' a).2.

Lemma hmac_layer_effect settings layers clk ip req st headers l :
  redis_rate_limit_middleware (ss_rate_limit settings) (sv_limiter st) (mono clk)
     (req_path req) ip = (LimitNext headers, l) →
  served settings clk ip req st (sv_app st) (sv_app (hmac_layer (ss_security settings)
    (dispatch handle settings layers) clk req (MkExtensions (Some ip) None None)
    (set_limiter l st)).2).
Proof.
  intros Hl. unfold hmac_layer.
  destruct (hmac_security_middleware _ _ _ _) as [[e|x req'] n] eqn:Hh; [by left|].
  apply hmac_next in Hh as (body & Hb & -> & Hx).
  set (ext := match x with
    | Some (s, p) => MkExtensions (Some ip) (Some s) (Some p)
    | None => MkExtensions (Some ip) None None end).
  pose proof (dispatch_effect settings layers clk (buffered req body) ext
    (set_nonces n (set_limiter l st))) as He.
  assert (served settings clk ip req st (sv_app st) (sv_app (dispatch handle settings layers clk
    (buffered req body) ext (set_nonces n (set_limiter l st))).2)) as Hs; [|by destruct x as [[s p]|]].
  destruct He as [He|(rt & params & Hf & [He|[Hid He]])]; [by left..|].
  right. exists rt, params, (if takes_identity (rt_endpoint rt) then ext_service ext else None),
    (buffered req body). split_and!; try done. split; [by eauto|]. exists body. split; [done|].
  destruct x as [[s p]|]; subst ext; cbn [ext_service] in *.
  - destruct Hx as (key & Ha & Hm). right. exists s, key.
    change (sv_nonces (set_limiter l st)) with (sv_nonces st) in Hm. by rewrite Hm.
  - left. split; [done|]. destruct (takes_identity _); [by destruct (Hid eq_refl)|done].
Qed.

Lemma rate_limit_layer_effect settings layers clk ip req st :
  served settings clk ip req st (sv_app st) (sv_app (rate_limit_layer missing_extension
    (ss_rate_limit settings) (hmac_layer (ss_security settings) (dispatch handle settings layers))
    clk req (MkExtensions (Some ip) None None) st).2).
Proof.
  unfold rate_limit_layer. cbn [connect_info].
  destruct (redis_rate_limit_middleware _ _ _ _ _) as [[?|???|headers] l] eqn:Hl; [by left..|].
  pose proof (hmac_layer_effect settings layers clk ip req st headers l Hl) as Hs.
  by destruct (hmac_layer _ _ _ _ _ _).
Qed.

(** The two outer layers neither read nor write the application's state. *)
Lemma outer_layers_effect cors inner clk req ext st (R : App → App → Prop) :
  R (sv_app st) (sv_app st) → R (sv_app st) (sv_app (inner clk req ext st).2) →
  R (sv_app st) (sv_app (cors_layer cors
    (create_security_headers_layer (Nonces := Nonces) (Limiter := Limiter) inner) clk req ext st).2).
Proof.
  intros Hr Hi. unfold cors_layer, create_security_headers_layer.
  destruct (cors_preflight cors req); [done|]. by destruct (inner clk req ext st).
Qed.

(** The request the logger passes on. *)
Definition logged (debug : bool) req : Request :=
  if debug then MkRequest (req_method req) (req_path req) (req_headers req)
    (Some (default [] (to_bytes (req_body req) MAX_DEBUG_BODY_SIZE)))
  else req.

Lemma http_logger_logged debug inner clk req ext st :
  http_logger (Nonces := Nonces) (Limiter := Limiter) debug inner clk req ext st =
  inner clk (logged debug req) ext st.
Proof. unfold http_logger, logged. destruct debug; [|done]. by destruct (to_bytes _ _). Qed.

(** C8: a handler runs only behind the rate limiter and the security
    middleware.  Whatever a request over the plain listener is, the
    application's state is unchanged, or the handler of the route its path
    matches has run on the received request after the rate limiter let it
    through, and either the path is a public endpoint and the handler takes no
    identity, or the request is authentic for a service, its nonce was fresh,
    and that service is the caller a handler with an identity gets. *)
Theorem handler_runs_authenticated debug settings app clk ip req st :
  router handle missing_extension debug settings = Some app →
  served settings clk ip (logged debug req) st (sv_app st)
    (sv_app (plain_request app ip clk req st).2).
Proof.
  unfold router. destruct (RateLimitLayers_new _) as [layers|]; [|done]. intros [= <-].
  unfold plain_request. rewrite http_logger_logged.
  apply outer_layers_effect; [by left|apply rate_limit_layer_effect].
Qed.

(** No request over mutual TLS is served.  The accept loop puts the
    peer's principal into the extensions but not its address, which the rate
    limiter asks for: along any history of connections and requests every
    answer is a preflight answer or the status 500, and the limiters, the
    nonces and the application's state stay as they were. *)
Theorem mtls_requests_fail `{Utf8Display} `{Base64} `{SpireAgent} `{PemLib} `{WebPki} `{Pkcs8Lib}
    debug settings app config evs ms :
  router handle missing_extension debug settings = Some app →
  let (rs, ms') := serve_mtls_with_config config app evs ms in
  ms_server ms' = ms_server ms ∧
  ∀ r, r ∈ rs → rs_status r = 500 ∨
    ∃ req, cors_preflight (create_cors_layer (ss_cors settings)) req = Some r.
Proof.
  intros Ha. revert ms. induction evs as [|ev evs IH]; intros ms; cbn [serve_mtls_with_config].
  { split; [done|]. set_solver. }
  assert (let (r, ms') := mtls_step config app ev ms in
    ms_server ms' = ms_server ms ∧ ∀ r', r = Some r' → rs_status r' = 500 ∨
    ∃ req, cors_preflight (create_cors_layer (ss_cors settings)) req = Some r') as Hstep.
  { destruct ev as [[]|id []|id clk req|]; cbn [mtls_step]; try by repeat case_match.
    destruct (ms_sessions ms !! id) as [p|]; [|done].
    revert Ha. unfold router. destruct (RateLimitLayers_new _) as [layers|]; [|done].
    intros [= <-]. rewrite http_logger_logged. unfold cors_layer.
    destruct (cors_preflight _ _) as [r|] eqn:Hc; [by split; [done|]; intros ? [= <-]; eauto|].
    split; [done|]. intros ? [= <-]. by left. }
  destruct (mtls_step config app ev ms) as [r ms1]. destruct Hstep as [E1 Hr1].
  specialize (IH ms1). destruct (serve_mtls_with_config config app evs ms1) as [rs ms2].
  destruct IH as [E2 Hr2]. split; [congruence|]. intros r'. rewrite elem_of_app.
  intros [Hr|Hr]; [|by apply Hr2]. destruct r as [r|]; [|set_solver].
  apply list_elem_of_singleton in Hr as ->. by apply Hr1.
Qed.

(** The router is built for any limits: an unusable pair is replaced by one
    the builder accepts. *)
Lemma router_builds `{!GovernorLaws _} debug settings :
  is_Some (router handle missing_extension (Nonces := Nonces) (Limiter := Limiter) debug settings).
Proof.
  assert (∀ p b, is_Some (build_config p b)) as Hb.
  { intros p b. unfold build_config. destruct (gov_finish p b); [done|].
    by apply gov_finish_positive. }
  unfold router, RateLimitLayers_new.
  destruct (Hb (global_per_second (ss_rate_limit settings)) (global_burst (ss_rate_limit settings))) as [? ->].
  destruct (Hb (health_per_second (ss_rate_limit settings)) (health_burst (ss_rate_limit settings))) as [? ->].
  destruct (Hb (auth_per_second (ss_rate_limit settings)) (auth_burst (ss_rate_limit settings))) as [? ->].
  done.
Qed.

Lemma overriding_all `{!SetHeaderLaws _} (l : list (string * string)) n v h :
  NoDup (to_ascii_lowercase ∘ fst <$> l) → (n, v) ∈ l →
  hm_get (foldr (λ nv h, overriding nv.1 (str_bytes nv.2) h) h l) n = Some (str_bytes v).
Proof.
  induction l as [|[m w] l IH]; [set_solver|]. cbn [fmap list_fmap foldr fst snd compose].
  rewrite NoDup_cons, elem_of_cons. intros [Hm Hd] [[= <- <-]|Hin].
  - apply overriding_same.
  - rewrite overriding_other; [by apply IH|]. intros E. apply Hm.
    apply list_elem_of_fmap. exists (n, v). split; [by rewrite <- E|done].
Qed.

(** Every response but the answer to a preflight carries the four
    security headers, whatever the request, the connection and the outcome:
    handlers' answers, errors, refusals of the limiters and unknown paths. *)
Theorem responses_carry_security_headers `{!SetHeaderLaws _} `{!CorsLaws _}
    debug settings app clk req ext st n v :
  router handle missing_extension debug settings = Some app →
  (n, v) ∈ security_headers → req_method req ≠ "OPTIONS"%string →
  hm_get (rs_headers (app clk req ext st).1) n = Some (str_bytes v).
Proof.
  unfold router. destruct (RateLimitLayers_new _) as [layers|]; [|done]. intros [= <-] Hin Ho.
  rewrite http_logger_logged. unfold cors_layer.
  assert (req_method (logged debug req) ≠ "OPTIONS"%string) as Ho' by by destruct debug.
  destruct (cors_preflight _ _) eqn:Hc; [by apply cors_preflight_options in Hc|].
  unfold create_security_headers_layer. destruct (rate_limit_layer _ _ _ _ _ _ _) as [r st'].
  cbn [fst with_headers rs_headers].
  assert (starts_with "access-control-" (to_ascii_lowercase n) = false ∧
    to_ascii_lowercase n ≠ "vary"%string) as [Hn1 Hn2].
  { unfold security_headers in Hin. rewrite !elem_of_cons in Hin.
    destruct Hin as [[= -> ->]|[[= -> ->]|[[= -> ->]|[[= -> ->]|[]%not_elem_of_nil]]]]; done. }
  rewrite cors_headers_other by done. apply overriding_all; [|done].
  apply (bool_decide_unpack _). vm_compute. exact I.
Qed.

End stack_properties.

(** ** CORS, health and shutdown *)

(** The CORS layer allows exactly the configured origins when they are
    usable: if every configured origin is a header value and a list is not
    empty, the layer allows an origin exactly when the configuration does; if
    no configured origin is usable, which includes the empty list, it allows
    every origin. *)
Theorem cors_origins_allowed `{HttpLaws} cors :
  (Forall (λ o, visible_ascii o = true) (AllowedOrigins_to_vec (allowed_origin cors)) →
   AllowedOrigins_to_vec (allowed_origin cors) ≠ [] →
   ∀ origin, origin_allowed (cl_origin (create_cors_layer cors)) (str_bytes origin) =
     is_allowed (allowed_origin cors) origin) ∧
  (Forall (λ o, header_from_str o = None) (AllowedOrigins_to_vec (allowed_origin cors)) →
   ∀ origin, origin_allowed (cl_origin (create_cors_layer cors)) origin = true).
Proof.
  destruct cors as [[|s|l] methods age]; cbn [allowed_origin AllowedOrigins_to_vec].
  - done.
  - split.
    2: { intros Hs origin. rewrite Forall_singleton in Hs. unfold create_cors_layer. cbn [allowed_origin cl_origin].
      by rewrite Hs. }
    intros Hs _ origin. rewrite Forall_singleton in Hs. unfold create_cors_layer. cbn [allowed_origin cl_origin].
    rewrite header_from_str_visible by done. cbn [origin_allowed is_allowed].
    destruct (String.eqb_spec s origin) as [->|Hne]; [by rewrite bool_decide_eq_true_2|].
    apply bool_decide_eq_false_2. by intros ?%(inj str_bytes).
  - unfold create_cors_layer. cbn [allowed_origin cl_origin is_allowed]. split.
    + intros Hl Hne origin.
      assert (omap header_from_str l = str_bytes <$> l) as ->.
      { induction Hl as [|o l Ho _ IH]; [done|]. cbn. rewrite header_from_str_visible by done.
        destruct l; [done|]. by rewrite IH. }
      destruct l as [|o l]; [done|]. cbn [fmap list_fmap origin_allowed].
      rewrite <- fmap_cons.
      apply eq_true_iff_eq. rewrite bool_decide_eq_true, list_elem_of_fmap, existsb_exists.
      setoid_rewrite String.eqb_eq. split.
      * intros (y & Hy%(inj str_bytes) & Hin). exists y. by rewrite <- list_elem_of_In.
      * intros (y & Hin & ->). exists origin. by rewrite list_elem_of_In.
    + intros Hl origin. assert (omap header_from_str l = []) as ->; [|done].
      induction Hl as [|o l Ho _ IH]; [done|]. cbn. by rewrite Ho.
Qed.

(** The service is healthy exactly when the database answers in time and
    Redis does, or is switched off. *)
Lemma health_ok_iff {A B} enabled (db : timed A) (redis : option (timed B)) :
  (health enabled db redis).1 = 200 ↔
  check_ok db = true ∧
  match redis with Some r => check_ok r = true | None => enabled = false end.
Proof.
  unfold health. destruct (check_ok db), redis as [r|]; [destruct (check_ok r)|destruct enabled| |];
    repeat case_match; naive_solver.
Qed.

(** A Ctrl+C handler that cannot be installed shuts the server down at once;
    the listener goes on accepting for the whole grace period. *)
Lemma missing_handler_shuts_down now timeout terminate :
  ∃ s, shutdown_signal now timeout NotInstalled terminate = Some s ∧
    token_cancelled s ≤ now ∧ accepting_until s = token_cancelled s + from_secs timeout.
Proof.
  unfold shutdown_signal. destruct terminate as [|[t|]]; cbn; eexists; split; try done; cbn; lia.
Qed.

(** ** The debug log *)

Definition nl : string := String (ascii_of_nat 10) EmptyString.
Definition frame : string := nl +s+ " │   ".

(** [serde_json::from_slice] followed by [to_string_pretty], and
    [String::from_utf8_lossy]. *)
Class DebugText := {
  json_pretty : list byte → option (result string string);
  from_utf8_lossy : list byte → string }.

(** [{:<20}] of an ASCII text. *)
Definition pad_right (n : nat) (s : string) : string :=
  s +s+ String.string_of_list_ascii (replicate (n - String.length s) " "%char).

Section debug_log.
  Context `{DebugText} `{HttpLib}.

Definition format_body_for_debug (body_bytes : list byte) : string :=
  match body_bytes with
  | [] => frame +s+ "<EMPTY>"
  | _ =>
    match json_pretty body_bytes with
    | Some (Ok pretty) => String.concat EmptyString ((λ line, frame +s+ line) <$> str_lines pretty)
    | Some (Err _) => frame +s+ from_utf8_lossy body_bytes
    | None => frame +s+ replace_char (ascii_of_nat 10) frame (from_utf8_lossy body_bytes)
    end
  end.

Definition format_debug_header (nv : string * list byte) : string :=
  nl +s+ " │   ├── " +s+ pad_right 20 nv.1 +s+ " : " +s+
  default "<BINARY_DATA>"%string (header_to_str nv.2).

Definition format_debug_request (method uri : string) (headers : HeaderMap)
    (body_bytes : list byte) : string :=
  let headers_formatted :=
    match headers with
    | [] => frame +s+ "<NONE>"
    | _ => String.concat EmptyString (format_debug_header <$> headers)
    end in
  nl +s+ "┌── 🚀 [HTTP DEBUG INCOMING REQUEST] ──────────────────────────────────────────" +s+
  nl +s+ "│ 📌 Endpoint : " +s+ method +s+ " " +s+ uri +s+
  nl +s+ "│ 📋 Headers  :" +s+ headers_formatted +s+
  nl +s+ "│ 📦 Payload  :" +s+ format_body_for_debug body_bytes +s+
  nl +s+ "└──────────────────────────────────────────────────────────────────────────────".

End debug_log.

(** Every line after the first starts with the frame. *)
Fixpoint framed (s : string) : bool :=
  match s with
  | EmptyString => true
  | String c s =>
    (if Ascii.eqb c (ascii_of_nat 10) then starts_with " │   " s else true) && framed s
  end.

(** No line feed. *)
Definition one_line (s : string) : Prop := ascii_of_nat 10 ∉ chars s.

Lemma framed_one_line s rest : one_line s → framed (s +s+ rest) = framed rest.
Proof.
  unfold one_line. induction s as [|c s IH]; [done|].
  change (chars (String c s)) with (c :: chars s). rewrite not_elem_of_cons. intros [Hc Hn].
  rewrite str_app_cons. cbn [framed]. rewrite (proj2 (Ascii.eqb_neq c _)) by done. by apply IH.
Qed.

Lemma framed_frame rest : framed (frame +s+ rest) = framed rest.
Proof.
  change (framed (frame +s+ rest)) with
    (starts_with " │   " (" │   " +s+ rest) && framed (" │   " +s+ rest)).
  rewrite starts_with_app. reflexivity.
Qed.

Lemma strip_cr_subset l : strip_cr l ⊆ l.
Proof. destruct l as [|c l]; [done|]. cbn [strip_cr]. case_match; set_solver. Qed.

Lemma chars_of_list l : chars (String.string_of_list_ascii l) = l.
Proof. apply String.list_ascii_of_string_of_list_ascii. Qed.

Lemma lines_go_one_line l : ∀ cur,
  ascii_of_nat 10 ∉ cur → Forall one_line (lines_go cur l).
Proof.
  induction l as [|c l IH]; intros cur Hc; cbn [lines_go].
  - destruct cur; constructor; [|constructor]. unfold one_line. rewrite chars_of_list. set_solver.
  - destruct (Ascii.eqb_spec c (ascii_of_nat 10)) as [_|Hne]; [|apply IH; set_solver].
    constructor; [|apply IH; set_solver]. unfold one_line. rewrite chars_of_list.
    pose proof (strip_cr_subset cur). set_solver.
Qed.

Lemma framed_lines (ls : list string) :
  Forall one_line ls → framed (String.concat EmptyString ((λ line, frame +s+ line) <$> ls)) = true.
Proof.
  assert (∀ l : list string, String.concat EmptyString l = foldr String.append EmptyString l) as Hcat.
  { intros l. induction l as [|x [|y l] IH]; [done|by rewrite <- (str_app_nil_r x) at 1|].
    change (x +s+ String.concat EmptyString (y :: l) = x +s+ foldr String.append EmptyString (y :: l)).
    by rewrite IH. }
  rewrite Hcat. induction 1 as [|l ls Hl _ IH]; [done|]. cbn [fmap list_fmap foldr].
  by rewrite str_app_assoc, framed_frame, framed_one_line.
Qed.

Lemma framed_replace s : framed (replace_char (ascii_of_nat 10) frame s) = true.
Proof.
  induction s as [|c s IH]; [done|]. cbn [replace_char].
  destruct (Ascii.eqb_spec c (ascii_of_nat 10)) as [_|Hne]; [by rewrite framed_frame|].
  cbn [framed]. by rewrite (proj2 (Ascii.eqb_neq c _) Hne), IH.
Qed.

(** A body cannot start a line of its own in the debug log, if a parsed JSON
    value can be printed. *)
Lemma debug_body_framed `{DebugText} body :
  (∀ e, json_pretty body ≠ Some (Err e)) → framed (format_body_for_debug body) = true.
Proof.
  intros Hj. unfold format_body_for_debug. destruct body as [|b body]; [done|].
  destruct (json_pretty (b :: body)) as [[pretty|e]|] eqn:E; [|by destruct (Hj e)|].
  - apply framed_lines, lines_go_one_line. set_solver.
  - rewrite framed_frame. apply framed_replace.
Qed.

(** ** A concrete server *)

Lemma hm_get_insert_same h n v : hm_get (hm_insert h (to_ascii_lowercase n) v) n = Some v.
Proof.
  unfold hm_insert, HeaderMap in *. induction h as [|[m w] h IH].
  - cbn. by rewrite decide_True.
  - rewrite filter_cons. cbn [fst]. case_decide as Hm; cbn [app hm_get]; [|exact IH].
    by rewrite decide_False.
Qed.

Lemma hm_get_insert_other h n v m :
  to_ascii_lowercase m ≠ n → hm_get (hm_insert h n v) m = hm_get h m.
Proof.
  intros Hm. unfold hm_insert, HeaderMap in *. induction h as [|[k w] h IH].
  - cbn. by rewrite decide_False.
  - rewrite filter_cons. cbn [fst]. case_decide as Hk; cbn [app hm_get]; [by rewrite IH|].
    rewrite IH, decide_False; [done|congruence].
Qed.

Module ConcreteServer.

#[export] Instance prefix_matcher : RouteMatcher := {
  match_route p path :=
    if decide (static_prefix p = p) then if decide (p = path) then Some [] else None
    else if starts_with (static_prefix p) path then Some [("rest"%string, path)] else None }.
#[export] Instance prefix_matcher_laws : RouteMatcherLaws prefix_matcher.
Proof.
  split; cbn [match_route prefix_matcher].
  - intros p path ->. by rewrite decide_True.
  - intros p path ps. destruct (decide (static_prefix p = p)) as [E|]; [|by case_match].
    case_decide as Hp; [|done]. intros _. rewrite E, <- Hp.
    rewrite <- (str_app_nil_r p) at 2. apply starts_with_app.
Qed.

#[export] Instance insert_header : SetHeader := {
  overriding n v h := hm_insert h (to_ascii_lowercase n) v }.
#[export] Instance insert_header_laws : SetHeaderLaws insert_header.
Proof.
  split; cbn [overriding insert_header].
  - intros n v h. apply hm_get_insert_same.
  - intros n v h m Hm. by apply hm_get_insert_other.
Qed.

(** A CORS layer that answers [OPTIONS] itself. *)
#[export] Instance vary_cors : CorsService := {
  cors_preflight l req :=
    if String.eqb (req_method req) "OPTIONS" then Some (MkResponse 200 [] NoBody) else None;
  cors_headers l req h := hm_insert h "vary" (str_bytes "origin") }.
#[export] Instance vary_cors_laws : CorsLaws vary_cors.
Proof.
  split; cbn [cors_preflight cors_headers vary_cors].
  - intros l req r. by destruct (String.eqb_spec (req_method req) "OPTIONS").
  - intros l req h n _ Hn. by apply hm_get_insert_other.
Qed.

#[export] Instance open_governor : Governor := {
  GovConfig := Z * Z;
  gov_finish p b := if (0 <? p) && (0 <? b) then Some (p, b) else None;
  GovState := unit;
  gov_call t c g now req peer := (inr [], ()) }.
#[export] Instance open_governor_laws : GovernorLaws open_governor.
Proof.
  split. intros p b Hp Hb. cbn [gov_finish open_governor].
  by rewrite !(proj2 (Z.ltb_lt _ _)) by done.
Qed.

End ConcreteServer.

Section ServerWitnesses.
  Import Concrete ConcreteAuth ConcreteServer.
  #[local] Existing Instances Protobuf.no_utf8_text Identity.section_pem Identity.demo_webpki
    Identity.demo_pkcs8 Identity.demo_agent.

(** An application that lists the handlers it ran. *)
Definition demo_handle (e : Endpoint) (caller : option ServiceId)
    (params : list (string * string)) (req : Request) (app : list (Endpoint * option ServiceId)) :
    Response * list (Endpoint * option ServiceId) :=
  (MkResponse 200 [] NoBody, app ++ [(e, caller)]).

Definition demo_server : ServerSettings :=
  MkServerSettings demo_settings (MkRateLimitConfig 1 10 1 10 1 10)
    (MkCorsConfig (SingleOrigin "https://ui") [MGet; MPost] 60) false.
Definition demo_state : ServerState :=
  MkServerState (∅ : gmap string (list Z)) InMemoryNonceStore_new (tt : GovState)
    ([] : list (Endpoint * option ServiceId)).
Definition demo_app : Service :=
  default (λ _ _ _ st, (MkResponse 0 [] NoBody, st))
    (router demo_handle "missing" (Nonces := InMemoryNonceStore) (Limiter := gmap string (list Z))
      true demo_server).
Definition signed (path : string) : Request :=
  MkRequest "POST" path
    (match build_signed_request_headers_with_body demo_cfg "POST" path (Some [Byte.x41])
             1700000000 "n1" with Ok h => h | Err _ => [] end) (Some [Byte.x41]).

Lemma handler_runs_authenticated_witness :
  sv_app (plain_request demo_app "10.0.0.1" (demo_clock 5) (signed "/api/v1/keys/generate") demo_state).2
    = [(EpGenerateKey, Some "svc"%string)] ∧
  served demo_handle demo_server (demo_clock 5) "10.0.0.1" (logged true (signed "/api/v1/keys/generate"))
    demo_state [] [(EpGenerateKey, Some "svc"%string)].
Proof.
  assert (sv_app (plain_request demo_app "10.0.0.1" (demo_clock 5) (signed "/api/v1/keys/generate")
    demo_state).2 = [(EpGenerateKey, Some "svc"%string)]) as E by (vm_compute; reflexivity).
  split; [exact E|]. rewrite <- E.
  apply (handler_runs_authenticated demo_handle "missing" true demo_server demo_app (demo_clock 5)).
  reflexivity.
Defined.

(** A peer with the right identity posts a signed request. *)
Definition demo_mtls : list MtlsEvent :=
  [Accepted (Ok ()); Handshake 1 (Ok (Some [der_to_pem [Byte.x30] "CERTIFICATE"]));
   Arrives 1 (demo_clock 5) (signed "/api/v1/keys/generate"); ShutdownComplete].

Definition demo_mtls_state : MtlsState := MkMtlsState ∅ None demo_state.

Lemma mtls_requests_fail_witness :
  rs_status <$> (serve_mtls_with_config (spiffe_provider_from_settings demo_spiffe) demo_app
    demo_mtls demo_mtls_state).1 = [500] ∧
  ms_server (serve_mtls_with_config (spiffe_provider_from_settings demo_spiffe) demo_app
    demo_mtls demo_mtls_state).2 = demo_state.
Proof.
  split; [vm_compute; reflexivity|].
  pose proof (mtls_requests_fail demo_handle "missing" true demo_server demo_app
    (spiffe_provider_from_settings demo_spiffe) demo_mtls demo_mtls_state eq_refl) as Hm.
  destruct (serve_mtls_with_config _ demo_app demo_mtls demo_mtls_state) as [rs ms].
  apply Hm.
Defined.

Lemma responses_carry_security_headers_witness :
  hm_get (rs_headers (demo_app (demo_clock 5) (signed "/no/such/path")
    (MkExtensions None None None) demo_state).1) "x-frame-options" = Some (str_bytes "DENY").
Proof.
  apply (responses_carry_security_headers demo_handle "missing" true demo_server demo_app).
  - reflexivity.
  - unfold security_headers. rewrite !elem_of_cons. right. left. reflexivity.
  - discriminate.
Defined.

Lemma cors_origins_allowed_witness :
  origin_allowed (cl_origin (create_cors_layer (ss_cors demo_server))) (str_bytes "https://ui") = true ∧
  origin_allowed (cl_origin (create_cors_layer (ss_cors demo_server))) (str_bytes "https://x") = false ∧
  origin_allowed (cl_origin (create_cors_layer (MkCorsConfig (ListOrigins []) [] 0)))
    (str_bytes "https://x") = true.
Proof.
  split; [|split].
  - rewrite (proj1 (cors_origins_allowed (ss_cors demo_server)));
      [reflexivity|constructor; [reflexivity|constructor]|discriminate].
  - rewrite (proj1 (cors_origins_allowed (ss_cors demo_server)));
      [reflexivity|constructor; [reflexivity|constructor]|discriminate].
  - apply (proj2 (cors_origins_allowed (MkCorsConfig (ListOrigins []) [] 0))). constructor.
Defined.

End ServerWitnesses.
