(* ===== verification/CliCommands.v ===== *)
(** * The commands of the ceremony CLI that call the service

    [kms-ceremony-cli/src/main.rs], [cli/args.rs] and the commands of
    [cli/ca_init.rs], [cli/ca_load.rs], [cli/import_bootstrap.rs] and
    [cli/verify_audit.rs], over the signing of [Security] and the vHSM client
    of [Protocol].  A command runs against a service with a state of its own;
    the environment, what is typed, the clock and the nonces are arguments. *)

From Stdlib Require Import Ascii.
From S2P Require Import Prelude.
From S2P Require Import Interfaces.
From S2P Require Import Protocol.
From S2P Require Import Domain.
From S2P Require Import Acl.
From S2P Require Import AuditLog.
From S2P Require Import AuditChain.
From S2P Require Import RateLimit.
From S2P Require Import RedisLimiter.
From S2P Require Import Security.
From S2P Require Import DataUseCases.
From S2P Require Import Ceremony.
From S2P Require Import Server.

(** ** Configuration *)

Section config.
  Context (env : string → option string).

Definition resolve_cli_config (service_url : option string) : result CliConfig string :=
  let service_id := default "kms-cli"%string (env "KMS_CLI__SERVICE_ID") in
  let? secret :=
    match env "KMS_CLI__SECRET" with
    | Some s => Ok s
    | None => Err "KMS_CLI__SECRET is required for authenticated HTTP calls"%string
    end in
  let service_url :=
    default "http://localhost:8081"%string
      (match service_url with Some u => Some u | None => env "KMS_CLI__SERVICE_URL" end) in
  Ok (MkCliConfig service_id secret service_url).

(** The configuration of the CA commands, which expects the secret. *)
Definition ca_cli_config (service_url service_id secret : option string) : outcome CliConfig :=
  let or_env o name := match o with Some v => Some v | None => env name end in
  match or_env secret "KMS_CLI__SECRET"%string with
  | None => Panics UnwrapNone
  | Some secret =>
    Interfaces.Value (MkCliConfig
      (default "kms-cli"%string (or_env service_id "KMS_CLI__SERVICE_ID"%string)) secret
      (default "http://127.0.0.1:8080"%string (or_env service_url "KMS_CLI__SERVICE_URL"%string)))
  end.

End config.

(** ** Requests to the service *)

Record HttpCall := MkHttpCall {
  hc_method : string;
  hc_url : string;
  hc_headers : HeaderMap;
  hc_body : option (list byte) }.

(** The status and the body of an answer; [None] when the body is not read to
    its end. *)
Record HttpAnswer := MkHttpAnswer {
  ha_status : Z;
  ha_body : option (list byte) }.

(** [reqwest::Client::execute] over the state [S] of the service. *)
Class HttpClient (S : Type) := { execute : HttpCall → S → result HttpAnswer string * S }.

(** [serde_json] on the types of the CLI, and [reqwest::Url]: a base with a
    path and query pairs. *)
Record CliVerifyReport := MkCliVerifyReport {
  cv_ok : bool; cv_ok_count : Z; cv_errors : list string }.

Record CliTargetResource := MkCliTargetResource {
  ct_id : option Z;
  ct_target_name : string;
  ct_target_type : string;
  ct_connection_url : string;
  ct_default_role : option string }.

Record CliCredential := MkCliCredential {
  cc_id : option Z;
  cc_service_id : string;
  cc_target_type : string;
  cc_target_db : string;
  cc_resource : option string;
  cc_username : string;
  cc_password : string;
  cc_ttl_seconds : option Z }.

Record BootstrapFile := MkBootstrapFile {
  bo_version : Z;
  bo_target_resources : list CliTargetResource;
  bo_credentials : list CliCredential }.

Record ImportBootstrapResponse := MkImportBootstrapResponse {
  ir_total_in_file : Z;
  ir_resources_imported : Z;
  ir_resources_skipped : Z;
  ir_credentials_imported : Z;
  ir_credentials_skipped : Z;
  ir_message : string }.

Record CaInitManifest := MkCaInitManifest {
  cm_operation : string;
  cm_ca_tag : string;
  cm_algorithm : string;
  cm_public_key_b64 : string;
  cm_encrypted_private_key_b64 : string;
  cm_certificate_pem : string;
  cm_serial : string;
  cm_status : string;
  cm_expires_at : option Z }.

Class CliCodec := {
  manifest_to_vec : CaInitManifest → result (list byte) string;
  value_to_vec : AuditLog.Value → result (list byte) string;
  bootstrap_from_slice : list byte → result BootstrapFile string;
  payload_to_json : BootstrapFile → result (list byte) string;
  report_from_body : list byte → result CliVerifyReport string;
  import_response_from_body : list byte → result ImportBootstrapResponse string;
  url_with_query : string → string → list (string * string) → result string string;
  (** [Display] of a [StatusCode] *)
  status_display : Z → string }.

Definition is_success (status : Z) : bool := (200 <=? status) && (status <? 300).

(** What a command prints, and how it ends. *)
Record CliRun := MkCliRun { cli_out : list string; cli_end : outcome (result unit string) }.

Definition cli_ok (out : list string) : CliRun := MkCliRun out (Interfaces.Value (Ok ())).
Definition cli_err (out : list string) (e : string) : CliRun := MkCliRun out (Interfaces.Value (Err e)).

Section commands.
  Context `{Sha256} `{Hex} `{HmacLib} `{HttpLib} `{Base64} `{CliCodec}.
  Context `{Hcodec : HsmCodec} `{Hnet : Network} `{Argon2Lib} `{Aead}.
  Context {S : Type} `{HttpClient S}.
  Context (env : string → option string).

(** [resp.text().await.unwrap_or_default()] *)
Definition answer_text (a : HttpAnswer) : string :=
  from_option str_of_bytes EmptyString (ha_body a).

Definition service_url_for (cfg : CliConfig) (path : string) : string :=
  trim_end_matches "/"%char (cli_service_url cfg) +s+ path.

(** The signed POST the commands end with: its answer when the status is a
    success, the error otherwise. *)
Definition post_signed (cfg : CliConfig) (path : string) (body : list byte) (timestamp : Z)
    (nonce refused : string) (s : S) : result HttpAnswer string * S :=
  match build_signed_request_headers_with_body cfg "POST" path (Some body) timestamp nonce with
  | Err e => (Err e, s)
  | Ok headers =>
    match execute (MkHttpCall "POST" (service_url_for cfg path) headers (Some body)) s with
    | (Err e, s) => (Err e, s)
    | (Ok resp, s) =>
      if negb (is_success (ha_status resp)) then (Err (refused +s+ answer_text resp), s)
      else (Ok resp, s)
    end
  end.

(** *** ca_init.rs *)

(** [serial], [now], [timestamp] and [nonce] are what the command draws from
    the generator and the clock. *)
Definition handle_ca_init (socket_path ca_tag : string)
    (service_url service_id secret : option string) (serial nonce : string)
    (now timestamp : Z) (s : S) : CliRun * S :=
  match generate_root_ca_via_hsm socket_path "ECDSA_P256" None with
  | Err e => (cli_err [] (HsmClientError_display e), s)
  | Ok (encrypted_private_key, public_key, _, algorithm, certificate_pem) =>
    match certificate_pem with
    | None => (cli_err [] "vHSM did not return certificate PEM", s)
    | Some cert_pem =>
      let manifest := {|
        cm_operation := "ca_init"; cm_ca_tag := ca_tag; cm_algorithm := algorithm;
        cm_public_key_b64 := b64_encode public_key;
        cm_encrypted_private_key_b64 := b64_encode encrypted_private_key;
        cm_certificate_pem := cert_pem; cm_serial := serial; cm_status := "ACTIVE";
        cm_expires_at := Some (now + from_secs (365 * 20 * 86400)) |} in
      let out :=
        if decide (env "KMS_CLI__PRINT_BLOB"%string = Some "1"%string)
        then [cm_encrypted_private_key_b64 manifest] else [] in
      match ca_cli_config env service_url service_id secret with
      | Panics w => (MkCliRun out (Panics w), s)
      | Aborts => (MkCliRun out Aborts, s)
      | Interfaces.Value cfg =>
        match manifest_to_vec manifest with
        | Err e => (cli_err out e, s)
        | Ok body =>
          match post_signed cfg "/api/v1/ca/init" body timestamp nonce
                  "kms-service returned error: " s with
          | (Err e, s) => (cli_err out e, s)
          | (Ok _, s) =>
            (cli_ok (out ++ ["Root CA '" +s+ ca_tag +s+ "' initialized (serial=" +s+ serial
                             +s+ ")."]), s)
          end
        end
      end
    end
  end.

(** *** ca_load.rs *)

Definition ca_load_manifest (ca_tag : string) (encrypted : option (list byte)) : AuditLog.Value :=
  VObject (btree_of_list
    ([("operation", VString "ca_load"); ("ca_tag", VString ca_tag)]%string ++
     from_option (λ e, [("encrypted_private_key_b64"%string, VString (b64_encode e))]) [] encrypted)).

(** The request both branches send. *)
Definition ca_load_post (ca_tag : string) (encrypted : option (list byte))
    (service_url service_id secret : option string) (nonce : string) (timestamp : Z) (s : S) :
    CliRun * S :=
  match ca_cli_config env service_url service_id secret with
  | Panics w => (MkCliRun [] (Panics w), s)
  | Aborts => (MkCliRun [] Aborts, s)
  | Interfaces.Value cfg =>
    match value_to_vec (ca_load_manifest ca_tag encrypted) with
    | Err e => (cli_err [] e, s)
    | Ok body =>
      match post_signed cfg "/api/v1/ca/load" body timestamp nonce
              "kms-service returned error: " s with
      | (Err e, s) => (cli_err [] e, s)
      | (Ok _, s) => (cli_ok ["CA '" +s+ ca_tag +s+ "' loaded into vHSM"], s)
      end
    end
  end.

Definition handle_ca_load (socket_path ca_tag : string) (encrypted_b64 : option string)
    (service_url service_id secret : option string) (nonce : string) (timestamp : Z) (s : S) :
    CliRun * S :=
  match encrypted_b64 with
  | Some b64 =>
    match b64_decode b64 with
    | Err e => (cli_err [] e, s)
    | Ok encrypted =>
      match load_root_ca_via_hsm socket_path ca_tag encrypted None with
      | Err e => (cli_err [] (HsmClientError_display e), s)
      | Ok _ => ca_load_post ca_tag (Some encrypted) service_url service_id secret nonce timestamp s
      end
    end
  | None => ca_load_post ca_tag None service_url service_id secret nonce timestamp s
  end.

(** *** import_bootstrap.rs *)

Definition MAX_FILE_SIZE : Z := 5 * 1024 * 1024.
Definition MAX_CREDENTIALS : Z := 1000.
Definition MAX_FIELD_LEN : Z := 1024.

(** [str::len] counts bytes. *)
Definition field_len (s : string) : Z := Z.of_nat (String.length s).

Definition check_target (target : CliTargetResource) : result unit string :=
  if is_empty (ct_target_name target) || is_empty (ct_target_type target)
     || is_empty (ct_connection_url target)
  then Err "Missing required fields in target resource record"%string
  else Ok ().

Definition check_credential (rec : CliCredential) : result unit string :=
  if is_empty (cc_service_id rec) || is_empty (cc_target_type rec) || is_empty (cc_target_db rec)
     || is_empty (cc_username rec) || is_empty (cc_password rec)
  then Err "Missing required fields in credential record"%string
  else if (MAX_FIELD_LEN <? field_len (cc_service_id rec))
     || (MAX_FIELD_LEN <? field_len (cc_target_type rec))
     || (MAX_FIELD_LEN <? field_len (cc_target_db rec))
     || (MAX_FIELD_LEN <? field_len (cc_username rec))
     || (MAX_FIELD_LEN * 4 <? field_len (cc_password rec))
  then Err "Field too long in credential record"%string
  else Ok ().

(** A loop that ends at the first error. *)
Fixpoint check_all {A} (check : A → result unit string) (l : list A) : result unit string :=
  match l with
  | [] => Ok ()
  | x :: l => let? _ := check x in check_all check l
  end.

Definition validate_bootstrap (bootstrap : BootstrapFile) : result unit string :=
  if negb (bo_version bootstrap =? 1) then
    Err ("Unsupported bootstrap file version: " +s+ pretty (bo_version bootstrap))
  else if (length (bo_credentials bootstrap) =? 0)%nat
       && (length (bo_target_resources bootstrap) =? 0)%nat then
    Err "No credentials nor target resources in bootstrap file"%string
  else if MAX_CREDENTIALS <? Z.of_nat (length (bo_credentials bootstrap)) then
    Err "Too many credentials in file"%string
  else
    let? _ := check_all check_target (bo_target_resources bootstrap) in
    check_all check_credential (bo_credentials bootstrap).

(** The file on disk and what is typed. *)
Record BootstrapInput := MkBootstrapInput {
  (** is it a regular file, and its length *)
  bi_stat : result (bool * Z) string;
  bi_content : result (list byte) string;
  bi_passphrase : result string string;
  bi_name : string }.

Definition read_bootstrap (input : BootstrapInput) : result BootstrapFile string :=
  let? meta := map_err (λ e, "Cannot stat file: " +s+ e) (bi_stat input) in
  if negb meta.1 then Err ("Not a regular file: " +s+ bi_name input)
  else if MAX_FILE_SIZE <? meta.2 then
    Err ("File too large (>5MiB): " +s+ pretty meta.2 +s+ " bytes")
  else
    let? content_bytes := map_err (λ e, "Failed to read file: " +s+ e) (bi_content input) in
    let? pass := map_err (λ e, "Failed to read passphrase: " +s+ e) (bi_passphrase input) in
    let? plaintext := map_err (λ e, "bootstrap file authentication failed: " +s+ e)
                        (decrypt_bytes_with_argon2_raw pass content_bytes) in
    let? bootstrap := map_err (λ e, "Invalid bootstrap JSON payload: " +s+ e)
                        (bootstrap_from_slice plaintext) in
    let? _ := validate_bootstrap bootstrap in
    Ok bootstrap.

Definition import_summary_line (summary : ImportBootstrapResponse) : string :=
  "Wczytano zasoby: " +s+ pretty (ir_resources_imported summary) +s+ " nowe, "
  +s+ pretty (ir_resources_skipped summary) +s+ " pominięte; poświadczenia: "
  +s+ pretty (ir_credentials_imported summary) +s+ " nowe, "
  +s+ pretty (ir_credentials_skipped summary) +s+ " pominięte (łącznie w pliku: "
  +s+ pretty (ir_total_in_file summary) +s+ ")".

(** [resp.json()] *)
Definition json_answer {X} (decode : list byte → result X string) (context : string)
    (a : HttpAnswer) : result X string :=
  match ha_body a with
  | None => Err context
  | Some body => map_err (λ e, context +s+ ": " +s+ e) (decode body)
  end.

Definition handle_import_bootstrap (input : BootstrapInput) (service_url : option string)
    (nonce : string) (timestamp : Z) (s : S) : CliRun * S :=
  let prepared :=
    let? bootstrap := read_bootstrap input in
    let? cfg := resolve_cli_config env service_url in
    let? request_body := map_err (λ e, "Failed to serialize bootstrap payload: " +s+ e)
                           (payload_to_json bootstrap) in
    Ok (cfg, request_body) in
  match prepared with
  | Err e => (cli_err [] e, s)
  | Ok (cfg, request_body) =>
    match post_signed cfg "/api/v1/admin/bootstrap/import" request_body timestamp nonce
            "KMS import failed: " s with
    | (Err e, s) => (cli_err [] e, s)
    | (Ok resp, s) =>
      match json_answer import_response_from_body "Failed to parse bootstrap import response" resp with
      | Err e => (cli_err [] e, s)
      | Ok summary => (cli_ok [import_summary_line summary; ir_message summary], s)
      end
    end
  end.

(** *** verify_audit.rs *)

Definition verify_query (limit : option Z) (full : bool) : list (string * string) :=
  from_option (λ n, [("limit"%string, pretty n)]) [] limit
  ++ (if full then [("full"%string, "true"%string)] else []).

Definition handle_verify_audit (service_url : option string) (limit : option Z) (full : bool)
    (nonce : string) (timestamp : Z) (s : S) : CliRun * S :=
  let prepared :=
    let? cfg := resolve_cli_config env service_url in
    let? url := map_err (λ e, "Invalid service URL: " +s+ e)
                  (url_with_query (cli_service_url cfg) "/api/v1/audit/verify"
                     (verify_query limit full)) in
    let? headers := build_signed_request_headers cfg "GET" "/api/v1/audit/verify" timestamp nonce in
    Ok (url, headers) in
  match prepared with
  | Err e => (cli_err [] e, s)
  | Ok (url, headers) =>
    match execute (MkHttpCall "GET" url headers None) s with
    | (Err e, s) => (cli_err [] e, s)
    | (Ok resp, s) =>
      if is_success (ha_status resp) then
        match json_answer report_from_body "Failed to parse JSON response from service" resp with
        | Err e => (cli_err [] e, s)
        | Ok rpt =>
          if cv_ok rpt then
            (cli_ok ["✅ Audit chain verified: " +s+ pretty (cv_ok_count rpt) +s+ " records OK"], s)
          else (cli_err [] "Audit chain verification failed", s)
        end
      else (cli_err [] ("Service returned " +s+ status_display (ha_status resp) +s+ ": "
                        +s+ answer_text resp), s)
    end
  end.

(** *** main.rs and args.rs *)

Inductive Commands :=
| Interactive (socket_path : string) (shares threshold : Z) (output_dir : string)
| Unseal (socket_path : string) (threshold : Z) (shares_dir : string) (share_files : list string)
| EncryptText (socket_path plaintext : string)
| DecryptHex (socket_path ciphertext_hex : string)
| VerifyAuditChain (service_url : option string) (limit : option Z) (full : bool)
| CaInit (socket_path ca_tag : string)
| CaLoad (socket_path ca_tag : string) (encrypted_b64 : option string)
| ImportBootstrap (file : string) (service_url : option string).

(** What the commands read besides their arguments: the ceremony's officers
    and directory, the source of the shares for the given directory and files,
    a bootstrap file, and the draws of a request. *)
Record CliInputs := MkCliInputs {
  in_mkdir : result unit string;
  in_officers : nat → Officer;
  in_shares : string → list string → UnsealInput;
  in_bootstrap : string → BootstrapInput;
  in_serial : string;
  in_nonce : string;
  in_now : Z;
  in_timestamp : Z }.

Context `{ShareCodec}.

(** The end of a command with one line of output. *)
Definition printed (r : result string string) : CliRun :=
  match r with Ok line => cli_ok [line] | Err e => cli_err [] e end.
Definition silent (r : result unit string) : CliRun :=
  match r with Ok _ => cli_ok [] | Err e => cli_err [] e end.

Definition cli_main (inputs : CliInputs) (command : Commands) (dir : gmap string string) (s : S) :
    CliRun * gmap string string * S :=
  match command with
  | Interactive socket_path shares threshold output_dir =>
    let (r, dir) := handle_interactive_ceremony socket_path shares threshold output_dir
                      (in_mkdir inputs) (in_officers inputs) dir in
    (silent r, dir, s)
  | Unseal socket_path threshold shares_dir share_files =>
    (silent (handle_unseal_hsm socket_path threshold (in_shares inputs shares_dir share_files)), dir, s)
  | EncryptText socket_path plaintext => (printed (cli_handle_encrypt socket_path plaintext), dir, s)
  | DecryptHex socket_path ciphertext_hex =>
    (printed (cli_handle_decrypt socket_path ciphertext_hex), dir, s)
  | VerifyAuditChain service_url limit full =>
    let (r, s) := handle_verify_audit service_url limit full (in_nonce inputs) (in_timestamp inputs) s in
    (r, dir, s)
  | ImportBootstrap file service_url =>
    let (r, s) := handle_import_bootstrap (in_bootstrap inputs file) service_url (in_nonce inputs)
                    (in_timestamp inputs) s in
    (r, dir, s)
  | CaInit socket_path ca_tag =>
    let (r, s) := handle_ca_init socket_path ca_tag (env "KMS_CLI__SERVICE_URL"%string)
                    (env "KMS_CLI__SERVICE_ID"%string) (env "KMS_CLI__SECRET"%string)
                    (in_serial inputs) (in_nonce inputs) (in_now inputs) (in_timestamp inputs) s in
    (r, dir, s)
  | CaLoad socket_path ca_tag encrypted_b64 =>
    let (r, s) := handle_ca_load socket_path ca_tag encrypted_b64 (env "KMS_CLI__SERVICE_URL"%string)
                    (env "KMS_CLI__SERVICE_ID"%string) (env "KMS_CLI__SECRET"%string)
                    (in_nonce inputs) (in_timestamp inputs) s in
    (r, dir, s)
  end.

End commands.

(** ** The commands against the server *)

(** A server reached over HTTP: the path of a URL, the headers the client adds
    to those of a call, and the clock at the request.  The body of an answer
    is rendered by the server. *)
Section service_client.
  Context {Nonces Limiter App : Type} `{Governor}.
  Context (app : Service (Nonces := Nonces) (Limiter := Limiter) (App := App)).
  Context (url_path : string → string) (client_headers : HeaderMap) (render : ResponseBody → list byte).
  Context (ip : string) (clk : Clock).

Definition sent_request (c : HttpCall) : Request :=
  MkRequest (hc_method c) (url_path (hc_url c)) (hc_headers c ++ client_headers)
    (Some (default [] (hc_body c))).

Definition service_client : HttpClient (ServerState (Nonces := Nonces) (Limiter := Limiter) (App := App)) := {|
  execute c st :=
    let (r, st) := plain_request app ip clk (sent_request c) st in
    (Ok (MkHttpAnswer (rs_status r) (Some (render (rs_body r)))), st) |}.

End service_client.

Lemma carries_sent (h extra : HeaderMap) req :
  req_headers req = h ++ extra → carries req h.
Proof.
  unfold carries. intros -> name v. induction h as [|[n w] h IH]; [done|]. cbn [app hm_get].
  case_decide; [done|exact IH].
Qed.

(** An error is never answered with a success. *)
Lemma error_response_fails e : is_success (rs_status (error_response e)) = false.
Proof. by destruct e. Qed.

Section cli_server.
  Context `{Sha256} `{!Hex, !HmacLib, !HttpLib, !ChronoParse}.
  Context `{!HexLaws _, !HmacLaws _, !HttpLaws _, !ChronoParseLaws _}.
  Context {Nonces : Type} `{!NonceStore Nonces} {Limiter : Type} `{!RateLimiter Limiter}.
  Context `{Governor} `{RouteMatcher} `{SetHeader} `{Hcors : CorsService} `{!CorsLaws Hcors}.
  Context {App : Type}.
  Context (handle : Endpoint → option ServiceId → list (string * string) → Request → App →
    Response * App) (missing_extension : string).
  Context `{CliCodec} (env : string → option string).
  Context (url_path : string → string) (client_headers : HeaderMap)
    (render : ResponseBody → list byte) (ip : string) (clk : Clock).
  Context (debug : bool) (settings : ServerSettings).
  Context (app : Service (Nonces := Nonces) (Limiter := Limiter) (App := App)).
  Hypothesis Happ : router handle missing_extension debug settings = Some app.
  Implicit Types (st : ServerState (Nonces := Nonces) (Limiter := Limiter) (App := App)).

#[local] Instance client : HttpClient (ServerState (Nonces := Nonces) (Limiter := Limiter) (App := App)) :=
  service_client app url_path client_headers render ip clk.

(** A request the security middleware refuses is not a success, whatever the
    rate limiter says. *)
Lemma refused_request_fails req st :
  req_method req ≠ "OPTIONS"%string →
  (∃ e nonces', hmac_security_middleware (ss_security settings) clk (logged debug req)
     (sv_nonces st) = (Respond e, nonces')) →
  is_success (rs_status (plain_request app ip clk req st).1) = false.
Proof.
  intros Ho (e & n & Hr). revert Happ. unfold router.
  destruct (RateLimitLayers_new _) as [layers|]; [|done]. intros [= <-].
  unfold plain_request. rewrite http_logger_logged. unfold cors_layer.
  assert (req_method (logged debug req) ≠ "OPTIONS"%string) as Ho' by by destruct debug.
  destruct (cors_preflight _ _) eqn:Hc; [by apply cors_preflight_options in Hc|].
  unfold create_security_headers_layer, rate_limit_layer. cbn [connect_info].
  destruct (redis_rate_limit_middleware _ _ _ _ _) as [[s|s h b|h] l] eqn:El.
  - unfold redis_rate_limit_middleware in El. repeat case_match; by simplify_eq.
  - unfold redis_rate_limit_middleware in El. repeat case_match; by simplify_eq.
  - unfold hmac_layer. change (sv_nonces (set_limiter l st)) with (sv_nonces st).
    rewrite Hr. apply error_response_fails.
Qed.

(** The audit verification command never succeeds.  It signs its request
    without a body hash, which the server includes always: against any server
    on which its service is configured with its secret the command ends with
    an error, unless the MAC collides. *)
Theorem verify_audit_command_refused service_url limit full nonce ts st cfg sc :
  (∀ base path pairs url, url_with_query base path pairs = Ok url → url_path url = path) →
  resolve_cli_config env service_url = Ok cfg →
  visible_ascii (cli_service_id cfg) = true → visible_ascii nonce = true → 0 ≤ ts →
  services (acl (ss_security settings)) !! cli_service_id cfg = Some sc →
  secret sc = str_bytes (cli_secret cfg) →
  ("/api/v1/audit/verify"%string ∉ public_endpoints (ss_security settings)) →
  (∃ e, cli_end (handle_verify_audit env service_url limit full nonce ts st).1
        = Interfaces.Value (Err e)) ∨
  ∃ m1 m2, m1 ≠ m2 ∧ hmac_sha256 (secret sc) m1 = hmac_sha256 (secret sc) m2.
Proof.
  intros Hurl Hcfg Vi Vn Hts Hsc Hsec Hpub. unfold handle_verify_audit. rewrite Hcfg.
  cbn [result_bind]. destruct (url_with_query _ _ _) as [url|e] eqn:Eu; [|left; by eexists].
  cbn [map_err result_bind].
  destruct (build_signed_request_headers cfg "GET" "/api/v1/audit/verify" ts nonce)
    as [headers|e] eqn:Eh; [|left; by eexists].
  cbn [result_bind]. set (req := sent_request url_path client_headers (MkHttpCall "GET" url headers None)).
  destruct (cli_bodyless_refused (ss_security settings) clk (logged debug req) (sv_nonces st)
    cfg sc ts nonce headers) as [[e He]|Hcol]; try done; [..|by right].
  { rewrite <- Eh. f_equal; [by destruct debug|]. apply Hurl in Eu. by destruct debug. }
  { apply (carries_sent _ client_headers). by destruct debug. }
  { apply Hurl in Eu. by destruct debug; cbn; rewrite Eu. }
  left. pose proof (refused_request_fails req st) as Hf.
  cbn [execute client service_client]. fold req.
  destruct (plain_request app ip clk req st) as [r st'].
  cbn [fst] in Hf. cbn [ha_status]. rewrite Hf; [by eexists|done|by eauto].
Qed.

(** The governor lets a request through. *)
Definition governor_open : Prop :=
  ∀ t c g now req peer, ∃ h g', gov_call t c g now req peer = (inr h, g').

(** The dispatch of an authenticated request to its route. *)
Lemma dispatch_runs layers req ext s rt params st :
  governor_open → find_route (routes (enable_http_rewrap settings)) (req_path req) = Some (rt, params) →
  req_method req = rt_method rt → ext_service ext = Some s →
  let caller := if takes_identity (rt_endpoint rt) then Some s else None in
  let out := handle (rt_endpoint rt) caller params req (sv_app st) in
  let (r, st') := dispatch handle settings layers clk req ext st in
  rs_status r = rs_status out.1 ∧ rs_body r = rs_body out.1 ∧ sv_app st' = out.2.
Proof.
  intros Hg Hf Hm He. cbn zeta. unfold dispatch. rewrite Hf. unfold governor_layer.
  destruct (Hg Global (rl_global layers) (sv_governor st) (mono clk) req (connect_info ext))
    as (h1 & g1 & ->).
  set (st1 := set_governor g1 st).
  destruct (Hg (rt_tier rt) (tier_config layers (rt_tier rt)) (sv_governor st1) (mono clk) req
    (connect_info ext)) as (h2 & g2 & ->).
  unfold method_router. rewrite Hm, String.eqb_refl. unfold endpoint. rewrite He.
  cbn [AuthenticatedService]. change (sv_app (set_governor g2 st1)) with (sv_app st).
  destruct (takes_identity (rt_endpoint rt)); by destruct (handle _ _ _ _ _).
Qed.

(** The whole stack on a request the limiter and the security middleware let
    through. *)
Lemma authenticated_request_runs req req' s p rt params st hs l nonces' :
  req_method req ≠ "OPTIONS"%string →
  redis_rate_limit_middleware (ss_rate_limit settings) (sv_limiter st) (mono clk) (req_path req) ip
    = (LimitNext hs, l) →
  hmac_security_middleware (ss_security settings) clk (logged debug req) (sv_nonces st)
    = (Next (Some (s, p)) req', nonces') →
  governor_open →
  find_route (routes (enable_http_rewrap settings)) (req_path req') = Some (rt, params) →
  req_method req' = rt_method rt →
  let caller := if takes_identity (rt_endpoint rt) then Some s else None in
  let out := handle (rt_endpoint rt) caller params req' (sv_app st) in
  let (r, st') := plain_request app ip clk req st in
  rs_status r = rs_status out.1 ∧ rs_body r = rs_body out.1 ∧ sv_app st' = out.2.
Proof.
  intros Ho Hl Hh Hg Hf Hm. revert Happ. unfold router.
  destruct (RateLimitLayers_new _) as [layers|]; [|done]. intros [= <-]. cbn zeta.
  unfold plain_request. rewrite http_logger_logged. unfold cors_layer.
  assert (req_method (logged debug req) ≠ "OPTIONS"%string) as Ho' by by destruct debug.
  destruct (cors_preflight _ _) eqn:Hc; [by apply cors_preflight_options in Hc|].
  unfold create_security_headers_layer, rate_limit_layer. cbn [connect_info].
  assert (req_path (logged debug req) = req_path req) as -> by by destruct debug.
  rewrite Hl. unfold hmac_layer. change (sv_nonces (set_limiter l st)) with (sv_nonces st).
  rewrite Hh. cbn [connect_info].
  pose proof (dispatch_runs layers req' (MkExtensions (Some ip) (Some s) (Some p)) s rt params
    (set_nonces nonces' (set_limiter l st)) Hg Hf Hm eq_refl) as Hd. cbn zeta in Hd.
  change (sv_app (set_nonces nonces' (set_limiter l st))) with (sv_app st) in Hd.
  by destruct (dispatch handle settings layers clk req' _ _).
Qed.

(** C23: a signed POST of the CLI runs the handler.  With the service
    configured under the same secret, the clocks within 301 seconds, the path
    a route for POST and not public, the limiters open and the nonce fresh, the
    request of a command runs the route's handler, with the CLI's service as
    the caller of a handler that takes an identity and on the very body that
    was posted; the command takes the answer for a success exactly when the
    handler's status is one. *)
Theorem cli_post_runs_handler cfg sc path body ts nonce refused st rt params hs l nonces' :
  url_path (service_url_for cfg path) = path →
  visible_ascii (cli_service_id cfg) = true → visible_ascii nonce = true →
  0 ≤ ts < 253402300800 → Z.abs (utc clk - from_secs ts) < from_secs 301 →
  services (acl (ss_security settings)) !! cli_service_id cfg = Some sc →
  secret sc = str_bytes (cli_secret cfg) →
  Z.of_nat (length body) ≤ MAX_DEBUG_BODY_SIZE → (path ∉ public_endpoints (ss_security settings)) →
  find_route (routes (enable_http_rewrap settings)) path = Some (rt, params) →
  rt_method rt = "POST"%string → governor_open →
  redis_rate_limit_middleware (ss_rate_limit settings) (sv_limiter st) (mono clk) path ip
    = (LimitNext hs, l) →
  mark_used (sv_nonces st) (mono clk) (nonce_key (cli_service_id cfg) nonce (pretty ts))
    MAX_NONCE_TTL_SECONDS = (Ok true, nonces') →
  ∃ req, req_body req = Some body ∧ req_path req = path ∧
    let caller := if takes_identity (rt_endpoint rt) then Some (cli_service_id cfg) else None in
    let out := handle (rt_endpoint rt) caller params req (sv_app st) in
    let (r, st') := post_signed cfg path body ts nonce refused st in
    sv_app st' = out.2 ∧
    (is_ok r = true ↔ is_success (rs_status out.1) = true).
Proof.
  intros Hu Vi Vn Hts Hskew Hsc Hsec Hlen Hpub Hf Hm Hg Hl Hn.
  destruct (cli_headers cfg "POST" path (Some body) ts nonce Vi Vn (proj1 Hts)) as (h & Eh & _).
  set (req := sent_request url_path client_headers
    (MkHttpCall "POST" (service_url_for cfg path) h (Some body))).
  assert (logged debug req = buffered req body) as Elog.
  { unfold logged, req, buffered, sent_request. cbn. rewrite Hu.
    destruct debug; [|done]. by rewrite (proj2 (Z.ltb_ge _ _)) by done. }
  exists (buffered req body). split; [done|]. split; [exact Hu|]. cbn zeta.
  assert (hmac_security_middleware (ss_security settings) clk (logged debug req) (sv_nonces st) =
    (Next (Some (cli_service_id cfg, Principal_service (cli_service_id cfg)))
       (buffered req body), nonces')) as Hh.
  { rewrite Elog. apply (cli_request_accepted (ss_security settings) clk (buffered req body)
      (sv_nonces st) nonces' cfg sc body ts nonce h); try done.
    - cbn. by rewrite Hu.
    - by apply (carries_sent _ client_headers).
    - unfold MAX_DEBUG_BODY_SIZE, MAX_HMAC_BODY_SIZE in *. lia.
    - cbn. by rewrite Hu. }
  assert (req_path req = path) as Hpath by exact Hu.
  pose proof (authenticated_request_runs req (buffered req body) _ _ rt params st hs l nonces'
    ltac:(done) ltac:(by rewrite Hpath) Hh Hg ltac:(by cbn; rewrite Hu) ltac:(done)) as Hr.
  unfold post_signed. rewrite Eh. cbn [execute client service_client]. fold req.
  cbn zeta in Hr. destruct (plain_request app ip clk req st) as [r st'].
  destruct Hr as (E1 & _ & E3). cbn [ha_status]. rewrite E1.
  destruct (is_success _); cbn [negb]; by split.
Qed.

End cli_server.

(** ** What the commands check *)

(** A credential the import accepts. *)
Definition credential_wf (rec : CliCredential) : Prop :=
  (∀ f, f ∈ [cc_service_id rec; cc_target_type rec; cc_target_db rec; cc_username rec] →
     0 < field_len f ≤ MAX_FIELD_LEN) ∧
  0 < field_len (cc_password rec) ≤ MAX_FIELD_LEN * 4.

Definition target_wf (t : CliTargetResource) : Prop :=
  ∀ f, f ∈ [ct_target_name t; ct_target_type t; ct_connection_url t] → 0 < field_len f.

Definition bootstrap_wf (b : BootstrapFile) : Prop :=
  bo_version b = 1 ∧
  (bo_credentials b ≠ [] ∨ bo_target_resources b ≠ []) ∧
  Z.of_nat (length (bo_credentials b)) ≤ MAX_CREDENTIALS ∧
  (∀ t, t ∈ bo_target_resources b → target_wf t) ∧
  (∀ c, c ∈ bo_credentials b → credential_wf c).

Lemma check_all_ok {A} (check : A → result unit string) l :
  check_all check l = Ok () ↔ ∀ x, x ∈ l → check x = Ok ().
Proof.
  induction l as [|x l IH]; cbn [check_all].
  - split; [|done]. intros _ x Hx. by apply not_elem_of_nil in Hx.
  - setoid_rewrite elem_of_cons. destruct (check x) as [[]|e] eqn:E; cbn [result_bind].
    + rewrite IH. naive_solver.
    + split; [done|]. intros Hall. specialize (Hall x (or_introl eq_refl)). congruence.
Qed.

Lemma is_empty_len s : is_empty s = false ↔ 0 < field_len s.
Proof. unfold field_len. destruct s; cbn; split; try done; lia. Qed.

Lemma check_target_ok t : check_target t = Ok () ↔ target_wf t.
Proof.
  unfold check_target, target_wf. setoid_rewrite elem_of_cons. setoid_rewrite elem_of_cons.
  setoid_rewrite list_elem_of_singleton. rewrite <- !orb_assoc.
  destruct (_ || _) eqn:E; rewrite ?orb_true_iff, ?orb_false_iff, ?is_empty_len in E.
  - split; [done|]. intros Hall. exfalso.
    pose proof (Hall (ct_target_name t)). pose proof (Hall (ct_target_type t)).
    pose proof (Hall (ct_connection_url t)).
    rewrite <- !is_empty_len in *. naive_solver congruence.
  - naive_solver.
Qed.

Lemma field_bounds_iff n s :
  0 < field_len s ≤ n ↔ is_empty s = false ∧ (n <? field_len s) = false.
Proof. by rewrite is_empty_len, Z.ltb_ge. Qed.

Lemma check_credential_ok c : check_credential c = Ok () ↔ credential_wf c.
Proof.
  unfold credential_wf. setoid_rewrite field_bounds_iff. unfold check_credential. split.
  - destruct (_ || is_empty (cc_password c)) eqn:E1; [done|].
    destruct (_ || (MAX_FIELD_LEN * 4 <? _)) eqn:E2; [done|]. intros _.
    rewrite !orb_false_iff in E1, E2. split; [|naive_solver].
    intros f Hf. rewrite !elem_of_cons in Hf.
    destruct Hf as [->|[->|[->|[->|[]%not_elem_of_nil]]]]; naive_solver.
  - intros [Hall [-> ->]].
    destruct (Hall (cc_service_id c)) as [-> ->]; [set_solver|].
    destruct (Hall (cc_target_type c)) as [-> ->]; [set_solver|].
    destruct (Hall (cc_target_db c)) as [-> ->]; [set_solver|].
    destruct (Hall (cc_username c)) as [-> ->]; [set_solver|]. done.
Qed.

(** The import command accepts exactly the bootstrap files it means to:
    version 1, at least one record, at most a thousand credentials, every
    required field present and, in credentials, of bounded length. *)
Theorem validate_bootstrap_exact b : validate_bootstrap b = Ok () ↔ bootstrap_wf b.
Proof.
  unfold validate_bootstrap, bootstrap_wf.
  destruct (Z.eqb_spec (bo_version b) 1) as [Hv|Hv]; cbn [negb]; [|naive_solver].
  destruct (_ && _) eqn:En.
  { apply andb_true_iff in En as [E1%Nat.eqb_eq%nil_length_inv E2%Nat.eqb_eq%nil_length_inv].
    naive_solver. }
  assert (bo_credentials b ≠ [] ∨ bo_target_resources b ≠ []) as Hn.
  { apply andb_false_iff in En as [En|En]; [left|right]; intros E; by rewrite E in En. }
  destruct (Z.ltb_spec MAX_CREDENTIALS (Z.of_nat (length (bo_credentials b)))) as [Hl|Hl];
    [split; [done|]; intros (_ & _ & ? & _); lia|].
  setoid_rewrite <- check_target_ok. setoid_rewrite <- check_credential_ok.
  rewrite <- (check_all_ok check_target), <- (check_all_ok check_credential).
  destruct (check_all check_target _) as [[]|]; cbn [result_bind]; naive_solver.
Qed.

Section ca_init_properties.
  Context `{Sha256} `{Hex} `{HmacLib} `{HttpLib} `{Base64} `{CliCodec}.
  Context `{Hcodec : HsmCodec} `{Hnet : Network}.
  Context {S : Type} `{HttpClient S} (env : string → option string).

(** Without a secret the command panics, and only after the vHSM has generated
    the CA: the key it answered with is lost, unless the blob was printed. *)
Lemma ca_init_without_secret socket_path ca_tag url id serial nonce now ts (s : S) :
  env "KMS_CLI__SECRET"%string = None →
  let (run, s') := handle_ca_init env socket_path ca_tag url id None serial nonce now ts s in
  s' = s ∧
  match generate_root_ca_via_hsm socket_path "ECDSA_P256" None with
  | Ok (key, _, _, _, Some _) => cli_end run = Panics UnwrapNone ∧
      cli_out run = if decide (env "KMS_CLI__PRINT_BLOB"%string = Some "1"%string)
                    then [b64_encode key] else []
  | _ => ∃ e, cli_end run = Interfaces.Value (Err e)
  end.
Proof.
  intros Hs. unfold handle_ca_init.
  destruct (generate_root_ca_via_hsm socket_path "ECDSA_P256" None) as [[[[[key pk] v] alg] [pem|]]|e];
    [|by split; [|eexists]..].
  unfold ca_cli_config. by rewrite Hs.
Qed.

End ca_init_properties.

(** ** Witnesses *)

Section CliWitnesses.
  Import Concrete ConcreteAuth ConcreteServer.

(** URLs of one host, and JSON that is not looked at. *)
Definition demo_host : string := "http://localhost:8081".
Definition demo_url_path (url : string) : string := str_drop (String.length demo_host) url.
#[local] Instance demo_cli_codec : CliCodec := {
  manifest_to_vec m := Ok (str_bytes (cm_ca_tag m));
  value_to_vec v := Ok [];
  bootstrap_from_slice _ := Err "not JSON"%string;
  payload_to_json _ := Ok [];
  report_from_body _ := Ok (MkCliVerifyReport true 0 []);
  import_response_from_body _ := Err "not JSON"%string;
  url_with_query base path pairs := Ok (demo_host +s+ path);
  status_display s := pretty s }.

Lemma demo_url_path_app path : demo_url_path (demo_host +s+ path) = path.
Proof. reflexivity. Qed.

Definition demo_env (name : string) : option string :=
  if String.eqb name "KMS_CLI__SECRET" then Some "s3"%string
  else if String.eqb name "KMS_CLI__SERVICE_ID" then Some "svc"%string else None.

#[local] Instance demo_client : HttpClient
    (ServerState (Nonces := InMemoryNonceStore) (Limiter := gmap string (list Z))
       (App := list (Endpoint * option ServiceId))) :=
  service_client demo_app demo_url_path [("accept"%string, str_bytes "*/*")] (λ _, []) "10.0.0.1"
    (demo_clock 5).

Lemma verify_audit_command_refused_witness :
  ∃ e, cli_end (handle_verify_audit demo_env None (Some 5) false "n1" 1700000000 demo_state).1
    = Interfaces.Value (Err e).
Proof.
  destruct (verify_audit_command_refused demo_handle "missing" demo_env demo_url_path
    [("accept"%string, str_bytes "*/*")] (λ _, []) "10.0.0.1" (demo_clock 5) true demo_server demo_app
    eq_refl None (Some 5) false "n1" 1700000000 demo_state demo_cfg demo_service)
    as [R|(m1 & m2 & Hne & E)].
  - intros base path pairs url [= <-]. apply demo_url_path_app.
  - reflexivity.
  - reflexivity.
  - reflexivity.
  - lia.
  - reflexivity.
  - reflexivity.
  - apply (bool_decide_unpack _). vm_compute. exact I.
  - exact R.
  - exfalso. apply Hne. cbn [hmac_sha256 concat_hmac] in E. injection E as E. exact E.
Defined.

Lemma cli_post_runs_handler_witness :
  sv_app (post_signed demo_cfg "/api/v1/admin/bootstrap/import" [Byte.x41] 1700000000 "n1" "x"
    demo_state).2 = [(EpImportBootstrap, Some "svc"%string)].
Proof.
  destruct (cli_post_runs_handler demo_handle "missing" demo_url_path
    [("accept"%string, str_bytes "*/*")] (λ _, []) "10.0.0.1" (demo_clock 5) true demo_server demo_app
    eq_refl demo_cfg demo_service "/api/v1/admin/bootstrap/import" [Byte.x41] 1700000000 "n1" "x"
    demo_state (post_route "/api/v1/admin/bootstrap/import" EpImportBootstrap Auth) []
    [("x-ratelimit-limit", "10"); ("x-ratelimit-remaining", "9")]%string
    (redis_rate_limit_middleware (ss_rate_limit demo_server) (sv_limiter demo_state)
       (mono (demo_clock 5)) "/api/v1/admin/bootstrap/import" "10.0.0.1").2
    (mark_used (sv_nonces demo_state) (mono (demo_clock 5))
       (nonce_key (cli_service_id demo_cfg) "n1" (pretty 1700000000)) MAX_NONCE_TTL_SECONDS).2)
    as (req & _ & _ & Hr).
  - reflexivity.
  - reflexivity.
  - reflexivity.
  - lia.
  - vm_compute. reflexivity.
  - reflexivity.
  - reflexivity.
  - vm_compute. congruence.
  - apply (bool_decide_unpack _). vm_compute. exact I.
  - vm_compute. reflexivity.
  - reflexivity.
  - intros t c g now r peer. by exists [], ().
  - etransitivity; [apply surjective_pairing|]. f_equal; vm_compute; reflexivity.
  - etransitivity; [apply surjective_pairing|]. f_equal; vm_compute; reflexivity.
  - cbn zeta in Hr. destruct (post_signed _ _ _ _ _ _ _) as [r st]. apply Hr.
Defined.

End CliWitnesses.
