(* ===== verification/Startup.v ===== *)
(** * Starting and stopping the service

    [bootstrap.rs], the start-up and shutdown of [main.rs], the construction of
    the application state in [server/state.rs], the connection of
    [kms-db/src/lib.rs] and [infrastructure/postgres/mod.rs], and the ranges of
    [config/crypto.rs].  The keys the access list names are generated over the
    key table, the cache and the crypto service of [KeyUseCases]. *)

From S2P Require Import Prelude.
From S2P Require Import Interfaces.
From S2P Require Import Protocol.
From S2P Require Import Vhsm.
From S2P Require Import Domain.
From S2P Require Import Effects.
From S2P Require Import Acl.
From S2P Require Import AuditLog.
From S2P Require Import AuditChain.
From S2P Require Import RateLimit.
From S2P Require Import RedisLimiter.
From S2P Require Import Security.
From S2P Require Import Identity.
From S2P Require Import KeyStore.
From S2P Require Import KeyUseCases.
From S2P Require Import Spire.
From S2P Require Import Migrate.
From S2P Require Import Server.

(** ** config/crypto.rs *)

(** [Deserialize] of the four newtypes: the decoded integer within its range. *)
Definition in_range (lo hi val : Z) (message : string) : result Z string :=
  if (lo <=? val) && (val <=? hi) then Ok val else Err message.

Definition KeyTtlDays_deserialize (val : Z) : result Z string :=
  in_range 1 3650 val "key_ttl_days must be between 1 and 3650 days".
Definition GracePeriodMinutes_deserialize (val : Z) : result Z string :=
  in_range 1 10080 val "grace_period_minutes must be between 1 and 10080 minutes (max 7 days)".
Definition CacheCleanupIntervalSecs_deserialize (val : Z) : result Z string :=
  in_range 1 86400 val
    "cache_cleanup_interval_secs must be between 1 second and 86400 seconds (24h)".
Definition ExpirationCheckIntervalSecs_deserialize (val : Z) : result Z string :=
  in_range 1 86400 val
    "expiration_check_interval_secs must be between 1 second and 86400 seconds (24h)".

Record CryptoSettings := MkCryptoSettings {
  cy_hsm_socket_path : string;
  cy_current_master_key_version : Z;
  cy_default_key_ttl_days : Z;
  cy_grace_period_minutes : Z;
  cy_hsm_timeout_secs : Z;
  cy_enable_http_rewrap : bool;
  cy_cache_cleanup_interval_secs : Z;
  cy_expiration_check_interval_secs : Z }.

(** The table [crypto] of the configuration, with the fields that have a
    default left out or not. *)
Record RawCryptoSettings := MkRawCryptoSettings {
  ry_hsm_socket_path : option string;
  ry_current_master_key_version : Z;
  ry_default_key_ttl_days : Z;
  ry_grace_period_minutes : Z;
  ry_hsm_timeout_secs : option Z;
  ry_enable_http_rewrap : option bool;
  ry_cache_cleanup_interval_secs : option Z;
  ry_expiration_check_interval_secs : option Z }.

Definition default_hsm_socket_path : string := "/run/vhsm/vhsm.sock".
Definition default_hsm_timeout_secs : Z := 5.
Definition default_cache_cleanup_interval_secs : Z := 60.
Definition default_expiration_check_interval_secs : Z := 300.

(** A field with a default is checked when it is present. *)
Definition with_default (d : Z) (check : Z → result Z string) (o : option Z) : result Z string :=
  match o with Some v => check v | None => Ok d end.

Definition CryptoSettings_deserialize (raw : RawCryptoSettings) : result CryptoSettings string :=
  let? ttl := KeyTtlDays_deserialize (ry_default_key_ttl_days raw) in
  let? grace := GracePeriodMinutes_deserialize (ry_grace_period_minutes raw) in
  let? cleanup := with_default default_cache_cleanup_interval_secs
                    CacheCleanupIntervalSecs_deserialize (ry_cache_cleanup_interval_secs raw) in
  let? expiration := with_default default_expiration_check_interval_secs
                       ExpirationCheckIntervalSecs_deserialize
                       (ry_expiration_check_interval_secs raw) in
  Ok {| cy_hsm_socket_path := default default_hsm_socket_path (ry_hsm_socket_path raw);
        cy_current_master_key_version := ry_current_master_key_version raw;
        cy_default_key_ttl_days := ttl;
        cy_grace_period_minutes := grace;
        cy_hsm_timeout_secs := default default_hsm_timeout_secs (ry_hsm_timeout_secs raw);
        cy_enable_http_rewrap := default false (ry_enable_http_rewrap raw);
        cy_cache_cleanup_interval_secs := cleanup;
        cy_expiration_check_interval_secs := expiration |}.

Definition cache_cleanup_duration (c : CryptoSettings) : Z :=
  from_secs (cy_cache_cleanup_interval_secs c).
Definition expiration_check_duration (c : CryptoSettings) : Z :=
  from_secs (cy_expiration_check_interval_secs c).

(** No worker runs without a pause, and no accepted period is out of range. *)
Lemma crypto_settings_bounds raw c :
  CryptoSettings_deserialize raw = Ok c →
  1 ≤ cy_default_key_ttl_days c ≤ 3650 ∧ 1 ≤ cy_grace_period_minutes c ≤ 10080 ∧
  from_secs 1 ≤ cache_cleanup_duration c ≤ from_secs 86400 ∧
  from_secs 1 ≤ expiration_check_duration c ≤ from_secs 86400.
Proof.
  assert (∀ lo hi v m x, in_range lo hi v m = Ok x → lo ≤ x ≤ hi) as Hr.
  { intros lo hi v m x. unfold in_range. destruct (_ && _) eqn:E; [|done]. intros [= <-].
    apply andb_true_iff in E as [E1%Z.leb_le E2%Z.leb_le]. lia. }
  assert (∀ d lo hi m o x, lo ≤ d ≤ hi →
    with_default d (λ v, in_range lo hi v m) o = Ok x → lo ≤ x ≤ hi) as Hd.
  { intros d lo hi m [v|] x Hb; cbn; [apply Hr|]. by intros [= <-]. }
  unfold CryptoSettings_deserialize. intros E.
  apply result_bind_Ok in E as (ttl & E1%Hr & E). apply result_bind_Ok in E as (gr & E2%Hr & E).
  apply result_bind_Ok in E as (cl & E3%Hd & E); [|done].
  apply result_bind_Ok in E as (ex & E4%Hd & E); [|done]. injection E as <-.
  unfold cache_cleanup_duration, expiration_check_duration, from_secs. cbn. lia.
Qed.

(** ** Waiting for the vHSM *)

(** The attempts of the loop, with the instants it sleeps between them: how
    many answers it takes until the vHSM encrypts; [None] when the answers of
    [fuel] attempts are used up. *)
Fixpoint wait_for_vhsm_unsealed (fuel : nat)
    (send : nat → result HsmResponse HsmClientError) (attempt : nat) : option nat :=
  match fuel with
  | O => None
  | S fuel =>
    match send attempt with
    | Ok (Encrypted _ _) => Some attempt
    | Ok (Error _ _) => wait_for_vhsm_unsealed fuel send (S attempt)
    | Err _ => wait_for_vhsm_unsealed fuel send (S attempt)
    | Ok _ => wait_for_vhsm_unsealed fuel send (S attempt)
    end
  end.

(** The request of the loop, and the pause after a failed attempt. *)
Definition unseal_probe : HsmRequest := Encrypt "master_key" None (str_bytes "healthcheck").
Definition unseal_pause : Z := from_secs 5.

(** ** bootstrap_keys *)

Section bootstrap.
  Context `{KmsCryptoService} `{SqlDisplay} `{DebugTime} `{KeyOrder}.
  Context {A : Type}.
  Implicit Types (env : Env).

(** [HashMap<(ServiceId, KeyAlgorithm), KeyPairEntity>] *)
Abbreviation KeyMap := (gmap (ServiceId * KeyAlgorithm) KeyPairEntity).

Definition key_map_of (active_keys : list KeyPairEntity) : KeyMap :=
  foldl (λ m k, <[(ke_service_id k, ke_algorithm k) := k]> m) ∅ active_keys.

Definition bootstrap_purpose (algorithm : KeyAlgorithm) : KeyPurpose :=
  match algorithm with
  | Ed25519 => Signing
  | X25519 | AES256GCM => Encryption
  | HmacSha256 => Authentication
  | EcdsaP256 => Signing
  end.

(** The key of a rule that has none: generated, encrypted and stored as
    version 1. *)
Definition bootstrap_generate env (target : ServiceId) (algorithm : KeyAlgorithm) :
    svc A KeyPairEntity :=
  let* generated_key :=
    svc_of (generate_for "ECDSA_P256 is not supported for bootstrap-generated service keys" env
              algorithm) in
  let* encrypted_private_key :=
    svc_of (encrypt_private_key (env_encrypt env) (rk_private_key_bytes generated_key)) in
  let new_key := {|
    ke_id := env_key_id env; ke_service_id := target; ke_algorithm := algorithm;
    ke_purpose := bootstrap_purpose algorithm;
    ke_public_key_pem := rk_public_key_pem generated_key;
    ke_encrypted_private_key := encrypted_private_key; ke_version := 1;
    ke_status := Active; ke_created_at := env_now env; ke_expires_at := None |} in
  update_keys (λ db, let? db := save_key db (env_now env) new_key in Ok ((), db)) ;;*
  svc_ret new_key.

(** One rule: the map with its key. *)
Definition bootstrap_rule env (rule : AccessRule) (key_map : KeyMap) : svc A KeyMap :=
  let target := target_service rule in
  let algorithm := rule_algorithm rule in
  let* (active_key, key_map) :=
    match key_map !! (target, algorithm) with
    | Some key => svc_ret (key, key_map)
    | None =>
      let* new_key := bootstrap_generate env target algorithm in
      svc_ret (new_key, <[(target, algorithm) := new_key]> key_map)
    end in
  if preload_flag rule then
    let* private_key := svc_of (decrypt_private_key (ke_encrypted_private_key active_key)) in
    update_cache (λ c, cache_insert c target algorithm (ke_version active_key) private_key) ;;*
    svc_ret key_map
  else svc_ret key_map.

Fixpoint bootstrap_rules (envs : nat → Env) (rules : list AccessRule) (key_map : KeyMap) :
    svc A unit :=
  match rules with
  | [] => svc_ret ()
  | rule :: rules =>
    let* key_map := bootstrap_rule (envs 0%nat) rule key_map in
    bootstrap_rules (λ i, envs (S i)) rules key_map
  end.

(** [values] is the order in which the map of services is walked. *)
Definition bootstrap_keys (envs : nat → Env) (values : list ServiceConfig) : svc A unit :=
  let* active_keys := with_keys get_all_active_keys in
  bootstrap_rules envs (values ≫= allowed_access) (key_map_of active_keys).

End bootstrap.

(** *** What a successful bootstrap leaves *)

Lemma KeyAlgorithm_debug_inj : Inj (=) (=) KeyAlgorithm_debug.
Proof. by intros [] []. Qed.

Lemma map_key_row_algorithm r e :
  map_key_row r = Ok e → kr_algorithm r = KeyAlgorithm_debug (ke_algorithm e).
Proof.
  unfold map_key_row. intros E. apply result_bind_Ok in E as (al & Hal & E).
  apply result_bind_Ok in E as (pu & _ & E). apply result_bind_Ok in E as (st & _ & E).
  injection E as <-. cbn [ke_algorithm].
  repeat match type of Hal with
  | context [String.eqb ?x ?y] =>
    destruct (String.eqb_spec x y) as [Hx|_]; [by injection Hal as <-|]
  end.
  done.
Qed.

Section bootstrap_properties.
  Context `{KmsCryptoService} `{SqlDisplay} `{DebugTime} `{Horder : KeyOrder} `{!KeyOrderLaws Horder}.
  Context {A : Type}.
  Implicit Types (w : World A) (db : list KeyDbRow) (m : gmap (ServiceId * KeyAlgorithm) KeyPairEntity).

(** The active key of a service and an algorithm, in the table. *)
Definition active_in (db : list KeyDbRow) (s : ServiceId) (a : KeyAlgorithm) (r : KeyDbRow) : Prop :=
  r ∈ db ∧ is_active_for s (KeyAlgorithm_debug a) r = true.

(** The row holds the key of the entity. *)
Definition row_of (r : KeyDbRow) (e : KeyPairEntity) : Prop :=
  kr_encrypted_key_data r = ciphertext (ke_encrypted_private_key e) ∧
  ke_version e = as_u32 (kr_version r).

(** The map holds the active keys of the table, and all of them. *)
Definition map_matches db m : Prop :=
  ∀ s a, (∀ e, m !! (s, a) = Some e → ∃ r, active_in db s a r ∧ row_of r e) ∧
         (∀ r, active_in db s a r → is_Some (m !! (s, a))).

Lemma key_map_of_spec es :
  (∀ k e, key_map_of es !! k = Some e → e ∈ es ∧ k = (ke_service_id e, ke_algorithm e)) ∧
  (∀ e, e ∈ es → is_Some (key_map_of es !! (ke_service_id e, ke_algorithm e))).
Proof.
  unfold key_map_of. induction es as [|x es [IH1 IH2]] using rev_ind.
  - split; [by intros k e E; cbn in E; apply lookup_empty_Some in E|intros e He; by apply not_elem_of_nil in He].
  - rewrite foldl_snoc. split.
    + intros k e. rewrite lookup_insert_Some, elem_of_app, list_elem_of_singleton.
      intros [[<- <-]|[_ E]]; [by split; [right|]|]. apply IH1 in E as [E1 E2]. by split; [left|].
    + intros e. rewrite elem_of_app, list_elem_of_singleton, lookup_insert_is_Some.
      intros [He| ->]; [|by left].
      destruct (decide ((ke_service_id x, ke_algorithm x) = (ke_service_id e, ke_algorithm e)));
        [by left|right; auto].
Qed.

Lemma active_keys_rows db es :
  get_all_active_keys db = Ok es →
  (∀ e, e ∈ es → ∃ r, r ∈ db ∧ kr_is_active r = true ∧ map_key_row r = Ok e) ∧
  (∀ r, r ∈ db → kr_is_active r = true → ∃ e, e ∈ es ∧ map_key_row r = Ok e).
Proof.
  intros E%map_key_rows_Forall2. unfold KeyQueries_get_all_active_keys in E.
  set (rows := filter (λ r, kr_is_active r = true) db) in E.
  assert (∀ r, r ∈ by_service rows ↔ r ∈ db ∧ kr_is_active r = true) as Hrows.
  { intros r. rewrite by_service_perm. unfold rows. rewrite list_elem_of_filter. tauto. }
  split.
  - intros e [i Hi]%list_elem_of_lookup_1.
    destruct (Forall2_lookup_r _ _ _ _ _ E Hi) as (r & Hr%list_elem_of_lookup_2 & Hm).
    apply Hrows in Hr as [??]. eauto.
  - intros r Hr Ha. assert (r ∈ by_service rows) as [i Hi]%list_elem_of_lookup_1 by by apply Hrows.
    destruct (Forall2_lookup_l _ _ _ _ _ E Hi) as (e & He%list_elem_of_lookup_2 & Hm). eauto.
Qed.

Lemma key_map_matches db es :
  get_all_active_keys db = Ok es → map_matches db (key_map_of es).
Proof.
  intros E. destruct (active_keys_rows db es E) as [E1 E2], (key_map_of_spec es) as [K1 K2].
  intros s a. split.
  - intros e [He [= -> ->]]%K1. destruct (E1 e He) as (r & Hr & Ha & Hm). exists r.
    destruct (map_key_row_fields r e Hm) as (_ & Hc & Hv & Hs). split.
    + split; [done|]. apply is_active_for_true. by rewrite <- (map_key_row_algorithm r e Hm).
    + by split; [rewrite Hc|].
  - intros r [Hr (Hs & Hal & Ha)%is_active_for_true]. destruct (E2 r Hr Ha) as (e & He & Hm).
    destruct (map_key_row_fields r e Hm) as (_ & _ & _ & Hse).
    rewrite (map_key_row_algorithm r e Hm) in Hal. apply KeyAlgorithm_debug_inj in Hal as <-.
    rewrite <- Hs, <- Hse. by apply K2.
Qed.

(** Saving a first key: it is there and active, and every other active key
    stays. *)
Lemma save_first_key db now e db' :
  save_key db now e = Ok db' → ke_status e = Active →
  (∀ r, ¬ active_in db (ke_service_id e) (ke_algorithm e) r) →
  (∃ r, active_in db' (ke_service_id e) (ke_algorithm e) r ∧
     kr_encrypted_key_data r = ciphertext (ke_encrypted_private_key e) ∧
     kr_version r = as_i32 (ke_version e)) ∧
  (∀ r, r ∈ db → kr_is_active r = true → r ∈ db') ∧
  (∀ s a r, active_in db' s a r → active_in db s a r ∨ (s, a) = (ke_service_id e, ke_algorithm e)).
Proof.
  intros E Hst Hno. apply map_err_Ok in E. unfold KeyQueries_save_key in E.
  match type of E with upsert _ ?row = _ => set (new := row) in E end.
  assert (is_active_for (ke_service_id e) (KeyAlgorithm_debug (ke_algorithm e)) new = true) as Hnew.
  { apply is_active_for_true. cbn. by rewrite Hst. }
  unfold upsert in E. set (hit := same_version (kr_service_id new) (kr_algorithm new) (kr_version new)) in E.
  assert (∀ s a r, is_active_for s (KeyAlgorithm_debug a) r = true →
    (kr_service_id r, kr_algorithm r) = (kr_service_id new, kr_algorithm new) →
    (s, a) = (ke_service_id e, ke_algorithm e)) as Hsame.
  { intros s a r (<- & Hal & _)%is_active_for_true [= -> Hal']. f_equal.
    apply KeyAlgorithm_debug_inj. by rewrite <- Hal. }
  assert (∀ r, r ∈ db → kr_is_active r = true → hit r = false) as Hhit.
  { intros r Hr Ha. apply not_true_iff_false. intros (Hs & Hal & _)%same_version_true.
    apply (Hno r). split; [done|]. by apply is_active_for_true. }
  destruct (existsb hit db) eqn:Eh.
  - match type of E with (if ?b then _ else _) = _ => destruct b; [done|] end. injection E as <-.
    apply existsb_exists in Eh as (q & Hq%list_elem_of_In & Hqh). split_and!.
    + exists (overwrite q new). pose proof Hqh as (Hs & Hal & Hv)%same_version_true.
      split_and!; [|done..].
      split; [|by apply is_active_for_true in Hnew as (? & ? & ?); apply is_active_for_true].
      apply list_elem_of_fmap. exists q. split; [|done].
      by rewrite Hqh.
    + intros r Hr Ha. apply list_elem_of_fmap. exists r. by rewrite (Hhit r Hr Ha).
    + intros s a r [Hr Ha]. apply list_elem_of_fmap in Hr as (q' & -> & Hq').
      destruct (hit q') eqn:Hh; [|by left]. right. eapply Hsame; [exact Ha|].
      by apply same_version_true in Hh as (? & ? & _); cbn; f_equal.
  - repeat match type of E with (if ?b then _ else _) = _ => destruct b; [done|] end.
    injection E as <-. split_and!.
    + exists new. split_and!; [|done..]. split; [|done]. apply elem_of_app. right. left.
    + intros r Hr _. apply elem_of_app. by left.
    + intros s a r [Hr Ha]. apply elem_of_app in Hr as [Hr|Hr]; [by left|].
      apply list_elem_of_singleton in Hr as ->. right. by eapply Hsame.
Qed.

(** The cache holds the decrypted key of every pair in [ks]. *)
Definition cached (m : gmap (ServiceId * KeyAlgorithm) KeyPairEntity) (c : KeyCache)
    (ks : list (ServiceId * KeyAlgorithm)) : Prop :=
  ∀ k : ServiceId * KeyAlgorithm, k ∈ ks → ∃ e p, m !! k = Some e ∧ decrypt_private_key (ke_encrypted_private_key e) = Ok p ∧
    c !! (k : KeyCacheKey) = Some (MkCachedKeyValue (ke_version e) p).

(** What the rules so far have established; [keep] are the rows that were
    active at the start. *)
Record bootstrapped (keep : list KeyDbRow) (done_ preloaded : list (ServiceId * KeyAlgorithm))
    (m : gmap (ServiceId * KeyAlgorithm) KeyPairEntity) (w : World A) : Prop := {
  bo_wf : table_wf (w_keys w);
  bo_map : map_matches (w_keys w) m;
  bo_keep r : r ∈ keep → kr_is_active r = true → r ∈ w_keys w;
  bo_done k : k ∈ done_ → is_Some (m !! k);
  bo_cached : cached m (w_cache w) preloaded }.

Lemma bootstrap_generate_inv env s a w e w' :
  bootstrap_generate env s a w = (Ok e, w') →
  ∃ db', save_key (w_keys w) (env_now env) e = Ok db' ∧ w' = MkWorld db' (w_cache w) (w_audit w) ∧
    ke_status e = Active ∧ ke_service_id e = s ∧ ke_algorithm e = a ∧ ke_version e = 1.
Proof.
  unfold bootstrap_generate. intros E.
  apply svc_bind_Ok in E as (raw & w1 & [= Hraw <-] & E).
  apply svc_bind_Ok in E as (enc & w2 & [= Henc <-] & E).
  apply svc_bind_Ok in E as (u & w3 & E3 & [= <- <-]).
  unfold update_keys in E3. destruct (save_key _ _ _) as [db'|] eqn:Es; [|done].
  cbn [result_bind] in E3. injection E3 as <- <-. by exists db'.
Qed.

Lemma bootstrap_key_step keep ds ps env s a m w e m' w' :
  bootstrapped keep ds ps m w →
  match m !! (s, a) with
  | Some key => svc_ret (key, m)
  | None => let* new_key := bootstrap_generate env s a in
            svc_ret (new_key, <[(s, a) := new_key]> m)
  end w = (Ok (e, m'), w') →
  bootstrapped keep ((s, a) :: ds) ps m' w' ∧ m' !! (s, a) = Some e.
Proof.
  intros [Hwf Hmap Hkeep Hdone Hc] E. destruct (m !! (s, a)) as [key|] eqn:Em.
  - injection E as <- <- <-. split; [|done]. split; try done.
    intros k [->|Hk]%elem_of_cons; [by rewrite Em|by apply Hdone].
  - apply svc_bind_Ok in E as (key & w1 & (db' & Es & -> & Hst & Hs & Ha & Hv)%bootstrap_generate_inv
      & [= <- <- <-]).
    rewrite lookup_insert_eq. split; [|done].
    assert (∀ r, ¬ active_in (w_keys w) (ke_service_id key) (ke_algorithm key) r) as Hno.
    { rewrite Hs, Ha. intros r Hr. destruct (proj2 (Hmap s a) r Hr). congruence. }
    destruct (save_first_key _ _ _ _ Es Hst Hno) as ((r & Hr & Hd & Hrv) & Hold & Honly).
    rewrite Hs, Ha in *. split; cbn [w_keys w_cache].
    + by eapply save_key_wf.
    + intros s' a'. split.
      * intros e [[[= <- <-] <-]|[_ E]]%lookup_insert_Some.
        { exists r. split; [done|]. split; [done|]. by rewrite Hrv, Hv. }
        destruct (proj1 (Hmap s' a') e E) as (q & [Hq Hqa] & Hrow). exists q. split; [|done].
        split; [|done]. apply Hold; [done|]. by apply is_active_for_true in Hqa as (_ & _ & ?).
      * intros q Hq. rewrite lookup_insert_is_Some.
        destruct (decide ((s, a) = (s', a'))) as [|Hne]; [by left|right; split; [done|]].
        destruct (Honly s' a' q Hq) as [Hq'|[= -> ->]]; [|done]. by eapply Hmap.
    + intros q Hq Hqa. apply Hold; [by apply Hkeep|done].
    + intros k [->|Hk]%elem_of_cons; [by rewrite lookup_insert_eq|].
      apply lookup_insert_is_Some. destruct (decide ((s, a) = k)); [by left|right; auto].
    + intros k Hk. destruct (Hc k Hk) as (e & p & E & ?). exists e, p.
      rewrite lookup_insert_ne; [done|]. intros <-. by rewrite Em in E.
Qed.

Lemma bootstrap_rule_step keep ds ps env rule m w m' w' :
  bootstrapped keep ds ps m w →
  bootstrap_rule env rule m w = (Ok m', w') →
  let k := (target_service rule, rule_algorithm rule) in
  bootstrapped keep (k :: ds) (if preload_flag rule then k :: ps else ps) m' w'.
Proof.
  intros B E. unfold bootstrap_rule in E. apply svc_bind_Ok in E as ([e m1] & w1 & E1 & E).
  destruct (bootstrap_key_step _ _ _ _ _ _ _ _ _ _ _ B E1) as [[Hwf Hmap Hkeep Hdone Hc] Hm].
  destruct (preload_flag rule); [|by injection E as <- <-].
  apply svc_bind_Ok in E as (p & w2 & [= Hp <-] & E).
  apply svc_bind_Ok in E as (u & w3 & [= _ <-] & [= <- <-]).
  split; try done. intros k [->|Hk]%elem_of_cons.
  - exists e, p. split_and!; [done..|]. apply lookup_insert_eq.
  - destruct (Hc k Hk) as (e' & p' & E & Hp' & Hk'). exists e', p'. split_and!; [done..|].
    cbn [w_cache]. unfold cache_insert.
    destruct (decide ((target_service rule, rule_algorithm rule) = k)) as [<-|Hne].
    + rewrite Hm in E. injection E as <-. rewrite Hp in Hp'. injection Hp' as <-.
      apply lookup_insert_eq.
    + by rewrite lookup_insert_ne.
Qed.

(** The pairs of rules, and of those that are preloaded. *)
Definition rule_key (rule : AccessRule) : ServiceId * KeyAlgorithm :=
  (target_service rule, rule_algorithm rule).

Lemma bootstrap_rules_inv keep rules : ∀ envs ds ps m w w',
  bootstrapped keep ds ps m w →
  bootstrap_rules envs rules m w = (Ok (), w') →
  ∃ m' ds' ps', bootstrapped keep ds' ps' m' w' ∧
    (∀ k, k ∈ ds → k ∈ ds') ∧ (∀ k, k ∈ ps → k ∈ ps') ∧
    (∀ rule, rule ∈ rules → rule_key rule ∈ ds' ∧
       (preload_flag rule = true → rule_key rule ∈ ps')).
Proof.
  induction rules as [|rule rules IH]; intros envs ds ps m w w' B E; cbn [bootstrap_rules] in E.
  - injection E as <-. exists m, ds, ps. split_and!; [done..|]. intros r Hr. by apply not_elem_of_nil in Hr.
  - apply svc_bind_Ok in E as (m1 & w1 & E1 & E).
    pose proof (bootstrap_rule_step _ _ _ _ _ _ _ _ _ B E1) as B1. cbn zeta in B1.
    destruct (IH _ _ _ _ _ _ B1 E) as (m' & ds' & ps' & B' & Hds & Hps & Hr).
    exists m', ds', ps'. split_and!; [done| | |].
    + intros k Hk. apply Hds. by right.
    + intros k Hk. apply Hps. by destruct (preload_flag rule); [right|].
    + intros r [->|Hin]%elem_of_cons; [|by apply Hr]. split; [apply Hds; left|].
      intros Hpre. apply Hps. rewrite Hpre. left.
Qed.

(** Every rule's service and algorithm has an active key in the table, and for
    every rule marked for preloading the cache holds the decryption of that key
    under its version. *)
Definition provided (values : list ServiceConfig) (w : World A) : Prop :=
  ∀ cfg rule, cfg ∈ values → rule ∈ allowed_access cfg →
    ∃ r, active_in (w_keys w) (target_service rule) (rule_algorithm rule) r ∧
      (preload_flag rule = true → ∃ v p,
        decrypt_private_key (MkEncryptedPrivateKey (kr_encrypted_key_data r) v) = Ok p ∧
        w_cache w !! (rule_key rule : KeyCacheKey) =
          Some (MkCachedKeyValue (as_u32 (kr_version r)) p)).

Lemma bootstrap_provides_keys envs values w w' :
  table_wf (w_keys w) → bootstrap_keys envs values w = (Ok (), w') →
  table_wf (w_keys w') ∧
  (∀ r, r ∈ w_keys w → kr_is_active r = true → r ∈ w_keys w') ∧
  provided values w'.
Proof.
  intros Hwf E. unfold bootstrap_keys in E.
  apply svc_bind_Ok in E as (es & w1 & [= Hes <-] & E).
  destruct (bootstrap_rules_inv (w_keys w) _ _ [] [] _ _ _ (ltac:(split; try done;
    [by apply key_map_matches|by intros k ?%not_elem_of_nil|by intros k ?%not_elem_of_nil])) E)
    as (m & ds & ps & [Hwf' Hmap Hkeep Hdone Hc] & _ & _ & Hr).
  split_and!; [done..|]. intros cfg rule Hcfg Hrule.
  destruct (Hr rule) as [Hd Hp]; [apply list_elem_of_bind; by exists cfg|].
  destruct (Hdone _ Hd) as [e He]. destruct (proj1 (Hmap _ _) e He) as (r & Hact & Hct & Hv).
  exists r. split; [done|]. intros Hpre. destruct (Hc _ (Hp Hpre)) as (e' & p & He' & Hdec & Hcache).
  rewrite He in He'. injection He' as <-.
  destruct (ke_encrypted_private_key e) as [ct v] eqn:Ee. cbn [ciphertext] in Hct. rewrite Hct.
  exists v, p. by rewrite <- Hv.
Qed.

(** The bootstrap can destroy a retired key.  When a service has no active
    key but its first one is still in the table, expired or revoked, the key
    generated at start-up takes the retired one's version and row: the old
    private key is gone, and what was encrypted under it cannot be read any
    more. *)
Theorem bootstrap_overwrites_retired_key envs id sec acts rule w es r raw enc :
  let s := target_service rule in
  let a := rule_algorithm rule in
  table_wf (w_keys w) → get_all_active_keys (w_keys w) = Ok es →
  (∀ q, ¬ active_in (w_keys w) s a q) → preload_flag rule = false →
  r ∈ w_keys w → same_version s (KeyAlgorithm_debug a) 1 r = true →
  generate_for "ECDSA_P256 is not supported for bootstrap-generated service keys" (envs 0%nat) a = Ok raw →
  encrypt_private_key (env_encrypt (envs 0%nat)) (rk_private_key_bytes raw) = Ok enc →
  ∃ w', bootstrap_keys envs [MkServiceConfig id sec [rule] acts] w = (Ok (), w') ∧
    (∃ q, q ∈ w_keys w' ∧ kr_id q = kr_id r) ∧
    ∀ q, q ∈ w_keys w' → kr_id q = kr_id r → kr_encrypted_key_data q = ciphertext enc.
Proof.
  intros s a Hwf Hes Hno Hpre Hr Hv Hraw Henc.
  assert (key_map_of es !! (s, a) = None) as Hm.
  { apply eq_None_not_Some. intros [e He].
    destruct (proj1 (key_map_matches _ _ Hes s a) e He) as (q & Hq & _). by apply (Hno q). }
  set (env := envs 0%nat) in *.
  set (e := MkKeyPairEntity (env_key_id env) s a (bootstrap_purpose a) (rk_public_key_pem raw) enc 1
    Active (env_now env) None).
  assert (KeyQueries_get_active_key (w_keys w) s (KeyAlgorithm_debug a) = None) as Hget.
  { destruct (KeyQueries_get_active_key _ _ _) as [q|] eqn:E; [|done].
    apply get_active_key_Some in E; [|done]. by destruct (Hno q). }
  destruct (save_key_over (w_keys w) (env_now env) e r Hwf eq_refl Hget Hr Hv)
    as (db' & r' & Es & Hwf' & Hr' & Hid & _ & Hdata & _).
  exists (MkWorld db' (w_cache w) (w_audit w)). split_and!.
  - unfold bootstrap_keys. rewrite (svc_bind_step _ _ w es w) by (unfold with_keys; by rewrite Hes).
    cbn [mbind list_bind allowed_access app bootstrap_rules]. unfold bootstrap_rule. fold s a. rewrite Hm.
    unfold bootstrap_generate, svc_bind, svc_of, svc_ret, update_keys. fold env.
    rewrite Hraw, Henc. fold e. rewrite Es. cbn [result_bind]. by rewrite Hpre.
  - by exists r'.
  - intros q Hq Hqid. destruct (table_wf_unique db' q r' Hwf' Hq Hr') as [->|[Hne _]]; [done|congruence].
Qed.

End bootstrap_properties.

(** The loop ends at the first attempt the vHSM encrypts, and the fuel of that
    many attempts is enough. *)
Lemma wait_for_vhsm_unsealed_spec send n : ∀ fuel attempt,
  (∀ i, (attempt ≤ i < n)%nat → ∀ c v, send i ≠ Ok (Encrypted c v)) →
  (∃ c v, send n = Ok (Encrypted c v)) → (attempt ≤ n)%nat → (n < attempt + fuel)%nat →
  wait_for_vhsm_unsealed fuel send attempt = Some n.
Proof.
  induction fuel as [|fuel IH]; intros attempt Hno Hyes Hle Hfuel; [lia|].
  cbn [wait_for_vhsm_unsealed]. destruct (decide (attempt = n)) as [->|Hne].
  - by destruct Hyes as (c & v & ->).
  - assert (wait_for_vhsm_unsealed fuel send (S attempt) = Some n) as Hnext.
    { apply IH; [|done|lia..]. intros i Hi. apply Hno. lia. }
    pose proof (Hno attempt ltac:(lia)) as Ha.
    destruct (send attempt) as [[]|]; done || by destruct (Ha _ _ eq_refl).
Qed.

(** ** The start of the service *)

(** [config/mod.rs]: [build] reads and merges the three files and the
    environment and decodes the settings. *)
Record KmsSettings := MkKmsSettings {
  ks_server_addr : string;
  ks_shutdown_timeout : Z;
  ks_redis : RedisConfig;
  ks_database : DatabaseConfig;
  ks_crypto : CryptoSettings;
  ks_acl : AclSettings;
  ks_spiffe : SpiffeConfig;
  ks_providers : list (string * ProviderPolicy) }.

Section load.
  Context (env : string → option string) (manifest_dir : string).
  Context (build : string → string → string → result KmsSettings string).

(** [Path::join] with a relative name. *)
Definition join (dir name : string) : string :=
  if is_empty dir then name else dir +s+ "/" +s+ name.

Definition load_from (settings_path : string) : result KmsSettings string :=
  let config_dir := default "config"%string (path_parent settings_path) in
  let acl_path := join config_dir "services_acl.toml" in
  let providers_acl_path := join config_dir "providers_acl.json" in
  let? settings := build settings_path acl_path providers_acl_path in
  match providers_validate (ks_providers settings) with
  | Err e => Err ("providers_acl.json validation failed: " +s+ e)
  | Ok _ => Ok settings
  end.

Definition load : result KmsSettings string :=
  load_from (default (join (join manifest_dir "config") "settings.toml") (env "APP_CONFIG_PATH"%string)).

End load.

(** What the process has done, in order; a listener is recorded with the keys
    and the cache it opens on. *)
Inductive StartEvent (A : Type) :=
| VhsmReady (attempts : nat)
| PoolOpened (url : string) (max_connections : Z)
| RedisConnected
| WorkersStarted
| StartAudited
| KeysReady
| UdsListening (w : World A)
| HttpListening (listener : Listener) (w : World A)
| CacheCleared
| RedisClosed
| PoolClosed.
Arguments VhsmReady {A}.
Arguments PoolOpened {A}.
Arguments RedisConnected {A}.
Arguments WorkersStarted {A}.
Arguments StartAudited {A}.
Arguments KeysReady {A}.
Arguments UdsListening {A}.
Arguments HttpListening {A}.
Arguments CacheCleared {A}.
Arguments RedisClosed {A}.
Arguments PoolClosed {A}.

Record Boot (A C : Type) := MkBoot {
  b_trace : list (StartEvent A);
  b_world : World A;
  b_redis : C }.
Arguments MkBoot {A C}.
Arguments b_trace {A C}.
Arguments b_world {A C}.
Arguments b_redis {A C}.

(** Which store a limiter or a nonce cache lives in. *)
Inductive Backing := InRedis (script_hash : string) | InMemory.

(** [AppState], as far as it is chosen at the start. *)
Record AppState := MkAppState {
  as_redis : bool;
  as_rate_limiter : Backing;
  as_nonce_store : Backing;
  as_compiled_acl : CompiledAcl;
  as_iam_policy : IamCredentialPolicy;
  as_spiffe_identity : option WorkloadIdentityConfig }.

(** The answers of the outside world. *)
Record StartInputs := MkStartInputs {
  (** [PgPoolOptions::connect], then [SELECT 1] *)
  si_pg_connect : string → result unit string;
  si_pg_ping : result unit string;
  si_script_load : result string string;
  (** [read_to_string] of the IAM policy, and its decoding *)
  si_iam_read : string → result string string;
  si_iam_decode : string → result IamCredentialPolicy string;
  si_audit_log : AuditLog;
  si_key_envs : nat → Env;
  (** the order in which a map of services is walked *)
  si_order : list ServiceConfig → list ServiceConfig;
  si_addr : result unit string;
  (** was the Unix socket bound? *)
  si_uds : bool;
  (** how serving ends *)
  si_served : result unit string }.

(** The services of the access list, as the map is walked. *)
Definition acl_services (inputs : StartInputs) (settings : KmsSettings) : list ServiceConfig :=
  si_order inputs (map_to_list (services (ks_acl settings))).*2.

(** [config/iam_json.rs] *)
Definition default_policy_path (manifest_dir : string) : string :=
  join (join manifest_dir "config") "iam_credentials_policy.json".

Definition load_from_file (inputs : StartInputs) (path : string) : result IamCredentialPolicy AppError :=
  let? content := map_err (λ e, ConfigError ("Failed to read IAM policy file '" +s+ path +s+ "': " +s+ e))
                    (si_iam_read inputs path) in
  map_err (λ e, ConfigError ("Failed to parse IAM policy JSON: " +s+ e)) (si_iam_decode inputs content).

Section start.
  Context `{Json} `{UuidFmt} `{KmsCryptoService} `{SqlDisplay} `{DebugTime} `{KeyOrder}.
  Context {A : Type} `{AuditRepository A} {C : Type} `{FredClient C}.
  Context (io_text : IoError → string) (manifest_dir : string).
  Context (env_var read_file : string → option string).

Abbreviation start := (io (Boot A C)).

Definition emit (ev : StartEvent A) : start unit := λ b,
  (Ok (), MkBoot (b_trace b ++ [ev]) (b_world b) (b_redis b)).
Definition emit_world (ev : World A → StartEvent A) : start unit := λ b,
  (Ok (), MkBoot (b_trace b ++ [ev (b_world b)]) (b_world b) (b_redis b)).

(** A step of the application, with its error's text. *)
Definition on_world {X} (m : svc A X) : start X := λ b,
  let (r, w) := m (b_world b) in
  (map_err AppError_display r, MkBoot (b_trace b) w (b_redis b)).
Definition on_redis {X} (m : C → result X AppError * C) : start (result X AppError) := λ b,
  let (r, c) := m (b_redis b) in (Ok r, MkBoot (b_trace b) (b_world b) c).
Definition app_of {X} (r : result X AppError) : start X := io_of (map_err AppError_display r).

(** [kms_db::connect] *)
Definition connect (inputs : StartInputs) (db_set : DatabaseConfig) : result (string * Z) string :=
  let conn_str := connection_string env_var read_file db_set in
  let? _ := si_pg_connect inputs conn_str in
  let? _ := si_pg_ping inputs in
  Ok (conn_str, dc_pool_size db_set).

Definition init_postgres (inputs : StartInputs) (db_set : DatabaseConfig) :
    result (string * Z) AppError :=
  map_err (λ err, ConfigError ("Błędne połączenie z PostgreSQL: " +s+ err)) (connect inputs db_set).

(** [AppState::new]; the use cases it then builds only hold the parts chosen
    here. *)
Definition AppState_new (inputs : StartInputs) (settings : KmsSettings) : start AppState :=
  let> pool := app_of (init_postgres inputs (ks_database settings)) in
  emit (PoolOpened pool.1 pool.2) ;;>
  let> redis_manager :=
    if rd_enabled (ks_redis settings) then
      let> r := on_redis (RedisManager_new io_text (ks_redis settings)) in
      app_of r ;;> emit RedisConnected ;;> io_ret true
    else io_ret false in
  let rate_limiter :=
    if (redis_manager : bool) then InRedis (RedisRateLimiter_new (si_script_load inputs)) else InMemory in
  let nonce_store := if (redis_manager : bool) then InRedis EmptyString else InMemory in
  let compiled_acl := compile (acl_services inputs settings) in
  let spiffe_identity := state_spiffe_identity (ks_spiffe settings) in
  emit WorkersStarted ;;>
  let> iam_policy := app_of (load_from_file inputs (default_policy_path manifest_dir)) in
  io_ret {| as_redis := redis_manager;
            as_rate_limiter := rate_limiter;
            as_nonce_store := nonce_store;
            as_compiled_acl := compiled_acl;
            as_iam_policy := iam_policy;
            as_spiffe_identity := spiffe_identity |}.

(** [AppState::shutdown]: an error of Redis is logged. *)
Definition AppState_shutdown (state : AppState) : start unit :=
  on_world (update_cache cache_clear) ;;> emit CacheCleared ;;>
  (if as_redis state then
     let> r := on_redis RedisManager_close in
     emit RedisClosed
   else io_ret ()) ;;>
  emit PoolClosed.

(** [Command::Serve] once the vHSM has answered after [attempts] attempts.  The
    passes of the workers are not interleaved with the start. *)
Definition run_serve (attempts : nat) (inputs : StartInputs) (settings : KmsSettings) : start unit :=
  emit (VhsmReady attempts) ;;>
  let> state := io_context "Krytyczny błąd inicjalizacji AppState" (AppState_new inputs settings) in
  io_context "Failed to record startup audit event" (on_world (audit (si_audit_log inputs))) ;;>
  emit StartAudited ;;>
  io_context "Krytyczny błąd bootstrapu kluczy KMS"
    (on_world (bootstrap_keys (si_key_envs inputs) (acl_services inputs settings))) ;;>
  emit KeysReady ;;>
  io_context "Invalid server address" (io_of (si_addr inputs)) ;;>
  (if si_uds inputs then emit_world UdsListening else io_ret ()) ;;>
  let> listener := io_of (choose_listener (ks_spiffe settings)) in
  emit_world (HttpListening listener) ;;>
  io_context (match listener with MutualTls => "mTLS HTTP server crashed"
              | PlainHttp => "HTTP server crashed" end) (io_of (si_served inputs)) ;;>
  AppState_shutdown state.

(** [main]: [None] while the vHSM keeps the service waiting. *)
Definition run_command_serve (fuel : nat) (send : nat → result HsmResponse HsmClientError)
    (loaded : result KmsSettings string) (inputs : StartInputs) (b : Boot A C) :
    option (result unit string * Boot A C) :=
  match context "Failed to load configuration" loaded with
  | Err e => Some (Err e, b)
  | Ok settings =>
    match wait_for_vhsm_unsealed fuel send 0 with
    | None => None
    | Some attempts => Some (run_serve attempts inputs settings b)
    end
  end.

(** [Command::Rewrap]; [fuel] bounds the rounds of the loop as well. *)
Definition run_command_rewrap (fuel : nat) (send : nat → result HsmResponse HsmClientError)
    (loaded : result KmsSettings string) (inputs : StartInputs) (ents : nat → nat → Entropy)
    (target_version : Z) (batch_size : nat) (b : Boot A C) :
    option (result nat string * Boot A C) :=
  match context "Failed to load configuration" loaded with
  | Err e => Some (Err e, b)
  | Ok settings =>
    match wait_for_vhsm_unsealed fuel send 0 with
    | None => None
    | Some _ =>
      match io_context "Krytyczny błąd inicjalizacji AppState" (AppState_new inputs settings) b with
      | (Err e, b) => Some (Err e, b)
      | (Ok _, b) =>
        match rewrap_keys fuel ents target_version batch_size (b_world b) with
        | (None, _) => None
        | (Some r, w) =>
          Some (context "Failed to rewrap keys" (map_err AppError_display r),
                MkBoot (b_trace b) w (b_redis b))
        end
      end
    end
  end.

End start.

(** ** The listeners open on a complete set of keys *)

Section start_properties.
  Context `{Json} `{UuidFmt} `{KmsCryptoService} `{SqlDisplay} `{DebugTime}
    `{Horder : KeyOrder} `{!KeyOrderLaws Horder}.
  Context {A : Type} `{AuditRepository A} {C : Type} `{FredClient C}.
  Context (io_text : IoError → string) (manifest_dir : string).
  Context (env_var read_file : string → option string).
  Context (values : list ServiceConfig) (before : list KeyDbRow).

(** A listener that opens on the world [w]. *)
Definition listens (ev : StartEvent A) : option (World A) :=
  match ev with UdsListening w => Some w | HttpListening _ w => Some w | _ => None end.

(** The keys of the access list are there, and no active key was touched. *)
Definition keys_ready (w : World A) : Prop :=
  table_wf (w_keys w) ∧ (∀ r, r ∈ before → kr_is_active r = true → r ∈ w_keys w) ∧
  provided values w.

Definition trace_ok (b : Boot A C) : Prop :=
  ∀ ev w, ev ∈ b_trace b → listens ev = Some w → keys_ready w.

Lemma emit_triple ev (P : World A → Prop) :
  listens ev = None →
  io_triple (λ b, trace_ok b ∧ P (b_world b)) (emit (C := C) ev)
    (λ _ b, trace_ok b ∧ P (b_world b)) trace_ok.
Proof.
  intros He b [Ht Hp]. split; [|done]. intros ev' w. cbn [b_trace].
  rewrite elem_of_app, list_elem_of_singleton. intros [Hin| ->]; [by apply Ht|congruence].
Qed.

Lemma emit_world_triple (ev : World A → StartEvent A) :
  (∀ w, listens (ev w) = Some w) →
  io_triple (λ b, trace_ok b ∧ keys_ready (b_world b)) (emit_world (C := C) ev)
    (λ _ b, trace_ok b ∧ keys_ready (b_world b)) trace_ok.
Proof.
  intros He b [Ht Hp]. split; [|done]. intros ev' w. cbn [b_trace].
  rewrite elem_of_app, list_elem_of_singleton. intros [Hin| ->]; [by apply Ht|].
  rewrite He. by intros [= <-].
Qed.

Lemma on_redis_triple {X} (m : C → result X AppError * C) (P : World A → Prop) :
  io_triple (λ b, trace_ok b ∧ P (b_world b)) (on_redis m) (λ _ b, trace_ok b ∧ P (b_world b)) trace_ok.
Proof. intros b [Ht Hp]. unfold on_redis. by destruct (m (b_redis b)). Qed.

Lemma app_of_triple {X} (r : result X AppError) (P : World A → Prop) :
  io_triple (λ b : Boot A C, trace_ok b ∧ P (b_world b)) (app_of r)
    (λ _ b, trace_ok b ∧ P (b_world b)) trace_ok.
Proof. intros b [Ht Hp]. unfold app_of, io_of. by destruct r. Qed.

Lemma AppState_new_triple inputs settings (P : World A → Prop) :
  io_triple (λ b, trace_ok b ∧ P (b_world b))
    (AppState_new (C := C) io_text manifest_dir env_var read_file inputs settings)
    (λ _ b, trace_ok b ∧ P (b_world b)) trace_ok.
Proof.
  unfold AppState_new.
  eapply io_triple_bind; [apply app_of_triple|intros pool].
  eapply io_triple_bind; [by apply emit_triple|intros []].
  eapply (io_triple_bind _ _ _ (λ _ b, trace_ok b ∧ P (b_world b))).
  { destruct (rd_enabled _); [|by intros b' Hb'].
    eapply io_triple_bind; [apply on_redis_triple|intros r].
    eapply io_triple_bind; [apply app_of_triple|intros []].
    eapply io_triple_bind; [by apply emit_triple|intros []]. by intros b' Hb'. }
  intros redis. eapply io_triple_bind; [by apply emit_triple|intros []].
  eapply io_triple_bind; [apply app_of_triple|intros policy]. by intros b Hb.
Qed.

Lemma AppState_shutdown_triple state :
  io_triple (λ b : Boot A C, trace_ok b) (AppState_shutdown state) (λ _, trace_ok) trace_ok.
Proof.
  intros b Hb. unfold AppState_shutdown.
  apply (io_triple_conseq (λ b, trace_ok b ∧ True) (λ b, trace_ok b ∧ True) _
    (λ _, trace_ok) (λ _ b, trace_ok b ∧ True) trace_ok trace_ok); [|tauto..|done|by split].
  eapply (io_triple_bind _ _ _ (λ _ b, trace_ok b ∧ True)); [by intros b' Hb'|intros u].
  eapply io_triple_bind; [by apply (emit_triple _ (λ _, True))|intros []].
  eapply (io_triple_bind _ _ _ (λ _ b, trace_ok b ∧ True)).
  { destruct (as_redis state); [|by intros b' Hb'].
    eapply io_triple_bind; [apply (on_redis_triple _ (λ _, True))|intros r].
    by apply (emit_triple _ (λ _, True)). }
  intros u'. by apply (emit_triple _ (λ _, True)).
Qed.

(** The steps before the keys, on a table that keeps its invariant. *)
Lemma audit_triple log :
  io_triple (λ b : Boot A C, trace_ok b ∧ w_keys (b_world b) = before) (on_world (audit log))
    (λ _ b, trace_ok b ∧ w_keys (b_world b) = before) trace_ok.
Proof.
  intros b [Ht Hk]. unfold on_world. pose proof (audit_same_store log (b_world b)) as [Hs _].
  destruct (audit log (b_world b)) as [[u|e] w]; cbn [snd] in Hs; [|done].
  split; [done|]. cbn [b_world]. congruence.
Qed.

Lemma provided_perm values' (w : World A) :
  values' ≡ₚ values → provided values' w → provided values w.
Proof. intros P Hp cfg rule Hcfg. apply Hp. by rewrite P. Qed.

Lemma bootstrap_triple envs values' :
  values' ≡ₚ values → table_wf before →
  io_triple (λ b : Boot A C, trace_ok b ∧ w_keys (b_world b) = before)
    (on_world (bootstrap_keys envs values')) (λ _ b, trace_ok b ∧ keys_ready (b_world b)) trace_ok.
Proof.
  intros Hperm Hwf b [Ht Hk]. unfold on_world.
  destruct (bootstrap_keys envs values' (b_world b)) as [[[]|e] w] eqn:E; [|done].
  rewrite <- Hk in Hwf. split; [done|]. cbn [b_world map_err]. unfold keys_ready. rewrite <- Hk.
  destruct (bootstrap_provides_keys envs values' (b_world b) w Hwf E) as (? & ? & Hp).
  split_and!; [done..|]. by eapply provided_perm.
Qed.

(** C9: the service listens only on a complete set of keys.  However the
    start goes on, whenever the Unix socket or the HTTP port opens the keys of
    the access list are in the table, one active key for every rule's service
    and algorithm, the keys marked for preloading are decrypted in the cache,
    and every key that was active before the start is there unchanged. *)
Theorem service_listens_with_keys attempts inputs settings b :
  b_trace b = [] → w_keys (b_world b) = before → table_wf before →
  (∀ l, si_order inputs l ≡ₚ l) → values = (map_to_list (services (ks_acl settings))).*2 →
  trace_ok (run_serve (C := C) io_text manifest_dir env_var read_file attempts inputs settings b).2.
Proof.
  intros Hb0 Hk Hwf Hord Hv.
  assert (acl_services inputs settings ≡ₚ values) as Hperm by (unfold acl_services; by rewrite Hv).
  assert (io_triple (λ b : Boot A C, trace_ok b ∧ w_keys (b_world b) = before)
    (run_serve io_text manifest_dir env_var read_file attempts inputs settings) (λ _, trace_ok) trace_ok) as T.
  { unfold run_serve.
    eapply io_triple_bind; [by apply (emit_triple _ (λ w, w_keys w = before))|intros []].
    eapply io_triple_bind;
      [apply io_triple_context, (AppState_new_triple _ _ (λ w, w_keys w = before))|intros state].
    eapply io_triple_bind; [apply io_triple_context, audit_triple|intros []].
    eapply io_triple_bind; [by apply (emit_triple _ (λ w, w_keys w = before))|intros []].
    eapply io_triple_bind; [by apply io_triple_context, bootstrap_triple|intros []].
    eapply io_triple_bind; [by apply (emit_triple _ keys_ready)|intros []].
    eapply (io_triple_bind _ _ _ (λ _ b, trace_ok b ∧ keys_ready (b_world b)));
      [intros b' Hb'; unfold io_context, io_of; by destruct (si_addr inputs), Hb'|intros u].
    eapply (io_triple_bind _ _ _ (λ _ b, trace_ok b ∧ keys_ready (b_world b))).
    { destruct (si_uds inputs); [by apply emit_world_triple|by intros b' Hb']. }
    intros u'. eapply (io_triple_bind _ _ _ (λ _ b, trace_ok b ∧ keys_ready (b_world b)));
      [intros b' Hb'; unfold io_of; by destruct (choose_listener _), Hb'|intros listener].
    eapply io_triple_bind; [by apply emit_world_triple|intros []].
    eapply (io_triple_bind _ _ _ (λ _ b, trace_ok b));
      [intros b' Hb'; unfold io_context, io_of; by destruct (si_served inputs), Hb'|intros u''].
    apply AppState_shutdown_triple. }
  specialize (T b). destruct (run_serve _ _ _ _ _ _ _ b) as [[x|e] b']; apply T;
    (split; [|done]; intros ev w; rewrite Hb0; by intros ?%not_elem_of_nil).
Qed.

End start_properties.

Section StartupWitnesses.
  Import Concrete ConcreteAudit ConcreteKeys.

#[local] Existing Instances list_audit demo_crypto.

(** A Redis client that is always answered. *)
#[local] Instance calm_redis : FredClient unit := {
  fred_connect _ c := (Completed (Ok ()), c); fred_set _ _ _ c := (Ok (), c);
  fred_get _ c := (Ok None, c); fred_del _ c := (Ok (), c);
  fred_ping c := (Ok (), c); fred_quit c := (Ok (), c) }.

Definition demo_rule (preload : bool) : AccessRule := MkAccessRule "svc" Ed25519 PrivateKey preload.
Definition demo_service (preload : bool) : ServiceConfig :=
  MkServiceConfig "svc" [] [demo_rule preload] None.
Definition retired_row : KeyDbRow :=
  MkKeyDbRow 1 "svc" "Ed25519" 1 [byte_of_Z 7] "pem" "Signing" "Expired" false 5.
Definition retired_world : World (list AuditLog) := MkWorld [retired_row] ∅ [].
Definition boot_env (i : nat) : Env := good_env (2 + Z.of_nat i).

Lemma retired_world_wf : table_wf [retired_row].
Proof.
  split.
  - constructor; [vm_compute; reflexivity|constructor].
  - intros i j r r' Hi Hj Hij. apply list_lookup_singleton_Some in Hi as [-> _], Hj as [-> _]. done.
Qed.

Lemma bootstrap_overwrites_retired_key_witness :
  ∃ w', bootstrap_keys boot_env [demo_service false] retired_world = (Ok (), w') ∧
    ∀ q, q ∈ w_keys w' → kr_id q = 1 → kr_encrypted_key_data q = ciphertext (demo_cipher 2).
Proof.
  destruct (bootstrap_overwrites_retired_key boot_env "svc" [] None (demo_rule false) retired_world []
    retired_row (MkRawKeyPair "pem" (demo_secret 2)) (demo_cipher 2)) as (w' & E & _ & Hq).
  - apply retired_world_wf.
  - vm_compute. reflexivity.
  - intros q [->%list_elem_of_singleton Ha]. vm_compute in Ha. discriminate.
  - reflexivity.
  - left.
  - vm_compute. reflexivity.
  - vm_compute. reflexivity.
  - vm_compute. reflexivity.
  - exists w'. split; [exact E|exact Hq].
Defined.

Definition demo_inputs (served : result unit string) : StartInputs := {|
  si_pg_connect _ := Ok (); si_pg_ping := Ok (); si_script_load := Ok "hash"%string;
  si_iam_read _ := Ok "policy"%string; si_iam_decode _ := Ok (MkIamCredentialPolicy "1" []);
  si_audit_log := AuditLog_new 1 "kms" "kms" SignData Ed25519 Success None None None None None 0;
  si_key_envs := boot_env; si_order l := l; si_addr := Ok ();
  si_uds := true; si_served := served |}.
Definition demo_settings (spiffe_enabled : bool) : KmsSettings := {|
  ks_server_addr := "127.0.0.1:8080"; ks_shutdown_timeout := 30; ks_redis := RedisConfig_default;
  ks_database := DatabaseConfig_default;
  ks_crypto := MkCryptoSettings "/run/vhsm.sock" 1 30 60 5 false 60 60;
  ks_acl := MkAclSettings {["svc"%string := demo_service true]};
  ks_spiffe := MkSpiffeConfig spiffe_enabled None None None None None None None FileFallback;
  ks_providers := [] |}.
Definition demo_start (spiffe_enabled : bool) : result unit string * Boot (list AuditLog) unit :=
  run_serve (λ _, "io"%string) "/kms" (λ _, None) (λ _, None) 0 (demo_inputs (Ok ()))
    (demo_settings spiffe_enabled) (MkBoot [] (MkWorld [] ∅ []) ()).

(** The Unix socket and the HTTP port open on the key the start generates. *)
Lemma service_listens_with_keys_witness :
  (demo_start false).1 = Ok () ∧ length (omap listens (b_trace (demo_start false).2)) = 2%nat ∧
  Forall (keys_ready [demo_service true] []) (omap listens (b_trace (demo_start false).2)).
Proof.
  assert (trace_ok [demo_service true] [] (demo_start false).2) as T.
  { unfold demo_start. apply service_listens_with_keys;
      [reflexivity|reflexivity| |reflexivity|vm_compute; reflexivity].
    split; [constructor|]. intros i j r r' Hi. discriminate. }
  split; [vm_compute; reflexivity|split; [vm_compute; reflexivity|]].
  apply Forall_forall. intros w (ev & Hin & Hev)%list_elem_of_omap. exact (T ev w Hin Hev).
Defined.

(** SPIFFE without its certificate paths stops the start, but the Unix socket
    has been opened by then. *)
Lemma incomplete_tls_found_late :
  (demo_start true).1 = Err ("SPIFFE is enabled but mTLS TLS configuration is incomplete: " +s+
    "cert, key, and trust bundle are required") ∧
  length (omap listens (b_trace (demo_start true).2)) = 1%nat.
Proof. split; vm_compute; reflexivity. Qed.

End StartupWitnesses.
