(* ===== verification/Operations.v ===== *)
(** * Running the system

    What an operator sees of a running system: the probe of the vHSM
    ([vhsm-daemon/src/bin/hsm_probe.rs]), the loops of the background workers
    ([workers/expiration.rs], [workers/cache_cleanup.rs],
    [workers/reconciliation.rs]) with the shutdown that interrupts them, the
    listing of the audit log ([handlers/audit.rs]) and the request to rewrap
    the keys ([handlers/admin.rs]).  The passes of the workers and the rewrap
    itself are in [KeyUseCases] and [Credentials]. *)

From S2P Require Import Prelude.
From S2P Require Import Interfaces.
From S2P Require Import Protocol.
From S2P Require Import Vhsm.
From S2P Require Import Daemon.
From S2P Require Import Domain.
From S2P Require Import Effects.
From S2P Require Import Acl.
From S2P Require Import AuditLog.
From S2P Require Import AuditChain.
From S2P Require Import KeyStore.
From S2P Require Import KeyUseCases.
From S2P Require Import Database.
From S2P Require Import Transactions.
From S2P Require Import Credentials.

(** ** hsm_probe.rs *)

Section probe.
  Context `{HsmCodec} `{Network}.

Definition PROBE_SOCKET_DEFAULT : string := "/run/vhsm/vhsm.sock".
(** two seconds, in nanoseconds *)
Definition PROBE_TIMEOUT : Z := 2 * 1000000000.

(** [timeout(..).await.is_err()]: an I/O error is not looked at. *)
Definition expired {X} (t : timed X) : bool :=
  match t with Elapsed => true | Completed _ => false end.

(** The answer, after the frame was written: the buffers keep what was read
    before an error. *)
Definition probe_answer (st : Stream) : Z :=
  let '(o1, len_buf, st) := read_exact 4 st in
  if expired o1 then 4
  else
    let len := u32_from_be_bytes len_buf in
    if (len =? 0) || (1024 * 1024 <? len) then 5
    else
      let '(o2, payload, _) := read_exact (Z.to_nat len) st in
      if expired o2 then 6
      else match response_from_slice payload with
           | Ok Pong => 0
           | _ => 7
           end.

(** The exit code; [connect] is [UnixStream::connect]. *)
Definition probe_main (env_var : string → option string) (connect : string → result unit IoError) : Z :=
  let socket := default PROBE_SOCKET_DEFAULT (env_var "CRYPTO__HSM_SOCKET_PATH"%string) in
  match connect socket with
  | Err _ => 1
  | Ok _ =>
    match request_to_vec Ping with
    | Err _ => 2
    | Ok payload =>
      match framed_message payload with
      | Err _ => 2
      | Ok frame =>
        if expired (net_write socket frame PROBE_TIMEOUT) then 3
        else probe_answer (net_reply socket frame PROBE_TIMEOUT)
      end
    end
  end.

End probe.

(** ** The loops of the workers *)

(** One turn of [tokio::select!]: the pass and its pause are completed, or the
    shutdown token is cancelled, which drops the pass after the given number of
    its awaits. *)
Inductive Turn (R : Type) := Completes (r : R) | Cancelled (r : R) (awaits : nat).
Arguments Completes {R}.
Arguments Cancelled {R}.

(** The loop over the turns; [partial] is the pass up to an await. *)
Fixpoint run_worker {R S : Type} (pass : R → S → S) (partial : R → nat → S → S)
    (turns : list (Turn R)) (s : S) : S :=
  match turns with
  | [] => s
  | Completes r :: turns => run_worker pass partial turns (pass r s)
  | Cancelled r n :: _ => partial r n s
  end.

Section workers.
  Context `{UuidFmt} `{SqlDisplay} {A : Type} `{AuditRepository A}.

(** Steps one after the other, as long as they succeed. *)
Fixpoint svc_steps (steps : list (svc A unit)) : svc A unit :=
  match steps with
  | [] => svc_ret ()
  | step :: steps => step ;;* svc_steps steps
  end.

(** The awaits of [process_expirations] after the query: two for each key. *)
Fixpoint expire_steps (ids : nat → Z) (now : Z) (expired : list KeyPairEntity) : list (svc A unit) :=
  match expired with
  | [] => []
  | key :: expired =>
    update_keys (λ db, let? db := update_key_status db (ke_id key) Expired None in Ok ((), db)) ::
    audit (AuditLog_new (ids (length expired)) (ke_service_id key) (ke_service_id key) KeyExpired
      (ke_algorithm key) Success
      (sanitize_reason (Some "Deprecated period expired; key expired automatically"%string))
      None None (Some (uuid_to_string (ke_id key))) (Some "key_expired"%string) now) ::
    expire_steps ids now expired
  end.

(** [process_expirations] dropped after [n] awaits of the loop. *)
Definition process_expirations_until (ids : nat → Z) (now : Z) (n : nat) : svc A unit :=
  let* expired := with_keys (λ db, get_deprecated_keys_expired db now) in
  svc_steps (take n (expire_steps ids now expired)).

(** An error of a pass is logged. *)
Definition run_expiration_worker (turns : list (Turn ((nat → Z) * Z))) (w : World A) : World A :=
  run_worker (λ r w, (process_expirations r.1 r.2 w).2)
    (λ r n w, (process_expirations_until r.1 r.2 n w).2) turns w.

End workers.

Section cleanup_worker.
  Context `{KeyOrder} `{SqlDisplay} {A : Type}.

(** The pass awaits one query for each entry of the snapshot. *)
Definition run_cache_cleanup (turns : list (Turn Z)) (w : World A) : World A :=
  run_worker (λ now w, (cache_cleanup now w).2)
    (λ now n w, (cleanup_entries now (take n (keys_snapshot (w_cache w))) w).2) turns w.

End cleanup_worker.

(** The pass awaits its query and only logs what it found: the database and
    the lines of the log. *)
Definition run_reconciliation_worker (turns : list (Turn Z)) (s : KmsDb * list Z) : KmsDb * list Z :=
  run_worker (λ now '(db, log), (db, log ++ reconcile_stale_provisioning now db))
    (λ now n '(db, log), (db, if (n =? 0)%nat then log else log ++ reconcile_stale_provisioning now db))
    turns s.

(** ** handlers/audit.rs: the listing *)

(** [AuditQueries::active_signing_public_keys] *)
Definition active_signing_public_keys (keys : list KeyDbRow) : list string :=
  kr_public_key_pem <$>
    filter (λ r, kr_purpose r = "Signing"%string ∧ kr_is_active r = true) keys.

Section listing.
  Context `{Chrono} `{UuidFmt} `{SqlDisplay}.

(** The object of a row, in the order of the insertions. *)
Definition audit_log_entry (rec : AuditRow) : Value :=
  VObject (btree_of_list [
    ("id"%string, VString (uuid_to_string (ar_id rec)));
    ("caller_service"%string, VString (ar_caller_service rec));
    ("target_service"%string, VString (ar_target_service rec));
    ("action"%string, VString (ar_action rec));
    ("algorithm"%string, VString (ar_algorithm rec));
    ("status"%string, VString (ar_status rec));
    ("reason"%string, opt_value (ar_reason rec));
    ("prev_hash"%string, VString (ar_prev_hash rec));
    ("hash"%string, VString (ar_hash rec));
    ("created_at"%string, VString (to_rfc3339 (ar_created_at rec)))]).

Definition audit_logs_handler (acl : AclSettings) (caller : ServiceId) (db : list AuditRow)
    (keys : list KeyDbRow) : result Value AppError :=
  if negb (AclSettings_has_control_action acl caller AuditRead) then Err Forbidden
  else
    let? rows := map_err db_error (list_recent db None true) in
    let signing_keys := active_signing_public_keys keys in
    Ok (VObject (btree_of_list [
      ("logs"%string, VArray (audit_log_entry <$> rows));
      ("signing_public_keys"%string, VArray (VString <$> signing_keys))])).

End listing.

(** ** handlers/admin.rs: the rewrap *)

Record RewrapKeysRequest := MkRewrapKeysRequest {
  (** [i32] *)
  rw_target_version : Z;
  rw_batch_size : nat }.

Section rewrap.
  Context `{KmsCryptoService} `{SqlDisplay} {A : Type}.

(** Any authenticated caller; [None] when the rounds are used up. *)
Definition rewrap_keys_handler (fuel : nat) (ents : nat → nat → Entropy) (caller : ServiceId)
    (payload : RewrapKeysRequest) (w : World A) : option (result Value AppError * World A) :=
  match rewrap_keys fuel ents (rw_target_version payload) (rw_batch_size payload) w with
  | (None, _) => None
  | (Some (Err e), w) => Some (Err e, w)
  | (Some (Ok count), w) =>
    Some (Ok (VObject (btree_of_list [
      ("rewrapped"%string, VNumber (pretty count));
      ("target_version"%string, VNumber (pretty (rw_target_version payload)));
      ("batch_size"%string, VNumber (pretty (rw_batch_size payload)))])), w)
  end.

End rewrap.

(** ** The probe and the daemon *)

Section probe_properties.
  Context `{SsssLib} `{Aead} `{Sha256} `{Hex} `{P256} `{X509} `{Hcodec : HsmCodec} `{!HsmCodecLaws Hcodec}.

(** The probe exits with 0 on every daemon that answers, in whatever
    state: a sealed vHSM, which refuses every encryption, passes it. *)
Theorem probe_passes_sealed ent now s env_var bs bs' :
  request_to_vec Ping = Ok bs → blen bs ≤ MAX_PAYLOAD_SIZE →
  response_to_vec Pong = Ok bs' → 0 < blen bs' ≤ MAX_PAYLOAD_SIZE →
  probe_main (H0 := vhsm_socket ent now s) env_var (λ _, Ok ()) = 0.
Proof.
  intros Hbs Hlen Hbs' [Hpos Hlen']. unfold probe_main. rewrite Hbs.
  rewrite (proj2 (framed_message_ok bs _) (conj eq_refl (daemon_frame_fits _ Hlen))).
  rewrite (vhsm_socket_reply ent now s _ Ping _ bs Pong s bs') by done.
  pose proof (daemon_frame_fits _ Hlen') as Hfit. cbn [net_write vhsm_socket expired].
  unfold probe_answer. rewrite (read_exact_app 4) by done. cbn [expired].
  rewrite blen_be_range by done.
  rewrite (proj2 (Z.eqb_neq _ _)) by lia. rewrite (proj2 (Z.ltb_ge _ _)) by exact Hfit. cbn [orb].
  rewrite <- (app_nil_r bs') at 2. rewrite read_exact_app by (unfold blen; lia). cbn [expired].
  by rewrite (response_roundtrip Pong bs' eq_refl Hbs').
Qed.

End probe_properties.

(** ** The workers *)

Section worker_properties.
  Context `{UuidFmt} `{SqlDisplay} {A : Type} `{AuditRepository A}.
  Implicit Types w : World A.

Lemma run_worker_ind {R S} (pass : R → S → S) partial (P : S → Prop) :
  (∀ r s, P s → P (pass r s)) → (∀ r n s, P s → P (partial r n s)) →
  ∀ turns s, P s → P (run_worker pass partial turns s).
Proof.
  intros Hpass Hpart. induction turns as [|[r|r n] turns IH]; intros s Hs; cbn [run_worker]; auto.
Qed.

(** The steps are the loop. *)
Lemma expire_steps_all ids now es : ∀ w,
  svc_steps (expire_steps ids now es) w = expire_keys ids now es w.
Proof.
  induction es as [|e es IH]; intros w; [done|]. cbn [expire_steps svc_steps expire_keys].
  unfold svc_bind at 1 3. destruct (update_keys _ w) as [[u|err] w1]; [|done].
  unfold svc_bind at 1 2. destruct (audit _ w1) as [[u'|err] w2]; [apply IH|done].
Qed.

Lemma svc_steps_inv (P : World A → Prop) steps :
  Forall (λ m, ∀ w, P w → P (m w).2) steps → ∀ w, P w → P (svc_steps steps w).2.
Proof.
  induction 1 as [|m steps Hm _ IH]; intros w Hw; [done|]. cbn [svc_steps]. unfold svc_bind.
  specialize (Hm w Hw). destruct (m w) as [[u|e] w1]; [by apply IH|done].
Qed.

Lemma expire_steps_wf ids now es :
  Forall (λ m : svc A unit, ∀ w, table_wf (w_keys w) → table_wf (w_keys (m w).2))
    (expire_steps ids now es).
Proof.
  induction es as [|e es IH]; cbn [expire_steps]; [constructor|constructor; [|constructor; [|done]]].
  - intros w Hw. unfold update_keys. rewrite update_key_status_inactive by done.
    by apply table_wf_update; [apply set_status_passive|].
  - intros w Hw. match goal with |- context [audit ?l w] =>
      destruct (audit_same_store l w) as [Hs _] end. by rewrite Hs.
Qed.

(** Whenever the shutdown comes, the worker leaves a well-formed key table. *)
Lemma expiration_worker_wf turns w :
  table_wf (w_keys w) → table_wf (w_keys (run_expiration_worker turns w)).
Proof.
  apply (run_worker_ind _ _ (λ w, table_wf (w_keys w))); clear.
  - intros [ids now] w Hw. cbn [fst snd]. unfold process_expirations, svc_bind, with_keys.
    destruct (get_deprecated_keys_expired (w_keys w) now) as [es|e]; [|done].
    rewrite <- expire_steps_all. apply (svc_steps_inv (λ w, table_wf (w_keys w))); [apply expire_steps_wf|done].
  - intros [ids now] n w Hw. cbn [fst snd]. unfold process_expirations_until, svc_bind, with_keys.
    destruct (get_deprecated_keys_expired (w_keys w) now) as [es|e]; [|done].
    apply (svc_steps_inv (λ w, table_wf (w_keys w))); [|done]. apply Forall_take, expire_steps_wf.
Qed.

(** A shutdown can lose an expiry.  When the token is cancelled between the
    two statements for a key, the key is expired, the audit log has no record
    of it, and no later pass sees the key again. *)
Theorem shutdown_loses_expiry ids now w e es :
  get_deprecated_keys_expired (w_keys w) now = Ok (e :: es) →
  let w' := run_expiration_worker [Cancelled (ids, now) 1] w in
  w_audit w' = w_audit w ∧
  w_keys w' = update_where (λ r, kr_id r =? ke_id e) (set_status "Expired" false) (w_keys w) ∧
  ∀ now' es', get_deprecated_keys_expired (w_keys w') now' = Ok es' →
    ∀ e', e' ∈ es' → ke_id e' ≠ ke_id e.
Proof.
  intros E w'.
  assert (w' = MkWorld (update_where (λ r, kr_id r =? ke_id e) (set_status "Expired" false) (w_keys w))
    (w_cache w) (w_audit w)) as ->.
  { unfold w'. cbn [run_expiration_worker run_worker]. unfold process_expirations_until, svc_bind, with_keys.
    cbn [fst snd]. rewrite E. cbn [expire_steps take svc_steps]. unfold svc_bind, update_keys.
    by rewrite update_key_status_inactive. }
  split_and!; [done..|]. intros now' es' E' e' He' Hid. cbn [w_keys] in E'.
  apply result_bind_Ok in E' as (ents & F%map_key_rows_Forall2 & [= <-]).
  apply list_elem_of_filter in He' as [_ [i Hi]%list_elem_of_lookup_1].
  destruct (Forall2_lookup_r _ _ _ _ _ F Hi) as (r & Hr%list_elem_of_lookup_2 & Hm).
  unfold KeyQueries_get_deprecated_keys_expired in Hr.
  rewrite merge_sort_Permutation, list_elem_of_filter in Hr. destruct Hr as [Hs Hr].
  apply map_key_row_fields in Hm as (Hide & _). unfold update_where in Hr.
  apply list_elem_of_fmap in Hr as (q & -> & _).
  destruct (kr_id q =? ke_id e) eqn:Eq; [done|]. apply Z.eqb_neq in Eq. congruence.
Qed.

End worker_properties.

Section cleanup_properties.
  Context `{KeyOrder} `{SqlDisplay} {A : Type}.
  Implicit Types w : World A.

Lemma cleanup_entries_shrinks now entries : ∀ w,
  let w' := (cleanup_entries now entries w).2 in
  w_keys w' = w_keys w ∧ w_audit w' = w_audit w ∧ w_cache w' ⊆ w_cache w.
Proof.
  induction entries as [|[s a] entries IH]; intros w; [done|]. cbn [cleanup_entries].
  assert (∀ w1 w', w_keys w1 = w_keys w ∧ w_audit w1 = w_audit w ∧ w_cache w1 ⊆ w_cache w →
    w_keys w' = w_keys w1 ∧ w_audit w' = w_audit w1 ∧ w_cache w' ⊆ w_cache w1 →
    w_keys w' = w_keys w ∧ w_audit w' = w_audit w ∧ w_cache w' ⊆ w_cache w) as Htrans.
  { intros w1 w' (-> & -> & Hc1) (-> & -> & Hc2). split_and!; [done..|]. by transitivity (w_cache w1). }
  unfold svc_bind. destruct (get_active_or_valid_deprecated_key (w_keys w) s a now) as [[e|]|err];
    [apply IH| |apply IH].
  unfold update_cache. eapply Htrans; [|apply IH]. split_and!; [done..|]. apply map_filter_subseteq.
Qed.

(** The cleanup never touches the table or the log, and only drops entries of
    the cache. *)
Lemma cache_cleanup_worker_shrinks turns w :
  let w' := run_cache_cleanup turns w in
  w_keys w' = w_keys w ∧ w_audit w' = w_audit w ∧ w_cache w' ⊆ w_cache w.
Proof.
  apply (run_worker_ind _ _ (λ w', w_keys w' = w_keys w ∧ w_audit w' = w_audit w ∧ w_cache w' ⊆ w_cache w));
    [| |done].
  - intros now w1 (<- & <- & Hc). unfold cache_cleanup, svc_bind, with_cache.
    destruct (cleanup_entries_shrinks now (keys_snapshot (w_cache w1)) w1) as (-> & -> & Hc').
    split_and!; [done..|]. by transitivity (w_cache w1).
  - intros now n w1 (<- & <- & Hc).
    destruct (cleanup_entries_shrinks now (take n (keys_snapshot (w_cache w1))) w1) as (-> & -> & Hc').
    split_and!; [done..|]. by transitivity (w_cache w1).
Qed.

End cleanup_properties.

(** ** The listing and the rewrap *)

Section listing_properties.
  Context `{Chrono} `{UuidFmt} `{SqlDisplay}.

Definition value_field (k : string) (v : Value) : option Value :=
  match v with
  | VObject l => snd <$> List.find (λ kv, String.eqb k kv.1) l
  | _ => None
  end.

(** A caller with [AuditRead], and no other, gets every row of the audit
    log once, in the order of the chain, with its id, its hash and the hash it
    links to. *)
Theorem audit_listing_exact acl caller db keys :
  match audit_logs_handler acl caller db keys with
  | Err e => e = Forbidden ∧ AclSettings_has_control_action acl caller AuditRead = false
  | Ok v =>
    AclSettings_has_control_action acl caller AuditRead = true ∧
    ∃ rows logs, rows ≡ₚ db ∧ Sorted row_le rows ∧ value_field "logs" v = Some (VArray logs) ∧
      Forall2 (λ r log, value_field "id" log = Some (VString (uuid_to_string (ar_id r))) ∧
        value_field "hash" log = Some (VString (ar_hash r)) ∧
        value_field "prev_hash" log = Some (VString (ar_prev_hash r))) rows logs
  end.
Proof.
  unfold audit_logs_handler. destruct (AclSettings_has_control_action _ _ _); [|done].
  cbn [negb list_recent map_err result_bind]. split; [done|].
  exists (sorted_rows db), (audit_log_entry <$> sorted_rows db). split_and!.
  - apply merge_sort_Permutation.
  - apply Sorted_merge_sort, _.
  - done.
  - apply Forall2_fmap_r, Forall_Forall2_diag, Forall_true. done.
Qed.

End listing_properties.

Section rewrap_properties.
  Context `{KmsCryptoService} `{SqlDisplay} {A : Type}.

(** A batch size of zero is accepted: the answer says that nothing had to be
    rewrapped, whatever the table holds. *)
Lemma rewrap_zero_batch fuel ents caller version (w : World A) :
  current_master_key_version = Ok version →
  rewrap_keys_handler (S fuel) ents caller (MkRewrapKeysRequest version 0) w =
  Some (Ok (VObject (btree_of_list [
    ("rewrapped"%string, VNumber "0"); ("target_version"%string, VNumber (pretty version));
    ("batch_size"%string, VNumber "0")])), w).
Proof.
  intros E. unfold rewrap_keys_handler, rewrap_keys. cbn [rw_target_version rw_batch_size].
  rewrite E, Z.eqb_refl. cbn [negb rewrap_loop]. unfold rewrap_round, svc_bind, with_keys.
  unfold get_keys_needing_rewrap. by rewrite take_0.
Qed.

End rewrap_properties.

Section OperationsWitnesses.
  Import Concrete ConcreteAudit ConcreteKeys.

#[local] Existing Instances list_audit demo_crypto small_codec small_codec_laws.

Lemma probe_passes_sealed_witness :
  is_unsealed VhsmState_new = false ∧
  probe_main (H0 := vhsm_socket ent0 0 VhsmState_new) (λ _, None) (λ _, Ok ()) = 0.
Proof.
  split; [reflexivity|]. apply (probe_passes_sealed ent0 0 VhsmState_new (λ _, None) [tag 0] [tag 0]);
    [reflexivity|vm_compute; discriminate|reflexivity|split; [reflexivity|vm_compute; discriminate]].
Defined.

Definition demo_expired : list KeyPairEntity :=
  match get_deprecated_keys_expired (w_keys demo_rotated) (2000 + minutes 30) with
  | Ok es => es | Err _ => []
  end.

Lemma shutdown_loses_expiry_witness :
  let w' := run_expiration_worker [Cancelled (λ _ : nat, 7, 2000 + minutes 30) 1] demo_rotated in
  w_audit w' = w_audit demo_rotated ∧ kr_status <$> w_keys w' = ["Expired"; "Active"]%string.
Proof.
  destruct (shutdown_loses_expiry (λ _, 7) (2000 + minutes 30) demo_rotated
    (hd (demo_entity 0 0) demo_expired) (tl demo_expired)) as (Ha & Hk & _).
  - vm_compute. reflexivity.
  - split; [exact Ha|]. cbn zeta. rewrite Hk. vm_compute. reflexivity.
Defined.

End OperationsWitnesses.
