(* ===== verification/Interleaving.v ===== *)
(** * Key requests and workers side by side

    The service runs its requests and its workers as tasks of one runtime: at
    every await of the key repository or of the audit repository another task
    may go on.  Here each use case of [KeyUseCases] and the bootstrap of
    [Startup] is a program over the calls it awaits and the accesses to the key
    cache, which holds its lock for one access.  A system runs any number of
    them, one call at a time; a call to the database may fail before or after
    it took effect, and a task may be dropped between two calls, as a handler is
    when its client goes away and a worker at shutdown.  An audit record is
    one call: its two statements are taken apart in [AuditChain]. *)

From S2P Require Import Prelude.
From S2P Require Import Interfaces.
From S2P Require Import Domain.
From S2P Require Import Acl.
From S2P Require Import AuditLog.
From S2P Require Import AuditChain.
From S2P Require Import KeyStore.
From S2P Require Import KeyUseCases.
From S2P Require Import Startup.

(** ** Programs *)

Inductive kprog (X : Type) : Type :=
| Done (r : result X AppError)
| Query {Y : Type} (f : list KeyDbRow → result Y AppError) (k : result Y AppError → kprog X)
| Update {Y : Type} (f : list KeyDbRow → result (Y * list KeyDbRow) AppError)
    (k : result Y AppError → kprog X)
| Cached {Y : Type} (f : KeyCache → Y * KeyCache) (k : Y → kprog X)
| Audited (log : AuditLog) (k : result unit AppError → kprog X).
Arguments Done {X}.
Arguments Query {X Y}.
Arguments Update {X Y}.
Arguments Cached {X Y}.
Arguments Audited {X}.

Fixpoint kbind {X Y} (p : kprog X) (k : X → kprog Y) : kprog Y :=
  match p with
  | Done (Ok x) => k x
  | Done (Err e) => Done (Err e)
  | Query f h => Query f (λ r, kbind (h r) k)
  | Update f h => Update f (λ r, kbind (h r) k)
  | Cached f h => Cached f (λ y, kbind (h y) k)
  | Audited log h => Audited log (λ r, kbind (h r) k)
  end.

Notation "'let~' x ':=' m 'in' k" := (kbind m (λ x, k))
  (at level 10, x pattern, m at level 100, k at level 200,
   format "'[hv' 'let~'  x  ':='  m  'in'  '/' k ']'") : kms_scope.
Notation "m ';;~' k" := (kbind m (λ _, k))
  (at level 100, right associativity, format "'[hv' m  ';;~' '/' k ']'") : kms_scope.

Definition kret {X} (x : X) : kprog X := Done (Ok x).
Definition kerr {X} (e : AppError) : kprog X := Done (Err e).
Definition query {Y} (f : list KeyDbRow → result Y AppError) : kprog Y := Query f Done.
Definition update {Y} (f : list KeyDbRow → result (Y * list KeyDbRow) AppError) : kprog Y :=
  Update f Done.
Definition cache_read {Y} (f : KeyCache → Y) : kprog Y := Cached (λ c, (f c, c)) kret.
Definition cache_write (f : KeyCache → KeyCache) : kprog unit := Cached (λ c, ((), f c)) kret.
Definition krecord (log : AuditLog) : kprog unit := Audited log Done.

(** ** The use cases as programs *)

Section Programs.
  Context `{Json} `{UuidFmt} `{KmsCryptoService} `{SqlDisplay} `{DebugTime} `{KeyOrder}
    `{Ed25519Sign}.
  Implicit Types (env : Env) (ctx : RequestContext) (acl : CompiledAcl).

Definition ksuccess env ctx (action : AuditAction) (details : option Value) : kprog unit :=
  record_success krecord (env_audit_id env) (env_now env) ctx action details.
Definition kfailure env ctx (action : AuditAction) (reason : string) : kprog unit :=
  record_failure krecord (env_audit_id env) (env_now env) ctx action reason.
Definition kdenied env ctx (action : AuditAction) (reason : string) : kprog unit :=
  record_access_denied krecord (env_audit_id env) (env_now env) ctx action reason.
Definition kinvalid env ctx (action : AuditAction) (reason : string) : kprog unit :=
  record_validation_failure krecord (env_audit_id env) (env_now env) ctx action reason.

Definition generate_program acl env ctx (input : GenerateKeyPairInput) : kprog KeyPairEntity :=
  let may := authorize_control_action acl (gi_caller_service input) in
  if negb (may GenerateKeys || may RotateOwnKeys || may RotateAllKeys) then
    kdenied env ctx GenerateKey "ACL Policy Violation for GenerateKey" ;;~
    kerr Unauthorized
  else
    let~ current_key :=
      query (λ db, get_active_key db (gi_service_id input) (gi_algorithm input)) in
    let~ version :=
      match current_key with
      | Some key =>
        update (λ db, Ok ((),
          deactivate_keys_for_service db (gi_service_id input) (gi_algorithm input))) ;;~
        kret (as_u32 (ke_version key + 1))
      | None => kret 1
      end in
    let~ generated_pair :=
      Done (generate_for "ECDSA_P256 is not supported for in-process key generation" env
              (gi_algorithm input)) in
    let~ encrypted :=
      Done (encrypt_private_key (env_encrypt env) (rk_private_key_bytes generated_pair)) in
    let entity := {|
      ke_id := env_key_id env; ke_service_id := gi_service_id input;
      ke_algorithm := gi_algorithm input; ke_purpose := gi_purpose input;
      ke_public_key_pem := rk_public_key_pem generated_pair;
      ke_encrypted_private_key := encrypted; ke_version := version;
      ke_status := Active; ke_created_at := env_now env; ke_expires_at := None |} in
    update (λ db, let? db := save_key db (env_now env) entity in Ok ((), db)) ;;~
    ksuccess env ctx GenerateKey (json [
      ("target_service", VString (gi_service_id input));
      ("algorithm", VString (KeyAlgorithm_debug (gi_algorithm input)));
      ("key_id", VString (uuid_to_string (ke_id entity)));
      ("version", VNumber (pretty (ke_version entity)));
      ("purpose", VString (KeyPurpose_debug (gi_purpose input)))]%string) ;;~
    kret entity.

Definition rotate_program (retire_first : bool) (grace_period_minutes : Z) acl env ctx
    (input : RotateKeyInput) : kprog KeyPairEntity :=
  let required_action :=
    if bool_decide (ri_service_id input = ri_caller_service input)
    then RotateOwnKeys else RotateAllKeys in
  if negb (authorize_control_action acl (ri_caller_service input) required_action) then
    kdenied env ctx KeyRotated "ACL Policy Violation" ;;~ kerr Unauthorized
  else
    let~ active :=
      query (λ db, get_active_key db (ri_service_id input) (ri_algorithm input)) in
    let~ active_key :=
      match active with
      | Some k => kret k
      | None => kerr (NotFound ("Cannot rotate key: No active key exists for service '"
          +s+ ri_service_id input +s+ "' with algorithm '"
          +s+ KeyAlgorithm_debug (ri_algorithm input) +s+ "'"))
      end in
    let~ generated_pair :=
      Done (generate_for "ECDSA_P256 rotation is not supported by this service" env
              (ri_algorithm input)) in
    let~ encrypted :=
      Done (encrypt_private_key (env_encrypt env) (rk_private_key_bytes generated_pair)) in
    let new_entity := {|
      ke_id := env_key_id env; ke_service_id := ri_service_id input;
      ke_algorithm := ri_algorithm input; ke_purpose := ke_purpose active_key;
      ke_public_key_pem := rk_public_key_pem generated_pair;
      ke_encrypted_private_key := encrypted;
      ke_version := as_u32 (ke_version active_key + 1);
      ke_status := Active; ke_created_at := env_now env; ke_expires_at := None |} in
    let deprecated_until :=
      match ri_reason input with
      | Scheduled | Manual => Some (env_now env + minutes grace_period_minutes)
      | RotationCompromised => None
      end in
    let~ rotated :=
      update (λ db, rotate_active_key retire_first db (env_now env) (ri_service_id input)
                      (ri_algorithm input) new_entity deprecated_until) in
    if negb rotated then
      kerr (Conflict "Failed to rotate key atomically: concurrent modification or active-key race")
    else
      cache_write (λ c,
        match ri_reason input with
        | RotationCompromised => remove_all_for_service c (ri_service_id input)
        | _ => cache_remove c (ri_service_id input) (ri_algorithm input)
        end) ;;~
      ksuccess env ctx KeyRotated (json [
        ("service_id", VString (ri_service_id input));
        ("algorithm", VString (KeyAlgorithm_debug (ri_algorithm input)));
        ("reason", VString (RotationReason_debug (ri_reason input)));
        ("actor_id", VString (ri_actor_id input));
        ("new_version", VNumber (pretty (ke_version new_entity)))]%string) ;;~
      kret new_entity.

Definition get_key_program (level : KeyAccessLevel) (action : AuditAction)
    (denied missing : string) (not_found : AppError) acl env ctx (input : GetKeyInput) :
    kprog GetKeyOutput :=
  let target := ki_target_service input in
  let algo := ki_algorithm input in
  if negb (authorize_key_access acl (ki_caller_service input) target algo level) then
    kdenied env ctx action denied ;;~ kerr Unauthorized
  else
    let~ cached := cache_read (λ c, with_key c target algo (λ v bs, (v, bs))) in
    match cached with
    | Some (cached_version, cached_bytes) =>
      ksuccess env ctx action (json [
        ("cache_hit", VBool true);
        ("target_service", VString target);
        ("algorithm", VString (KeyAlgorithm_debug algo))]%string) ;;~
      kret (MkGetKeyOutput target algo cached_version cached_bytes)
    | None =>
      let~ key := query (λ db, get_active_key db target algo) in
      match key with
      | None => kinvalid env ctx action missing ;;~ kerr not_found
      | Some active_key =>
        let~ decrypted := Done (decrypt_private_key (ke_encrypted_private_key active_key)) in
        (if CompiledAcl_should_preload_for acl target algo then
           cache_write (λ c, cache_insert c target algo (ke_version active_key) decrypted)
         else kret ()) ;;~
        ksuccess env ctx action (json [
          ("target_service", VString target);
          ("algorithm", VString (KeyAlgorithm_debug algo));
          ("version", VNumber (pretty (ke_version active_key)))]%string) ;;~
        kret (MkGetKeyOutput (ke_service_id active_key) (ke_algorithm active_key)
                (ke_version active_key) decrypted)
      end
    end.

Definition get_private_key_program acl env ctx (input : GetKeyInput) : kprog GetKeyOutput :=
  get_key_program PrivateKey GetPrivateKey "ACL Policy Violation" "Key does not exist"
    (NotFound "Key not found") acl env ctx input.

Definition get_symmetric_key_program acl env ctx (input : GetKeyInput) : kprog GetKeyOutput :=
  get_key_program SymmetricKey GetSymmetricKey "ACL Policy Violation for Symmetric Key"
    "Symmetric Key does not exist"
    (NotFound ("Brak aktywnego klucza symetrycznego dla " +s+ ki_target_service input))
    acl env ctx input.

Definition get_public_key_program env ctx (service_id : ServiceId) (algorithm : KeyAlgorithm) :
    kprog KeyPairEntity :=
  let~ key :=
    query (λ db, get_active_or_valid_deprecated_key db service_id algorithm (env_now env)) in
  match key with
  | Some k =>
    ksuccess env ctx GetPublicKey (json [
      ("service_id", VString service_id);
      ("algorithm", VString (KeyAlgorithm_debug algorithm));
      ("key_version", VNumber (pretty (ke_version k)))]%string) ;;~
    kret k
  | None =>
    kinvalid env ctx GetPublicKey "No active or valid deprecated public key found" ;;~
    kerr (NotFound ("No active or valid deprecated public key found for service '"
      +s+ service_id +s+ "' with algorithm '" +s+ KeyAlgorithm_debug algorithm +s+ "'"))
  end.

Definition signing_key_program (input : SignDataInput) : kprog (option KeyPairEntity) :=
  match si_key_version input with
  | Some version =>
    query (λ db, get_key_by_version db (si_target_service input) (si_algorithm input) version)
  | None => query (λ db, get_active_key db (si_target_service input) (si_algorithm input))
  end.

Definition signing_bytes_program acl env ctx (input : SignDataInput) : kprog (list byte) :=
  let target := si_target_service input in
  let algo := si_algorithm input in
  let~ cached := cache_read (λ c, with_key c target algo (λ _ bytes, bytes)) in
  match cached with
  | Some bytes => kret bytes
  | None =>
    let~ key := signing_key_program input in
    match key with
    | None =>
      kinvalid env ctx SignData "Signing key not found" ;;~
      kerr (NotFound "Signing key not found")
    | Some key =>
      match decrypt_private_key (ke_encrypted_private_key key) with
      | Err e => kfailure env ctx SignData (AppError_display e) ;;~ kerr e
      | Ok bytes =>
        (if CompiledAcl_should_preload_for acl target algo then
           cache_write (λ c, cache_insert c target algo (ke_version key) bytes)
         else kret ()) ;;~
        kret bytes
      end
    end
  end.

Definition sign_data_program acl env ctx (input : SignDataInput) : kprog SignDataOutput :=
  let target := si_target_service input in
  let algo := si_algorithm input in
  if negb (bool_decide (algo = Ed25519)) then
    kinvalid env ctx SignData "Only Ed25519 signing is supported" ;;~
    kerr (ValidationError "Signing endpoint supports only Ed25519 keys")
  else if negb (authorize_key_access acl (si_caller_service input) target algo PrivateKey) then
    kdenied env ctx SignData "ACL Policy Violation" ;;~ kerr Unauthorized
  else
    let~ private_key_bytes := signing_bytes_program acl env ctx input in
    if (length private_key_bytes <? 32)%nat then
      kfailure env ctx SignData "Invalid Ed25519 private key length" ;;~
      kerr (CryptoError "Invalid Ed25519 private key length" None)
    else
      let signature := ed25519_sign (take 32 private_key_bytes) (si_payload input) in
      let~ output_version :=
        match si_key_version input with
        | Some version => kret version
        | None =>
          let~ key := query (λ db, get_active_key db target algo) in
          kret (from_option ke_version 0 key)
        end in
      ksuccess env ctx SignData (json [
        ("target_service", VString target);
        ("algorithm", VString (KeyAlgorithm_debug algo));
        ("key_version", VNumber (pretty output_version));
        ("payload_len", VNumber (pretty (length (si_payload input))))]%string) ;;~
      kret (MkSignDataOutput target algo output_version signature).

Fixpoint expire_program (ids : nat → Z) (now : Z) (expired : list KeyPairEntity) : kprog unit :=
  match expired with
  | [] => kret ()
  | key :: expired =>
    update (λ db, let? db := update_key_status db (ke_id key) Expired None in Ok ((), db)) ;;~
    krecord (AuditLog_new (ids (length expired)) (ke_service_id key) (ke_service_id key) KeyExpired
      (ke_algorithm key) Success
      (sanitize_reason (Some "Deprecated period expired; key expired automatically"%string))
      None None (Some (uuid_to_string (ke_id key))) (Some "key_expired"%string) now) ;;~
    expire_program ids now expired
  end.

Definition process_expirations_program (ids : nat → Z) (now : Z) : kprog unit :=
  let~ expired := query (λ db, get_deprecated_keys_expired db now) in
  expire_program ids now expired.

(** A database error leaves the entry. *)
Fixpoint cleanup_program (now : Z) (entries : list KeyCacheKey) : kprog unit :=
  match entries with
  | [] => kret ()
  | (service, algo) :: entries =>
    Query (λ db, get_active_or_valid_deprecated_key db service algo now) (λ r,
      match r with
      | Ok None => cache_write (λ c, remove_all_for_service c service)
      | _ => kret ()
      end) ;;~
    cleanup_program now entries
  end.

Definition cache_cleanup_program (now : Z) : kprog unit :=
  let~ entries := cache_read keys_snapshot in
  cleanup_program now entries.

Definition rewrap_round_program (ents : nat → Entropy) (current_version : Z) (batch_size : nat) :
    kprog (option nat) :=
  let~ pending := query (λ db, get_keys_needing_rewrap db current_version batch_size) in
  match pending with
  | [] => kret None
  | _ =>
    let~ updated := Done (rewrap_batch ents current_version pending) in
    let count := length updated in
    update (λ db, Ok (update_encrypted_keys_batch db updated)) ;;~
    kret (Some count)
  end.

(** [None] when the rounds are used up. *)
Fixpoint rewrap_loop_program (fuel : nat) (ents : nat → nat → Entropy) (current_version : Z)
    (batch_size total : nat) : kprog (option nat) :=
  match fuel with
  | O => kret None
  | S fuel =>
    let~ round := rewrap_round_program (ents fuel) current_version batch_size in
    match round with
    | None => kret (Some total)
    | Some count => rewrap_loop_program fuel ents current_version batch_size (total + count)
    end
  end.

Definition rewrap_program (fuel : nat) (ents : nat → nat → Entropy) (target_master_version : Z)
    (batch_size : nat) : kprog (option nat) :=
  let~ current_version := Done current_master_key_version in
  if negb (current_version =? target_master_version) then
    kerr (ValidationError ("Target master key version "
      +s+ pretty target_master_version +s+ " does not match KMS active version "
      +s+ pretty current_version))
  else rewrap_loop_program fuel ents current_version batch_size 0.

Definition bootstrap_generate_program env (target : ServiceId) (algorithm : KeyAlgorithm) :
    kprog KeyPairEntity :=
  let~ generated_key :=
    Done (generate_for "ECDSA_P256 is not supported for bootstrap-generated service keys" env
            algorithm) in
  let~ encrypted_private_key :=
    Done (encrypt_private_key (env_encrypt env) (rk_private_key_bytes generated_key)) in
  let new_key := {|
    ke_id := env_key_id env; ke_service_id := target; ke_algorithm := algorithm;
    ke_purpose := bootstrap_purpose algorithm;
    ke_public_key_pem := rk_public_key_pem generated_key;
    ke_encrypted_private_key := encrypted_private_key; ke_version := 1;
    ke_status := Active; ke_created_at := env_now env; ke_expires_at := None |} in
  update (λ db, let? db := save_key db (env_now env) new_key in Ok ((), db)) ;;~
  kret new_key.

Definition bootstrap_rule_program env (rule : AccessRule)
    (key_map : gmap (ServiceId * KeyAlgorithm) KeyPairEntity) :
    kprog (gmap (ServiceId * KeyAlgorithm) KeyPairEntity) :=
  let target := target_service rule in
  let algorithm := rule_algorithm rule in
  let~ (active_key, key_map) :=
    match key_map !! (target, algorithm) with
    | Some key => kret (key, key_map)
    | None =>
      let~ new_key := bootstrap_generate_program env target algorithm in
      kret (new_key, <[(target, algorithm) := new_key]> key_map)
    end in
  if preload_flag rule then
    let~ private_key := Done (decrypt_private_key (ke_encrypted_private_key active_key)) in
    cache_write (λ c, cache_insert c target algorithm (ke_version active_key) private_key) ;;~
    kret key_map
  else kret key_map.

Fixpoint bootstrap_rules_program (envs : nat → Env) (rules : list AccessRule)
    (key_map : gmap (ServiceId * KeyAlgorithm) KeyPairEntity) :
    kprog unit :=
  match rules with
  | [] => kret ()
  | rule :: rules =>
    let~ key_map := bootstrap_rule_program (envs 0%nat) rule key_map in
    bootstrap_rules_program (λ i, envs (S i)) rules key_map
  end.

Definition bootstrap_program (envs : nat → Env) (values : list ServiceConfig) : kprog unit :=
  let~ active_keys := query get_all_active_keys in
  bootstrap_rules_program envs (values ≫= allowed_access) (key_map_of active_keys).

(** ** Requests and tasks *)

(** What a task is started for, with the clock, identifiers and random sources
    it takes. *)
Inductive KeyRequest :=
| ReqGenerate (env : Env) (ctx : RequestContext) (input : GenerateKeyPairInput)
| ReqRotate (retire_first : bool) (env : Env) (ctx : RequestContext) (input : RotateKeyInput)
| ReqPrivateKey (env : Env) (ctx : RequestContext) (input : GetKeyInput)
| ReqSymmetricKey (env : Env) (ctx : RequestContext) (input : GetKeyInput)
| ReqPublicKey (env : Env) (ctx : RequestContext) (service_id : ServiceId) (algorithm : KeyAlgorithm)
| ReqSign (env : Env) (ctx : RequestContext) (input : SignDataInput)
| ReqExpirations (ids : nat → Z) (now : Z)
| ReqCleanup (now : Z)
| ReqRewrap (rounds : nat) (ents : nat → nat → Entropy) (target_version : Z) (batch_size : nat)
| ReqBootstrap (envs : nat → Env) (values : list ServiceConfig).

Inductive Answer :=
| KeyAnswer (o : GetKeyOutput)
| EntityAnswer (e : KeyPairEntity)
| SignAnswer (o : SignDataOutput)
| CountAnswer (n : option nat)
| UnitAnswer.

Definition kmap {X Y} (f : X → Y) (p : kprog X) : kprog Y := kbind p (λ x, kret (f x)).

Definition program (grace_period_minutes : Z) acl (req : KeyRequest) : kprog Answer :=
  match req with
  | ReqGenerate env ctx input => kmap EntityAnswer (generate_program acl env ctx input)
  | ReqRotate first env ctx input =>
      kmap EntityAnswer (rotate_program first grace_period_minutes acl env ctx input)
  | ReqPrivateKey env ctx input => kmap KeyAnswer (get_private_key_program acl env ctx input)
  | ReqSymmetricKey env ctx input => kmap KeyAnswer (get_symmetric_key_program acl env ctx input)
  | ReqPublicKey env ctx s a => kmap EntityAnswer (get_public_key_program env ctx s a)
  | ReqSign env ctx input => kmap SignAnswer (sign_data_program acl env ctx input)
  | ReqExpirations ids now => kmap (λ _, UnitAnswer) (process_expirations_program ids now)
  | ReqCleanup now => kmap (λ _, UnitAnswer) (cache_cleanup_program now)
  | ReqRewrap rounds ents v n => kmap CountAnswer (rewrap_program rounds ents v n)
  | ReqBootstrap envs values => kmap (λ _, UnitAnswer) (bootstrap_program envs values)
  end.

End Programs.

(** ** Execution *)

Section Execution.
  Context {A : Type} `{AuditRepository A}.

(** A program alone, from its first call to its result. *)
Fixpoint krun {X} (p : kprog X) : svc A X :=
  match p with
  | Done r => svc_of r
  | Query f k => λ w, krun (k (f (w_keys w))) w
  | Update f k => λ w, let (r, w) := update_keys f w in krun (k r) w
  | Cached f k => λ w,
      let (y, c) := f (w_cache w) in krun (k y) (MkWorld (w_keys w) c (w_audit w))
  | Audited log k => λ w, let (r, w) := audit log w in krun (k r) w
  end.

(** The next call of a program. *)
Definition kstep {X} (p : kprog X) (w : World A) : option (kprog X * World A) :=
  match p with
  | Done _ => None
  | Query f k => Some (k (f (w_keys w)), w)
  | Update f k => let (r, w) := update_keys f w in Some (k r, w)
  | Cached f k => let (y, c) := f (w_cache w) in Some (k y, MkWorld (w_keys w) c (w_audit w))
  | Audited log k => let (r, w) := audit log w in Some (k r, w)
  end.

(** The next call, when the connection to the database is lost: before the
    statement was run, or after it. *)
Definition kfault {X} (after : bool) (e : AppError) (p : kprog X) (w : World A) :
    option (kprog X * World A) :=
  match p with
  | Done _ | Cached _ _ => None
  | Query f k => Some (k (Err e), w)
  | Update f k => Some (k (Err e), if after then (update_keys f w).2 else w)
  | Audited log k => Some (k (Err e), if after then (audit log w).2 else w)
  end.

(** The tasks with the requests they were started for; [sy_seen]: every row the
    table has held. *)
Record System := MkSystem {
  sy_world : World A;
  sy_seen : list KeyDbRow;
  sy_tasks : gmap nat (KeyRequest * kprog Answer);
  sy_log : list (KeyRequest * result Answer AppError) }.

Definition system_start (w : World A) : System := MkSystem w (w_keys w) ∅ [].

Definition sys_advance (i : nat) (req : KeyRequest) (p : kprog Answer) (w : World A) (s : System) :
    System :=
  MkSystem w (sy_seen s ++ w_keys w) (<[i := (req, p)]> (sy_tasks s)) (sy_log s).

Inductive sys_step (prog : KeyRequest → kprog Answer) : System → System → Prop :=
| sys_spawn i req s :
    sy_tasks s !! i = None →
    sys_step prog s
      (MkSystem (sy_world s) (sy_seen s) (<[i := (req, prog req)]> (sy_tasks s)) (sy_log s))
| sys_call i req p p' w' s :
    sy_tasks s !! i = Some (req, p) → kstep p (sy_world s) = Some (p', w') →
    sys_step prog s (sys_advance i req p' w' s)
| sys_fault i after e req p p' w' s :
    sy_tasks s !! i = Some (req, p) → kfault after e p (sy_world s) = Some (p', w') →
    sys_step prog s (sys_advance i req p' w' s)
| sys_answer i req r s :
    sy_tasks s !! i = Some (req, Done r) →
    sys_step prog s
      (MkSystem (sy_world s) (sy_seen s) (delete i (sy_tasks s)) ((req, r) :: sy_log s))
| sys_drop i s :
    sys_step prog s (MkSystem (sy_world s) (sy_seen s) (delete i (sy_tasks s)) (sy_log s)).

Definition sys_reachable prog (w : World A) (s : System) : Prop :=
  rtc (sys_step prog) (system_start w) s.

(** The executions whose tasks are all started for requests of one kind. *)
Definition sys_step_if (allowed : KeyRequest → Prop) prog (s s' : System) : Prop :=
  sys_step prog s s' ∧ map_Forall (λ _ t, allowed t.1) (sy_tasks s').
Definition sys_reachable_if allowed prog (w : World A) (s : System) : Prop :=
  rtc (sys_step_if allowed prog) (system_start w) s.

End Execution.

(** ** A program alone is its use case *)

Section Sequential.
  Context {A : Type} `{AuditRepository A}.

Definition runs {X} (p : kprog X) (m : svc A X) : Prop := ∀ w, krun p w = m w.

Lemma krun_bind {X Y} (p : kprog X) (k : X → kprog Y) : ∀ w : World A,
  krun (kbind p k) w = svc_bind (krun p) (λ x, krun (k x)) w.
Proof.
  unfold svc_bind.
  induction p as [[x|e]|Z f h IH|Z f h IH|Z f h IH|log h IH]; intros w; cbn [kbind krun].
  - done.
  - done.
  - apply IH.
  - destruct (update_keys f w). apply IH.
  - destruct (f (w_cache w)). apply IH.
  - destruct (audit log w). apply IH.
Qed.

Lemma runs_bind {X Y} (p : kprog X) (k : X → kprog Y) m h :
  runs p m → (∀ x, runs (k x) (h x)) → runs (kbind p k) (svc_bind m h).
Proof.
  intros Hp Hk w. rewrite krun_bind. unfold svc_bind. rewrite Hp.
  destruct (m w) as [[x|e] w']; [apply Hk|done].
Qed.

Lemma runs_of {X} (r : result X AppError) : runs (Done r) (svc_of r).
Proof. done. Qed.
Lemma runs_ret {X} (x : X) : runs (kret x) (svc_ret x).
Proof. done. Qed.
Lemma runs_err {X} e : runs (kerr (X := X) e) (svc_err e).
Proof. done. Qed.
Lemma runs_query {Y} (f : list KeyDbRow → result Y AppError) : runs (query f) (with_keys f).
Proof. done. Qed.
Lemma runs_update {Y} (f : list KeyDbRow → result (Y * list KeyDbRow) AppError) :
  runs (update f) (update_keys f).
Proof. intros w. cbn [update krun]. by destruct (update_keys f w). Qed.
Lemma runs_cache_read {Y} (f : KeyCache → Y) : runs (cache_read f) (with_cache f).
Proof. by intros []. Qed.
Lemma runs_cache_write f : runs (cache_write f) (update_cache f).
Proof. done. Qed.
Lemma runs_record log : runs (krecord log) (audit log).
Proof. intros w. cbn [krecord krun]. by destruct (audit log w). Qed.

End Sequential.

Create HintDb runs.
#[export] Hint Resolve runs_bind runs_of runs_ret runs_err runs_query runs_update runs_cache_read
  runs_cache_write runs_record : runs.

(** Follows the two texts side by side. *)
Ltac solve_runs :=
  repeat match goal with
  | |- runs (kbind _ _) (svc_bind _ _) => apply runs_bind; [|intros]
  | |- runs (match ?x with _ => _ end) _ => destruct x
  | |- runs (if ?b then _ else _) _ => destruct b
  end; eauto with runs.

Section UseCasePrograms.
  Context `{Json} `{UuidFmt} `{KmsCryptoService} `{SqlDisplay} `{DebugTime} `{KeyOrder}
    `{Ed25519Sign}.
  Context {A : Type} `{AuditRepository A}.
  Implicit Types (env : Env) (ctx : RequestContext) (acl : CompiledAcl).

Lemma generate_runs acl env ctx input :
  runs (A := A) (generate_program acl env ctx input) (generate_key_pair acl env ctx input).
Proof. unfold generate_program, generate_key_pair. solve_runs; apply runs_record. Qed.

Lemma rotate_runs first grace acl env ctx input :
  runs (A := A) (rotate_program first grace acl env ctx input)
    (rotate_key first grace acl env ctx input).
Proof. unfold rotate_program, rotate_key. solve_runs; apply runs_record. Qed.

Lemma get_key_runs level action denied missing not_found acl env ctx input :
  runs (A := A) (get_key_program level action denied missing not_found acl env ctx input)
    (get_key level action denied missing not_found acl env ctx input).
Proof. unfold get_key_program, get_key. solve_runs; apply runs_record. Qed.

Lemma get_public_key_runs env ctx s a :
  runs (A := A) (get_public_key_program env ctx s a) (get_public_key env ctx s a).
Proof. unfold get_public_key_program, get_public_key. solve_runs; apply runs_record. Qed.

Lemma signing_bytes_runs acl env ctx input :
  runs (A := A) (signing_bytes_program acl env ctx input) (signing_bytes acl env ctx input).
Proof.
  unfold signing_bytes_program, signing_bytes, signing_key_program, signing_key_for.
  solve_runs; apply runs_record.
Qed.

Lemma sign_data_runs acl env ctx input :
  runs (A := A) (sign_data_program acl env ctx input) (sign_data acl env ctx input).
Proof.
  unfold sign_data_program, sign_data. pose proof (signing_bytes_runs acl env ctx input).
  solve_runs; apply runs_record.
Qed.

Lemma process_expirations_runs ids now :
  runs (A := A) (process_expirations_program ids now) (process_expirations ids now).
Proof.
  unfold process_expirations_program, process_expirations. apply runs_bind; [apply runs_query|].
  induction x as [|e es IH]; cbn [expire_program expire_keys]; solve_runs.
Qed.

Lemma cache_cleanup_runs now :
  runs (A := A) (cache_cleanup_program now) (cache_cleanup now).
Proof.
  unfold cache_cleanup_program, cache_cleanup. apply runs_bind; [apply runs_cache_read|].
  induction x as [|[s a] entries IH]; cbn [cleanup_program cleanup_entries]; [apply runs_ret|].
  apply runs_bind; [|done]. intros w. cbn [krun].
  by destruct (get_active_or_valid_deprecated_key (w_keys w) s a now) as [[]|].
Qed.

Lemma rewrap_round_runs ents v n :
  runs (A := A) (rewrap_round_program ents v n) (rewrap_round ents v n).
Proof. unfold rewrap_round_program, rewrap_round. solve_runs. Qed.

Lemma rewrap_loop_runs fuel ents v n : ∀ total (w : World A),
  krun (rewrap_loop_program fuel ents v n total) w =
  match rewrap_loop fuel ents v n total w with
  | (Some r, w') => ((let? x := r in Ok (Some x)), w')
  | (None, w') => (Ok None, w')
  end.
Proof.
  induction fuel as [|fuel IH]; intros total w; cbn [rewrap_loop rewrap_loop_program]; [done|].
  rewrite krun_bind. unfold svc_bind. rewrite rewrap_round_runs.
  destruct (rewrap_round (ents fuel) v n w) as [[[count|]|e] w1]; [apply IH|done..].
Qed.

Lemma bootstrap_runs envs values :
  runs (A := A) (bootstrap_program envs values) (bootstrap_keys envs values).
Proof.
  unfold bootstrap_program, bootstrap_keys. apply runs_bind; [apply runs_query|intros es].
  generalize (key_map_of es) as m. generalize (values ≫= allowed_access) as rules.
  intros rules. revert envs. induction rules as [|rule rules IH]; intros envs m;
    cbn [bootstrap_rules_program bootstrap_rules]; [apply runs_ret|].
  apply runs_bind; [|intros m'; apply IH].
  unfold bootstrap_rule_program, bootstrap_rule, bootstrap_generate_program, bootstrap_generate.
  solve_runs.
Qed.

(** The use case of a request; a rewrap whose rounds are used up is cut short. *)
Definition use_case (grace : Z) acl (req : KeyRequest) : svc A Answer :=
  let answer {X} (f : X → Answer) (m : svc A X) := let* x := m in svc_ret (f x) in
  match req with
  | ReqGenerate env ctx input => answer EntityAnswer (generate_key_pair acl env ctx input)
  | ReqRotate first env ctx input => answer EntityAnswer (rotate_key first grace acl env ctx input)
  | ReqPrivateKey env ctx input => answer KeyAnswer (get_private_key acl env ctx input)
  | ReqSymmetricKey env ctx input => answer KeyAnswer (get_symmetric_key acl env ctx input)
  | ReqPublicKey env ctx s a => answer EntityAnswer (get_public_key env ctx s a)
  | ReqSign env ctx input => answer SignAnswer (sign_data acl env ctx input)
  | ReqExpirations ids now => answer (λ _, UnitAnswer) (process_expirations ids now)
  | ReqCleanup now => answer (λ _, UnitAnswer) (cache_cleanup now)
  | ReqRewrap rounds ents v n => λ w,
      match rewrap_keys rounds ents v n w with
      | (Some r, w) => ((let? count := r in Ok (CountAnswer (Some count))), w)
      | (None, w) => (Ok (CountAnswer None), w)
      end
  | ReqBootstrap envs values => answer (λ _, UnitAnswer) (bootstrap_keys envs values)
  end.

Lemma kmap_runs {X} (f : X → Answer) p (m : svc A X) w :
  runs p m → krun (kmap f p) w = (let* x := m in svc_ret (f x)) w.
Proof. intros Hp. apply runs_bind; [done|]. intros x. apply runs_ret. Qed.

Lemma rewrap_runs rounds ents v n (w : World A) :
  krun (rewrap_program rounds ents v n) w =
  match rewrap_keys rounds ents v n w with
  | (Some r, w') => ((let? x := r in Ok (Some x)), w')
  | (None, w') => (Ok None, w')
  end.
Proof.
  unfold rewrap_keys, rewrap_program. destruct current_master_key_version as [c|e]; [|done].
  cbn [kbind]. destruct (negb (c =? v)); [done|]. apply rewrap_loop_runs.
Qed.

(** Run alone, the program of a request is its use case: the same answer and
    the same state, for every request and every worker, also when a step of it
    fails. *)
Lemma program_is_use_case grace acl req w :
  krun (program grace acl req) w = use_case grace acl req w.
Proof.
  destruct req; cbn [use_case program]; try (apply kmap_runs).
  - apply generate_runs.
  - apply rotate_runs.
  - apply get_key_runs.
  - apply get_key_runs.
  - apply get_public_key_runs.
  - apply sign_data_runs.
  - apply process_expirations_runs.
  - apply cache_cleanup_runs.
  - unfold kmap. rewrite krun_bind. unfold svc_bind.
    rewrite rewrap_runs. by destruct (rewrap_keys _ _ _ _ _) as [[[count|e]|] w'].
  - apply bootstrap_runs.
Qed.

End UseCasePrograms.

(** ** Executions *)

Section Executions.
  Context {A : Type} `{AuditRepository A}.
  Context (prog : KeyRequest → kprog Answer).
  Implicit Types (s : System (A := A)) (w : World A).

Lemma kstep_krun {X} (p p' : kprog X) w w' : kstep p w = Some (p', w') → krun p w = krun p' w'.
Proof. destruct p; cbn [kstep krun]; repeat case_match; intros; by simplify_eq. Qed.

(** The system after task [i] has run to its result. *)
Definition sys_after i req (out : result Answer AppError * World A) seen s : System :=
  MkSystem out.2 seen (delete i (sy_tasks s)) ((req, out.1) :: sy_log s).

Section Alone.
  Context (allowed : KeyRequest → Prop).
  Abbreviation all_allowed s := (map_Forall (λ _ t, allowed t.1) (sy_tasks s)).
  Abbreviation steps := (rtc (sys_step_if allowed prog)).

Lemma sys_run_call i req p p' w' s :
  sy_tasks s !! i = Some (req, p) → kstep p (sy_world s) = Some (p', w') → all_allowed s →
  (all_allowed (sys_advance i req p' w' s) → ∃ seen, steps (sys_advance i req p' w' s)
    (sys_after i req (krun p' w') seen (sys_advance i req p' w' s)) ∧
    sy_seen (sys_advance i req p' w' s) ⊆ seen) →
  ∃ seen, steps s (sys_after i req (krun p (sy_world s)) seen s) ∧ sy_seen s ⊆ seen.
Proof.
  intros Hi Hk Hall IH. assert (all_allowed (sys_advance i req p' w' s)) as Hall'
    by (apply map_Forall_insert_2; [apply (Hall i _ Hi)|done]).
  destruct (IH Hall') as (seen & R & Hs).
  unfold sys_after in *. cbn [sys_advance sy_tasks sy_seen sy_log] in *.
  rewrite delete_insert_eq in R. rewrite (kstep_krun _ _ _ _ Hk).
  exists seen. split; [eapply rtc_l; [split; [by eapply sys_call|done]|exact R]|set_solver].
Qed.

(** A task that is not interrupted runs to its result. *)
Lemma sys_run_alone_if i req p : ∀ s,
  sy_tasks s !! i = Some (req, p) → all_allowed s →
  ∃ seen, steps s (sys_after i req (krun p (sy_world s)) seen s) ∧ sy_seen s ⊆ seen.
Proof.
  induction p as [r|Y f k IH|Y f k IH|Y f k IH|log k IH]; intros s Hi Hall.
  { exists (sy_seen s). split; [|done]. apply rtc_once.
    split; [by apply sys_answer|by apply map_Forall_delete]. }
  - eapply sys_run_call; [exact Hi|reflexivity|done|].
    apply (IH (f (w_keys (sy_world s))) (sys_advance i req _ (sy_world s) s)), lookup_insert_eq.
  - destruct (update_keys f (sy_world s)) as [r w'] eqn:E.
    eapply sys_run_call; [exact Hi|cbn [kstep]; by rewrite E|done|].
    apply (IH r (sys_advance i req _ w' s)), lookup_insert_eq.
  - destruct (f (w_cache (sy_world s))) as [y c] eqn:E.
    eapply sys_run_call; [exact Hi|cbn [kstep]; by rewrite E|done|].
    apply (IH y (sys_advance i req _ (MkWorld _ c _) s)), lookup_insert_eq.
  - destruct (audit log (sy_world s)) as [r w'] eqn:E.
    eapply sys_run_call; [exact Hi|cbn [kstep]; by rewrite E|done|].
    apply (IH r (sys_advance i req _ w' s)), lookup_insert_eq.
Qed.

(** A request that is started and not interrupted. *)
Lemma sys_request_alone_if i req s :
  sy_tasks s !! i = None → allowed req → all_allowed s →
  ∃ seen, steps s (MkSystem (krun (prog req) (sy_world s)).2 seen (sy_tasks s)
       ((req, (krun (prog req) (sy_world s)).1) :: sy_log s)) ∧ sy_seen s ⊆ seen.
Proof.
  intros Hi Hreq Hall. assert (map_Forall (λ _ t, allowed t.1)
    (<[i := (req, prog req)]> (sy_tasks s))) as Hall' by by apply map_Forall_insert_2.
  destruct (sys_run_alone_if i req (prog req)
    (MkSystem (sy_world s) (sy_seen s) (<[i := (req, prog req)]> (sy_tasks s)) (sy_log s)))
    as (seen & R & Hs); [apply lookup_insert_eq|done|].
  unfold sys_after in R. cbn [sy_tasks] in R. rewrite delete_insert_id in R by done.
  exists seen. split; [|done]. eapply rtc_l; [|exact R]. split; [by apply sys_spawn|done].
Qed.

End Alone.

Lemma sys_step_of_if allowed s s' :
  rtc (sys_step_if allowed prog) s s' → rtc (sys_step prog) s s'.
Proof. apply rtc_subrel. by intros ?? [? _]. Qed.

Lemma sys_run_alone i req p s :
  sy_tasks s !! i = Some (req, p) →
  ∃ seen, rtc (sys_step prog) s (sys_after i req (krun p (sy_world s)) seen s) ∧ sy_seen s ⊆ seen.
Proof.
  intros Hi. destruct (sys_run_alone_if (λ _, True) i req p s Hi) as (seen & R & Hs); [by intros ??|].
  exists seen. split; [by eapply sys_step_of_if|done].
Qed.

Lemma sys_request_alone i req s :
  sy_tasks s !! i = None →
  ∃ seen, rtc (sys_step prog) s (MkSystem (krun (prog req) (sy_world s)).2 seen (sy_tasks s)
       ((req, (krun (prog req) (sy_world s)).1) :: sy_log s)) ∧ sy_seen s ⊆ seen.
Proof.
  intros Hi. destruct (sys_request_alone_if (λ _, True) i req s Hi) as (seen & R & Hs);
    [done|by intros ??|].
  exists seen. split; [by eapply sys_step_of_if|done].
Qed.

(** A request that has made one call and waits. *)
Lemma sys_request_pauses req p w :
  kstep (prog req) w = Some (p, w) →
  ∃ s, rtc (sys_step prog) (system_start w) s ∧ sy_world s = w ∧
    sy_tasks s !! 0%nat = Some (req, p) ∧ sy_tasks s !! 1%nat = None ∧ sy_log s = [].
Proof.
  intros Hk. set (s1 := MkSystem w (w_keys w) (<[0%nat := (req, prog req)]> ∅) []).
  exists (sys_advance 0 req p w s1).
  split_and!; [|done|apply lookup_insert_eq|cbn; by rewrite !lookup_insert_ne|done].
  eapply rtc_l; [by apply (sys_spawn _ 0 req)|].
  apply rtc_once, (sys_call _ 0 req (prog req)); [apply lookup_insert_eq|done].
Qed.

(** *** The key table *)

(** Every statement of the program keeps an invariant of the table. *)
Section Invariants.
  Context (I : list KeyDbRow → Prop).

Fixpoint updates_keep {X} (p : kprog X) : Prop :=
  match p with
  | Done _ => True
  | Query f k => ∀ r, updates_keep (k r)
  | Update f k => (∀ db x db', I db → f db = Ok (x, db') → I db') ∧ ∀ r, updates_keep (k r)
  | Cached f k => ∀ y, updates_keep (k y)
  | Audited log k => ∀ r, updates_keep (k r)
  end.

Lemma updates_keep_bind {X Y} (p : kprog X) (k : X → kprog Y) :
  updates_keep p → (∀ x, updates_keep (k x)) → updates_keep (kbind p k).
Proof.
  intros Hp Hk.
  induction p as [[x|e]|Z f h IH|Z f h IH|Z f h IH|log h IH]; cbn [kbind updates_keep] in *;
    try naive_solver.
Qed.

Lemma update_keys_keep {Y} (f : list KeyDbRow → result (Y * list KeyDbRow) AppError) w :
  (∀ db x db', I db → f db = Ok (x, db') → I db') → I (w_keys w) → I (w_keys (update_keys f w).2).
Proof.
  intros Hf Hw. unfold update_keys. destruct (f (w_keys w)) as [[x db']|e] eqn:E; [|done].
  by apply (Hf (w_keys w) x).
Qed.

Definition sys_keep s : Prop :=
  I (w_keys (sy_world s)) ∧ map_Forall (λ _ t, updates_keep t.2) (sy_tasks s).

Lemma kstep_keep {X} (p p' : kprog X) w w' :
  updates_keep p → I (w_keys w) →
  kstep p w = Some (p', w') ∨ (∃ after e, kfault after e p w = Some (p', w')) →
  updates_keep p' ∧ I (w_keys w').
Proof.
  intros Hp Hw. destruct p as [r|Y f k|Y f k|Y f k|log k]; cbn [kstep kfault updates_keep] in *.
  - naive_solver.
  - naive_solver.
  - destruct Hp as [Hf Hk]. pose proof (update_keys_keep f w Hf Hw) as Hu.
    destruct (update_keys f w) as [r w1]. intros [[= <- <-]|([] & e & [= <- <-])]; split; auto.
  - destruct (f (w_cache w)). naive_solver.
  - pose proof (audit_same_store log w) as [Hu _]. destruct (audit log w) as [r w1].
    cbn [snd] in Hu. rewrite <- Hu in Hw.
    intros [[= <- <-]|([] & e & [= <- <-])]; split; auto; congruence.
Qed.

(** The tasks the step leaves were started for requests that keep it. *)
Lemma sys_step_keep s s' :
  map_Forall (λ _ t, updates_keep (prog t.1)) (sy_tasks s') →
  sys_step prog s s' → sys_keep s → sys_keep s'.
Proof.
  intros Hprog St [Hw Ht].
  destruct St as [i req s Hi|i req p p' w' s Hi Hk|i after e req p p' w' s Hi Hk|i req r s Hi|i s].
  - split; [done|]. cbn [sy_tasks] in *. apply map_Forall_insert_2; [|done].
    apply (Hprog i (req, prog req)), lookup_insert_eq.
  - destruct (kstep_keep p p' (sy_world s) w' (Ht i _ Hi) Hw) as [Hp' Hw']; [by left|].
    split; [done|]. by apply map_Forall_insert_2.
  - destruct (kstep_keep p p' (sy_world s) w' (Ht i _ Hi) Hw) as [Hp' Hw']; [by right; eauto|].
    split; [done|]. by apply map_Forall_insert_2.
  - split; [done|]. by apply map_Forall_delete.
  - split; [done|]. by apply map_Forall_delete.
Qed.

End Invariants.

End Executions.

Abbreviation updates_wf := (updates_keep table_wf).

Section TableInvariant.
  Context `{Json} `{UuidFmt} `{KmsCryptoService} `{SqlDisplay} `{DebugTime} `{KeyOrder}
    `{Ed25519Sign}.
  Implicit Types (env : Env) (ctx : RequestContext) (acl : CompiledAcl).

(** A statement of the repository. *)
Lemma updates_wf_repo {Y} (f : list KeyDbRow → result (Y * list KeyDbRow) AppError) :
  (∀ db x db', f db = Ok (x, db') → repo_step db db') → updates_wf (update f).
Proof. intros Hf. split; [|done]. intros db x db' Hw E. by eapply repo_step_wf; [eapply Hf|]. Qed.

Lemma updates_wf_save now e :
  updates_wf (update (λ db, let? db := save_key db now e in Ok ((), db))).
Proof.
  apply updates_wf_repo. intros db x db' E. apply result_bind_Ok in E as (db1 & E & [= <- <-]).
  by eapply step_save.
Qed.

Lemma updates_wf_status id st :
  updates_wf (update (λ db, let? db := update_key_status db id st None in Ok ((), db))).
Proof.
  apply updates_wf_repo. intros db x db' E. apply result_bind_Ok in E as (db1 & E & [= <- <-]).
  by eapply step_status.
Qed.

Lemma updates_wf_deactivate s a :
  updates_wf (update (λ db, Ok ((), deactivate_keys_for_service db s a))).
Proof. apply updates_wf_repo. intros db x db' [= <- <-]. apply step_deactivate. Qed.

Lemma updates_wf_rotate first now s a k until :
  updates_wf (update (λ db, rotate_active_key first db now s a k until)).
Proof. apply updates_wf_repo. intros db x db' E. by eapply step_rotate. Qed.

Lemma updates_wf_rewrap ups :
  updates_wf (update (λ db, Ok (update_encrypted_keys_batch db ups))).
Proof.
  apply updates_wf_repo. intros db x db' E.
  replace db' with (update_encrypted_keys_batch db ups).2 by (by injection E as _ <-).
  apply step_encrypted_batch.
Qed.

End TableInvariant.

Create HintDb table.
#[export] Hint Resolve updates_wf_save updates_wf_status updates_wf_deactivate updates_wf_rotate
  updates_wf_rewrap : table.

Ltac solve_updates :=
  repeat match goal with
  | |- updates_keep _ (kbind _ _) => apply updates_keep_bind; [|intros]
  | |- updates_keep _ (kmap _ _) => unfold kmap
  | |- updates_keep _ (match ?x with _ => _ end) => destruct x
  | |- updates_keep _ (if ?b then _ else _) => destruct b
  end; eauto with table; try done.

Section InterleavedTable.
  Context `{Json} `{UuidFmt} `{KmsCryptoService} `{SqlDisplay} `{DebugTime} `{KeyOrder}
    `{Ed25519Sign}.
  Context {A : Type} `{AuditRepository A}.

Lemma program_updates_wf grace acl req : updates_wf (program grace acl req).
Proof.
  destruct req; cbn [program]; unfold kmap; apply updates_keep_bind; try done.
  - unfold generate_program. solve_updates.
  - unfold rotate_program. solve_updates.
  - unfold get_private_key_program, get_key_program. solve_updates.
  - unfold get_symmetric_key_program, get_key_program. solve_updates.
  - unfold get_public_key_program. solve_updates.
  - unfold sign_data_program, signing_bytes_program, signing_key_program. solve_updates.
  - unfold process_expirations_program. apply updates_keep_bind; [done|].
    induction x as [|e es IH]; cbn [expire_program]; solve_updates.
  - unfold cache_cleanup_program. apply updates_keep_bind; [done|].
    induction x as [|[s a] entries IH]; cbn [cleanup_program]; [done|].
    apply updates_keep_bind; [|done]. by intros [[]|].
  - unfold rewrap_program. apply updates_keep_bind; [done|intros v]. destruct (negb _); [done|].
    generalize 0%nat as total.
    induction rounds as [|rounds IH]; intros total; cbn [rewrap_loop_program]; [done|].
    unfold rewrap_round_program. solve_updates.
  - unfold bootstrap_program. apply updates_keep_bind; [done|intros es].
    generalize (key_map_of es) as m. generalize (values ≫= allowed_access) as rules.
    intros rules. revert envs. induction rules as [|rule rules IH]; intros envs m;
      cbn [bootstrap_rules_program]; [done|].
    apply updates_keep_bind; [|intros; apply IH].
    unfold bootstrap_rule_program, bootstrap_generate_program. solve_updates.
Qed.

(** C13: the key table keeps its invariant whatever runs side by side.  Any
    number of requests, workers and bootstraps, interleaved call by call, with
    calls that fail before or after they took effect and tasks that are dropped
    half way, leaves one active key at most per service and algorithm, unique
    ids and versions, and statuses that agree with the active flag. *)
Theorem interleaved_table_invariant grace acl (w : World A) s :
  table_wf (w_keys w) → sys_reachable (program grace acl) w s →
  table_wf (w_keys (sy_world s)).
Proof.
  intros Hw R. cut (sys_keep table_wf s); [by intros []|].
  assert (sys_keep table_wf (system_start w)) as W0 by (split; [done|apply map_Forall_empty]).
  unfold sys_reachable in R. revert W0. induction R as [s|s1 s2 s3 St _ IH]; [done|].
  intros Hs. apply IH. eapply sys_step_keep; [|exact St|exact Hs].
  intros i t _. apply program_updates_wf.
Qed.

End InterleavedTable.

(** ** Where the keys in the answers come from *)

Section Provenance.
  Context `{KmsCryptoService}.
  Implicit Types (seen db : list KeyDbRow) (c : gmap KeyCacheKey CachedKeyValue).

(** The entity's key data is that of a row the table has held. *)
Definition known seen (e : KeyPairEntity) : Prop :=
  ∃ r, r ∈ seen ∧ kr_service_id r = ke_service_id e ∧
    kr_algorithm r = KeyAlgorithm_debug (ke_algorithm e) ∧ as_u32 (kr_version r) = ke_version e ∧
    kr_encrypted_key_data r = ciphertext (ke_encrypted_private_key e).

(** The private key of some version of a service's key: what a row the table
    has held decrypts to. *)
Definition stored seen (s : ServiceId) (a : KeyAlgorithm) (v : Z) (p : list byte) : Prop :=
  ∃ r ev, r ∈ seen ∧ kr_service_id r = s ∧ kr_algorithm r = KeyAlgorithm_debug a ∧
    as_u32 (kr_version r) = v ∧
    decrypt_private_key (MkEncryptedPrivateKey (kr_encrypted_key_data r) ev) = Ok p.

Definition cache_ok seen c : Prop :=
  ∀ s a cv, c !! ((s, a) : KeyCacheKey) = Some cv → stored seen s a (cv_version cv) (cv_bytes cv).

Lemma known_stored seen e p :
  known seen e → decrypt_private_key (ke_encrypted_private_key e) = Ok p →
  stored seen (ke_service_id e) (ke_algorithm e) (ke_version e) p.
Proof.
  intros (r & Hr & Hs & Ha & Hv & Hd) Hp. destruct (ke_encrypted_private_key e) as [ct ev] eqn:E.
  exists r, ev. cbn [ciphertext] in Hd. by rewrite Hd.
Qed.

Lemma row_known db seen r e : r ∈ db → db ⊆ seen → map_key_row r = Ok e → known seen e.
Proof.
  intros Hr Hsub Hm. pose proof (map_key_row_fields r e Hm) as (_ & He & Hv & Hs).
  pose proof (map_key_row_algorithm r e Hm). exists r. rewrite He.
  split_and!; [by apply Hsub|done..].
Qed.

Lemma known_mono seen seen' e : seen ⊆ seen' → known seen e → known seen' e.
Proof. intros Hsub (r & Hr & ?). exists r. split; [by apply Hsub|done]. Qed.
Lemma stored_mono seen seen' s a v p : seen ⊆ seen' → stored seen s a v p → stored seen' s a v p.
Proof. intros Hsub (r & ev & Hr & ?). exists r, ev. split; [by apply Hsub|done]. Qed.
Lemma cache_ok_mono seen seen' c : seen ⊆ seen' → cache_ok seen c → cache_ok seen' c.
Proof. intros Hsub Hc s a cv E. eapply stored_mono; [done|by apply Hc]. Qed.

Lemma cache_ok_subset seen c c' : c' ⊆ c → cache_ok seen c → cache_ok seen c'.
Proof. intros Hsub Hc s a cv E. apply Hc. by eapply lookup_weaken. Qed.

Lemma cache_ok_insert seen c s a v p :
  stored seen s a v p → cache_ok seen c → cache_ok seen (cache_insert c s a v p).
Proof.
  intros Hp Hc s' a' cv. unfold cache_insert. rewrite lookup_insert_Some.
  intros [[[= <- <-] <-]|[_ E]]; [done|by apply Hc].
Qed.

(** What a query of the repository answers is known. *)
Lemma get_active_key_known db seen s a e :
  db ⊆ seen → get_active_key db s a = Ok (Some e) →
  known seen e ∧ ke_service_id e = s ∧ ke_algorithm e = a.
Proof.
  unfold get_active_key, map_opt_row. intros Hsub E.
  destruct (KeyQueries_get_active_key db s (KeyAlgorithm_debug a)) as [r|] eqn:Er; [|done].
  apply result_bind_Ok in E as (e' & Hm & [= <-]).
  apply head_Some_elem_of, list_elem_of_filter in Er as [(Hs & Ha & _)%is_active_for_true Hr].
  pose proof (map_key_row_fields r e' Hm) as (_ & _ & _ & Hse).
  rewrite (map_key_row_algorithm r e' Hm) in Ha.
  split_and!; [by eapply row_known|congruence|by apply KeyAlgorithm_debug_inj].
Qed.

Lemma get_key_by_version_known db seen s a v e :
  db ⊆ seen → get_key_by_version db s a v = Ok (Some e) →
  known seen e ∧ ke_service_id e = s ∧ ke_algorithm e = a.
Proof.
  unfold get_key_by_version, map_opt_row. intros Hsub E.
  destruct (KeyQueries_get_key_by_version db s (KeyAlgorithm_debug a) v) as [r|] eqn:Er; [|done].
  apply result_bind_Ok in E as (e' & Hm & [= <-]).
  apply head_Some_elem_of, list_elem_of_filter in Er as [(Hs & Ha & _)%same_version_true Hr].
  pose proof (map_key_row_fields r e' Hm) as (_ & _ & _ & Hse).
  rewrite (map_key_row_algorithm r e' Hm) in Ha.
  split_and!; [by eapply row_known|congruence|by apply KeyAlgorithm_debug_inj].
Qed.

Lemma save_key_known `{SqlDisplay} `{DebugTime} db now e db' :
  ke_version e = 1 → save_key db now e = Ok db' → known db' e.
Proof.
  intros Hv E. apply map_err_Ok in E. unfold KeyQueries_save_key in E. rewrite Hv in E.
  match type of E with upsert _ ?row = _ => set (new := row) in E end.
  assert (∀ r, same_version (kr_service_id new) (kr_algorithm new) (kr_version new) r = true →
    overwrite r new ∈ db' → known db' e) as Hhit.
  { intros r (Hs & Ha & Hver)%same_version_true Hin. exists (overwrite r new).
    split_and!; [done|exact Hs|exact Ha| |done]. cbn [overwrite kr_version]. by rewrite Hver, Hv. }
  unfold upsert in E. destruct (existsb (same_version _ _ _) db) eqn:Hex.
  - case_match; [done|]. injection E as <-.
    apply existsb_exists in Hex as (r & Hr%list_elem_of_In & Hsv).
    apply (Hhit r Hsv). apply list_elem_of_fmap. exists r. split; [|done].
    symmetry. exact (f_equal (λ b : bool, if b then overwrite r new else r) Hsv).
  - case_match; [done|]. case_match; [done|]. injection E as <-.
    exists new. split_and!; [set_solver|done..|by rewrite Hv|done].
Qed.

End Provenance.

Section Honest.
  Context `{KmsCryptoService} {A : Type} `{AuditRepository A}.
  Implicit Types (seen db : list KeyDbRow).

(** Whatever the other tasks and the database do, the program writes only
    stored keys into the cache, and its result satisfies [Post].  Rows are only
    ever added to [seen]. *)
Fixpoint honest {X} (Post : list KeyDbRow → X → Prop) seen (p : kprog X) : Prop :=
  match p with
  | Done (Ok x) => Post seen x
  | Done (Err _) => True
  | Query f k => ∀ seen' db, seen ⊆ seen' → db ⊆ seen' →
      honest Post seen' (k (f db)) ∧ ∀ e, honest Post seen' (k (Err e))
  | Update f k => ∀ seen' db, seen ⊆ seen' → db ⊆ seen' →
      (∀ e, honest Post seen' (k (Err e))) ∧
      ∀ x db', f db = Ok (x, db') → honest Post (seen' ++ db') (k (Ok x))
  | Cached f k => ∀ seen' c, seen ⊆ seen' → cache_ok seen' c →
      cache_ok seen' (f c).2 ∧ honest Post seen' (k (f c).1)
  | Audited log k => ∀ seen' r, seen ⊆ seen' → honest Post seen' (k r)
  end.

Definition monotone_post {X} (Post : list KeyDbRow → X → Prop) : Prop :=
  ∀ seen seen' x, seen ⊆ seen' → Post seen x → Post seen' x.

Lemma honest_mono {X} (Post : list KeyDbRow → X → Prop) seen seen' p :
  monotone_post Post → seen ⊆ seen' → honest Post seen p → honest Post seen' p.
Proof.
  intros HP Hsub. destruct p as [[x|e]|Y f k|Y f k|Y f k|log k]; cbn [honest].
  - by apply HP.
  - done.
  - intros Hp s2 db H2. apply Hp. by transitivity seen'.
  - intros Hp s2 db H2. apply Hp. by transitivity seen'.
  - intros Hp s2 c H2. apply Hp. by transitivity seen'.
  - intros Hp s2 r H2. apply Hp. by transitivity seen'.
Qed.

Lemma honest_bind {X Y} (P : list KeyDbRow → X → Prop) (Q : list KeyDbRow → Y → Prop) p k : ∀ seen,
  honest P seen p → (∀ seen' x, seen ⊆ seen' → P seen' x → honest Q seen' (k x)) →
  honest Q seen (kbind p k).
Proof.
  induction p as [[x|e]|Z f h IH|Z f h IH|Z f h IH|log h IH]; intros seen Hp Hk; cbn [kbind honest] in *.
  - by apply Hk.
  - done.
  - intros s2 db H2 Hdb. destruct (Hp s2 db H2 Hdb) as [Hp1 Hp2].
    split; [|intros e]; (apply IH; [done|]; intros s3 x H3; apply Hk; by transitivity s2).
  - intros s2 db H2 Hdb. destruct (Hp s2 db H2 Hdb) as [Hp1 Hp2].
    split; [intros e|intros x db' E]; (apply IH; [by eauto|]; intros s3 y H3; apply Hk; set_solver).
  - intros s2 c H2 Hc. destruct (Hp s2 c H2 Hc) as [Hp1 Hp2]. split; [done|].
    apply IH; [done|]. intros s3 x H3. apply Hk. by transitivity s2.
  - intros s2 r H2. apply IH; [by apply Hp|]. intros s3 x H3. apply Hk. by transitivity s2.
Qed.

(** The calls. *)
Lemma honest_done {X} (P : list KeyDbRow → X → Prop) seen (r : result X AppError) :
  (∀ x, r = Ok x → P seen x) → honest P seen (Done r).
Proof. destruct r; cbn; auto. Qed.

Lemma honest_query {Y} (f : list KeyDbRow → result Y AppError) seen :
  honest (λ seen y, ∃ db, db ⊆ seen ∧ f db = Ok y) seen (query f).
Proof.
  intros s2 db H2 Hdb. split; [|done]. destruct (f db) as [y|] eqn:E; [|done]. exists db. done.
Qed.

Lemma honest_update {Y} (f : list KeyDbRow → result (Y * list KeyDbRow) AppError) seen :
  honest (λ seen y, ∃ db db', db' ⊆ seen ∧ f db = Ok (y, db')) seen (update f).
Proof.
  intros s2 db H2 Hdb. split; [done|]. intros x db' E. exists db, db'. split; [set_solver|done].
Qed.

Lemma honest_cache_read {Y} (f : KeyCache → Y) seen :
  honest (λ seen y, ∃ c, cache_ok seen c ∧ f c = y) seen (cache_read f).
Proof. intros s2 c H2 Hc. split; [done|]. by exists c. Qed.

Lemma honest_cache_write f seen :
  (∀ seen' c, seen ⊆ seen' → cache_ok seen' c → cache_ok seen' (f c)) →
  honest (λ _ _, True) seen (cache_write f).
Proof. intros Hf s2 c H2 Hc. split; [by apply Hf|done]. Qed.

Lemma honest_record log seen : honest (λ _ _, True) seen (krecord log).
Proof. intros s2 [] H2; done. Qed.

(** Weakening. *)
Lemma honest_conseq {X} (P Q : list KeyDbRow → X → Prop) p : ∀ seen,
  (∀ seen' x, seen ⊆ seen' → P seen' x → Q seen' x) → honest P seen p → honest Q seen p.
Proof.
  induction p as [[x|e]|Z f h IH|Z f h IH|Z f h IH|log h IH]; intros seen Hc Hp; cbn [honest] in *.
  - by apply Hc.
  - done.
  - intros s2 db H2 Hdb. destruct (Hp s2 db H2 Hdb) as [Hp1 Hp2].
    split; [|intros e]; (apply IH; [intros s3 x H3; apply Hc; by transitivity s2|done]).
  - intros s2 db H2 Hdb. destruct (Hp s2 db H2 Hdb) as [Hp1 Hp2].
    split; [intros e|intros x db' E]; (apply IH; [intros s3 y H3; apply Hc; set_solver|by eauto]).
  - intros s2 c H2 Hcc. destruct (Hp s2 c H2 Hcc) as [Hp1 Hp2]. split; [done|].
    apply IH; [intros s3 x H3; apply Hc; by transitivity s2|done].
  - intros s2 r H2. apply IH; [intros s3 x H3; apply Hc; by transitivity s2|by apply Hp].
Qed.

(** *** One step of a system *)

Lemma kstep_honest {X} (Post : list KeyDbRow → X → Prop) seen (p p' : kprog X) (w w' : World A) :
  w_keys w ⊆ seen → cache_ok seen (w_cache w) → monotone_post Post → honest Post seen p →
  kstep p w = Some (p', w') ∨ (∃ after e, kfault after e p w = Some (p', w')) →
  let seen' := seen ++ w_keys w' in
  w_keys w' ⊆ seen' ∧ cache_ok seen' (w_cache w') ∧ honest Post seen' p'.
Proof.
  intros Hdb Hc HP Hp Hk. cbv zeta. split; [set_solver|].
  assert (seen ⊆ seen ++ w_keys w') as Hsub by set_solver.
  cut (cache_ok seen (w_cache w') ∧ honest Post (seen ++ w_keys w') p').
  { intros [? ?]. split; [|done]. by eapply cache_ok_mono. }
  destruct p as [r|Y f k|Y f k|Y f k|log k]; cbn [kstep kfault honest] in *.
  - naive_solver.
  - destruct (Hp (seen ++ w_keys w) (w_keys w)) as [H1 H2]; [set_solver..|].
    destruct Hk as [[= <- <-]|(after & e & [= <- <-])]; split; done || auto.
  - assert (∀ db', w_keys w ⊆ db' ++ seen → (∀ e, honest Post (seen ++ db') (k (Err e)))) as Hfault.
    { intros db' _ e. apply (Hp (seen ++ db') (w_keys w)); set_solver. }
    destruct (Hp seen (w_keys w)) as [_ H2]; [done..|]. unfold update_keys in Hk.
    destruct (f (w_keys w)) as [[x db']|e'] eqn:E;
      destruct Hk as [[= <- <-]|([] & e & [= <- <-])]; cbn [w_cache w_keys snd];
      (split; [done|]); first [by apply H2|apply Hfault; set_solver].
  - destruct (Hp seen (w_cache w)) as [H1 H2]; [done..|].
    destruct (f (w_cache w)) as [y c']. destruct Hk as [[= <- <-]|(after & e & [=])].
    cbn [w_cache w_keys fst snd] in *. split; [done|]. eapply honest_mono; [done| |exact H2]. set_solver.
  - pose proof (audit_same_store log w) as [Hs1 Hs2]. destruct (audit log w) as [r w1]. cbn [snd] in *.
    destruct Hk as [[= <- <-]|([] & e & [= <- <-])]; rewrite ?Hs1, ?Hs2;
      (split; [done|]; apply Hp; set_solver).
Qed.

End Honest.

(** *** The programs are honest *)

Section HonestPrograms.
  Context `{Json} `{UuidFmt} `{KmsCryptoService} `{SqlDisplay} `{DebugTime} `{Horder : KeyOrder}
    `{!KeyOrderLaws Horder} `{Ed25519Sign}.
  Context {A : Type} `{AuditRepository A}.
  Implicit Types (env : Env) (ctx : RequestContext) (acl : CompiledAcl) (seen : list KeyDbRow).

(** An answer that is none of a key. *)
Abbreviation anything := (λ _ _, True).

Lemma honest_record_then {X} (P : list KeyDbRow → X → Prop) log k seen :
  (∀ seen', seen ⊆ seen' → honest P seen' k) → honest P seen (krecord log ;;~ k).
Proof. intros Hk. eapply honest_bind; [apply honest_record|]. intros s2 x L2 _. by apply Hk. Qed.

Lemma honest_insert seen s a v p :
  stored seen s a v p → honest anything seen (cache_write (λ c, cache_insert c s a v p)).
Proof.
  intros Hp. apply honest_cache_write. intros s2 c L2 Hc.
  apply cache_ok_insert; [by eapply stored_mono|done].
Qed.

Lemma honest_cached_key seen s a :
  honest (λ seen o, ∀ v p, o = Some (v, p) → stored seen s a v p) seen
    (cache_read (λ c, with_key c s a (λ v p, (v, p)))).
Proof.
  eapply honest_conseq; [|apply honest_cache_read]. intros s2 o _ (c & Hc & <-) v p E.
  unfold with_key in E. apply fmap_Some in E as (cv & E & [= -> ->]). by apply Hc.
Qed.

Lemma honest_active_key seen s a :
  honest (λ seen o, ∀ e, o = Some e → known seen e ∧ ke_service_id e = s ∧ ke_algorithm e = a) seen
    (query (λ db, get_active_key db s a)).
Proof.
  eapply honest_conseq; [|apply honest_query]. intros s2 o _ (db & Hdb & E) e ->.
  by eapply get_active_key_known.
Qed.

(** The bytes a reader gets are a stored key of what it asked for. *)
Definition key_answer acl (level : KeyAccessLevel) (input : GetKeyInput) seen
    (o : GetKeyOutput) : Prop :=
  authorize_key_access acl (ki_caller_service input) (ki_target_service input) (ki_algorithm input)
    level = true ∧
  ko_service_id o = ki_target_service input ∧ ko_algorithm o = ki_algorithm input ∧
  stored seen (ki_target_service input) (ki_algorithm input) (ko_version o) (ko_key_bytes o).

Lemma get_key_honest level action denied missing not_found acl env ctx input seen :
  honest (key_answer acl level input) seen
    (get_key_program level action denied missing not_found acl env ctx input).
Proof.
  unfold get_key_program, key_answer. destruct (authorize_key_access _ _ _ _ _) eqn:Ha; cbn [negb];
    [|by apply honest_record_then].
  eapply honest_bind; [apply honest_cached_key|]. intros s1 [[v p]|] L1 Hc.
  { apply honest_record_then. intros s2 L2. split_and!; [done..|].
    eapply stored_mono; [done|]. by apply Hc. }
  eapply honest_bind; [apply honest_active_key|]. intros s2 [e|] L2 He; [|by apply honest_record_then].
  destruct (He e eq_refl) as (Hk & Hs & Hal).
  eapply (honest_bind (λ seen p,
    stored seen (ki_target_service input) (ki_algorithm input) (ke_version e) p)).
  { apply honest_done. intros p Hp. rewrite <- Hs, <- Hal. by apply known_stored. }
  intros s3 p L3 Hp. eapply (honest_bind anything).
  { destruct (CompiledAcl_should_preload_for _ _ _); [by apply honest_insert|done]. }
  intros s4 _ L4 _. apply honest_record_then. intros s5 L5. split_and!; [done..|].
  eapply stored_mono; [|exact Hp]. by transitivity s4.
Qed.

(** The signature is one under a stored Ed25519 key of the service, of some
    version: the cache is asked before the version of the request is looked at,
    and the answer repeats the version of the request. *)
Definition sign_answer acl (input : SignDataInput) seen (o : SignDataOutput) : Prop :=
  authorize_key_access acl (si_caller_service input) (si_target_service input) Ed25519
    PrivateKey = true ∧
  so_service_id o = si_target_service input ∧ so_algorithm o = Ed25519 ∧
  (∀ v, si_key_version input = Some v → so_key_version o = v) ∧
  ∃ v p, stored seen (si_target_service input) Ed25519 v p ∧ (32 ≤ length p)%nat ∧
    so_signature_bytes o = ed25519_sign (take 32 p) (si_payload input).

Lemma signing_bytes_honest acl env ctx input seen :
  honest (λ seen p, ∃ v, stored seen (si_target_service input) (si_algorithm input) v p) seen
    (signing_bytes_program acl env ctx input).
Proof.
  unfold signing_bytes_program.
  eapply (honest_bind (λ seen o, ∀ p, o = Some p →
    ∃ v, stored seen (si_target_service input) (si_algorithm input) v p)).
  { eapply honest_conseq; [|apply honest_cache_read]. intros s2 o _ (c & Hc & <-) p E.
    unfold with_key in E. apply fmap_Some in E as (cv & E & [= ->]). eexists. by apply Hc. }
  intros s1 [p|] L1 Hc; [by apply Hc|].
  eapply (honest_bind (λ seen o, ∀ e, o = Some e → known seen e ∧
    ke_service_id e = si_target_service input ∧ ke_algorithm e = si_algorithm input)).
  { unfold signing_key_program. destruct (si_key_version input) as [v|]; [|apply honest_active_key].
    eapply honest_conseq; [|apply honest_query]. intros s2 o _ (db & Hdb & E) e ->.
    by eapply get_key_by_version_known. }
  intros s2 [e|] L2 He; [|by apply honest_record_then]. destruct (He e eq_refl) as (Hk & Hs & Hal).
  destruct (decrypt_private_key _) as [p|err] eqn:Hp; [|by apply honest_record_then].
  apply (known_stored s2 e p Hk) in Hp. rewrite Hs, Hal in Hp.
  eapply (honest_bind anything).
  { destruct (CompiledAcl_should_preload_for _ _ _); [by apply honest_insert|done]. }
  intros s3 _ L3 _. exists (ke_version e). by eapply stored_mono.
Qed.

Lemma sign_data_honest acl env ctx input seen :
  honest (sign_answer acl input) seen (sign_data_program acl env ctx input).
Proof.
  unfold sign_data_program, sign_answer. destruct (bool_decide (si_algorithm input = Ed25519)) eqn:Ed;
    cbn [negb]; [|by apply honest_record_then]. apply bool_decide_eq_true in Ed. rewrite Ed.
  destruct (authorize_key_access _ _ _ _ _) eqn:Ha; cbn [negb]; [|by apply honest_record_then].
  eapply honest_bind; [apply signing_bytes_honest|]. intros s1 p L1 [v Hp]. rewrite Ed in Hp.
  destruct (Nat.ltb_spec (length p) 32); [by apply honest_record_then|].
  eapply (honest_bind (λ _ ver, ∀ v, si_key_version input = Some v → ver = v)).
  { destruct (si_key_version input); [by intros ? [= <-]|].
    eapply honest_bind; [apply honest_query|]. done. }
  intros s2 ver L2 Hver. apply honest_record_then. intros s3 L3. split_and!; [done..|].
  exists v, p. split_and!; [|done..]. eapply stored_mono; [|exact Hp]. by transitivity s2.
Qed.

Lemma get_usable_known db seen s a now e :
  db ⊆ seen → get_active_or_valid_deprecated_key db s a now = Ok (Some e) →
  known seen e ∧ ke_service_id e = s ∧ ke_algorithm e = a.
Proof.
  intros Hdb. unfold get_active_or_valid_deprecated_key, KeyQueries_get_active_or_valid_deprecated_key.
  assert (∀ r, r ∈ by_service (filter (λ r, kr_is_active r = true) db) → r ∈ db) as Hin.
  { intros r. rewrite by_service_perm, list_elem_of_filter. tauto. }
  revert Hin. generalize (by_service (filter (λ r, kr_is_active r = true) db)) as rows.
  induction rows as [|r rows IH]; intros Hin E; [done|]. cbn [find_usable] in E.
  apply result_bind_Ok in E as (e' & He & E). destruct (_ && _) eqn:Eb.
  - injection E as <-. apply andb_true_iff in Eb as [[Es Ea]%andb_true_iff _].
    apply bool_decide_eq_true in Es, Ea. split; [|done].
    eapply row_known; [apply Hin; left|done|done].
  - apply IH; [|done]. intros r' Hr'. apply Hin. by right.
Qed.

Lemma get_public_key_honest env ctx s a seen :
  honest (λ seen e, known seen e ∧ ke_service_id e = s ∧ ke_algorithm e = a) seen
    (get_public_key_program env ctx s a).
Proof.
  unfold get_public_key_program. eapply honest_bind; [apply honest_query|].
  intros s1 [e|] L1 (db & Hdb & E); [|by apply honest_record_then].
  destruct (get_usable_known db s1 s a (env_now env) e Hdb E) as (Hk & Hs & Ha).
  apply honest_record_then. intros s2 L2. split_and!; [by eapply known_mono|done..].
Qed.

Lemma cleanup_honest now entries : ∀ seen, honest anything seen (cleanup_program now entries).
Proof.
  induction entries as [|[s a] entries IH]; intros seen; cbn [cleanup_program]; [done|].
  eapply (honest_bind anything); [|intros s1 x L1 _; apply IH].
  assert (∀ seen' r, honest anything seen' (match r : result (option KeyPairEntity) AppError with
    | Ok None => cache_write (λ c, remove_all_for_service c s) | _ => kret () end)) as Hr.
  { intros s1 [[e|]|e]; try done. apply honest_cache_write. intros s2 c L2.
    apply cache_ok_subset, map_filter_subseteq. }
  intros s1 db L1 Hdb. split; [apply Hr|intros e; apply (Hr s1 (Err e))].
Qed.

(** The map of the bootstrap holds known keys under their names. *)
Definition map_known seen (m : gmap (ServiceId * KeyAlgorithm) KeyPairEntity) : Prop :=
  ∀ s a e, m !! (s, a) = Some e → known seen e ∧ ke_service_id e = s ∧ ke_algorithm e = a.

Lemma bootstrap_rule_honest env rule m seen :
  map_known seen m → honest map_known seen (bootstrap_rule_program env rule m).
Proof.
  intros Hm. unfold bootstrap_rule_program.
  eapply (honest_bind (λ seen '(e, m), map_known seen m ∧ known seen e ∧
    ke_service_id e = target_service rule ∧ ke_algorithm e = rule_algorithm rule)).
  { destruct (m !! _) as [e|] eqn:Em; [split; [done|by apply Hm]|].
    eapply (honest_bind (λ seen e, known seen e ∧ ke_service_id e = target_service rule ∧
      ke_algorithm e = rule_algorithm rule)).
    - unfold bootstrap_generate_program. eapply (honest_bind anything); [by apply honest_done|].
      intros s1 raw L1 _. eapply (honest_bind anything); [by apply honest_done|]. intros s2 enc L2 _.
      eapply honest_bind; [apply honest_update|]. intros s3 u L3 (db & db' & Hdb & E). split; [|done].
      apply result_bind_Ok in E as (db1 & E & [= _ <-]). eapply known_mono; [exact Hdb|].
      by eapply save_key_known; [|exact E].
    - intros s1 e L1 (Hk & Hs & Ha). split; [|done]. intros s a e'.
      rewrite lookup_insert_Some. intros [[[= <- <-] <-]|[_ E]]; [done|].
      destruct (Hm s a e' E) as (? & ? & ?). split; [by eapply known_mono|done]. }
  intros s1 [e m1] L1 (Hm1 & Hk & Hs & Ha). destruct (preload_flag rule); [|done].
  eapply (honest_bind (λ seen p,
    stored seen (target_service rule) (rule_algorithm rule) (ke_version e) p)).
  { apply honest_done. intros p Hp. rewrite <- Hs, <- Ha. by apply known_stored. }
  intros s2 p L2 Hp. eapply honest_bind; [by apply honest_insert|]. intros s3 u L3 _ s a e' E.
  destruct (Hm1 s a e' E) as (? & ? & ?). split; [|done].
  eapply known_mono; [|eassumption]. by transitivity s2.
Qed.

Lemma bootstrap_honest envs values seen : honest anything seen (bootstrap_program envs values).
Proof.
  unfold bootstrap_program. eapply honest_bind; [apply honest_query|]. intros s1 es L1 (db & Hdb & E).
  assert (map_known s1 (key_map_of es)) as Hm.
  { intros s a e. intros [He [= -> ->]]%key_map_of_spec. split; [|done].
    destruct (active_keys_rows db es E) as [E1 _]. destruct (E1 e He) as (r & Hr & _ & Hrow).
    by eapply row_known. }
  revert Hm. generalize (key_map_of es) as m. generalize (values ≫= allowed_access) as rules.
  intros rules. revert envs s1 L1 Hdb. induction rules as [|rule rules IH]; intros envs s1 L1 Hdb m Hm;
    cbn [bootstrap_rules_program]; [done|].
  eapply honest_bind; [by apply bootstrap_rule_honest|]. intros s2 m2 L2 Hm2.
  apply IH; [by transitivity s1|by transitivity s1|done].
Qed.

(** Programs that put nothing into the cache. *)
Fixpoint no_insert {X} (p : kprog X) : Prop :=
  match p with
  | Done _ => True
  | Query f k => ∀ r, no_insert (k r)
  | Update f k => ∀ r, no_insert (k r)
  | Cached f k => (∀ c, (f c).2 ⊆ c) ∧ ∀ y, no_insert (k y)
  | Audited log k => ∀ r, no_insert (k r)
  end.

Lemma no_insert_bind {X Y} (p : kprog X) (k : X → kprog Y) :
  no_insert p → (∀ x, no_insert (k x)) → no_insert (kbind p k).
Proof.
  intros Hp Hk. induction p as [[x|e]|Z f h IH|Z f h IH|Z f h IH|log h IH]; cbn [kbind no_insert] in *;
    naive_solver.
Qed.

Lemma no_insert_honest {X} (p : kprog X) : ∀ seen, no_insert p → honest anything seen p.
Proof.
  induction p as [[x|e]|Z f h IH|Z f h IH|Z f h IH|log h IH]; intros seen Hp; cbn [no_insert honest] in *;
    try done.
  - intros s1 db _ _. split; [|intros e]; by apply IH.
  - intros s1 db _ _. split; [intros e|intros x db' _]; by apply IH.
  - intros s1 c _ Hc. destruct Hp as [Hp1 Hp2]. split; [by apply (cache_ok_subset s1 c)|by apply IH].
  - intros s1 r _. by apply IH.
Qed.

Lemma rotate_no_insert first grace acl env ctx input :
  no_insert (rotate_program first grace acl env ctx input).
Proof.
  unfold rotate_program.
  repeat match goal with
  | |- no_insert (kbind _ _) => apply no_insert_bind; [|intros]
  | |- no_insert (if ?b then _ else _) => destruct b
  | |- no_insert (match ?x with _ => _ end) => destruct x
  end; try done.
  split; [|done]. intros c. cbn [snd]. destruct (ri_reason input);
    [apply delete_subseteq|apply map_filter_subseteq|apply delete_subseteq].
Qed.

Lemma expirations_no_insert ids now : no_insert (process_expirations_program ids now).
Proof.
  unfold process_expirations_program. apply no_insert_bind; [done|].
  induction x as [|e es IH]; cbn [expire_program]; [done|].
  apply no_insert_bind; [done|intros _]. by apply no_insert_bind.
Qed.

Lemma rewrap_no_insert rounds ents v n : no_insert (rewrap_program rounds ents v n).
Proof.
  unfold rewrap_program. apply no_insert_bind; [done|intros c]. destruct (negb _); [done|].
  generalize 0%nat as total. induction rounds as [|rounds IH]; intros total; [done|].
  cbn [rewrap_loop_program]. apply no_insert_bind; [|intros [count|]; [apply IH|done]].
  unfold rewrap_round_program. apply no_insert_bind; [done|intros [|e es]; [done|]].
  apply no_insert_bind; [done|intros ups]. apply no_insert_bind; done.
Qed.

Lemma generate_no_insert acl env ctx input : no_insert (generate_program acl env ctx input).
Proof.
  unfold generate_program. destruct (negb _); [by apply no_insert_bind|].
  apply no_insert_bind; [done|intros o].
  apply no_insert_bind; [destruct o; [by apply no_insert_bind|done]|intros v].
  repeat (apply no_insert_bind; [done|intros]). done.
Qed.

(** What an answer says, for the request it answers. *)
Definition answer_for acl (req : KeyRequest) seen (ans : Answer) : Prop :=
  match req with
  | ReqPrivateKey _ _ input => ∃ o, ans = KeyAnswer o ∧ key_answer acl PrivateKey input seen o
  | ReqSymmetricKey _ _ input => ∃ o, ans = KeyAnswer o ∧ key_answer acl SymmetricKey input seen o
  | ReqSign _ _ input => ∃ o, ans = SignAnswer o ∧ sign_answer acl input seen o
  | ReqPublicKey _ _ s a =>
      ∃ e, ans = EntityAnswer e ∧ known seen e ∧ ke_service_id e = s ∧ ke_algorithm e = a
  | _ => True
  end.

Lemma answer_for_mono acl req : monotone_post (answer_for acl req).
Proof.
  intros s1 s2 ans Hsub. destruct req; cbn [answer_for]; try done.
  - intros (o & -> & ? & ? & ? & ?). exists o. do 4 (split; [done|]). by eapply stored_mono.
  - intros (o & -> & ? & ? & ? & ?). exists o. do 4 (split; [done|]). by eapply stored_mono.
  - intros (e & -> & ? & ? & ?). exists e. split; [done|]. split; [by eapply known_mono|done].
  - intros (o & -> & ? & ? & ? & ? & v & p & ? & ? & ?). exists o. do 5 (split; [done|]).
    exists v, p. split; [by eapply stored_mono|done].
Qed.

Lemma honest_kmap {X} (P : list KeyDbRow → X → Prop) (Q : list KeyDbRow → Answer → Prop) f p seen :
  (∀ seen x, P seen x → Q seen (f x)) → honest P seen p → honest Q seen (kmap f p).
Proof. intros Hf Hp. eapply honest_bind; [exact Hp|]. intros s1 x _ Hx. by apply Hf. Qed.

Lemma program_honest grace acl req seen : honest (answer_for acl req) seen (program grace acl req).
Proof.
  destruct req; cbn [program answer_for].
  - eapply honest_kmap; [|apply no_insert_honest, generate_no_insert]. done.
  - eapply honest_kmap; [|apply no_insert_honest, rotate_no_insert]. done.
  - eapply honest_kmap; [|apply get_key_honest]. cbn. eauto.
  - eapply honest_kmap; [|apply get_key_honest]. cbn. eauto.
  - eapply honest_kmap; [|apply get_public_key_honest]. cbn. eauto.
  - eapply honest_kmap; [|apply sign_data_honest]. cbn. eauto.
  - eapply honest_kmap; [|apply no_insert_honest, expirations_no_insert]. done.
  - eapply honest_kmap; [|eapply honest_bind; [apply honest_cache_read|]]; [done|].
    intros s1 x _ _. apply cleanup_honest.
  - eapply honest_kmap; [|apply no_insert_honest, rewrap_no_insert]. done.
  - eapply honest_kmap; [|apply bootstrap_honest]. done.
Qed.

Definition sys_honest acl (s : System (A := A)) : Prop :=
  w_keys (sy_world s) ⊆ sy_seen s ∧ cache_ok (sy_seen s) (w_cache (sy_world s)) ∧
  map_Forall (λ _ t, honest (answer_for acl t.1) (sy_seen s) t.2) (sy_tasks s) ∧
  Forall (λ l, ∀ ans, l.2 = Ok ans → answer_for acl l.1 (sy_seen s) ans) (sy_log s).

Lemma sys_advance_honest acl i req p p' w' (s : System (A := A)) :
  sys_honest acl s → sy_tasks s !! i = Some (req, p) →
  kstep p (sy_world s) = Some (p', w') ∨ (∃ after e, kfault after e p (sy_world s) = Some (p', w')) →
  sys_honest acl (sys_advance i req p' w' s).
Proof.
  intros (Hk & Hc & Ht & Hl) Hi Hstep.
  destruct (kstep_honest (answer_for acl req) (sy_seen s) p p' (sy_world s) w' Hk Hc
    (answer_for_mono acl req) (Ht i _ Hi) Hstep) as (Hk' & Hc' & Hp').
  split_and!; [done|done| |]; cbn [sys_advance sy_tasks sy_log sy_seen].
  - apply map_Forall_insert_2; [done|]. eapply map_Forall_impl; [exact Ht|].
    intros j [req' q] Hq. eapply honest_mono; [apply answer_for_mono| |exact Hq]. set_solver.
  - eapply Forall_impl; [exact Hl|]. intros [req' r] Hr ans E.
    eapply answer_for_mono; [|by apply Hr]. set_solver.
Qed.

Lemma sys_step_honest grace acl (s s' : System (A := A)) :
  sys_step (program grace acl) s s' → sys_honest acl s → sys_honest acl s'.
Proof.
  intros St Hs.
  destruct St as [i req s Hi|i req p p' w' s Hi Hk|i after e req p p' w' s Hi Hk|i req r s Hi|i s].
  - destruct Hs as (Hk & Hc & Ht & Hl). split_and!; [done..| |done].
    apply map_Forall_insert_2; [apply program_honest|done].
  - eapply sys_advance_honest; [done|done|by left].
  - eapply sys_advance_honest; [done|done|by right; eauto].
  - destruct Hs as (Hk & Hc & Ht & Hl). split_and!; [done..|by apply map_Forall_delete|].
    constructor; [|done]. intros ans E. cbn [snd] in E. subst r. apply (Ht i _ Hi).
  - destruct Hs as (Hk & Hc & Ht & Hl). split_and!; [done..|by apply map_Forall_delete|done].
Qed.

Lemma sys_reachable_honest grace acl (w : World A) s :
  cache_ok (w_keys w) (w_cache w) → sys_reachable (program grace acl) w s → sys_honest acl s.
Proof.
  intros Hc R. assert (sys_honest acl (system_start w)) as Hs
    by (split_and!; [done|done|apply map_Forall_empty|constructor]).
  unfold sys_reachable in R. revert Hs. induction R as [s|s1 s2 s3 St _ IH]; [done|].
  intros Hs. apply IH. by eapply sys_step_honest.
Qed.

(** C7: whatever runs side by side, keys go only where they belong.  If the
    cache holds stored keys when the system starts, then in any execution, with
    lost connections and dropped tasks, a request for a private or symmetric
    key is answered only to a caller with the access rule for it, and with the
    decryption of a row the table has held for exactly that service, algorithm
    and version; a signature is made only for such a caller, over the payload of
    the request, and under a key the table has held for that service and
    algorithm in some version, which need not be the version the request names
    and the answer repeats; a public key request is answered with a row of the
    service and algorithm asked for. *)
Theorem interleaved_answers_authentic grace acl (w : World A) s req ans :
  cache_ok (w_keys w) (w_cache w) → sys_reachable (program grace acl) w s →
  (req, Ok ans) ∈ sy_log s → answer_for acl req (sy_seen s) ans.
Proof.
  intros Hc R Hin. destruct (sys_reachable_honest grace acl w s Hc R) as (_ & _ & _ & Hl).
  rewrite Forall_forall in Hl. by apply (Hl (req, Ok ans)).
Qed.

End HonestPrograms.

(** ** Readers and rotations *)

Section StaleCache.
  Context `{Json} `{UuidFmt} `{KmsCryptoService} `{SqlDisplay} `{DebugTime} `{KeyOrder}
    `{Ed25519Sign}.
  Context {A : Type} `{AuditRepository A}.
  Implicit Types (env : Env) (ctx : RequestContext) (acl : CompiledAcl) (w : World A).

(** The rest of a reader's program once it has the active key. *)
Definition reader_holding acl env ctx (input : GetKeyInput) (e : KeyPairEntity) (p : list byte) :
    kprog Answer :=
  let target := ki_target_service input in
  let algo := ki_algorithm input in
  Cached (λ c, ((), cache_insert c target algo (ke_version e) p)) (λ _, kmap KeyAnswer
    (ksuccess env ctx GetPrivateKey (json [
       ("target_service", VString target);
       ("algorithm", VString (KeyAlgorithm_debug algo));
       ("version", VNumber (pretty (ke_version e)))]%string) ;;~
     kret (MkGetKeyOutput (ke_service_id e) (ke_algorithm e) (ke_version e) p))).

Lemma reader_reads grace acl env ctx input e p w :
  let s := ki_target_service input in
  let a := ki_algorithm input in
  authorize_key_access acl (ki_caller_service input) s a PrivateKey = true →
  CompiledAcl_should_preload_for acl s a = true →
  w_cache w !! ((s, a) : KeyCacheKey) = None → get_active_key (w_keys w) s a = Ok (Some e) →
  decrypt_private_key (ke_encrypted_private_key e) = Ok p →
  ∃ p1, kstep (program grace acl (ReqPrivateKey env ctx input)) w = Some (p1, w) ∧
    kstep p1 w = Some (reader_holding acl env ctx input e p, w).
Proof.
  intros s a Ha Hpre Hc Hk Hd. cbn [program]. unfold get_private_key_program, get_key_program.
  fold s a. rewrite Ha. cbn [negb]. eexists. split.
  - cbn [kmap kbind cache_read kstep]. unfold with_key. fold s a. rewrite Hc. by destruct w.
  - cbn [kmap kbind kret fmap option_fmap option_map query kstep]. rewrite Hk.
    cbn [kbind]. rewrite Hd, Hpre.
    reflexivity.
Qed.

Lemma reader_finishes acl env ctx input e p w :
  audit_total (A := A) →
  ke_service_id e = ki_target_service input → ke_algorithm e = ki_algorithm input →
  ∃ a, krun (reader_holding acl env ctx input e p) w =
    (Ok (KeyAnswer (MkGetKeyOutput (ki_target_service input) (ki_algorithm input) (ke_version e) p)),
     MkWorld (w_keys w)
       (cache_insert (w_cache w) (ki_target_service input) (ki_algorithm input) (ke_version e) p) a).
Proof.
  intros T Hs Ha. unfold reader_holding. cbn [krun]. rewrite Hs, Ha.
  erewrite (kmap_runs KeyAnswer _ (_ ;;* svc_ret _));
    [|apply runs_bind; [apply runs_record|intros; apply runs_ret]].
  unfold svc_bind.
  match goal with |- context [audit ?l ?w1] => destruct (audit_ok l w1 T) as [a ->] end.
  by exists a.
Qed.

Lemma reader_pauses grace acl env ctx input e p w :
  let s := ki_target_service input in
  let a := ki_algorithm input in
  let req := ReqPrivateKey env ctx input in
  authorize_key_access acl (ki_caller_service input) s a PrivateKey = true →
  CompiledAcl_should_preload_for acl s a = true →
  w_cache w !! ((s, a) : KeyCacheKey) = None → get_active_key (w_keys w) s a = Ok (Some e) →
  decrypt_private_key (ke_encrypted_private_key e) = Ok p →
  ∃ sys, rtc (sys_step (program grace acl)) (system_start w) sys ∧ sy_world sys = w ∧
    sy_tasks sys !! 0%nat = Some (req, reader_holding acl env ctx input e p) ∧
    sy_tasks sys !! 1%nat = None ∧ sy_log sys = [].
Proof.
  intros s a req Ha Hpre Hc Hk Hd.
  destruct (reader_reads grace acl env ctx input e p w Ha Hpre Hc Hk Hd) as (p1 & E1 & E2).
  destruct (sys_request_pauses (program grace acl) req p1 w E1) as (s1 & R & Ew & E0 & Et & El).
  exists (sys_advance 0 req (reader_holding acl env ctx input e p) w s1).
  split_and!; [|done|apply lookup_insert_eq|cbn; by rewrite lookup_insert_ne|done].
  eapply rtc_r; [exact R|]. apply (sys_call _ 0 req p1); [done|by rewrite Ew].
Qed.

Lemma cached_reader grace acl env ctx input v p w :
  audit_total (A := A) →
  authorize_key_access acl (ki_caller_service input) (ki_target_service input) (ki_algorithm input)
    PrivateKey = true →
  w_cache w !! ((ki_target_service input, ki_algorithm input) : KeyCacheKey) =
    Some (MkCachedKeyValue v p) →
  ∃ a, krun (program grace acl (ReqPrivateKey env ctx input)) w =
    (Ok (KeyAnswer (MkGetKeyOutput (ki_target_service input) (ki_algorithm input) v p)),
     MkWorld (w_keys w) (w_cache w) a).
Proof.
  intros T Ha Hc. cbn [program]. rewrite (kmap_runs _ _ (get_private_key acl env ctx input))
    by apply get_key_runs.
  unfold get_private_key, get_key. rewrite Ha. cbn [negb]. unfold svc_bind, with_cache, with_key.
  rewrite Hc. cbn [fmap option_fmap option_map cv_version cv_bytes].
  match goal with |- context [success ?e ?c ?x ?d w] => destruct (success_ok e c x d w T) as [a ->] end.
  by exists a.
Qed.

Lemma rotate_version first grace acl env ctx rot w new w1 e :
  rotate_key first grace acl env ctx rot w = (Ok new, w1) →
  get_active_key (w_keys w) (ri_service_id rot) (ri_algorithm rot) = Ok (Some e) →
  ke_version new = as_u32 (ke_version e + 1).
Proof.
  unfold rotate_key. intros E Hk. case_match.
  { apply svc_bind_Ok in E as (? & ? & _ & [=]). }
  apply svc_bind_Ok in E as (o & w2 & [= Ho <-] & E). rewrite Hk in Ho. injection Ho as <-.
  apply svc_bind_Ok in E as (k & w3 & [= <- <-] & E).
  apply svc_bind_Ok in E as (raw & w4 & _ & E). apply svc_bind_Ok in E as (enc & w5 & _ & E).
  apply svc_bind_Ok in E as ([] & w6 & _ & E); [|done]. cbn [negb] in E.
  apply svc_bind_Ok in E as (u & w7 & _ & E). apply svc_bind_Ok in E as (u' & w8 & _ & E).
  by injection E as <- _.
Qed.

Lemma generate_version acl env ctx gen w new w1 e :
  generate_key_pair acl env ctx gen w = (Ok new, w1) →
  get_active_key (w_keys w) (gi_service_id gen) (gi_algorithm gen) = Ok (Some e) →
  ke_version new = as_u32 (ke_version e + 1).
Proof.
  unfold generate_key_pair. intros E Hk. case_match.
  { apply svc_bind_Ok in E as (? & ? & _ & [=]). }
  apply svc_bind_Ok in E as (o & w2 & [= Ho <-] & E). rewrite Hk in Ho. injection Ho as <-.
  apply svc_bind_Ok in E as (v & w3 & Ev & E). apply svc_bind_Ok in Ev as (? & ? & _ & [= <- _]).
  apply svc_bind_Ok in E as (raw & w4 & _ & E). apply svc_bind_Ok in E as (enc & w5 & _ & E).
  apply svc_bind_Ok in E as (u & w7 & _ & E). apply svc_bind_Ok in E as (u' & w8 & _ & E).
  by injection E as <- _.
Qed.

(** A program that does not touch the cache. *)
Fixpoint cache_free {X} (p : kprog X) : Prop :=
  match p with
  | Done _ => True
  | Query f k => ∀ r, cache_free (k r)
  | Update f k => ∀ r, cache_free (k r)
  | Cached f k => False
  | Audited log k => ∀ r, cache_free (k r)
  end.

Lemma cache_free_bind {X Y} (p : kprog X) (k : X → kprog Y) :
  cache_free p → (∀ x, cache_free (k x)) → cache_free (kbind p k).
Proof.
  intros Hp Hk. induction p as [[x|e]|Z f h IH|Z f h IH|Z f h IH|log h IH]; cbn [kbind cache_free] in *;
    naive_solver.
Qed.

Lemma cache_free_run {X} (p : kprog X) : ∀ w, cache_free p → w_cache (krun p w).2 = w_cache w.
Proof.
  induction p as [r|Y f k IH|Y f k IH|Y f k IH|log k IH]; intros w Hp; cbn [krun cache_free] in *;
    [done|by apply IH| |done|].
  - assert (w_cache (update_keys f w).2 = w_cache w) as E
      by (unfold update_keys; by destruct (f (w_keys w)) as [[]|]).
    destruct (update_keys f w) as [r w']. rewrite IH by done. exact E.
  - pose proof (audit_same_store log w) as [_ E]. destruct (audit log w) as [r w'].
    rewrite IH by done. exact E.
Qed.

Lemma generate_keeps_cache acl env ctx gen w :
  w_cache (generate_key_pair acl env ctx gen w).2 = w_cache w.
Proof.
  rewrite <- generate_runs. apply cache_free_run. unfold generate_program.
  destruct (negb _); [by apply cache_free_bind|].
  apply cache_free_bind; [done|intros o].
  apply cache_free_bind; [destruct o; [by apply cache_free_bind|done]|intros v].
  repeat (apply cache_free_bind; [done|intros]). done.
Qed.

(** C37: a rotation does not take effect for a reader that overlaps it.  A
    reader that has fetched the active key of a preloaded service before the
    rotation caches it after the rotation has cleared the cache; from then on
    the old key is served to every reader, also when it was rotated because it
    was compromised, while the table has the new one. *)
Theorem rotated_key_still_served grace acl first w e p env ctx input rot_env rot_ctx rot new w1
    env' ctx' input' :
  let s := ki_target_service input in
  let a := ki_algorithm input in
  audit_total (A := A) →
  authorize_key_access acl (ki_caller_service input) s a PrivateKey = true →
  CompiledAcl_should_preload_for acl s a = true →
  w_cache w !! ((s, a) : KeyCacheKey) = None → get_active_key (w_keys w) s a = Ok (Some e) →
  decrypt_private_key (ke_encrypted_private_key e) = Ok p →
  ri_service_id rot = s → ri_algorithm rot = a →
  rotate_key first grace acl rot_env rot_ctx rot w = (Ok new, w1) →
  ki_target_service input' = s → ki_algorithm input' = a →
  authorize_key_access acl (ki_caller_service input') s a PrivateKey = true →
  ke_version new = as_u32 (ke_version e + 1) ∧
  ∃ sys, sys_reachable (program grace acl) w sys ∧ w_keys (sy_world sys) = w_keys w1 ∧
    let stale := Ok (KeyAnswer (MkGetKeyOutput s a (ke_version e) p)) in
    sy_log sys = [(ReqPrivateKey env' ctx' input', stale); (ReqPrivateKey env ctx input, stale);
                  (ReqRotate first rot_env rot_ctx rot, Ok (EntityAnswer new))].
Proof.
  intros s a T Ha Hpre Hc Hk Hd Hrs Hra Hrot Hs' Ha' Hauth'.
  split; [eapply rotate_version; [exact Hrot|by rewrite Hrs, Hra]|].
  destruct (get_active_key_known (w_keys w) (w_keys w) s a e) as (_ & Hes & Hea); [done..|].
  set (req := ReqPrivateKey env ctx input).
  destruct (reader_pauses grace acl env ctx input e p w) as (s3 & R1 & Ew & E0 & E1 & El); [done..|].
  destruct (sys_request_alone (program grace acl) 1 (ReqRotate first rot_env rot_ctx rot) s3)
    as (seen2 & R2 & _); [done|].
  rewrite Ew, El in R2. cbn [program] in R2.
  rewrite (kmap_runs EntityAnswer _ (rotate_key first grace acl rot_env rot_ctx rot)) in R2
    by apply rotate_runs.
  unfold svc_bind, svc_ret in R2. rewrite Hrot in R2. cbn [fst snd] in R2.
  match type of R2 with rtc _ _ ?s => set (s4 := s) in R2 end.
  destruct (sys_run_alone (program grace acl) 0 req (reader_holding acl env ctx input e p) s4)
    as (seen3 & R3 & _); [exact E0|].
  destruct (reader_finishes acl env ctx input e p w1 T Hes Hea) as [a1 E3]. cbn [sy_world s4] in R3.
  rewrite E3 in R3. match type of R3 with rtc _ _ ?s => set (s5 := s) in R3 end.
  destruct (sys_request_alone (program grace acl) 1 (ReqPrivateKey env' ctx' input') s5)
    as (seen4 & R4 & _).
  { cbn. by rewrite lookup_delete_ne. }
  destruct (cached_reader grace acl env' ctx' input' (ke_version e) p (sy_world s5) T) as [a2 E4].
  { by rewrite Hs', Ha'. }
  { rewrite Hs', Ha'. cbn. apply lookup_insert_eq. }
  rewrite E4 in R4. rewrite Hs', Ha' in R4. eexists. split.
  - unfold sys_reachable. etransitivity; [exact R1|]. etransitivity; [exact R2|].
    etransitivity; [exact R3|exact R4].
  - done.
Qed.

(** Generating a key does not take effect for readers of the cache.  A
    service that generates a new key, which retires the active one, goes on
    being served the retired key from the cache: generation clears no entry. *)
Theorem generation_leaves_cache acl env ctx gen w e new w1 caller env' ctx' p :
  let s := gi_service_id gen in
  let a := gi_algorithm gen in
  audit_total (A := A) →
  get_active_key (w_keys w) s a = Ok (Some e) →
  w_cache w !! ((s, a) : KeyCacheKey) = Some (MkCachedKeyValue (ke_version e) p) →
  generate_key_pair acl env ctx gen w = (Ok new, w1) →
  authorize_key_access acl caller s a PrivateKey = true →
  ke_version new = as_u32 (ke_version e + 1) ∧
  ∃ w2, get_private_key acl env' ctx' (MkGetKeyInput caller s a) w1 =
    (Ok (MkGetKeyOutput s a (ke_version e) p), w2).
Proof.
  intros s a T Hk Hc Hgen Ha. split; [by eapply generate_version|].
  pose proof (generate_keeps_cache acl env ctx gen w) as Hw. rewrite Hgen in Hw. cbn [snd] in Hw.
  destruct (get_private_key_cached acl env' ctx' caller s a (ke_version e) p w1) as [w2 E];
    [done|done|]. exists w2. rewrite <- E. f_equal. destruct w1 as [keys cache log].
    cbn [w_keys w_cache w_audit] in *. unfold cache_insert. by rewrite insert_id by (by rewrite Hw).
Qed.

End StaleCache.

(** ** A concrete system *)

Section InterleavingWitnesses.
  Import Concrete ConcreteAudit ConcreteKeys.
  #[local] Existing Instances list_audit concat_sign demo_crypto demo_crypto_laws.

Definition demo_read : KeyRequest :=
  ReqPrivateKey (good_env 3) demo_ctx (MkGetKeyInput "svc" "svc" Ed25519).
Definition demo_key (v : Z) : Answer := KeyAnswer (MkGetKeyOutput "svc" Ed25519 v (demo_secret v)).

Lemma demo_world_cache : w_cache demo_world = ∅.
Proof. vm_compute. reflexivity. Qed.

Lemma demo_rotation_read :
  (krun (program 60 demo_compiled demo_read) (krun (program 60 demo_compiled
    (ReqRotate true (good_env 2) demo_ctx demo_rotate)) demo_world).2).1 = Ok (demo_key 2).
Proof. vm_compute. reflexivity. Qed.

(** A rotation, then a reader. *)
Definition demo_requests (s : System (A := list AuditLog)) : Prop :=
  sys_reachable (program 60 demo_compiled) demo_world s ∧ length (sy_log s) = 2%nat ∧
  (demo_read, Ok (demo_key 2)) ∈ sy_log s.

Lemma demo_requests_run : ∃ s, demo_requests s.
Proof.
  destruct (sys_request_alone (program 60 demo_compiled) 0
    (ReqRotate true (good_env 2) demo_ctx demo_rotate) (system_start demo_world))
    as (seen & R & _); [done|].
  match type of R with rtc _ _ ?s => set (s1 := s) in R end.
  destruct (sys_request_alone (program 60 demo_compiled) 0 demo_read s1) as (seen2 & R2 & _); [done|].
  eexists. split_and!; [unfold sys_reachable; etransitivity; [exact R|exact R2]|done|].
  cbn [sy_log]. apply elem_of_cons. left.
  cbn [sy_world s1 system_start]. by rewrite demo_rotation_read.
Qed.

Lemma interleaved_table_invariant_witness :
  ∃ s, demo_requests s ∧ table_wf (w_keys (sy_world s)).
Proof.
  destruct demo_requests_run as [s Hs]. exists s. split; [exact Hs|].
  apply (interleaved_table_invariant 60 demo_compiled demo_world s); [exact demo_world_wf|apply Hs].
Defined.

Lemma interleaved_answers_authentic_witness :
  ∃ s, demo_requests s ∧ answer_for demo_compiled demo_read (sy_seen s) (demo_key 2).
Proof.
  destruct demo_requests_run as [s Hs]. exists s. split; [exact Hs|].
  apply (interleaved_answers_authentic 60 demo_compiled demo_world s); [|apply Hs|apply Hs].
  rewrite demo_world_cache. intros s' a cv. by rewrite lookup_empty.
Defined.

Lemma rotated_key_still_served_witness :
  ∃ sys, sys_reachable (program 60 demo_compiled) demo_world sys ∧
    w_keys (sy_world sys) = w_keys demo_rotated ∧ snd <$> sy_log sys !! 0%nat = Some (Ok (demo_key 1)).
Proof.
  destruct (rotate_key true 60 demo_compiled (good_env 2) demo_ctx demo_rotate demo_world)
    as [[new|err] w1] eqn:E; [|vm_compute in E; discriminate].
  destruct (rotated_key_still_served 60 demo_compiled true demo_world demo_active (demo_secret 1)
    (good_env 3) demo_ctx (MkGetKeyInput "svc" "svc" Ed25519) (good_env 2) demo_ctx demo_rotate new w1
    (good_env 4) demo_ctx (MkGetKeyInput "svc" "svc" Ed25519)) as (_ & sys & R & K & L);
    [exact list_audit_total|vm_compute; reflexivity|vm_compute; reflexivity|vm_compute; reflexivity|
     vm_compute; reflexivity|vm_compute; reflexivity|vm_compute; reflexivity|vm_compute; reflexivity|exact E|
     vm_compute; reflexivity|vm_compute; reflexivity|vm_compute; reflexivity|].
  exists sys. split_and!; [exact R| |].
  - rewrite K. unfold demo_rotated. by rewrite E.
  - rewrite L. vm_compute. reflexivity.
Defined.

(** The concrete service once the key has been read. *)
Definition demo_cached : World (list AuditLog) :=
  (get_private_key demo_compiled (good_env 2) demo_ctx (MkGetKeyInput "svc" "svc" Ed25519)
    demo_world).2.

Lemma generation_leaves_cache_witness :
  ∃ new w1 w2,
    generate_key_pair demo_compiled (good_env 3) demo_ctx demo_generate demo_cached = (Ok new, w1) ∧
    ke_version new = 2 ∧
    get_private_key demo_compiled (good_env 4) demo_ctx (MkGetKeyInput "svc" "svc" Ed25519) w1 =
      (Ok (MkGetKeyOutput "svc" Ed25519 1 (demo_secret 1)), w2).
Proof.
  destruct (generate_key_pair demo_compiled (good_env 3) demo_ctx demo_generate demo_cached)
    as [[new|err] w1] eqn:E; [|vm_compute in E; discriminate].
  destruct (generation_leaves_cache demo_compiled (good_env 3) demo_ctx demo_generate demo_cached
    demo_active new w1 "svc" (good_env 4) demo_ctx (demo_secret 1)) as (V & w2 & G);
    [exact list_audit_total|vm_compute; reflexivity|vm_compute; reflexivity|exact E|
     vm_compute; reflexivity|].
  exists new, w1, w2. split_and!; [reflexivity| |exact G].
  rewrite V. vm_compute. reflexivity.
Defined.

End InterleavingWitnesses.
