(* ===== verification/KeyPairs.v ===== *)
(** * Public and private keys

    The key pairs the service makes, the signatures under them and their
    verification: [infrastructure/crypto/kms_service.rs] generates the pairs
    with the dalek crates, the key table keeps the public key as PEM text beside
    the encrypted private key, [sign_data.rs] signs, and the PEM parser of
    [handlers/audit.rs] reads the public key back.  While no rewrap runs, every
    signature the service answers verifies under a public key the table has
    held for the service; a rewrap that overlaps a generation can put the
    private key of a retired pair beside the public key of a new one. *)

From Stdlib Require Import Ascii.
From stdpp Require Import sorting.
From S2P Require Import Prelude.
From S2P Require Import Interfaces.
From S2P Require Import Domain.
From S2P Require Import Protocol.
From S2P Require Import Vhsm.
From S2P Require Import Acl.
From S2P Require Import AuditLog.
From S2P Require Import AuditChain.
From S2P Require Import KeyStore.
From S2P Require Import KeyUseCases.
From S2P Require Import Startup.
From S2P Require Import Interleaving.

(** ** The generators *)

(** [ed25519-dalek], [x25519-dalek], and the PEM encoders of [pkcs8] and [pem].
    A signing key is kept as the 32 bytes it is made from. *)
Class DalekKeys := {
  verifying_key_bytes : list byte → list byte;
  to_public_key_pem : list byte → result string string;
  static_secret_bytes : list byte → list byte;
  x25519_public_bytes : list byte → list byte;
  pem_encode : string → list byte → string }.

Section generators.
  Context `{DalekKeys}.

Definition VhsmCryptoService_generate_ed25519_keypair (ent : Entropy) :
    outcome (result RawKeyPair AppError) :=
  let! signing_key := fill_bytes (ent 0) 32 in
  Interfaces.Value (
    let? public_key_pem :=
      map_err (λ e, CryptoError ("Failed to encode Ed25519 public key to PEM: " +s+ e) (Some e))
        (to_public_key_pem (verifying_key_bytes signing_key)) in
    Ok (MkRawKeyPair public_key_pem signing_key)).

Definition VhsmCryptoService_generate_x25519_keypair (ent : Entropy) :
    outcome (result RawKeyPair AppError) :=
  let! bytes := fill_bytes (ent 0) 32 in
  let secret := static_secret_bytes bytes in
  let public_key_pem := pem_encode "X25519 PUBLIC KEY" (x25519_public_bytes secret) in
  Interfaces.Value (Ok (MkRawKeyPair public_key_pem secret)).

(** The task that panics does nothing more, as after an error. *)
Definition or_dies {X} (o : outcome (result X AppError)) : result X AppError :=
  match o with
  | Interfaces.Value r => r
  | _ => Err (RuntimeError "panicked")
  end.

(** The service with its own generators. *)
Definition DalekCryptoService (send_request : Entropy → HsmRequest → result HsmResponse AppError)
    (ent0 : Entropy) : KmsCryptoService :=
  VhsmCryptoService send_request (λ ent, or_dies (VhsmCryptoService_generate_ed25519_keypair ent))
    (λ ent, or_dies (VhsmCryptoService_generate_x25519_keypair ent)) ent0.

End generators.

(** ** Reading the public key back *)

(** What the verification relies on: [to_public_key_pem] writes the
    [SubjectPublicKeyInfo] of the key, twelve bytes before the key itself, as
    one line of base64; a signature verifies under the public key of its key. *)
Definition newline : string := String (Ascii.ascii_of_nat 10) EmptyString.

Class DalekLaws (D : DalekKeys) (L : Ed25519Lib) (S : Ed25519Sign) := {
  verifying_key_length seed : length seed = 32%nat → length (verifying_key_bytes seed) = 32%nat;
  public_key_pem_text pk pem :
    length pk = 32%nat → to_public_key_pem pk = Ok pem →
    ∃ b64 prefix, base64_decode b64 = Some (prefix ++ pk) ∧ b64 ≠ EmptyString ∧
      (∀ c, c ∈ chars b64 → c ≠ Ascii.ascii_of_nat 10 ∧ c ≠ Ascii.ascii_of_nat 13 ∧ c ≠ "-"%char) ∧
      pem = "-----BEGIN PUBLIC KEY-----" +s+ newline +s+ b64 +s+ newline
            +s+ "-----END PUBLIC KEY-----" +s+ newline;
  signature_verifies seed m :
    length seed = 32%nat →
    ∃ vk, vk_from_bytes (verifying_key_bytes seed) = Some vk ∧
      vk_verify_strict vk m (ed25519_sign seed m) = true }.

Section reading.
  Context `{D : DalekKeys} `{L : Ed25519Lib} `{S : Ed25519Sign} `{!DalekLaws D L S}.

(** A line ends at its line feed. *)
Lemma lines_go_line cur l rest :
  (∀ c, c ∈ l → c ≠ Ascii.ascii_of_nat 10) →
  lines_go cur (l ++ Ascii.ascii_of_nat 10 :: rest) =
  String.string_of_list_ascii (reverse (strip_cr (reverse l ++ cur))) :: lines_go [] rest.
Proof.
  revert cur. induction l as [|c l IH]; intros cur Hl; cbn [app lines_go].
  - by rewrite Ascii.eqb_refl.
  - destruct (Ascii.eqb_spec c (Ascii.ascii_of_nat 10)) as [E|_];
      [by destruct (Hl c); [left|]|].
    rewrite IH by (intros; apply Hl; by right). by rewrite reverse_cons, <- app_assoc.
Qed.

Lemma pem_line l rest :
  (∀ c, c ∈ l → c ≠ Ascii.ascii_of_nat 10 ∧ c ≠ Ascii.ascii_of_nat 13) →
  lines_go [] (l ++ Ascii.ascii_of_nat 10 :: rest) =
  String.string_of_list_ascii l :: lines_go [] rest.
Proof.
  intros Hl. rewrite lines_go_line by (intros c Hc; by apply Hl). f_equal. f_equal.
  rewrite app_nil_r. destruct (reverse l) as [|c l'] eqn:E; cbn [strip_cr].
  - apply (f_equal reverse) in E. by rewrite reverse_involutive in E.
  - destruct (Ascii.eqb_spec c (Ascii.ascii_of_nat 13)) as [->|_].
    + exfalso. assert (Ascii.ascii_of_nat 13 ∈ l) as Hc%Hl; [|naive_solver].
      apply elem_of_reverse. rewrite E. left.
    + by rewrite <- E, reverse_involutive.
Qed.

Lemma pem_lines a b64 b :
  (∀ t, t ∈ [a; b64; b] → ∀ c, c ∈ chars t → c ≠ Ascii.ascii_of_nat 10 ∧ c ≠ Ascii.ascii_of_nat 13) →
  str_lines (a +s+ newline +s+ b64 +s+ newline +s+ b +s+ newline) = [a; b64; b].
Proof.
  intros Ht. unfold str_lines. rewrite !chars_app.
  change (chars newline) with [Ascii.ascii_of_nat 10].
  cbn [app]. rewrite pem_line by (apply Ht; set_solver). rewrite pem_line by (apply Ht; set_solver).
  rewrite pem_line by (apply Ht; set_solver). unfold chars.
  by rewrite !String.string_of_list_ascii_of_string.
Qed.

Lemma no_dash_not_marker t :
  t ≠ EmptyString → (∀ c, c ∈ chars t → c ≠ "-"%char) → starts_with "-----" t = false.
Proof.
  intros Hne Hc. destruct t as [|c t]; [done|]. unfold starts_with. cbn [String.prefix].
  destruct (Ascii.ascii_dec "-" c) as [<-|]; [|done]. exfalso. apply (Hc "-"%char); [left|done].
Qed.

(** The PEM parser of the service reads what its generator has written. *)
Lemma parse_public_key_pem seed pem :
  length seed = 32%nat → to_public_key_pem (verifying_key_bytes seed) = Ok pem →
  parse_ed25519_pub_from_pem pem = vk_from_bytes (verifying_key_bytes seed).
Proof.
  intros Hlen Hpem. pose proof (verifying_key_length seed Hlen) as Hpk.
  destruct (public_key_pem_text _ _ Hpk Hpem) as (b64 & pre & Hdec & Hne & Hc & ->).
  unfold parse_ed25519_pub_from_pem. rewrite pem_lines.
  - rewrite filter_cons_False by done. rewrite filter_cons_True
      by (apply no_dash_not_marker; [done|]; intros c Hi; by apply Hc).
    rewrite filter_cons_False by done. cbn [filter list_filter String.concat]. rewrite Hdec.
    rewrite length_app, Hpk, Nat.add_sub.
    replace (32 <=? length pre + 32)%nat with true by (symmetry; apply Nat.leb_le; lia).
    by rewrite drop_app_length.
  - intros t [->|[->|[->|[]%elem_of_nil]%elem_of_cons]%elem_of_cons]%elem_of_cons c Hi.
    + apply list_elem_of_In in Hi. vm_compute in Hi. naive_solver.
    + split; by apply Hc.
    + apply list_elem_of_In in Hi. vm_compute in Hi. naive_solver.
Qed.

End reading.

(** ** The rows of the table hold pairs *)

(** The generator of the service makes pairs. *)
Class KeyPairLaws `{DalekKeys} (C : KmsCryptoService) := {
  generated_pair ent raw :
    generate_ed25519_keypair ent = Ok raw →
    length (rk_private_key_bytes raw) = 32%nat ∧
    to_public_key_pem (verifying_key_bytes (rk_private_key_bytes raw)) = Ok (rk_public_key_pem raw) }.

#[export] Instance DalekCryptoService_pairs `{DalekKeys} send ent0 :
  KeyPairLaws (DalekCryptoService send ent0).
Proof.
  split. intros ent raw E. cbn in E.
  unfold VhsmCryptoService_generate_ed25519_keypair, fill_bytes in E.
  destruct (ent 0 32%nat) as [bytes|] eqn:Hd; [|done]. cbn [outcome_bind or_dies] in E.
  apply result_bind_Ok in E as (pem & Hp%map_err_Ok & [= <-]). split; [|done]. by eapply draw_length.
Qed.

Section pairs.
  Context `{Hdalek : DalekKeys} `{Hcrypto : KmsCryptoService}.

(** A column of key data and a public key that belong together. *)
Definition pair_ok (algorithm : string) (data : list byte) (pem : string) : Prop :=
  algorithm = "Ed25519"%string →
  ∃ seed, (∀ v, decrypt_private_key (MkEncryptedPrivateKey data v) = Ok seed) ∧
    length seed = 32%nat ∧ to_public_key_pem (verifying_key_bytes seed) = Ok pem.

Definition row_paired (r : KeyDbRow) : Prop :=
  pair_ok (kr_algorithm r) (kr_encrypted_key_data r) (kr_public_key_pem r).

Definition entity_paired (e : KeyPairEntity) : Prop :=
  pair_ok (KeyAlgorithm_debug (ke_algorithm e)) (ciphertext (ke_encrypted_private_key e))
    (ke_public_key_pem e).

Lemma generated_entity_paired `{!KmsCryptoLaws Hcrypto} `{!KeyPairLaws Hcrypto} m env ent a raw enc :
  generate_for m env a = Ok raw →
  encrypt_private_key ent (rk_private_key_bytes raw) = Ok enc →
  pair_ok (KeyAlgorithm_debug a) (ciphertext enc) (rk_public_key_pem raw).
Proof.
  intros Hg He Ha. destruct a; try done. cbn [generate_for] in Hg.
  destruct (generated_pair _ _ Hg) as [Hlen Hpem].
  exists (rk_private_key_bytes raw). split_and!; [|done|done]. intros v.
  eapply decrypt_encrypted; [|done]. unfold blen, SECRET_MAX. lia.
Qed.

Lemma upsert_paired db new db' :
  Forall row_paired db → row_paired new → upsert db new = Ok db' → Forall row_paired db'.
Proof.
  intros Hdb Hnew E. unfold upsert in E. case_match; [case_match; [done|]|repeat (case_match; [done|])].
  - injection E as <-. apply Forall_fmap. eapply Forall_impl; [exact Hdb|].
    intros r Hr. cbn. destruct (same_version _ _ _ r) eqn:Hv; [|done].
    apply same_version_true in Hv as (_ & Ha & _). unfold row_paired, overwrite. cbn. by rewrite Ha.
  - injection E as <-. apply Forall_app. split; [done|]. by apply Forall_singleton.
Qed.

Lemma update_where_paired p f db :
  (∀ r, row_paired r → row_paired (f r)) → Forall row_paired db →
  Forall row_paired (update_where p f db).
Proof.
  intros Hf Hdb. apply Forall_fmap. eapply Forall_impl; [exact Hdb|]. intros r Hr. cbn.
  destruct (p r); [by apply Hf|done].
Qed.

Section statements.
  Context `{SqlDisplay} `{DebugTime}.

Lemma updates_paired_save now e :
  entity_paired e →
  updates_keep (Forall row_paired) (update (λ db, let? db := save_key db now e in Ok ((), db))).
Proof.
  intros He. split; [|done]. intros db x db' Hdb E. apply result_bind_Ok in E as (db1 & E & [= <- <-]).
  apply map_err_Ok in E. eapply upsert_paired; [exact Hdb| |exact E]. exact He.
Qed.

Lemma updates_paired_rotate first now s a e until :
  entity_paired e → ke_algorithm e = a →
  updates_keep (Forall row_paired) (update (λ db, rotate_active_key first db now s a e until)).
Proof.
  intros He <-. split; [|done]. intros db x db' Hdb E. apply map_err_Ok in E.
  unfold KeyQueries_rotate_active_key in E. destruct first.
  - case_match; [done|]. apply result_bind_Ok in E as (db1 & E & [= <- <-]).
    eapply upsert_paired; [| |exact E]; [by apply update_where_paired|exact He].
  - apply result_bind_Ok in E as (db1 & E & [= <- <-]). apply update_where_paired; [done|].
    eapply upsert_paired; [exact Hdb| |exact E]. exact He.
Qed.

Lemma updates_paired_status id st :
  updates_keep (Forall row_paired)
    (update (λ db, let? db := update_key_status db id st None in Ok ((), db))).
Proof.
  split; [|done]. intros db x db' Hdb E. apply result_bind_Ok in E as (db1 & E & [= <- <-]).
  apply map_err_Ok in E. unfold KeyQueries_update_key_status in E. case_match; [done|].
  injection E as <-. by apply update_where_paired.
Qed.

Lemma updates_paired_deactivate s a :
  updates_keep (Forall row_paired) (update (λ db, Ok ((), deactivate_keys_for_service db s a))).
Proof. split; [|done]. intros db x db' Hdb [= <- <-]. by apply update_where_paired. Qed.

End statements.

End pairs.

#[export] Hint Resolve updates_paired_save updates_paired_rotate updates_paired_status
  updates_paired_deactivate : table.

(** ** Signatures verify *)

Definition not_rewrap (req : KeyRequest) : Prop :=
  match req with ReqRewrap _ _ _ _ => False | _ => True end.

Section signatures.
  Context `{Json} `{UuidFmt} `{Hcrypto : KmsCryptoService} `{SqlDisplay} `{DebugTime}
    `{Horder : KeyOrder} `{!KeyOrderLaws Horder} `{Hsign : Ed25519Sign}.
  Context `{Hdalek : DalekKeys} `{Hlib : Ed25519Lib}.
  Context `{!KmsCryptoLaws Hcrypto} `{!KeyPairLaws Hcrypto} `{!DalekLaws Hdalek Hlib Hsign}.
  Context {A : Type} `{AuditRepository A}.
  Implicit Types (env : Env) (ctx : RequestContext) (acl : CompiledAcl).

Lemma generate_paired acl env ctx input :
  updates_keep (Forall row_paired) (generate_program acl env ctx input).
Proof.
  unfold generate_program. destruct (negb _); [solve_updates|].
  apply updates_keep_bind; [done|intros o].
  apply updates_keep_bind; [destruct o; solve_updates|intros v].
  destruct (generate_for _ env (gi_algorithm input)) as [raw|e] eqn:Hg; [|done]. cbn [kbind].
  destruct (encrypt_private_key _ _) as [enc|e] eqn:He; [|done]. cbn [kbind].
  apply updates_keep_bind; [|intros; solve_updates]. apply updates_paired_save.
  by eapply generated_entity_paired.
Qed.

Lemma rotate_paired first grace acl env ctx input :
  updates_keep (Forall row_paired) (rotate_program first grace acl env ctx input).
Proof.
  unfold rotate_program. destruct (negb _); [solve_updates|].
  apply updates_keep_bind; [done|intros o].
  apply updates_keep_bind; [by destruct o|intros k].
  destruct (generate_for _ env (ri_algorithm input)) as [raw|e] eqn:Hg; [|done]. cbn [kbind].
  destruct (encrypt_private_key _ _) as [enc|e] eqn:He; [|done]. cbn [kbind].
  apply updates_keep_bind; [|intros; solve_updates]. apply updates_paired_rotate; [|done].
  by eapply generated_entity_paired.
Qed.

Lemma bootstrap_paired envs values :
  updates_keep (Forall row_paired) (bootstrap_program envs values).
Proof.
  unfold bootstrap_program. apply updates_keep_bind; [done|intros es].
  generalize (key_map_of es) as m. generalize (values ≫= allowed_access) as rules.
  intros rules. revert envs. induction rules as [|rule rules IH]; intros envs m;
    cbn [bootstrap_rules_program]; [done|].
  apply updates_keep_bind; [|intros; apply IH]. unfold bootstrap_rule_program.
  apply updates_keep_bind; [|intros [k m']; solve_updates]. destruct (m !! _); [done|].
  apply updates_keep_bind; [|done]. unfold bootstrap_generate_program.
  destruct (generate_for _ _ _) as [raw|e] eqn:Hg; [|done]. cbn [kbind].
  destruct (encrypt_private_key _ _) as [enc|e] eqn:He; [|done]. cbn [kbind].
  apply updates_keep_bind; [|done]. apply updates_paired_save. by eapply generated_entity_paired.
Qed.

Lemma program_paired grace acl req :
  not_rewrap req → updates_keep (Forall row_paired) (program grace acl req).
Proof.
  intros Hreq. destruct req; cbn [program]; unfold kmap; (apply updates_keep_bind; [|done]).
  - apply generate_paired.
  - apply rotate_paired.
  - unfold get_private_key_program, get_key_program. solve_updates.
  - unfold get_symmetric_key_program, get_key_program. solve_updates.
  - unfold get_public_key_program. solve_updates.
  - unfold sign_data_program, signing_bytes_program, signing_key_program. solve_updates.
  - unfold process_expirations_program. apply updates_keep_bind; [done|].
    induction x as [|e es IH]; cbn [expire_program]; solve_updates.
  - unfold cache_cleanup_program. apply updates_keep_bind; [done|].
    induction x as [|[s a] entries IH]; cbn [cleanup_program]; [done|].
    apply updates_keep_bind; [|done]. by intros [[]|].
  - done.
  - apply bootstrap_paired.
Qed.

(** Every row the table has held, too. *)
Lemma seen_paired grace acl (w : World A) s :
  Forall row_paired (w_keys w) → sys_reachable_if not_rewrap (program grace acl) w s →
  sys_keep (Forall row_paired) s ∧ Forall row_paired (sy_seen s).
Proof.
  intros Hw R. assert (sys_keep (Forall row_paired) (system_start w) ∧
    Forall row_paired (sy_seen (system_start w))) as W0
    by (split; [split; [done|apply map_Forall_empty]|done]).
  unfold sys_reachable_if in R. revert W0. induction R as [s|s1 s2 s3 [St Hall] _ IH]; [done|].
  intros [Hk Hs]. apply IH. assert (sys_keep (Forall row_paired) s2) as Hk2.
  { eapply sys_step_keep; [|exact St|exact Hk]. intros i t Hi.
    apply program_paired. by apply (Hall i). }
  split; [done|]. destruct Hk2 as [Hw2 _].
  destruct St; cbn [sys_advance sy_seen sy_world] in *; try done; by apply Forall_app.
Qed.

(** C6: signatures verify.  While no rewrap runs, whatever else runs side by
    side, a signature the service answers is one over the payload of the
    request that verifies, with the service's own PEM parser, under the public
    key of a row the table has held for the service and the algorithm. *)
Theorem signatures_verify grace acl (w : World A) s env ctx input out :
  cache_ok (w_keys w) (w_cache w) → Forall row_paired (w_keys w) →
  sys_reachable_if not_rewrap (program grace acl) w s →
  (ReqSign env ctx input, Ok (SignAnswer out)) ∈ sy_log s →
  ∃ r vk, r ∈ sy_seen s ∧ kr_service_id r = si_target_service input ∧
    kr_algorithm r = "Ed25519"%string ∧
    parse_ed25519_pub_from_pem (kr_public_key_pem r) = Some vk ∧
    vk_verify_strict vk (si_payload input) (so_signature_bytes out) = true.
Proof.
  intros Hc Hp R Hin. destruct (seen_paired grace acl w s Hp R) as [_ Hseen].
  assert (sys_honest acl s) as (_ & _ & _ & Hl).
  { apply (sys_reachable_honest grace acl w); [done|]. by eapply sys_step_of_if. }
  rewrite Forall_forall in Hl. specialize (Hl _ Hin _ eq_refl).
  destruct Hl as (out' & [= <-] & _ & _ & _ & _ & v & p & (r & ev & Hr & Hs & Ha & _ & Hd) & _ & ->).
  rewrite Forall_forall in Hseen. destruct (Hseen r Hr Ha) as (seed & Hdec & Hlen & Hpem).
  rewrite Hdec in Hd. injection Hd as <-. rewrite take_ge by lia.
  destruct (signature_verifies seed (si_payload input) Hlen) as (vk & Hvk & Hver).
  exists r, vk. split_and!; [done..| |done]. by rewrite (parse_public_key_pem seed).
Qed.

End signatures.

(** ** A rewrap that overlaps a generation *)

Section rewrap_race.
  Context `{Json} `{UuidFmt} `{Hcrypto : KmsCryptoService} `{!KmsCryptoLaws Hcrypto} `{SqlDisplay}
    `{DebugTime} `{KeyOrder} `{Ed25519Sign}.
  Context {A : Type} `{AuditRepository A}.
  Implicit Types (env : Env) (ctx : RequestContext) (acl : CompiledAcl) (w : World A).

(** The rewrap has read its batch and re-encrypted it, but not written it. *)
Lemma rewrap_reads grace acl rounds ents v n e es ups w :
  current_master_key_version = Ok v → get_keys_needing_rewrap (w_keys w) v n = Ok (e :: es) →
  rewrap_batch (ents rounds) v (e :: es) = Ok ups →
  ∃ k, kstep (program grace acl (ReqRewrap (S rounds) ents v n)) w =
    Some (Update (λ db, Ok (update_encrypted_keys_batch db ups)) k, w).
Proof.
  intros Hv Hes Hups. eexists. cbn [program]. unfold kmap, rewrap_program.
  rewrite Hv. cbn [kbind]. rewrite Z.eqb_refl. cbn [negb rewrap_loop_program].
  unfold rewrap_round_program. cbn [kbind query kstep]. rewrite Hes. cbn [kbind]. rewrite Hups.
  reflexivity.
Qed.

(** A row a batch writes decrypts to what every update of it decrypts to. *)
Lemma update_batch_row ups x : ∀ db r,
  r ∈ db → (∀ u, u ∈ ups → u.1 = kr_id r → decrypt_private_key (MkEncryptedPrivateKey u.2 0) = x) →
  (∃ u, u ∈ ups ∧ u.1 = kr_id r) ∨ row_plain r = x →
  ∃ d, set_encrypted d r ∈ (KeyQueries_update_encrypted_keys_batch db ups).2 ∧
    decrypt_private_key (MkEncryptedPrivateKey d 0) = x.
Proof.
  unfold KeyQueries_update_encrypted_keys_batch. cbn [snd].
  induction ups as [|[id d0] ups IH]; intros db r Hr Hu Hx; cbn [foldl].
  - destruct Hx as [(u & []%elem_of_nil & _)|Hx]. exists (kr_encrypted_key_data r).
    split; [by destruct r|done].
  - destruct (decide (id = kr_id r)) as [->|Hne].
    + destruct (IH (KeyQueries_update_encrypted_key db (kr_id r) d0) (set_encrypted d0 r))
        as (d & Hd & Hdec).
      * apply elem_of_update_where. exists r. split; [done|]. by rewrite Z.eqb_refl.
      * intros u Hin. apply Hu. by right.
      * right. apply (Hu (kr_id r, d0)); [left|done].
      * exists d. by split.
    + apply IH.
      * apply elem_of_update_where_other; [done|]. by apply Z.eqb_neq.
      * intros u Hin. apply Hu. by right.
      * destruct Hx as [(u & [->|Hin]%elem_of_cons & Hid)|Hx]; [done| |by right]. left. eauto.
Qed.

Lemma rewrap_batch_ids ents v es ups e :
  rewrap_batch ents v es = Ok ups → e ∈ es →
  ∃ u, u ∈ ((λ '(id, enc, _), (id, ciphertext enc)) <$> ups) ∧ u.1 = ke_id e.
Proof.
  revert ups. induction es as [|e0 es IH]; intros ups E He; [by apply elem_of_nil in He|].
  cbn [rewrap_batch] in E. apply result_bind_Ok in E as (p & Hp & E).
  apply result_bind_Ok in E as (enc & Henc & E). apply result_bind_Ok in E as (rest & Hr & [= <-]).
  cbn [fmap list_fmap]. apply elem_of_cons in He as [->|He].
  - eexists. split; [left|done].
  - destruct (IH rest Hr He) as (u & Hu & Hid). exists u. split; [by right|done].
Qed.

(** C38: a rewrap that overlaps a generation splits a key pair.  A rewrap
    writes what it has read and re-encrypted by the id of the row alone.  When
    a service without an active key generates one in between, which takes the
    row of its retired first key, the table ends with the public key that was
    answered and the private key of the retired pair, under which the service
    signs from then on: the generated private key is gone.  The keys of the
    table are at most [SECRET_MAX] bytes long. *)
Theorem rewrap_splits_pair grace acl env ctx gen w raw enc r k (rounds : nat)
    (ents : nat → nat → Entropy) v n e0 es ups :
  let s := gi_service_id gen in
  let a := KeyAlgorithm_debug (gi_algorithm gen) in
  audit_total (A := A) → table_wf (w_keys w) → keys_fit (w_keys w) → may_generate acl (gi_caller_service gen) = true →
  KeyQueries_get_active_key (w_keys w) s a = None →
  generate_for unsupported env (gi_algorithm gen) = Ok raw →
  encrypt_private_key (env_encrypt env) (rk_private_key_bytes raw) = Ok enc →
  r ∈ w_keys w → same_version s a 1 r = true → map_key_row r = Ok k → k ∈ e0 :: es →
  current_master_key_version = Ok v → get_keys_needing_rewrap (w_keys w) v n = Ok (e0 :: es) →
  rewrap_batch (ents rounds) v (e0 :: es) = Ok ups →
  ∃ sys new r', sys_reachable (program grace acl) w sys ∧
    fst <$> sy_tasks sys !! 0%nat = Some (ReqRewrap (S rounds) ents v n) ∧
    (ReqGenerate env ctx gen, Ok (EntityAnswer new)) ∈ sy_log sys ∧
    KeyQueries_get_active_key (w_keys (sy_world sys)) s a = Some r' ∧
    kr_public_key_pem r' = rk_public_key_pem raw ∧ row_plain r' = row_plain r.
Proof.
  intros s a T W Hfit M Hn Hg He Hr Hv Hk Hin Hcur Hes Hups.
  destruct (generate_first acl env ctx gen w raw enc r T W M Hn Hg He Hr Hv)
    as (new & w1 & r1 & Egen & _ & W1 & Hr1 & Hid & Hv1 & _ & Hpem & Hact).
  destruct (rewrap_reads grace acl rounds ents v n e0 es ups w Hcur Hes Hups) as [kont Ek].
  set (req := ReqRewrap (S rounds) ents v n) in *.
  destruct (sys_request_pauses (program grace acl) req _ w Ek) as (s2 & R0 & Ew & E0 & E1 & El).
  destruct (sys_request_alone (program grace acl) 1 (ReqGenerate env ctx gen) s2 E1) as (seen & R & _).
  cbn [program] in R. rewrite (kmap_runs EntityAnswer _ (generate_key_pair acl env ctx gen)) in R
    by apply generate_runs.
  unfold svc_bind, svc_ret in R. rewrite Ew, Egen in R.
  cbn [fst snd] in R. match type of R with rtc _ _ ?s => set (s3 := s) in R end.
  destruct (rewrap_batch_good (ents rounds) v (w_keys w) (e0 :: es) ups W Hfit) as [Hgood _];
    [by intros; eapply pending_rows|done|].
  pose proof (map_key_row_fields r k Hk) as (Hkid & _).
  destruct (update_batch_row ((λ '(id, enc, _), (id, ciphertext enc)) <$> ups) (row_plain r)
    (w_keys w1) r1 Hr1) as (d & Hd & Hdec).
  { intros u Hu Eu. rewrite Forall_forall in Hgood. apply (Hgood u Hu r Hr). congruence. }
  { left. destruct (rewrap_batch_ids _ _ _ _ k Hups Hin) as (u & Hu & Eu).
    exists u. split; [done|congruence]. }
  exists (sys_advance 0 req (kont (Ok (length ((λ '(id, enc, _), (id, ciphertext enc)) <$> ups))))
    (MkWorld (update_encrypted_keys_batch (w_keys w1) ups).2 (w_cache w1) (w_audit w1)) s3), new,
    (set_encrypted d r1).
  split_and!.
  - unfold sys_reachable. etransitivity; [exact R0|]. eapply rtc_r; [exact R|].
    by eapply (sys_call _ 0 req); [exact E0|].
  - cbn [sys_advance sy_tasks]. by rewrite lookup_insert_eq.
  - left.
  - apply get_active_key_Some; [by apply update_encrypted_batch_wf|]. split; [exact Hd|].
    apply same_version_true in Hv1 as (Hs1 & Ha1 & _). apply is_active_for_true. by split_and!.
  - done.
  - exact Hdec.
Qed.

End rewrap_race.

(** ** Concrete pairs *)

Section PairWitnesses.
  Import Concrete ConcreteAudit ConcreteKeys.

(** Keys whose public key is the private one, in hexadecimal PEM text. *)
#[local] Instance open_keys : DalekKeys := {
  verifying_key_bytes seed := seed;
  to_public_key_pem pk :=
    if decide (pk = []) then Err "empty"%string else
    Ok ("-----BEGIN PUBLIC KEY-----" +s+ newline +s+ hex_of pk +s+ newline
        +s+ "-----END PUBLIC KEY-----" +s+ newline);
  static_secret_bytes bytes := bytes;
  x25519_public_bytes bytes := bytes;
  pem_encode tag bytes := tag +s+ hex_of bytes }.

#[local] Instance open_lib : Ed25519Lib := {
  verifying_key := list byte;
  base64_decode t := match hex_to t with Ok bs => Some bs | Err _ => None end;
  vk_from_bytes bytes := Some bytes;
  vk_verify_strict vk m sig := bool_decide (sig = vk ++ m) }.

#[local] Existing Instances list_audit concat_sign.

Lemma hex_of_chars l c :
  c ∈ chars (hex_of l) → c ≠ Ascii.ascii_of_nat 10 ∧ c ≠ Ascii.ascii_of_nat 13 ∧ c ≠ "-"%char.
Proof.
  induction l as [|b l IH]; [by intros ?%elem_of_nil|].
  intros [->|[->|Hc]%elem_of_cons]%elem_of_cons; [by destruct b..|by apply IH].
Qed.

#[local] Instance open_keys_laws : DalekLaws open_keys open_lib concat_sign.
Proof.
  split; [done| |].
  - intros pk pem Hlen E. cbn [to_public_key_pem open_keys] in E. case_decide; [done|].
    injection E as <-. exists (hex_of pk), []. split_and!; [|by destruct pk|apply hex_of_chars|done].
    cbn [base64_decode open_lib]. by rewrite (hex_decode_encode (H := lower_hex)).
  - intros seed m _. exists seed. split; [done|]. by apply bool_decide_eq_true.
Qed.

#[local] Instance pair_crypto : KmsCryptoService :=
  DalekCryptoService (daemon_transport open_state 0) ent0.
#[local] Instance pair_crypto_laws : KmsCryptoLaws pair_crypto.
Proof.
  apply VhsmCryptoService_laws; [apply _|intros ent raw E..].
  - destruct (generated_pair (C := DalekCryptoService (daemon_transport open_state 0) ent0) ent raw E)
      as [Hl _]. unfold blen, SECRET_MAX. lia.
  - unfold VhsmCryptoService_generate_x25519_keypair, fill_bytes in E.
    destruct (ent 0 32%nat) as [bytes|] eqn:Hd; [|done]. cbn in E. injection E as <-.
    apply draw_length in Hd. unfold blen, SECRET_MAX. cbn. lia.
Qed.
#[local] Instance pair_crypto_pairs : KeyPairLaws pair_crypto.
Proof. apply DalekCryptoService_pairs. Qed.

Definition pair_requests : list KeyRequest :=
  [ ReqGenerate (good_env 1) demo_ctx demo_generate;
    ReqRotate true (good_env 2) demo_ctx demo_rotate;
    ReqSign (good_env 3) demo_ctx (MkSignDataInput "svc" "svc" Ed25519 [byte_of_Z 9] None) ].

(** The requests one after the other. *)
Fixpoint run_requests (reqs : list KeyRequest) (w : World (list AuditLog)) :
    list (result Answer AppError) :=
  match reqs with
  | [] => []
  | req :: reqs => let (r, w) := krun (program 60 demo_compiled req) w in r :: run_requests reqs w
  end.

Lemma requests_run reqs : ∀ s,
  sy_tasks s = ∅ → Forall not_rewrap reqs →
  ∃ s', rtc (sys_step_if not_rewrap (program 60 demo_compiled)) s s' ∧
    sy_log s' = reverse (zip reqs (run_requests reqs (sy_world s))) ++ sy_log s.
Proof.
  induction reqs as [|req reqs IH]; intros s Hs Hall; [by exists s|].
  apply Forall_cons in Hall as [Hreq Hall].
  destruct (sys_request_alone_if (program 60 demo_compiled) not_rewrap 0 req s)
    as (seen & R & _); [by rewrite Hs|done|rewrite Hs; apply map_Forall_empty|].
  cbn [run_requests]. destruct (krun (program 60 demo_compiled req) (sy_world s)) as [r w] eqn:E.
  cbn [fst snd] in R. destruct (IH (MkSystem w seen (sy_tasks s) ((req, r) :: sy_log s)) Hs Hall)
    as (s' & R' & L').
  exists s'. split; [by etransitivity|]. rewrite L'. cbn [sy_world sy_log zip zip_with].
  by rewrite reverse_cons, <- app_assoc.
Qed.

Definition pair_input : SignDataInput := MkSignDataInput "svc" "svc" Ed25519 [byte_of_Z 9] None.
Definition pair_out : SignDataOutput :=
  MkSignDataOutput "svc" Ed25519 2 (demo_secret 2 ++ [byte_of_Z 9]).

Lemma pair_signed : run_requests pair_requests demo_empty !! 2%nat = Some (Ok (SignAnswer pair_out)).
Proof. vm_compute. reflexivity. Qed.

Lemma signatures_verify_witness :
  ∃ s r vk, sys_reachable_if not_rewrap (program 60 demo_compiled) demo_empty s ∧
    (ReqSign (good_env 3) demo_ctx pair_input, Ok (SignAnswer pair_out)) ∈ sy_log s ∧
    r ∈ sy_seen s ∧ parse_ed25519_pub_from_pem (kr_public_key_pem r) = Some vk ∧
    vk_verify_strict vk [byte_of_Z 9] (so_signature_bytes pair_out) = true.
Proof.
  destruct (requests_run pair_requests (system_start demo_empty)) as (s & R & L);
    [done|repeat constructor|].
  assert ((ReqSign (good_env 3) demo_ctx pair_input, Ok (SignAnswer pair_out)) ∈ sy_log s) as Hin.
  { rewrite L, elem_of_app, elem_of_reverse. left. apply (list_elem_of_lookup_2 _ 2).
    apply lookup_zip_with_Some. eexists _, _.
    split; [reflexivity|]. split; [reflexivity|exact pair_signed]. }
  destruct (signatures_verify 60 demo_compiled demo_empty s (good_env 3) demo_ctx pair_input pair_out)
    as (r & vk & Hr & _ & _ & Hp & Hv); [by intros ???|constructor|exact R|exact Hin|].
  exists s, r, vk. exact (conj R (conj Hin (conj Hr (conj Hp Hv)))).
Defined.

(** The table after a first key was generated and revoked. *)
Definition pair_revoked : World (list AuditLog) :=
  MkWorld (set_status "Revoked" false <$>
    w_keys (generate_key_pair demo_compiled (good_env 1) demo_ctx demo_generate demo_empty).2) ∅ [].
Definition pair_row : KeyDbRow := hd demo_row (w_keys pair_revoked).
Definition pair_retired : KeyPairEntity :=
  match map_key_row pair_row with Ok e => e | Err _ => demo_entity 0 0 end.
Definition pair_raw : RawKeyPair :=
  match generate_for unsupported (good_env 2) Ed25519 with
  | Ok raw => raw | Err _ => MkRawKeyPair "pem" []
  end.
Definition pair_ents : nat → nat → Entropy := λ _ _, entropy_count.
Definition pair_ups : list (Z * EncryptedPrivateKey * Z) :=
  match rewrap_batch (pair_ents 0) 1 [pair_retired] with Ok ups => ups | Err _ => [] end.

Lemma pair_revoked_keys : w_keys pair_revoked = [pair_row].
Proof. vm_compute. reflexivity. Qed.

Lemma pair_revoked_wf : table_wf (w_keys pair_revoked).
Proof.
  rewrite pair_revoked_keys. split.
  - constructor; [vm_compute; reflexivity|constructor].
  - intros i j r r' Hi Hj Hij. apply list_lookup_singleton_Some in Hi as [-> _], Hj as [-> _]. done.
Qed.

Lemma pair_revoked_fits : keys_fit (w_keys pair_revoked).
Proof.
  rewrite pair_revoked_keys. intros r p ->%list_elem_of_singleton E.
  vm_compute in E. injection E as <-. by vm_compute.
Qed.

Lemma rewrap_splits_pair_witness :
  ∃ sys r', sys_reachable (program 60 demo_compiled) pair_revoked sys ∧
    KeyQueries_get_active_key (w_keys (sy_world sys)) "svc" "Ed25519" = Some r' ∧
    to_public_key_pem (verifying_key_bytes (demo_secret 2)) = Ok (kr_public_key_pem r') ∧
    row_plain r' = Ok (demo_secret 1).
Proof.
  destruct (rewrap_splits_pair 60 demo_compiled (good_env 2) demo_ctx demo_generate pair_revoked
    pair_raw (demo_cipher 2) pair_row pair_retired 0 pair_ents 1 10 pair_retired [] pair_ups)
    as (sys & new & r' & R & _ & _ & Hr & Hpem & Hplain).
  - exact list_audit_total.
  - exact pair_revoked_wf.
  - exact pair_revoked_fits.
  - vm_compute. reflexivity.
  - vm_compute. reflexivity.
  - vm_compute. reflexivity.
  - vm_compute. reflexivity.
  - rewrite pair_revoked_keys. left.
  - vm_compute. reflexivity.
  - vm_compute. reflexivity.
  - left.
  - vm_compute. reflexivity.
  - vm_compute. reflexivity.
  - vm_compute. reflexivity.
  - exists sys, r'. split; [exact R|]. split; [exact Hr|]. rewrite Hpem, Hplain.
    split; vm_compute; reflexivity.
Defined.

End PairWitnesses.
